(** * MCP-Prototype: the hub (server) and the orchestrator agent

    A shallow embedding of the message hub (agent and tool registries,
    workflow engine, resource permission check) and of the orchestrator
    agent (intent classifier, plan compiler, step executor, request
    correlation, response synthesis, conversation memory), with the
    calculator agent's expression evaluator.

    Conventions of the embedding:
    - JavaScript strings are byte strings; [toLowerCase], the [i] flag and
      the classes [\s], [\w] are modelled on ASCII.
    - JavaScript numbers are finite decimals [JNum m e] = m * 10^(-e); the
      calculator's arithmetic is modelled on its integer fragment.
    - A [Map] that the code iterates is an insertion-ordered association
      list ([JsMap]); a [Map] that is only looked up is a [gmap].
    - [ws.send(JSON.stringify(o))] appends [o] to an outbox. *)

From Stdlib Require Import ZArith String Ascii List Bool Lia.
From stdpp Require Import base option list strings gmap.

Local Open Scope string_scope.
Local Open Scope Z_scope.
#[local] Set Warnings "-register-all".

(** ** Strings *)

Module Str.

Definition dq : string := String (ascii_of_nat 34) "".
Definition nl : string := String (ascii_of_nat 10) "".

Definition is_upper (c : ascii) : bool :=
  let n := nat_of_ascii c in ((65 <=? n) && (n <=? 90))%nat.
Definition is_lower (c : ascii) : bool :=
  let n := nat_of_ascii c in ((97 <=? n) && (n <=? 122))%nat.
Definition lower (c : ascii) : ascii :=
  if is_upper c then ascii_of_nat (nat_of_ascii c + 32) else c.
Definition upper (c : ascii) : ascii :=
  if is_lower c then ascii_of_nat (nat_of_ascii c - 32) else c.
Definition is_digit (c : ascii) : bool :=
  let n := nat_of_ascii c in ((48 <=? n) && (n <=? 57))%nat.
(* \s restricted to ASCII: TAB LF VT FF CR SPACE *)
Definition is_space (c : ascii) : bool :=
  let n := nat_of_ascii c in (((9 <=? n) && (n <=? 13)) || (n =? 32))%nat.
Definition is_word (c : ascii) : bool :=
  is_upper c || is_lower c || is_digit c || (nat_of_ascii c =? 95)%nat.
Definition is_line_terminator (c : ascii) : bool :=
  let n := nat_of_ascii c in ((n =? 10) || (n =? 13))%nat.

Fixpoint map (f : ascii -> ascii) (s : string) : string :=
  match s with
  | EmptyString => EmptyString
  | String c s' => String (f c) (map f s')
  end.

(* String.prototype.toLowerCase *)
Definition toLowerCase (s : string) : string := map lower s.

(* every character is an ASCII character: on such a string the bytes of
   this file are the characters of the code, and [toLowerCase], the
   classes and the dot of a pattern are those of the code *)
Definition ascii_only (s : string) : bool :=
  forallb (fun c => (nat_of_ascii c <? 128)%nat) (list_ascii_of_string s).

Fixpoint drop (n : nat) (s : string) : string :=
  match n, s with
  | O, _ => s
  | S n', String _ s' => drop n' s'
  | S _, EmptyString => EmptyString
  end.

Definition take (n : nat) (s : string) : string := String.substring 0 n s.

Fixpoint dropWhile (p : ascii -> bool) (s : string) : string :=
  match s with
  | String c s' => if p c then dropWhile p s' else s
  | EmptyString => EmptyString
  end.

(* String.prototype.trim *)
Definition trim (s : string) : string :=
  String.rev (dropWhile is_space (String.rev (dropWhile is_space s))).

(* String.prototype.startsWith *)
Definition startsWith (p s : string) : bool := String.prefix p s.

(* String.prototype.indexOf *)
Fixpoint indexOf (needle s : string) : option nat :=
  if String.prefix needle s then Some O
  else match s with
       | EmptyString => None
       | String _ s' => option_map S (indexOf needle s')
       end.

(* String.prototype.includes *)
Definition includes (needle s : string) : bool :=
  match indexOf needle s with Some _ => true | None => false end.

(* String.prototype.replace with a string pattern: the first occurrence
   only, wherever it is. *)
Definition replaceFirst (pat rep s : string) : string :=
  match indexOf pat s with
  | Some i => take i s +:+ rep +:+ drop (i + String.length pat) s
  | None => s
  end.

Fixpoint join (sep : string) (l : list string) : string :=
  match l with
  | [] => ""
  | [x] => x
  | x :: l' => x +:+ sep +:+ join sep l'
  end.

(* String.prototype.split with a one-character separator *)
Fixpoint split_go (sep : ascii) (cur : string) (s : string) : list string :=
  match s with
  | EmptyString => [String.rev cur]
  | String c s' =>
      if Ascii.eqb c sep then String.rev cur :: split_go sep "" s'
      else split_go sep (String c cur) s'
  end.
Definition split (sep : ascii) (s : string) : list string := split_go sep "" s.

(* Number.prototype.toString of an integer *)
Fixpoint of_N_go (fuel : nat) (n : N) (acc : string) : string :=
  match fuel with
  | O => acc
  | S f =>
      let acc' := String (ascii_of_N (48 + n mod 10)) acc in
      if (n <? 10)%N then acc' else of_N_go f (n / 10)%N acc'
  end.
Definition of_N (n : N) : string := of_N_go (S (N.to_nat (N.log2 n))) n "".
Definition of_nat (n : nat) : string := of_N (N.of_nat n).
Definition of_Z (z : Z) : string :=
  match z with
  | Zneg p => String "-" (of_N (Npos p))
  | _ => of_N (Z.to_N z)
  end.

End Str.

(** ** Regular expressions

    The backtracking matcher of JavaScript for the operators the source
    uses: literals, [.], classes, [^] and [$], sequence, alternation,
    greedy and lazy [*] [+] [?], capturing and non-capturing groups, and
    the [i] flag. Patterns are kept as their source text and parsed. *)

Module Regex.

Inductive cls := ClsSpace | ClsDigit | ClsWord.

Inductive item :=
| IChar (c : ascii)
| IRange (lo hi : ascii)
| ICls (k : cls).

Inductive regex :=
| RChar (c : ascii)
| RAny
| RSet (neg : bool) (items : list item)
| RBol
| REol
| REmpty
| RFail
| RSeq (r1 r2 : regex)
| RAlt (r1 r2 : regex)
| RStar (greedy : bool) (r : regex)
| RGroup (i : nat) (r : regex).

Definition cls_mem (k : cls) (c : ascii) : bool :=
  match k with
  | ClsSpace => Str.is_space c
  | ClsDigit => Str.is_digit c
  | ClsWord => Str.is_word c
  end.

Definition item_mem (it : item) (c : ascii) : bool :=
  match it with
  | IChar a => Ascii.eqb a c
  | IRange lo hi =>
      ((nat_of_ascii lo <=? nat_of_ascii c) && (nat_of_ascii c <=? nat_of_ascii hi))%nat
  | ICls k => cls_mem k c
  end.

(* with the i flag a character matches when one of its case variants does *)
Definition item_mem_ci (ci : bool) (it : item) (c : ascii) : bool :=
  if ci then item_mem it c || item_mem it (Str.lower c) || item_mem it (Str.upper c)
  else item_mem it c.

Definition chr_eq (ci : bool) (a b : ascii) : bool :=
  if ci then Ascii.eqb (Str.upper a) (Str.upper b) else Ascii.eqb a b.

Definition caps := list (nat * string).
Definition kont := nat -> string -> caps -> option (nat * caps).

(* [rmatch ci r pos s c k]: match [r] at offset [pos], where [s] is the rest
   of the input, then continue with [k]; [None] is backtracking. *)
Fixpoint rmatch (ci : bool) (r : regex) (pos : nat) (s : string) (c : caps)
    (k : kont) {struct r} : option (nat * caps) :=
  match r with
  | RChar a =>
      match s with
      | String b s' => if chr_eq ci a b then k (S pos) s' c else None
      | EmptyString => None
      end
  | RAny =>
      match s with
      | String b s' => if Str.is_line_terminator b then None else k (S pos) s' c
      | EmptyString => None
      end
  | RSet neg items =>
      match s with
      | String b s' =>
          if xorb neg (existsb (fun it => item_mem_ci ci it b) items)
          then k (S pos) s' c else None
      | EmptyString => None
      end
  | RBol => if (pos =? 0)%nat then k pos s c else None
  | REol => match s with EmptyString => k pos s c | _ => None end
  | REmpty => k pos s c
  | RFail => None
  | RSeq r1 r2 => rmatch ci r1 pos s c (fun p' s' c' => rmatch ci r2 p' s' c' k)
  | RAlt r1 r2 =>
      match rmatch ci r1 pos s c k with
      | Some x => Some x
      | None => rmatch ci r2 pos s c k
      end
  | RStar g r1 =>
      (fix loop (fuel : nat) (pos : nat) (s : string) (c : caps) {struct fuel} :=
         match fuel with
         | O => k pos s c
         | S f =>
             let more (_ : unit) :=
               rmatch ci r1 pos s c
                 (fun p' s' c' => if (pos <? p')%nat then loop f p' s' c' else None) in
             if g then
               match more tt with Some x => Some x | None => k pos s c end
             else
               match k pos s c with Some x => Some x | None => more tt end
         end) (S (String.length s)) pos s c
  | RGroup i r1 =>
      rmatch ci r1 pos s c
        (fun p' s' c' => k p' s' ((i, Str.take (p' - pos) s) :: c'))
  end.

(* leftmost match: try every start offset in turn *)
Fixpoint search (ci : bool) (r : regex) (pos : nat) (s : string)
    : option (nat * nat * caps) :=
  match rmatch ci r pos s [] (fun p' _ c' => Some (p', c')) with
  | Some (e, c) => Some (pos, e, c)
  | None =>
      match s with
      | String _ s' => search ci r (S pos) s'
      | EmptyString => None
      end
  end.

(** *** Parsing pattern text *)

Definition esc_atom (c : ascii) : regex :=
  match c with
  | "s"%char => RSet false [ICls ClsSpace]
  | "S"%char => RSet true [ICls ClsSpace]
  | "d"%char => RSet false [ICls ClsDigit]
  | "w"%char => RSet false [ICls ClsWord]
  | "n"%char => RChar (ascii_of_nat 10)
  | "t"%char => RChar (ascii_of_nat 9)
  | "r"%char => RChar (ascii_of_nat 13)
  | _ => RChar c
  end.

Definition esc_item (c : ascii) : item :=
  match c with
  | "s"%char => ICls ClsSpace
  | "d"%char => ICls ClsDigit
  | "w"%char => ICls ClsWord
  | "n"%char => IChar (ascii_of_nat 10)
  | "t"%char => IChar (ascii_of_nat 9)
  | "r"%char => IChar (ascii_of_nat 13)
  | _ => IChar c
  end.

(* the items of a class up to its closing bracket *)
Fixpoint pItems (s : string) : option (list item * string) :=
  match s with
  | EmptyString => None
  | String "]" s' => Some ([], s')
  | String "\" (String c s') =>
      match pItems s' with
      | Some (l, rest) => Some (esc_item c :: l, rest)
      | None => None
      end
  | String lo (String "-" (String hi s' as tl)) =>
      if Ascii.eqb hi "]" then
        match pItems tl with
        | Some (l, rest) => Some (IChar lo :: IChar "-" :: l, rest)
        | None => None
        end
      else
        match pItems s' with
        | Some (l, rest) => Some (IRange lo hi :: l, rest)
        | None => None
        end
  | String c s' =>
      match pItems s' with
      | Some (l, rest) => Some (IChar c :: l, rest)
      | None => None
      end
  end.

(* a quantifier after an atom; a second [?] makes it lazy *)
Definition pQuant (a : regex) (s : string) : regex * string :=
  match s with
  | String "*" (String "?" s') => (RStar false a, s')
  | String "*" s' => (RStar true a, s')
  | String "+" (String "?" s') => (RSeq a (RStar false a), s')
  | String "+" s' => (RSeq a (RStar true a), s')
  | String "?" (String "?" s') => (RAlt REmpty a, s')
  | String "?" s' => (RAlt a REmpty, s')
  | _ => (a, s)
  end.

(* [gi] is the number of the next capturing group *)
Fixpoint pAlt (fuel : nat) (s : string) (gi : nat) : option (regex * string * nat) :=
  match fuel with
  | O => None
  | S f =>
      match pSeq f s gi with
      | Some (r1, String "|" s', gi') =>
          match pAlt f s' gi' with
          | Some (r2, s'', gi'') => Some (RAlt r1 r2, s'', gi'')
          | None => None
          end
      | other => other
      end
  end
with pSeq (fuel : nat) (s : string) (gi : nat) : option (regex * string * nat) :=
  match fuel with
  | O => None
  | S f =>
      match s with
      | EmptyString => Some (REmpty, s, gi)
      | String "|" _ => Some (REmpty, s, gi)
      | String ")" _ => Some (REmpty, s, gi)
      | _ =>
          match pAtom f s gi with
          | Some (a, s1, gi1) =>
              let '(a', s2) := pQuant a s1 in
              match pSeq f s2 gi1 with
              | Some (REmpty, s3, gi2) => Some (a', s3, gi2)
              | Some (r, s3, gi2) => Some (RSeq a' r, s3, gi2)
              | None => None
              end
          | None => None
          end
      end
  end
with pAtom (fuel : nat) (s : string) (gi : nat) : option (regex * string * nat) :=
  match fuel with
  | O => None
  | S f =>
      match s with
      | String "(" (String "?" (String ":" s')) =>
          match pAlt f s' gi with
          | Some (r, String ")" s'', gi') => Some (r, s'', gi')
          | _ => None
          end
      | String "(" s' =>
          match pAlt f s' (S gi) with
          | Some (r, String ")" s'', gi') => Some (RGroup gi r, s'', gi')
          | _ => None
          end
      | String "[" (String "^" s') =>
          match pItems s' with
          | Some (l, rest) => Some (RSet true l, rest, gi)
          | None => None
          end
      | String "[" s' =>
          match pItems s' with
          | Some (l, rest) => Some (RSet false l, rest, gi)
          | None => None
          end
      | String "\" (String c s') => Some (esc_atom c, s', gi)
      | String "." s' => Some (RAny, s', gi)
      | String "^" s' => Some (RBol, s', gi)
      | String "$" s' => Some (REol, s', gi)
      | String c s' => Some (RChar c, s', gi)
      | EmptyString => None
      end
  end.

Definition parse (src : string) : option regex :=
  match pAlt (3 * String.length src + 3) src 1 with
  | Some (r, EmptyString, _) => Some r
  | _ => None
  end.

(** *** The RegExp object and the String methods that take one *)

Record RegExp := mkRegExp { source : string; ignoreCase : bool }.

(* /src/ and /src/i *)
Definition re (src : string) : RegExp := mkRegExp src false.
Definition rei (src : string) : RegExp := mkRegExp src true.

Definition compiled (x : RegExp) : regex :=
  match parse (source x) with Some r => r | None => RFail end.

Record MatchResult := mkMatch { m_index : nat; m_end : nat; m_caps : caps }.

(* RegExp.prototype.exec without the g flag *)
Definition exec (x : RegExp) (s : string) : option MatchResult :=
  match search (ignoreCase x) (compiled x) 0 s with
  | Some (b, e, c) => Some (mkMatch b e c)
  | None => None
  end.

(* RegExp.prototype.test *)
Definition test (x : RegExp) (s : string) : bool :=
  match exec x s with Some _ => true | None => false end.

Fixpoint cap_lookup (i : nat) (c : caps) : option string :=
  match c with
  | [] => None
  | (j, v) :: c' => if (i =? j)%nat then Some v else cap_lookup i c'
  end.

(* m[i]: [None] is undefined, a group that took no part in the match *)
Definition group (m : MatchResult) (i : nat) : option string :=
  cap_lookup i (m_caps m).

(* String.prototype.replace(regexp, '') without the g flag *)
Definition replace_empty (x : RegExp) (s : string) : string :=
  match exec x s with
  | Some m => Str.take (m_index m) s +:+ Str.drop (m_end m) s
  | None => s
  end.

(* String.prototype.replace(/\s/g, ''): every white-space character goes *)
Fixpoint remove_spaces (s : string) : string :=
  match s with
  | EmptyString => EmptyString
  | String c s' => if Str.is_space c then remove_spaces s' else String c (remove_spaces s')
  end.

End Regex.

(** ** JavaScript values *)

Inductive JsValue :=
| JUndefined
| JNull
| JBool (b : bool)
| JNum (m : Z) (e : nat)   (* the number m * 10^(-e) *)
| JStr (s : string)
| JArr (l : list JsValue)
| JObj (fields : list (string * JsValue)).

Module Js.

Definition int (z : Z) : JsValue := JNum z 0.
Definition nat (n : Datatypes.nat) : JsValue := JNum (Z.of_nat n) 0.

(* ToBoolean *)
Definition truthy (v : JsValue) : bool :=
  match v with
  | JUndefined | JNull => false
  | JBool b => b
  | JNum m _ => negb (m =? 0)
  | JStr s => negb (String.eqb s "")
  | JArr _ | JObj _ => true
  end.

Definition is_undefined (v : JsValue) : bool :=
  match v with JUndefined => true | _ => false end.

Definition nullish (v : JsValue) : bool :=
  match v with JUndefined | JNull => true | _ => false end.

Fixpoint assoc (k : string) (fs : list (string * JsValue)) : option JsValue :=
  match fs with
  | [] => None
  | (k', v) :: fs' => if String.eqb k k' then Some v else assoc k fs'
  end.

(* v.k for a v that is neither null nor undefined: own properties of
   objects, the length of strings and arrays *)
Definition prop (v : JsValue) (k : string) : JsValue :=
  match v with
  | JObj fs => match assoc k fs with Some x => x | None => JUndefined end
  | JStr s => if String.eqb k "length" then nat (String.length s) else JUndefined
  | JArr l => if String.eqb k "length" then nat (length l) else JUndefined
  | _ => JUndefined
  end.

(* v?.k *)
Definition oprop (v : JsValue) (k : string) : JsValue :=
  if nullish v then JUndefined else prop v k.

(* a || b *)
Definition or (a b : JsValue) : JsValue := if truthy a then a else b.

(* o.k = x on an object: an existing key keeps its place *)
Fixpoint set_field (k : string) (x : JsValue) (fs : list (string * JsValue))
    : list (string * JsValue) :=
  match fs with
  | [] => [(k, x)]
  | (k', v) :: fs' =>
      if String.eqb k k' then (k, x) :: fs' else (k', v) :: set_field k x fs'
  end.

Definition set_prop (o : JsValue) (k : string) (x : JsValue) : JsValue :=
  match o with
  | JObj fs => JObj (set_field k x fs)
  | _ => o
  end.

(* typeof v === 'object' *)
Definition typeof_object (v : JsValue) : bool :=
  match v with JNull | JArr _ | JObj _ => true | _ => false end.

Definition is_string (v : JsValue) : bool :=
  match v with JStr _ => true | _ => false end.

(* a === 'literal' *)
Definition eq_str (v : JsValue) (s : string) : bool :=
  match v with JStr t => String.eqb t s | _ => false end.

(** Numbers as decimal text *)

Fixpoint zeros (n : Datatypes.nat) : string :=
  match n with O => "" | S n' => "0" +:+ zeros n' end.

Definition num_to_string (m : Z) (e : Datatypes.nat) : string :=
  match e with
  | O => Str.of_Z m
  | _ =>
      let digits := Str.of_Z (Z.abs m) in
      let padded := zeros (S e - String.length digits) +:+ digits in
      let k := (String.length padded - e)%nat in
      (if m <? 0 then "-" else "") +:+ Str.take k padded +:+ "." +:+ Str.drop k padded
  end.

(* ToString, as a template literal applies it *)
Fixpoint to_string (v : JsValue) : string :=
  match v with
  | JUndefined => "undefined"
  | JNull => "null"
  | JBool b => if b then "true" else "false"
  | JNum m e => num_to_string m e
  | JStr s => s
  | JArr l =>
      Str.join ","
        ((fix go (l : list JsValue) : list string :=
            match l with
            | [] => []
            | x :: l' => (if nullish x then "" else to_string x) :: go l'
            end) l)
  | JObj _ => "[object Object]"
  end.

(* Array.prototype.join *)
Definition array_join (sep : string) (l : list JsValue) : string :=
  Str.join sep (List.map (fun x => if nullish x then "" else to_string x) l).

(** JSON.stringify *)

Definition hex_digit (n : Datatypes.nat) : ascii :=
  if (n <? 10)%nat then ascii_of_nat (48 + n) else ascii_of_nat (87 + n).

Definition json_escape_char (c : ascii) : string :=
  let n := nat_of_ascii c in
  if (n =? 34)%nat then "\" +:+ Str.dq
  else if (n =? 92)%nat then "\\"
  else if (n =? 8)%nat then "\b"
  else if (n =? 9)%nat then "\t"
  else if (n =? 10)%nat then "\n"
  else if (n =? 12)%nat then "\f"
  else if (n =? 13)%nat then "\r"
  else if (n <? 32)%nat then
    "\u00" +:+ String (hex_digit (n / 16)) (String (hex_digit (n mod 16)) "")
  else String c "".

Fixpoint json_escape (s : string) : string :=
  match s with
  | EmptyString => ""
  | String c s' => json_escape_char c +:+ json_escape s'
  end.

Definition json_quote (s : string) : string := Str.dq +:+ json_escape s +:+ Str.dq.

(* [gap] is the indentation unit ("" for the compact form), [cur] the
   indentation of the enclosing line; [None] is undefined *)
Fixpoint json (gap cur : string) (v : JsValue) : option string :=
  let inner := cur +:+ gap in
  let wrap (o c : string) (parts : list string) : string :=
    match parts with
    | [] => o +:+ c
    | _ =>
        if String.eqb gap "" then o +:+ Str.join "," parts +:+ c
        else o +:+ Str.nl +:+ inner +:+ Str.join ("," +:+ Str.nl +:+ inner) parts
               +:+ Str.nl +:+ cur +:+ c
    end in
  match v with
  | JUndefined => None
  | JNull => Some "null"
  | JBool b => Some (if b then "true" else "false")
  | JNum m e => Some (num_to_string m e)
  | JStr s => Some (json_quote s)
  | JArr l =>
      Some (wrap "[" "]"
        ((fix go (l : list JsValue) : list string :=
            match l with
            | [] => []
            | x :: l' =>
                match json gap inner x with Some t => t | None => "null" end :: go l'
            end) l))
  | JObj fs =>
      Some (wrap "{" "}"
        ((fix go (fs : list (string * JsValue)) : list string :=
            match fs with
            | [] => []
            | (k, x) :: fs' =>
                match json gap inner x with
                | Some t =>
                    (json_quote k +:+ (if String.eqb gap "" then ":" else ": ") +:+ t)
                      :: go fs'
                | None => go fs'
                end
            end) fs))
  end.

(* JSON.stringify(v) and JSON.stringify(v, null, 2) *)
Definition stringify (v : JsValue) : option string := json "" "" v.
Definition stringify2 (v : JsValue) : option string := json "  " "" v.

(* what the receiver of JSON.stringify(v) parses: properties holding
   undefined are gone, undefined array elements are null *)
Fixpoint wire (v : JsValue) : JsValue :=
  match v with
  | JArr l =>
      JArr ((fix go (l : list JsValue) : list JsValue :=
               match l with
               | [] => []
               | x :: l' => (if is_undefined x then JNull else wire x) :: go l'
               end) l)
  | JObj fs =>
      JObj ((fix go (fs : list (string * JsValue)) : list (string * JsValue) :=
               match fs with
               | [] => []
               | (k, x) :: fs' =>
                   if is_undefined x then go fs' else (k, wire x) :: go fs'
               end) fs)
  | _ => v
  end.

(** parseFloat on the decimal literals the extractors can meet: digits
    with an optional fraction, after leading white space; [None] is NaN *)

Fixpoint digits_val (acc : Z) (s : string) : Z * Datatypes.nat * string :=
  match s with
  | String c s' =>
      if Str.is_digit c then
        let '(v, n, rest) := digits_val (acc * 10 + Z.of_nat (nat_of_ascii c - 48)) s' in
        (v, S n, rest)
      else (acc, O, s)
  | EmptyString => (acc, O, s)
  end.

(* strip the trailing zeros of a fraction *)
Fixpoint normalize (fuel : Datatypes.nat) (m : Z) (e : Datatypes.nat) : Z * Datatypes.nat :=
  match fuel, e with
  | S f, S e' => if (m mod 10 =? 0) then normalize f (m / 10) e' else (m, e)
  | _, _ => (m, e)
  end.

Definition parseFloat (s : string) : option JsValue :=
  let s := Str.dropWhile Str.is_space s in
  let '(ip, n, rest) := digits_val 0 s in
  match rest with
  | String "." rest' =>
      let '(v, k, _) := digits_val ip rest' in
      if ((n =? 0) && (k =? 0))%nat then None
      else let '(m, e) := normalize k v k in Some (JNum m e)
  | _ => if (n =? 0)%nat then None else Some (JNum ip 0)
  end.

(** v[i] for an index i: the elements of arrays, the characters of strings
    and the own properties of objects *)
Definition index (v : JsValue) (i : Datatypes.nat) : JsValue :=
  match v with
  | JArr l => match l !! i with Some x => x | None => JUndefined end
  | JStr s => match String.get i s with Some c => JStr (String c "") | None => JUndefined end
  | JObj fs => match assoc (Str.of_nat i) fs with Some x => x | None => JUndefined end
  | _ => JUndefined
  end.

(** ToNumber, as [>=] applies it to an operand that is no number *)

Inductive Number :=
| NaN
| Infinite (negative : bool)
| Decimal (m : Z) (e : Datatypes.nat).   (* m * 10^(-e) *)

Definition digit_of (base : Z) (c : ascii) : option Z :=
  let n := Z.of_nat (nat_of_ascii c) in
  let d := if (48 <=? n) && (n <=? 57) then n - 48
           else if (97 <=? n) && (n <=? 102) then n - 87
           else if (65 <=? n) && (n <=? 70) then n - 55
           else base in
  if d <? base then Some d else None.

Fixpoint based (base acc : Z) (s : string) : option Z :=
  match s with
  | EmptyString => Some acc
  | String c s' =>
      match digit_of base c with
      | Some d => based base (acc * base + d) s'
      | None => None
      end
  end.

(* 0x, 0o and 0b literals: at least one digit *)
Definition non_decimal (base : Z) (digits : string) : Number :=
  match digits with
  | EmptyString => NaN
  | _ => match based base 0 digits with Some v => Decimal v 0 | None => NaN end
  end.

(* ExponentPart, or nothing, up to the end of the text *)
Definition exponent (s : string) : option Z :=
  match s with
  | EmptyString => Some 0
  | String c s' =>
      if Ascii.eqb c "e" || Ascii.eqb c "E" then
        let '(sign, t) :=
          match s' with
          | String "+" t => (1, t)
          | String "-" t => (-1, t)
          | _ => (1, s')
          end in
        let '(v, n, rest) := digits_val 0 t in
        if (0 <? n)%nat && String.eqb rest "" then Some (sign * v) else None
      else None
  end.

(* StrUnsignedDecimalLiteral *)
Definition unsigned_decimal (s : string) : Number :=
  if String.eqb s "Infinity" then Infinite false
  else
    let '(ip, n, rest) := digits_val 0 s in
    let '(v, k, rest) :=
      match rest with
      | String "." r => digits_val ip r
      | _ => (ip, O, rest)
      end in
    if (n + k =? 0)%nat then NaN
    else
      match exponent rest with
      | None => NaN
      | Some x =>
          let shift := x - Z.of_nat k in
          if 0 <=? shift then Decimal (v * 10 ^ shift) 0 else Decimal v (Z.to_nat (- shift))
      end.

Definition negate (x : Number) : Number :=
  match x with
  | NaN => NaN
  | Infinite negative => Infinite (negb negative)
  | Decimal m e => Decimal (- m) e
  end.

(* StringToNumber *)
Definition string_to_number (s : string) : Number :=
  match Str.trim s with
  | EmptyString => Decimal 0 0
  | String "0" (String "x" r) | String "0" (String "X" r) => non_decimal 16 r
  | String "0" (String "o" r) | String "0" (String "O" r) => non_decimal 8 r
  | String "0" (String "b" r) | String "0" (String "B" r) => non_decimal 2 r
  | String "+" r => unsigned_decimal r
  | String "-" r => negate (unsigned_decimal r)
  | t => unsigned_decimal t
  end.

(* ToString throws: a parsed object whose own toString is no function, or
   an array that holds one *)
Fixpoint unprintable (v : JsValue) : bool :=
  match v with
  | JObj fs => match assoc "toString" fs with Some _ => true | None => false end
  | JArr l =>
      (fix go (l : list JsValue) : bool :=
         match l with
         | [] => false
         | x :: l' => unprintable x || go l'
         end) l
  | _ => false
  end.

(* [None]: the conversion throws *)
Definition to_number (v : JsValue) : option Number :=
  match v with
  | JUndefined => Some NaN
  | JNull => Some (Decimal 0 0)
  | JBool b => Some (Decimal (if b then 1 else 0) 0)
  | JNum m e => Some (Decimal m e)
  | JStr s => Some (string_to_number s)
  | JArr _ => if unprintable v then None else Some (string_to_number (to_string v))
  | JObj _ => if unprintable v then None else Some NaN
  end.

(* n >= v for a natural number n *)
Definition ge_nat (n : Datatypes.nat) (v : JsValue) : option bool :=
  match to_number v with
  | None => None
  | Some NaN => Some false
  | Some (Infinite negative) => Some negative
  | Some (Decimal m e) => Some (m <=? Z.of_nat n * 10 ^ Z.of_nat e)
  end.

End Js.

(** ** Insertion-ordered maps (the JavaScript [Map]) *)

Module JsMap.
Section JsMap.
Context {V : Type}.

Definition t := list (string * V).

Fixpoint get (m : t) (k : string) : option V :=
  match m with
  | [] => None
  | (k', v) :: m' => if String.eqb k k' then Some v else get m' k
  end.

Definition has (m : t) (k : string) : bool :=
  match get m k with Some _ => true | None => false end.

(* Map.prototype.set: a key that is present keeps its position *)
Fixpoint set (m : t) (k : string) (v : V) : t :=
  match m with
  | [] => [(k, v)]
  | (k', v') :: m' =>
      if String.eqb k k' then (k, v) :: m' else (k', v') :: set m' k v
  end.

(* Map.prototype.delete *)
Fixpoint delete (m : t) (k : string) : t :=
  match m with
  | [] => []
  | (k', v') :: m' =>
      if String.eqb k k' then delete m' k else (k', v') :: delete m' k
  end.

Definition keys (m : t) : list string := List.map fst m.
Definition values (m : t) : list V := List.map snd m.

Lemma get_set_eq m k v : get (set m k v) k = Some v.
Proof.
  induction m as [|[k' v'] m IH]; simpl.
  - now rewrite String.eqb_refl.
  - destruct (String.eqb k k') eqn:E; simpl.
    + now rewrite String.eqb_refl.
    + now rewrite E.
Qed.

Lemma get_set_ne m k k' v : k <> k' -> get (set m k v) k' = get m k'.
Proof.
  intros Hne. induction m as [|[k0 v0] m IH]; simpl.
  - destruct (String.eqb k' k) eqn:E; [|reflexivity].
    apply String.eqb_eq in E. congruence.
  - destruct (String.eqb k k0) eqn:E; simpl.
    + apply String.eqb_eq in E. subst k0.
      destruct (String.eqb k' k) eqn:E'; [|reflexivity].
      apply String.eqb_eq in E'. congruence.
    + now rewrite IH.
Qed.

Lemma get_delete_eq m k : get (delete m k) k = None.
Proof.
  induction m as [|[k' v'] m IH]; simpl; [reflexivity|].
  destruct (String.eqb k k') eqn:E; simpl; [assumption|].
  now rewrite E.
Qed.

Lemma get_delete_ne m k k' : k <> k' -> get (delete m k) k' = get m k'.
Proof.
  intros Hne. induction m as [|[k0 v0] m IH]; simpl; [reflexivity|].
  destruct (String.eqb k k0) eqn:E; simpl.
  - apply String.eqb_eq in E. subst k0.
    destruct (String.eqb k' k) eqn:E'; [|assumption].
    apply String.eqb_eq in E'. congruence.
  - now rewrite IH.
Qed.

End JsMap.
Arguments t : clear implicits.
End JsMap.

(** ** The hub (src/server.js) *)

Module Hub.

Record AgentInfo := mkAgent {
  a_ws : nat;
  a_tools : JsValue;       (* capabilities.tools || [] *)
  a_resources : JsValue;   (* capabilities.resources || [] *)
  a_lastSeen : Z }.

Record ToolInfo := mkTool { t_agentId : JsValue; t_schema : JsValue }.

Record Workflow := mkWorkflow {
  steps : JsValue;
  currentStep : nat;
  results : list JsValue;
  clientWs : nat;
  status : string }.

(* a connected socket: the agentId property the register handler puts on
   it, and its readyState (1 is OPEN) *)
Record Socket := mkSocket { s_agentId : JsValue; s_readyState : nat }.

Record State := mkState {
  agents : JsMap.t AgentInfo;        (* agentId -> { ws, tools, resources } *)
  toolRegistry : JsMap.t ToolInfo;   (* toolName -> { agentId, schema } *)
  workflows : gmap string Workflow;  (* workflowId -> workflow *)
  clients : list (nat * Socket);     (* wss.clients *)
  outbox : list (nat * JsValue);     (* every ws.send, in order *)
  rejections : list string }.        (* errors thrown inside async handlers *)

Definition init : State := mkState [] [] ∅ [] [] [].

(* Map keys: a key is modelled by its string conversion *)
Definition key (v : JsValue) : string := Js.to_string v.

Definition set_agents (f : JsMap.t AgentInfo -> JsMap.t AgentInfo) (st : State) : State :=
  mkState (f (agents st)) (toolRegistry st) (workflows st) (clients st) (outbox st) (rejections st).
Definition set_toolRegistry (f : JsMap.t ToolInfo -> JsMap.t ToolInfo) (st : State) : State :=
  mkState (agents st) (f (toolRegistry st)) (workflows st) (clients st) (outbox st) (rejections st).
Definition set_workflows (f : gmap string Workflow -> gmap string Workflow) (st : State) : State :=
  mkState (agents st) (toolRegistry st) (f (workflows st)) (clients st) (outbox st) (rejections st).
Definition set_clients (f : list (nat * Socket) -> list (nat * Socket)) (st : State) : State :=
  mkState (agents st) (toolRegistry st) (workflows st) (f (clients st)) (outbox st) (rejections st).
Definition send (ws : nat) (m : JsValue) (st : State) : State :=
  mkState (agents st) (toolRegistry st) (workflows st) (clients st) (outbox st ++ [(ws, m)])%list (rejections st).
Definition reject (e : string) (st : State) : State :=
  mkState (agents st) (toolRegistry st) (workflows st) (clients st) (outbox st) (rejections st ++ [e])%list.

Fixpoint socket (cs : list (nat * Socket)) (ws : nat) : option Socket :=
  match cs with
  | [] => None
  | (w, s) :: cs' => if (w =? ws)%nat then Some s else socket cs' ws
  end.

(* ws.readyState; a socket that is gone is CLOSED (3) *)
Definition readyState (st : State) (ws : nat) : nat :=
  match socket (clients st) ws with Some s => s_readyState s | None => 3%nat end.

Definition update_socket (ws : nat) (f : Socket -> Socket) (st : State) : State :=
  set_clients (List.map (fun p => if (fst p =? ws)%nat then (fst p, f (snd p)) else p)) st.

(* a handler either returns or throws, with the state it reached *)
Inductive Outcome := Returned (st : State) | Threw (st : State).

Definition error_msg (id : JsValue) (code message : string) : JsValue :=
  JObj [("type", JStr "error"); ("id", id);
        ("error", JObj [("code", JStr code); ("message", JStr message)])].

Definition getAvailableResources : JsValue :=
  JArr [JObj [("uri", JStr "file://src/"); ("name", JStr "Source Code");
              ("description", JStr "Project source files")];
        JObj [("uri", JStr "file://package.json"); ("name", JStr "Package Config");
              ("description", JStr "Project configuration")]].

Definition serverCapabilities (st : State) : JsValue :=
  JObj [("tools", JArr (List.map JStr (JsMap.keys (toolRegistry st))));
        ("resources", getAvailableResources);
        ("workflows", JBool true)].

(* agentInfo.tools.forEach(tool => toolRegistry.set(tool.name, ...)) *)
Fixpoint register_tools (agentId : JsValue) (tools : list JsValue) (st : State) : Outcome :=
  match tools with
  | [] => Returned st
  | tool :: rest =>
      if Js.nullish tool then Threw st
      else register_tools agentId rest
             (set_toolRegistry
                (fun r => JsMap.set r (key (Js.prop tool "name")) (mkTool agentId tool)) st)
  end.

(* agents.forEach((agent, id) => { if (id !== agentId && agent.ws.readyState === 1) ... }) *)
Fixpoint broadcast_agents (l : list (string * AgentInfo)) (except : string)
    (m : JsValue) (st : State) : State :=
  match l with
  | [] => st
  | (id, a) :: l' =>
      broadcast_agents l' except m
        (if negb (String.eqb id except) && (readyState st (a_ws a) =? 1)%nat
         then send (a_ws a) m st else st)
  end.

Definition register (ws : nat) (now : Z) (msg : JsValue) (st : State) : Outcome :=
  let agentId := Js.prop msg "from" in
  let capabilities :=
    match Js.prop msg "capabilities" with JUndefined => JObj [] | c => c end in
  if Js.nullish capabilities then Threw st
  else
    let agentInfo :=
      mkAgent ws (Js.or (Js.prop capabilities "tools") (JArr []))
        (Js.or (Js.prop capabilities "resources") (JArr [])) now in
    let st := set_agents (fun a => JsMap.set a (key agentId) agentInfo) st in
    let st := update_socket ws (fun s => mkSocket agentId (s_readyState s)) st in
    match a_tools agentInfo with
    | JArr tools =>
        match register_tools agentId tools st with
        | Threw st => Threw st
        | Returned st =>
            let st := send ws
              (JObj [("type", JStr "registered"); ("for", agentId);
                     ("serverCapabilities", serverCapabilities st)]) st in
            Returned
              (broadcast_agents (agents st) (key agentId)
                 (JObj [("type", JStr "capabilities_updated");
                        ("serverCapabilities", serverCapabilities st)]) st)
        end
    | _ => Threw st   (* forEach is not a function *)
    end.

(* { ...schema, provider: agentId }; tool schemas are objects *)
Definition with_provider (t : ToolInfo) : JsValue :=
  match t_schema t with
  | JObj fs => JObj (Js.set_field "provider" (t_agentId t) fs)
  | _ => JObj [("provider", t_agentId t)]
  end.

Definition tools_list (ws : nat) (msg : JsValue) (st : State) : Outcome :=
  Returned
    (send ws
       (JObj [("type", JStr "response"); ("id", Js.prop msg "id");
              ("result",
               JObj [("tools", JArr (List.map with_provider (JsMap.values (toolRegistry st))))])])
       st).

(* an async handler: what it throws is a rejected promise nobody awaits *)
Definition tools_call (ws : nat) (msg : JsValue) (st : State) : Outcome :=
  let params := Js.prop msg "params" in
  if Js.nullish params then Returned (reject "TypeError" st)
  else
    let toolName := Js.prop params "name" in
    let args := Js.prop params "arguments" in
    match JsMap.get (toolRegistry st) (key toolName) with
    | None =>
        Returned (send ws (error_msg (Js.prop msg "id") "TOOL_NOT_FOUND"
                             ("Tool " +:+ Js.to_string toolName +:+ " not found")) st)
    | Some toolInfo =>
        match JsMap.get (agents st) (key (t_agentId toolInfo)) with
        | Some targetAgent =>
            if (readyState st (a_ws targetAgent) =? 1)%nat then
              Returned
                (send (a_ws targetAgent)
                   (JObj [("type", JStr "tools/call"); ("id", Js.prop msg "id");
                          ("from", Js.or (Js.prop msg "from") (JStr "client"));
                          ("params", JObj [("name", toolName); ("arguments", args)]);
                          ("_responseTarget", JObj [])])   (* the socket object, serialized *)
                   st)
            else
              Returned (send ws (error_msg (Js.prop msg "id") "AGENT_UNAVAILABLE"
                                   ("Agent " +:+ Js.to_string (t_agentId toolInfo) +:+ " unavailable")) st)
        | None =>
            Returned (send ws (error_msg (Js.prop msg "id") "AGENT_UNAVAILABLE"
                                 ("Agent " +:+ Js.to_string (t_agentId toolInfo) +:+ " unavailable")) st)
        end
    end.

Definition allowedPaths : list string := ["src/"; "package.json"; "README.md"].

(* uri.replace('file://', '') *)
Definition resourcePath (uri : string) : string := Str.replaceFirst "file://" "" uri.

Definition hasResourcePermission (clientId : JsValue) (uri : string) : bool :=
  existsb (fun allowed => Str.includes allowed (resourcePath uri)) allowedPaths.

Section Resources.
(* fs.readFile(path.resolve(filePath), 'utf-8'): the content, or the
   message of the error it throws *)
Variable readFile : string -> string + string.

Definition resources_read (ws : nat) (msg : JsValue) (st : State) : Outcome :=
  let params := Js.prop msg "params" in
  if Js.nullish params then Returned (reject "TypeError" st)
  else
    match Js.prop params "uri" with
    | JStr uri =>
        let clientId := Js.or (Js.prop msg "from") (JStr "client") in
        if negb (hasResourcePermission clientId uri) then
          Returned (send ws (error_msg (Js.prop msg "id") "PERMISSION_DENIED"
                               ("No permission to access " +:+ uri)) st)
        else if Str.startsWith "file://" uri then
          match readFile (Str.replaceFirst "file://" "" uri) with
          | inl content =>
              Returned
                (send ws
                   (JObj [("type", JStr "response"); ("id", Js.prop msg "id");
                          ("result", JObj [("uri", JStr uri); ("mimeType", JStr "text/plain");
                                           ("text", JStr content)])]) st)
          | inr e => Returned (send ws (error_msg (Js.prop msg "id") "READ_FAILED" e) st)
          end
        else
          Returned (send ws (error_msg (Js.prop msg "id") "READ_FAILED" "Unsupported URI scheme") st)
    | _ => Returned (reject "TypeError" st)   (* uri.replace is not a function *)
    end.

(** *** The workflow engine *)

Definition completeWorkflow (workflowId : string) (st : State) : State :=
  match workflows st !! workflowId with
  | None => st
  | Some workflow =>
      let workflow' :=
        mkWorkflow (steps workflow) (currentStep workflow) (results workflow)
          (clientWs workflow) "completed" in
      send (clientWs workflow)
        (JObj [("type", JStr "workflow/result"); ("workflowId", JStr workflowId);
               ("results", JArr (results workflow)); ("status", JStr "completed")])
        (set_workflows (insert workflowId workflow') st)
  end.

(* workflow.results.push(r); workflow.currentStep++ *)
Definition push_result (workflowId : string) (r : JsValue) (st : State) : State :=
  match workflows st !! workflowId with
  | None => st
  | Some w =>
      set_workflows
        (insert workflowId
           (mkWorkflow (steps w) (S (currentStep w)) (results w ++ [r])%list (clientWs w) (status w)))
        st
  end.

(* one activation of executeWorkflowStep; [inl] is the state it ends in,
   [inr] the state from which it calls itself again. [steps] is whatever
   the caller sent: an array, or a string or an object with indices *)
Definition executeWorkflowStep_body (workflowId : string) (st : State) : State + State :=
  match workflows st !! workflowId with
  | None => inl (completeWorkflow workflowId st)
  | Some workflow =>
      if Js.nullish (steps workflow) then inl (reject "TypeError" st)
      else
        (* workflow.currentStep >= workflow.steps.length *)
        match Js.ge_nat (currentStep workflow) (Js.prop (steps workflow) "length") with
        | None => inl (reject "TypeError" st)
        | Some true => inl (completeWorkflow workflowId st)
        | Some false =>
            let step := Js.index (steps workflow) (currentStep workflow) in
            if Js.nullish step then inl (reject "TypeError" st)
            else
              match JsMap.get (toolRegistry st) (key (Js.prop step "tool")) with
              | None =>
                  inr (push_result workflowId
                         (JObj [("error", JStr ("Tool " +:+ Js.to_string (Js.prop step "tool")
                                                 +:+ " not found"))]) st)
              | Some toolInfo =>
                  match JsMap.get (agents st) (key (t_agentId toolInfo)) with
                  | None =>
                      inr (push_result workflowId
                             (JObj [("error", JStr ("Agent " +:+ Js.to_string (t_agentId toolInfo)
                                                     +:+ " unavailable"))]) st)
                  | Some targetAgent =>
                      inl (send (a_ws targetAgent)
                             (JObj [("type", JStr "tools/call");
                                    ("id", JStr (workflowId +:+ "-step-"
                                                 +:+ Str.of_nat (currentStep workflow)));
                                    ("params", JObj [("name", Js.prop step "tool");
                                                     ("arguments", Js.prop step "arguments")]);
                                    ("_workflowId", JStr workflowId)]) st)
                  end
              end
        end
  end.

Fixpoint executeWorkflowStep_fuel (fuel : nat) (workflowId : string) (st : State) : option State :=
  match fuel with
  | O => None
  | S f =>
      match executeWorkflowStep_body workflowId st with
      | inl st' => Some st'
      | inr st' => executeWorkflowStep_fuel f workflowId st'
      end
  end.

(* the engine calls itself once for each step it records an error for, and
   a step is an element, a character or a property of [steps] *)
Definition extent (steps : JsValue) : nat :=
  match steps with
  | JArr l => length l
  | JStr s => String.length s
  | JObj fs => length fs
  | _ => O
  end.

Definition remaining (workflowId : string) (st : State) : nat :=
  match workflows st !! workflowId with
  | Some w => extent (steps w)
  | None => O
  end.

Definition executeWorkflowStep (workflowId : string) (st : State) : State :=
  match executeWorkflowStep_fuel (S (remaining workflowId st)) workflowId st with
  | Some st' => st'
  | None => st
  end.

Definition workflow_start (ws : nat) (now : Z) (msg : JsValue) (st : State) : Outcome :=
  let params := Js.prop msg "params" in
  if Js.nullish params then Returned (reject "TypeError" st)
  else
    let workflowId := "workflow-" +:+ Str.of_Z now in
    let st := set_workflows
                (insert workflowId (mkWorkflow (Js.prop params "steps") 0 [] ws "running")) st in
    let st := send ws
                (JObj [("type", JStr "response"); ("id", Js.prop msg "id");
                       ("result", JObj [("workflowId", JStr workflowId);
                                        ("status", JStr "started")])]) st in
    Returned (executeWorkflowStep workflowId st).

(* wss.clients.forEach(client => { if (client !== excludeWs && client.readyState === 1) ... }) *)
Fixpoint broadcastToClients_go (cs : list (nat * Socket)) (m : JsValue) (excludeWs : nat)
    (st : State) : State :=
  match cs with
  | [] => st
  | (w, s) :: cs' =>
      broadcastToClients_go cs' m excludeWs
        (if negb (w =? excludeWs)%nat && (s_readyState s =? 1)%nat then send w m st else st)
  end.
Definition broadcastToClients (m : JsValue) (excludeWs : nat) (st : State) : State :=
  broadcastToClients_go (clients st) m excludeWs st.

Definition response (ws : nat) (msg : JsValue) (st : State) : Outcome :=
  if Js.truthy (Js.prop msg "_responseTarget")
  then Threw st   (* a parsed message holds no socket: send is not a function *)
  else Returned (broadcastToClients msg ws st).

(* agent.tools.forEach(tool => { toolRegistry.delete(tool.name); }) *)
Fixpoint unregister_tools (tools : list JsValue) (st : State) : Outcome :=
  match tools with
  | [] => Returned st
  | tool :: rest =>
      if Js.nullish tool then Threw st
      else unregister_tools rest
             (set_toolRegistry (fun r => JsMap.delete r (key (Js.prop tool "name"))) st)
  end.

(* the close handler of a socket; what it throws nobody catches, and the
   agent then stays in the map *)
Definition on_close (ws : nat) (st : State) : State :=
  let agentId := match socket (clients st) ws with
                 | Some s => s_agentId s | None => JUndefined end in
  let st := set_clients (filter (fun p => fst p <> ws)) st in
  if Js.truthy agentId then
    match JsMap.get (agents st) (key agentId) with
    | Some agent =>
        match a_tools agent with
        | JArr tools =>
            match unregister_tools tools st with
            | Returned st => set_agents (fun a => JsMap.delete a (key agentId)) st
            | Threw st => st
            end
        | _ => st   (* forEach is not a function *)
        end
    | None => st
    end
  else st.

(* the catch clause of the message handler *)
Definition invalid (ws : nat) (st : State) : State :=
  send ws (JObj [("type", JStr "error");
                 ("error", JObj [("code", JStr "INVALID_JSON");
                                 ("message", JStr "Invalid JSON message")])]) st.

(* a handler called inside the try block *)
Definition finish (ws : nat) (o : Outcome) : State :=
  match o with Returned st => st | Threw st => invalid ws st end.

(* if (msg._workflowId && msg.type === 'response') *)
Definition routed (msg : JsValue) : bool :=
  Js.truthy (Js.prop msg "_workflowId") && Js.eq_str (Js.prop msg "type") "response".

(* // Route to appropriate handler *)
Definition dispatch_handler (ws : nat) (now : Z) (msg : JsValue) (st : State) : State :=
  let ty := Js.prop msg "type" in
  let handler := key ty in   (* messageHandlers[msg.type] *)
  if String.eqb handler "register" then finish ws (register ws now msg st)
  else if String.eqb handler "tools/list" then finish ws (tools_list ws msg st)
  else if String.eqb handler "tools/call" then finish ws (tools_call ws msg st)
  else if String.eqb handler "resources/read" then finish ws (resources_read ws msg st)
  else if String.eqb handler "workflow/start" then finish ws (workflow_start ws now msg st)
  else if String.eqb handler "response" then finish ws (response ws msg st)
  else if Js.eq_str ty "request" && Js.truthy (Js.prop msg "to") then
    (* Legacy fallback for old message types *)
    match JsMap.get (agents st) (key (Js.prop msg "to")) with
    | None =>
        send ws (JObj [("type", JStr "error"); ("id", Js.prop msg "id");
                       ("message", JStr "agent-not-found")]) st
    | Some target => send (a_ws target) msg st
    end
  else
    send ws (error_msg (Js.prop msg "id") "UNKNOWN_MESSAGE"
               ("Unknown message type: " +:+ Js.to_string ty)) st.

(* workflows.get(id): the ids in the map are strings the hub made *)
Definition workflow_of (st : State) (id : JsValue) : option string :=
  match id with
  | JStr k => match workflows st !! k with Some _ => Some k | None => None end
  | _ => None
  end.

(* the message handler of a socket; [None] is text JSON.parse rejects *)
Definition on_message (ws : nat) (now : Z) (raw : option JsValue) (st : State) : State :=
  match raw with
  | None => invalid ws st
  | Some msg =>
      if Js.nullish msg then invalid ws st
      else
        (* Handle workflow responses *)
        match (if routed msg then workflow_of st (Js.prop msg "_workflowId") else None) with
        | Some k => executeWorkflowStep k (push_result k (Js.prop msg "result") st)
        | None => dispatch_handler ws now msg st
        end
  end.

Inductive Event :=
| Connection (ws : nat)                            (* a socket connects *)
| Message (ws : nat) (now : Z) (raw : option JsValue)
| ReadyState (ws : nat) (n : nat)                  (* a socket starts closing *)
| Close (ws : nat)
| Elapse (ms : Z).                                 (* time passes: the hub sets no timer *)

Definition step (ev : Event) (st : State) : State :=
  match ev with
  | Connection ws =>
      set_clients (fun cs => (filter (fun p => fst p <> ws) cs ++ [(ws, mkSocket JUndefined 1%nat)])%list) st
  | Message ws now raw => on_message ws now raw st
  | ReadyState ws n => update_socket ws (fun s => mkSocket (s_agentId s) n) st
  | Close ws => on_close ws st
  | Elapse _ => st
  end.

Definition run (evs : list Event) (st : State) : State := foldl (fun s e => step e s) st evs.

End Resources.
End Hub.

(** ** The calculator agent (src/agents/calculator-agent.js) *)

Module Calculator.

(** The value of [new Function('"use strict"; return (' + cleaned + ')')()]
    on the integer fragment of the expression language: decimal integer
    literals, unary and binary [+] and [-], [*], exact [/], parentheses,
    with every intermediate value a safe integer. [None] stands for all
    the rest (syntax errors, fractions, non-finite values, negative
    zero), which this development does not model. *)

Inductive token := TNum (z : Z) | TPlus | TMinus | TStar | TSlash | TOpen | TClose.

Fixpoint lex_num (acc : Z) (s : string) : Z * string :=
  match s with
  | String c s' =>
      if Str.is_digit c then lex_num (acc * 10 + Z.of_nat (nat_of_ascii c - 48)) s'
      else (acc, s)
  | EmptyString => (acc, s)
  end.

Fixpoint lex (fuel : nat) (s : string) : option (list token) :=
  match fuel with
  | O => None
  | S f =>
      match s with
      | EmptyString => Some []
      (* ++ and -- are update operators, ** is exponentiation, // and /* open comments *)
      | String "+" (String "+" _) | String "-" (String "-" _)
      | String "*" (String "*" _) | String "/" (String "/" _)
      | String "/" (String "*" _) => None
      | String "+" s' => option_map (cons TPlus) (lex f s')
      | String "-" s' => option_map (cons TMinus) (lex f s')
      | String "*" s' => option_map (cons TStar) (lex f s')
      | String "/" s' => option_map (cons TSlash) (lex f s')
      | String "(" s' => option_map (cons TOpen) (lex f s')
      | String ")" s' => option_map (cons TClose) (lex f s')
      | String c s' =>
          if Str.is_digit c then
            let '(v, rest) := lex_num 0 s in
            (* a leading zero before more digits is a legacy octal literal;
               a following dot makes a fraction *)
            if (Ascii.eqb c "0" && negb (String.length rest + 1 =? String.length s)%nat)
               || String.prefix "." rest
            then None
            else option_map (cons (TNum v)) (lex f rest)
          else None
      end
  end.

Definition safe (z : Z) : option Z :=
  if (Z.abs z <=? 2 ^ 53) then Some z else None.

Definition mul (a b : Z) : option Z :=
  if (a * b =? 0) && ((a <? 0) || (b <? 0)) then None else safe (a * b).

Definition div (a b : Z) : option Z :=
  if (b =? 0) then None
  else if negb (a mod b =? 0) then None
  else if (a =? 0) && (b <? 0) then None
  else safe (a / b).

Fixpoint pExpr (fuel : nat) (ts : list token) : option (Z * list token) :=
  match fuel with
  | O => None
  | S f =>
      match pTerm f ts with
      | Some (v, ts') => pExprRest f v ts'
      | None => None
      end
  end
with pExprRest (fuel : nat) (acc : Z) (ts : list token) : option (Z * list token) :=
  match fuel with
  | O => None
  | S f =>
      match ts with
      | TPlus :: ts' =>
          match pTerm f ts' with
          | Some (v, ts'') =>
              match safe (acc + v) with Some r => pExprRest f r ts'' | None => None end
          | None => None
          end
      | TMinus :: ts' =>
          match pTerm f ts' with
          | Some (v, ts'') =>
              match safe (acc - v) with Some r => pExprRest f r ts'' | None => None end
          | None => None
          end
      | _ => Some (acc, ts)
      end
  end
with pTerm (fuel : nat) (ts : list token) : option (Z * list token) :=
  match fuel with
  | O => None
  | S f =>
      match pUnary f ts with
      | Some (v, ts') => pTermRest f v ts'
      | None => None
      end
  end
with pTermRest (fuel : nat) (acc : Z) (ts : list token) : option (Z * list token) :=
  match fuel with
  | O => None
  | S f =>
      match ts with
      | TStar :: ts' =>
          match pUnary f ts' with
          | Some (v, ts'') =>
              match mul acc v with Some r => pTermRest f r ts'' | None => None end
          | None => None
          end
      | TSlash :: ts' =>
          match pUnary f ts' with
          | Some (v, ts'') =>
              match div acc v with Some r => pTermRest f r ts'' | None => None end
          | None => None
          end
      | _ => Some (acc, ts)
      end
  end
with pUnary (fuel : nat) (ts : list token) : option (Z * list token) :=
  match fuel with
  | O => None
  | S f =>
      match ts with
      | TPlus :: ts' => pUnary f ts'
      | TMinus :: ts' =>
          match pUnary f ts' with
          | Some (v, ts'') => if (v =? 0) then None else Some (- v, ts'')
          | None => None
          end
      | TNum z :: ts' => safe z ≫= (fun v => Some (v, ts'))
      | TOpen :: ts' =>
          match pExpr f ts' with
          | Some (v, TClose :: ts'') => Some (v, ts'')
          | _ => None
          end
      | _ => None
      end
  end.

Definition js_arith (cleaned : string) : option Z :=
  match lex (S (String.length cleaned)) cleaned with
  | Some ts =>
      match pExpr (5 * length ts + 5) ts with
      | Some (v, []) => Some v
      | _ => None
      end
  | None => None
  end.

Inductive Eval :=
| Value (z : Z)            (* return result *)
| Error (message : string) (* throw new Error(message) *)
| Unmodelled.

Definition allowedChars : Regex.RegExp := Regex.re "^[0-9+\-*/().\s]+$".
Definition dangerous : Regex.RegExp :=
  Regex.rei "(function|eval|window|document|process|require|import|export)".

Definition evaluateExpression (expr : string) : Eval :=
  let cleaned := Regex.remove_spaces expr in
  if negb (Regex.test allowedChars cleaned) then
    Error "Invalid characters in expression. Only numbers, +, -, *, /, (, ) are allowed."
  else if Regex.test dangerous expr then
    Error "Potentially dangerous expression detected."
  else
    match js_arith cleaned with
    | Some z => Value z
    | None => Unmodelled
    end.

(* Number.prototype.toLocaleString of an integer, en-US grouping *)
Fixpoint group3 (fuel : nat) (rev_digits : string) : string :=
  match fuel with
  | O => rev_digits
  | S f =>
      if (3 <? String.length rev_digits)%nat
      then Str.take 3 rev_digits +:+ "," +:+ group3 f (Str.drop 3 rev_digits)
      else rev_digits
  end.
Definition toLocaleString (z : Z) : string :=
  let d := Str.of_Z (Z.abs z) in
  (if z <? 0 then "-" else "") +:+ String.rev (group3 (String.length d) (String.rev d)).

(* toolHandlers.calculate; [None] where the evaluator is not modelled *)
Definition calculate (args : JsValue) : option JsValue :=
  match Js.prop args "expression" with
  | JStr expr =>
      match evaluateExpression expr with
      | Value z =>
          Some (JObj [("success", JBool true); ("expression", JStr expr);
                      ("result", Js.int z); ("formatted", JStr (toLocaleString z))])
      | Error message =>
          Some (JObj [("success", JBool false); ("expression", JStr expr);
                      ("error", JStr message)])
      | Unmodelled => None
      end
  | _ => None
  end.

(* the agent's answer to a tools/call message; [None] for the tools this
   development does not model (statistics and convert_units compute with
   fractions) *)
Definition on_tools_call (msg : JsValue) : option JsValue :=
  let params := Js.prop msg "params" in
  let toolName := Js.prop params "name" in
  if Js.eq_str toolName "calculate" then
    match calculate (Js.prop params "arguments") with
    | Some result =>
        Some (JObj [("type", JStr "response"); ("id", Js.prop msg "id");
                    ("result", result); ("_workflowId", Js.prop msg "_workflowId")])
    | None => None
    end
  else if Js.eq_str toolName "statistics" || Js.eq_str toolName "convert_units" then None
  else
    Some (JObj [("type", JStr "error"); ("id", Js.prop msg "id");
                ("error", JObj [("code", JStr "TOOL_NOT_FOUND");
                                ("message", JStr ("Tool " +:+ Js.to_string toolName
                                                  +:+ " not implemented"))])]).

End Calculator.

(** ** The orchestrator agent (src/agents/orchestrator-agent.js) *)

(* the icons that open the response templates, as the bytes of the source file *)
Module Icon.
Definition cross : string := "âŒ".
Definition page : string := "ðŸ“„".
Definition abacus : string := "ðŸ§®".
Definition chart : string := "ðŸ“Š".
Definition bullet : string := "â€¢".
Definition globe : string := "ðŸŒ".
Definition news : string := "ðŸ“°".
Definition ruler : string := "ðŸ“".
Definition folder : string := "ðŸ“".
Definition disk : string := "ðŸ’¾".
Definition globe_disk : string := "ðŸŒâž¡ï¸ðŸ’¾".
Definition robot : string := "ðŸ¤–".
Definition sparkles : string := "âœ¨".
Definition cap : string := "ðŸŽ“".
Definition memo : string := "ðŸ“".
Definition thought : string := "ðŸ’­".
Definition globe_robot : string := "ðŸŒðŸ¤–".
Definition page_robot : string := "ðŸ“„ðŸ¤–".
Definition abacus_robot : string := "ðŸ§®ðŸ¤–".
Definition check : string := "âœ…".
Definition thinking : string := "ðŸ¤”".
End Icon.

Module Orchestrator.
Import Regex.

Definition agentId : string := "orchestrator-agent".

(* let conversationMemory = { lastResult: null, lastQuery: null,
   lastIntent: null, recentResults: [] } *)
Record ConversationMemory := mkMemory {
  lastResult : JsValue;
  lastQuery : JsValue;
  lastIntent : JsValue;
  recentResults : list JsValue }.

Definition initialMemory : ConversationMemory := mkMemory JNull JNull JNull [].

(* what a function of the source returns or throws *)
Inductive Result (A : Type) := Ok (a : A) | Throw (message : string).
Arguments Ok {A} a.
Arguments Throw {A} message.

Definition bind {A B} (r : Result A) (f : A -> Result B) : Result B :=
  match r with Ok a => f a | Throw e => Throw e end.
Notation "'let?' x := r 'in' k" := (bind r (fun x => k))
  (at level 10, x name, r at level 100, k at level 200).

Inductive PatternEntry := PRegExp (r : RegExp) | PText (s : string).

(* an element of intentPatterns, or the object detectIntent builds when it
   falls back; [methods] are the extract* functions the object has *)
Record Intent := mkIntent {
  patterns : list PatternEntry;
  intent : string;
  tools : list string;
  methods : list (string * (ConversationMemory -> string -> JsValue)) }.

(* m ? m[1] : default *)
Definition group1_or (m : option MatchResult) (default : JsValue) : JsValue :=
  match m with
  | Some r => match group r 1 with Some g => JStr g | None => JUndefined end
  | None => default
  end.

(* a.match(x) || a.match(y) || ... *)
Fixpoint first_match (xs : list RegExp) (query : string) : option MatchResult :=
  match xs with
  | [] => None
  | x :: xs' => match exec x query with Some m => Some m | None => first_match xs' query end
  end.

Definition url_re : RegExp := rei "(https?:\/\/[^\s]+)".
Definition q : string := Str.dq.

Definition extractUrl (default : string) : ConversationMemory -> string -> JsValue :=
  fun _ query => group1_or (exec url_re query) (JStr default).

Definition extractPath_read_file : ConversationMemory -> string -> JsValue :=
  fun _ query =>
    group1_or
      (first_match
         [rei ("(?:file|path)\s+[" +:+ q +:+ "`']?([^" +:+ q +:+ "`'\s]+)[" +:+ q +:+ "`']?");
          rei ("[" +:+ q +:+ "`']([^" +:+ q +:+ "`']+\.[a-z]+)[" +:+ q +:+ "`']");
          re "(\w+\.\w+)"] query)
      (JStr "package.json").

Definition extractPath_file : ConversationMemory -> string -> JsValue :=
  fun _ query =>
    group1_or
      (first_match
         [rei ("(?:file|path)\s+[" +:+ q +:+ "`']?([^" +:+ q +:+ "`'\s]+)[" +:+ q +:+ "`']?");
          rei ("[" +:+ q +:+ "`']([^" +:+ q +:+ "`']+\.[a-z]+)[" +:+ q +:+ "`']")] query)
      (JStr "package.json").

Definition extractFileName : ConversationMemory -> string -> JsValue :=
  fun conversationMemory query =>
    match exec (rei ("(?:to|as|file|called)\s+[" +:+ q +:+ "`']?([^" +:+ q
                     +:+ "`'\s]+(?:\.[a-z]+)?)[" +:+ q +:+ "`']?")) query with
    | Some fileMatch =>
        match group fileMatch 1 with
        | Some fileName =>
            if negb (Str.includes "." fileName) then JStr (fileName +:+ ".txt")
            else JStr fileName
        | None => JUndefined
        end
    | None =>
        if Js.eq_str (lastIntent conversationMemory) "web_ai_analyze"
        then JStr "webpage_summary.txt" else JStr "result.txt"
    end.

Definition extractExpression_calculate : ConversationMemory -> string -> JsValue :=
  fun _ query =>
    match exec (rei ("(?:calculate|compute|solve|what.*is)\s*[:`" +:+ q
                     +:+ "]?\s*([0-9+\-*/().\s]+)")) query with
    | Some mathMatch =>
        match group mathMatch 1 with
        | Some g => JStr (Str.trim g)
        | None => JUndefined
        end
    | None => JStr (replace_empty (rei ".*(?:calculate|compute|solve)\s*") query)
    end.

(* s.split(',').map(n => parseFloat(n.trim())).filter(n => !isNaN(n)) *)
Definition parse_numbers (s : string) : JsValue :=
  JArr (omap (fun n => Js.parseFloat (Str.trim n)) (Str.split "," s)).

Definition extractNumbers : ConversationMemory -> string -> JsValue :=
  fun _ query =>
    match exec (re "\[([0-9,\s]+)\]") query with
    | Some numberArrayMatch =>
        match group numberArrayMatch 1 with
        | Some g => parse_numbers g
        | None => JUndefined
        end
    | None =>
        match exec (re "(\d+(?:\.\d+)?(?:\s*,\s*\d+(?:\.\d+)?)*)") query with
        | Some numbersMatch =>
            match group numbersMatch 1 with
            | Some g => parse_numbers g
            | None => JUndefined
            end
        | None => JArr [Js.int 1; Js.int 2; Js.int 3; Js.int 4; Js.int 5]
        end
    end.

Definition extractDirectory : ConversationMemory -> string -> JsValue :=
  fun _ query =>
    group1_or
      (first_match
         [rei ("(?:in|from)\s+the\s+([^" +:+ q +:+ "\s]+)\s+directory");
          rei ("(?:in|from)\s+([^" +:+ q +:+ "\s]+)\s+directory");
          rei ("(?:in|from|directory)\s+[" +:+ q +:+ "`']([^" +:+ q +:+ "`']+)[" +:+ q +:+ "`']");
          rei ("files\s+(?:in|from)\s+([^" +:+ q +:+ "\s]+)")] query)
      (JStr "src").

Definition extractFileInfo : ConversationMemory -> string -> JsValue :=
  fun _ query =>
    let pathMatch :=
      exec (rei ("(?:to|file|path)\s+[" +:+ q +:+ "`']?([^" +:+ q +:+ "`'\s]+)["
                 +:+ q +:+ "`']?")) query in
    let contentMatch :=
      exec (rei ("(?:write|save|put)\s*[" +:+ q +:+ "`']([^" +:+ q +:+ "`']+)["
                 +:+ q +:+ "`']")) query in
    JObj [("path", group1_or pathMatch (JStr "output.txt"));
          ("content", group1_or contentMatch (JStr "Generated content"))].

Definition extractInfo : ConversationMemory -> string -> JsValue :=
  fun _ query =>
    let urlMatch := exec url_re query in
    let pathMatch :=
      exec (rei ("(?:to|file|save.*to)\s+[" +:+ q +:+ "`']?([^" +:+ q +:+ "`'\s]+)["
                 +:+ q +:+ "`']?")) query in
    JObj [("url", group1_or urlMatch (JStr "https://jsonplaceholder.typicode.com/posts/1"));
          ("path", group1_or pathMatch (JStr "downloaded_data.json"))].

Definition extractAnalysisType : ConversationMemory -> string -> JsValue :=
  fun _ query =>
    if test (rei "summary|summarize") query then JStr "summary"
    else if test (rei "sentiment") query then JStr "sentiment"
    else if test (rei "key.*points") query then JStr "key_points"
    else if test (rei "themes") query then JStr "themes"
    else JStr "comprehensive".

Definition extractPrompt : ConversationMemory -> string -> JsValue :=
  fun _ query =>
    group1_or (exec (rei "(?:generate|write|create)\s+(.+)") query) (JStr query).

Definition extractConcept : ConversationMemory -> string -> JsValue :=
  fun _ query =>
    group1_or (exec (rei "(?:explain|what.*is|tell.*me.*about)\s+(.+)") query)
      (JStr (replace_empty (rei "^(explain|what.*is|tell.*me.*about)\s*") query)).

Definition extractImprovementType : ConversationMemory -> string -> JsValue :=
  fun _ query =>
    if test (rei "grammar") query then JStr "grammar"
    else if test (rei "clarity") query then JStr "clarity"
    else if test (rei "professional") query then JStr "professional"
    else if test (rei "creative") query then JStr "creative"
    else if test (rei "concise") query then JStr "conciseness"
    else JStr "clarity".

Definition extractQuestion : ConversationMemory -> string -> JsValue :=
  fun _ query =>
    group1_or (exec (rei "(?:answer|ask|question)\s+(.+)") query) (JStr query).

Definition extractExpression_explain : ConversationMemory -> string -> JsValue :=
  fun _ query =>
    match exec (rei "(?:explain|why)\s+(?:is\s+)?(.+?)(?:\s+equal|\s*=|\s*$)") query with
    | Some mathMatch =>
        match group mathMatch 1 with
        | Some g => JStr (Str.trim g)
        | None => JUndefined
        end
    | None => JStr ""
    end.

Definition group_of (pats : list RegExp) (name : string) (ts : list string)
    (ms : list (string * (ConversationMemory -> string -> JsValue))) : Intent :=
  mkIntent (List.map PRegExp pats) name ts ms.

Definition intentPatterns : list Intent :=
  [ (* URL-based patterns (check these FIRST before math patterns) *)
    group_of
      [rei "summarize.*webpage|summarize.*url|analyze.*webpage";
       rei "summarize.*from.*http";
       rei "summarize.*this.*webpage";
       rei "summarize.*https?:\/\/";
       rei "analyze.*https?:\/\/";
       rei "summary.*of.*https?:\/\/";
       rei "https?:\/\/.*summarize";
       rei "https?:\/\/.*analyze"]
      "web_ai_analyze" ["extract_text"; "analyze_content"]
      [("extractUrl", extractUrl "")];
    group_of
      [rei "extract.*text|get.*text.*from|read.*webpage|scrape.*text";
       rei "text.*from.*page";
       rei "extract.*data.*from.*http";
       rei "extract.*from.*wiki";
       rei "get.*content.*from";
       rei "extract.*from.*https?:\/\/";
       rei "https?:\/\/.*extract";
       rei "https?:\/\/.*text"]
      "extract_text" ["extract_text"]
      [("extractUrl", extractUrl "https://example.com")];
    group_of
      [rei "fetch|get.*url|download|request.*http"; rei "api.*call";
       rei "get.*data.*from"; rei "retrieve.*from.*http"]
      "fetch_url" ["fetch_url"]
      [("extractUrl", extractUrl "https://jsonplaceholder.typicode.com/posts/1")];
    (* File operations (non-URL) *)
    group_of
      [rei "read|show|display|get.*file"; rei "what.*in.*file"; rei "content.*of"]
      "read_file" ["read_file"]
      [("extractPath", extractPath_read_file)];
    (* Context-aware file saving (save previous results) - PRIORITY: Before statistics *)
    group_of
      [rei "save.*that|save.*it|save.*summary|save.*result";
       rei "write.*that.*to|put.*that.*in|store.*that";
       rei "save.*previous|save.*last";
       rei "create.*file.*with.*that"]
      "save_context" ["write_file"]
      [("extractFileName", extractFileName)];
    (* Mathematical operations (AFTER URL patterns) *)
    group_of
      [rei "calculate|compute|math|solve"; rei "what.*is.*\+|\-|\*|\/"]
      "calculate" ["calculate"]
      [("extractExpression", extractExpression_calculate)];
    group_of
      [rei "statistics|stats|analyze.*numbers|mean|average|mathematical.*sum"]
      "statistics" ["statistics"]
      [("extractNumbers", extractNumbers)];
    group_of
      [rei "list.*files|show.*directory|files.*in"; rei "what.*files"]
      "list_files" ["list_files"]
      [("extractDirectory", extractDirectory)];
    group_of
      [rei "write.*file|save.*to|create.*file"; rei "put.*in.*file"]
      "write_file" ["write_file"]
      [("extractFileInfo", extractFileInfo)];
    group_of
      [rei "analyze.*file.*and|read.*calculate|file.*math|stats.*from.*file"]
      "file_analysis" ["read_file"; "parse_json"; "statistics"]
      [("extractPath", extractPath_file)];
    group_of
      [rei "fetch.*and.*save|download.*to.*file|get.*url.*write"]
      "fetch_and_save" ["fetch_url"; "write_file"]
      [("extractInfo", extractInfo)];
    (* AI-powered intents *)
    group_of
      [rei "summarize|summary|analyze.*content|analyze.*text"; rei "what.*is.*this.*about"]
      "ai_analyze" ["analyze_content"]
      [("extractContent", fun _ _ => JStr "");
       ("extractAnalysisType", extractAnalysisType)];
    group_of
      [rei "generate.*text|write.*content|create.*content"; rei "generate.*story|write.*article"]
      "ai_generate" ["generate_text"]
      [("extractPrompt", extractPrompt)];
    group_of
      [rei "explain|what.*is|how.*does|tell.*me.*about"; rei "help.*understand"]
      "ai_explain" ["explain_concept"]
      [("extractConcept", extractConcept)];
    group_of
      [rei "improve.*text|fix.*text|rewrite|make.*better"; rei "grammar.*check"]
      "ai_improve" ["improve_text"]
      [("extractText", fun _ _ => JStr "");
       ("extractImprovementType", extractImprovementType)];
    group_of
      [rei "answer.*question|ask.*about|question.*about"]
      "ai_question" ["answer_question"]
      [("extractQuestion", extractQuestion)];
    group_of
      [rei "analyze.*file.*with.*ai|ai.*analyze.*file|summarize.*file"]
      "file_ai_analyze" ["read_file"; "analyze_content"]
      [("extractPath", extractPath_file)];
    group_of
      [rei "explain.*calculation|explain.*math|why.*is.*result"]
      "calc_ai_explain" ["calculate"; "explain_concept"]
      [("extractExpression", extractExpression_explain)] ].

(* availableTools: toolName -> { agentId: 'unknown', schema: { name } } *)
Record ToolEntry := mkToolEntry { te_agentId : string; te_schema : JsValue }.

(* availableTools.clear(); tools.forEach(toolName => availableTools.set(toolName, ...)) *)
Definition tools_from (names : list string) : JsMap.t ToolEntry :=
  foldl (fun m toolName =>
           JsMap.set m toolName (mkToolEntry "unknown" (JObj [("name", JStr toolName)])))
        [] names.

Definition matches_entry (lowercaseQuery : string) (p : PatternEntry) : bool :=
  match p with
  | PRegExp x => test x lowercaseQuery
  | PText _ => false
  end.

(* the first group one of whose patterns matches *)
Fixpoint first_group (gs : list Intent) (lowercaseQuery : string) : option Intent :=
  match gs with
  | [] => None
  | g :: gs' =>
      if existsb (matches_entry lowercaseQuery) (patterns g) then Some g
      else first_group gs' lowercaseQuery
  end.

(* Fallback - try to find any tool mention *)
Fixpoint first_mention (names : list string) (lowercaseQuery : string) : option Intent :=
  match names with
  | [] => None
  | toolName :: names' =>
      if Str.includes (Str.replaceFirst "_" " " toolName) lowercaseQuery
      then Some (mkIntent [PText ("Tool " +:+ toolName +:+ " mentioned")] toolName [toolName] [])
      else first_mention names' lowercaseQuery
  end.

Definition unknownIntent : Intent := mkIntent [PText "No pattern matched"] "unknown" [] [].

Definition detectIntent (availableTools : JsMap.t ToolEntry) (query : string) : Intent :=
  let lowercaseQuery := Str.toLowerCase query in
  match first_group intentPatterns lowercaseQuery with
  | Some pattern => pattern
  | None =>
      match first_mention (JsMap.keys availableTools) lowercaseQuery with
      | Some i => i
      | None => unknownIntent
      end
  end.

(** *** The plan compiler *)

Record Step := mkStep {
  tool : string;
  arguments : JsValue;
  description : string;
  dependsOn : option nat }.

Record Plan := mkPlan {
  steps : list Step;
  plan_intent : Intent;     (* plan.intent *)
  originalQuery : string;
  error : option string }.  (* plan.error *)

Fixpoint method (name : string)
    (ms : list (string * (ConversationMemory -> string -> JsValue)))
    : option (ConversationMemory -> string -> JsValue) :=
  match ms with
  | [] => None
  | (n, f) :: ms' => if String.eqb name n then Some f else method name ms'
  end.

(* intent.name(query): a TypeError when the object has no such function *)
Definition call (i : Intent) (name : string) (conversationMemory : ConversationMemory)
    (query : string) : Result JsValue :=
  match method name (methods i) with
  | Some f => Ok (f conversationMemory query)
  | None => Throw ("intent." +:+ name +:+ " is not a function")
  end.

Definition from_json (o : option string) : JsValue :=
  match o with Some t => JStr t | None => JUndefined end.

(* recentResults[recentResults.length - 1], undefined on an empty array *)
Definition last_entry (l : list JsValue) : JsValue := List.last l JUndefined.

(* the text the save_context case writes, from the stored result [last] *)
Definition contentToSave (conversationMemory : ConversationMemory) (last : JsValue)
    : JsValue :=
  if (Js.eq_str (lastIntent conversationMemory) "web_ai_analyze"
      || Js.eq_str (Js.oprop (last_entry (recentResults conversationMemory)) "intent")
           "web_ai_analyze")
     && Js.truthy (Js.prop last "analysis")
  then JStr ("Website Summary" +:+ Str.nl +:+ "================" +:+ Str.nl +:+ Str.nl
             +:+ Js.to_string (Js.prop last "analysis"))
  else if negb (Js.is_undefined (Js.prop last "result")) then
    if Js.is_string (Js.prop last "result") then Js.prop last "result"
    else from_json (Js.stringify2 (Js.prop last "result"))
  else if Js.truthy (Js.prop last "response") then Js.prop last "response"
  else if Js.is_string last then last
  else from_json (Js.stringify2 last).

Definition noPreviousResult : string :=
  "No previous result to save. Please run a command that generates content first.".

Definition createExecutionPlan (conversationMemory : ConversationMemory)
    (i : Intent) (query : string) : Result Plan :=
  let plan (ss : list Step) := Ok (mkPlan ss i query None) in
  let tag := intent i in
  if String.eqb tag "read_file" then
    let? path := call i "extractPath" conversationMemory query in
    plan [mkStep "read_file" (JObj [("path", path)])
            ("Read file: " +:+ Js.to_string path) None]
  else if String.eqb tag "calculate" then
    let? expression := call i "extractExpression" conversationMemory query in
    plan [mkStep "calculate" (JObj [("expression", expression)])
            ("Calculate: " +:+ Js.to_string expression) None]
  else if String.eqb tag "statistics" then
    let? numbers := call i "extractNumbers" conversationMemory query in
    match numbers with
    | JArr l =>
        plan [mkStep "statistics"
                (JObj [("numbers", numbers);
                       ("operations", JArr [JStr "mean"; JStr "sum"; JStr "min";
                                            JStr "max"; JStr "stddev"])])
                ("Analyze numbers: [" +:+ Js.array_join ", " l +:+ "]") None]
    | _ => Throw "numbers.join is not a function"
    end
  else if String.eqb tag "fetch_url" then
    let? url := call i "extractUrl" conversationMemory query in
    plan [mkStep "fetch_url" (JObj [("url", url)])
            ("Fetch URL: " +:+ Js.to_string url) None]
  else if String.eqb tag "extract_text" then
    let? url := call i "extractUrl" conversationMemory query in
    plan [mkStep "extract_text" (JObj [("url", url); ("max_length", Js.int 2000)])
            ("Extract text from: " +:+ Js.to_string url) None]
  else if String.eqb tag "list_files" then
    let? directory := call i "extractDirectory" conversationMemory query in
    plan [mkStep "list_files" (JObj [("directory", directory)])
            ("List files in: " +:+ Js.to_string directory) None]
  else if String.eqb tag "write_file" then
    let? fileInfo := call i "extractFileInfo" conversationMemory query in
    plan [mkStep "write_file" fileInfo
            ("Write to file: " +:+ Js.to_string (Js.prop fileInfo "path")) None]
  else if String.eqb tag "save_context" then
    let? fileName := call i "extractFileName" conversationMemory query in
    (* Try lastResult, then recentResults as fallback *)
    let last :=
      if negb (Js.truthy (lastResult conversationMemory))
         && (0 <? length (recentResults conversationMemory))%nat
      then
        let recent := last_entry (recentResults conversationMemory) in
        Js.or (Js.oprop recent "result") recent
      else lastResult conversationMemory in
    if negb (Js.truthy last) then Ok (mkPlan [] i query (Some noPreviousResult))
    else
      plan [mkStep "write_file"
              (JObj [("path", fileName); ("content", contentToSave conversationMemory last)])
              ("Save previous result to: " +:+ Js.to_string fileName) None]
  else if String.eqb tag "file_analysis" then
    let? filePath := call i "extractPath" conversationMemory query in
    plan [mkStep "read_file" (JObj [("path", filePath)])
            ("Read file: " +:+ Js.to_string filePath) None;
          mkStep "statistics"
            (JObj [("numbers", JArr [Js.int 1; Js.int 2; Js.int 3; Js.int 4; Js.int 5]);
                   ("operations", JArr [JStr "mean"; JStr "sum"])])
            "Analyze data (simplified for demo)" (Some 0%nat)]
  else if String.eqb tag "fetch_and_save" then
    let? fetchInfo := call i "extractInfo" conversationMemory query in
    plan [mkStep "fetch_url" (JObj [("url", Js.prop fetchInfo "url")])
            ("Fetch: " +:+ Js.to_string (Js.prop fetchInfo "url")) None;
          mkStep "write_file"
            (JObj [("path", Js.prop fetchInfo "path"); ("content", JStr "PLACEHOLDER")])
            ("Save to: " +:+ Js.to_string (Js.prop fetchInfo "path")) (Some 0%nat)]
  else if String.eqb tag "ai_analyze" then
    let? content := call i "extractContent" conversationMemory query in
    let? analysisType := call i "extractAnalysisType" conversationMemory query in
    plan [mkStep "analyze_content"
            (JObj [("content",
                    Js.or content (JStr "Content will be provided by compound workflow"));
                   ("analysis_type", analysisType)])
            ("AI analyze content: " +:+ Js.to_string analysisType) None]
  else if String.eqb tag "ai_generate" then
    let? prompt := call i "extractPrompt" conversationMemory query in
    plan [mkStep "generate_text"
            (JObj [("prompt", prompt); ("max_tokens", Js.int 500); ("temperature", JNum 7 1)])
            ("AI generate: " +:+ Js.to_string prompt) None]
  else if String.eqb tag "ai_explain" then
    let? concept := call i "extractConcept" conversationMemory query in
    plan [mkStep "explain_concept"
            (JObj [("concept", concept); ("complexity_level", JStr "beginner");
                   ("include_examples", JBool true)])
            ("AI explain: " +:+ Js.to_string concept) None]
  else if String.eqb tag "ai_improve" then
    let? text := call i "extractText" conversationMemory query in
    let? improvementType := call i "extractImprovementType" conversationMemory query in
    plan [mkStep "improve_text"
            (JObj [("text", Js.or text (JStr "Text will be provided by compound workflow"));
                   ("improvement_type", improvementType)])
            ("AI improve text: " +:+ Js.to_string improvementType) None]
  else if String.eqb tag "ai_question" then
    let? question := call i "extractQuestion" conversationMemory query in
    plan [mkStep "answer_question" (JObj [("question", question)])
            ("AI answer: " +:+ Js.to_string question) None]
  else if String.eqb tag "web_ai_analyze" then
    let? url := call i "extractUrl" conversationMemory query in
    plan [mkStep "extract_text" (JObj [("url", url); ("max_length", Js.int 3000)])
            ("Extract text from: " +:+ Js.to_string url) None;
          mkStep "analyze_content"
            (JObj [("content", JStr "PLACEHOLDER"); ("analysis_type", JStr "summary")])
            "AI analyze extracted content" (Some 0%nat)]
  else if String.eqb tag "file_ai_analyze" then
    let? aiFilePath := call i "extractPath" conversationMemory query in
    plan [mkStep "read_file" (JObj [("path", aiFilePath)])
            ("Read file: " +:+ Js.to_string aiFilePath) None;
          mkStep "analyze_content"
            (JObj [("content", JStr "PLACEHOLDER"); ("analysis_type", JStr "comprehensive")])
            "AI analyze file content" (Some 0%nat)]
  else if String.eqb tag "calc_ai_explain" then
    let? expression := call i "extractExpression" conversationMemory query in
    plan [mkStep "calculate" (JObj [("expression", expression)])
            ("Calculate: " +:+ Js.to_string expression) None;
          mkStep "explain_concept"
            (JObj [("concept", JStr ("mathematical calculation: " +:+ Js.to_string expression));
                   ("context", JStr "PLACEHOLDER");
                   ("complexity_level", JStr "beginner");
                   ("include_examples", JBool true)])
            "AI explain calculation" (Some 0%nat)]
  else
    plan [mkStep "error"
            (JObj [("message", JStr ("I don't understand how to: " +:+ query))])
            "Unknown request" None].

(** *** Executing a step *)

Definition set_argument (step : Step) (k : string) (v : JsValue) : Step :=
  mkStep (tool step) (Js.set_prop (arguments step) k v) (description step) (dependsOn step).

(* previousResults[i] *)
Definition at_index (l : list JsValue) (i : nat) : JsValue :=
  match l !! i with Some v => v | None => JUndefined end.

(* // Handle dependencies: the step with its arguments rewritten *)
Definition handleDependencies (step : Step) (previousResults : list JsValue) : Step :=
  match dependsOn step with
  | None => step
  | Some d =>
      let dependentResult := at_index previousResults d in
      let step :=
        if String.eqb (tool step) "write_file" && Js.truthy (Js.oprop dependentResult "data")
        then
          let data := Js.prop dependentResult "data" in
          set_argument step "content"
            (if Js.typeof_object data then from_json (Js.stringify2 data)
             else JStr (Js.to_string data))
        else step in
      let step :=
        if String.eqb (tool step) "analyze_content" then
          if Js.truthy (Js.oprop (Js.oprop dependentResult "result") "text")
          then set_argument step "content" (Js.prop (Js.prop dependentResult "result") "text")
          else if Js.truthy (Js.oprop dependentResult "text")
          then set_argument step "content" (Js.prop dependentResult "text")
          else step
        else step in
      let step :=
        if String.eqb (tool step) "explain_concept" then
          if Js.truthy (Js.oprop (Js.oprop dependentResult "result") "result")
          then set_argument step "context"
                 (JStr ("The calculation result is: "
                        +:+ Js.to_string (Js.prop (Js.prop dependentResult "result") "result")))
          else if Js.truthy (Js.oprop dependentResult "result")
          then set_argument step "context"
                 (JStr ("The calculation result is: "
                        +:+ Js.to_string (Js.prop dependentResult "result")))
          else step
        else step in
      if String.eqb (tool step) "improve_text" then
        if Js.truthy (Js.oprop (Js.oprop dependentResult "result") "content")
        then set_argument step "text" (Js.prop (Js.prop dependentResult "result") "content")
        else if Js.truthy (Js.oprop dependentResult "content")
        then set_argument step "text" (Js.prop dependentResult "content")
        else step
      else step
  end.

(* what the waiter of a call is completed with *)
Definition response_result (step : Step) (result : JsValue) : JsValue :=
  JObj [("success", JBool true); ("result", result); ("tool", JStr (tool step))].

Definition error_result (step : Step) (err : JsValue) : JsValue :=
  JObj [("success", JBool false);
        ("error", Js.or (Js.oprop err "message") (JStr "Unknown error"));
        ("tool", JStr (tool step))].

Definition timeout_result (toolName : string) : JsValue :=
  JObj [("success", JBool false); ("error", JStr "Tool call timeout");
        ("tool", JStr toolName)].

Definition requestId (now : Z) (stepIndex : nat) : string :=
  "orchestrator-" +:+ Str.of_Z now +:+ "-" +:+ Str.of_nat stepIndex.

Definition toolCall (id : string) (step : Step) : JsValue :=
  JObj [("type", JStr "tools/call"); ("id", JStr id); ("from", JStr agentId);
        ("params", JObj [("name", JStr (tool step)); ("arguments", arguments step)])].

(* the part of executeStep before the promise: a result at once, or the
   step to dispatch *)
Inductive Prepared := Immediate (result : JsValue) | Dispatch (step : Step).

Definition prepare (availableTools : JsMap.t ToolEntry) (step : Step)
    (previousResults : list JsValue) : Prepared :=
  if String.eqb (tool step) "error" then
    Immediate (JObj [("success", JBool false);
                     ("error", Js.prop (arguments step) "message")])
  else
    let step := handleDependencies step previousResults in
    match JsMap.get availableTools (tool step) with
    | None =>
        Immediate (JObj [("success", JBool false);
                         ("error", JStr ("Tool " +:+ tool step +:+ " not available"))])
    | Some _ => Dispatch step
    end.

(** *** Request correlation: pendingRequests, the handlers and the timer *)

(* requestInfo; [resolve] names the promise the entry completes *)
Record RequestInfo := mkRequestInfo {
  resolve : nat;
  ri_step : Step;
  ri_stepIndex : nat;
  timestamp : Z }.

(* the closure given to setTimeout, with its delay in milliseconds *)
Record Timer := mkTimer {
  tm_requestId : string;
  tm_resolve : nat;
  tm_tool : string;
  tm_delay : Z }.

Record Correlator := mkCorrelator {
  pendingRequests : gmap string RequestInfo;
  settled : list (nat * JsValue);    (* every call of a resolve function, in order *)
  sent : list JsValue;               (* every ws.send, in order *)
  promises : nat }.                  (* promises created so far *)

Definition settle (h : nat) (v : JsValue) (c : Correlator) : Correlator :=
  mkCorrelator (pendingRequests c) ((settled c ++ [(h, v)])%list) (sent c) (promises c).

Definition forget (id : string) (c : Correlator) : Correlator :=
  mkCorrelator (delete id (pendingRequests c)) (settled c) (sent c) (promises c).

(* the body of the promise in executeStep *)
Definition dispatch (now : Z) (stepIndex : nat) (step : Step) (c : Correlator)
    : Correlator * Timer :=
  let id := requestId now stepIndex in
  let h := promises c in
  (mkCorrelator (<[id := mkRequestInfo h step stepIndex now]> (pendingRequests c))
     (settled c) ((sent c ++ [toolCall id step])%list) (S h),
   mkTimer id h (tool step) 10000).

Definition pending (c : Correlator) (id : JsValue) : option (string * RequestInfo) :=
  match id with
  | JStr k => match pendingRequests c !! k with Some i => Some (k, i) | None => None end
  | _ => None
  end.

(* if (msg.type === 'response') *)
Definition on_response (msg : JsValue) (c : Correlator) : Correlator :=
  match pending c (Js.prop msg "id") with
  | Some (k, requestInfo) =>
      settle (resolve requestInfo)
        (response_result (ri_step requestInfo) (Js.prop msg "result")) (forget k c)
  | None => c
  end.

(* if (msg.type === 'error') *)
Definition on_error (msg : JsValue) (c : Correlator) : Correlator :=
  match pending c (Js.prop msg "id") with
  | Some (k, requestInfo) =>
      settle (resolve requestInfo)
        (error_result (ri_step requestInfo) (Js.prop msg "error")) (forget k c)
  | None => c
  end.

(* the setTimeout callback *)
Definition on_timeout (t : Timer) (c : Correlator) : Correlator :=
  match pendingRequests c !! tm_requestId t with
  | Some _ => settle (tm_resolve t) (timeout_result (tm_tool t)) (forget (tm_requestId t) c)
  | None => c
  end.

Inductive Event :=
| Response (msg : JsValue)   (* a message of type response arrives *)
| Error (msg : JsValue)      (* a message of type error arrives *)
| Timeout (t : Timer).       (* a timer fires *)

Definition handle (ev : Event) (c : Correlator) : Correlator :=
  match ev with
  | Response msg => on_response msg c
  | Error msg => on_error msg c
  | Timeout t => on_timeout t c
  end.

Definition handle_all (evs : list Event) (c : Correlator) : Correlator :=
  foldl (fun c ev => handle ev c) c evs.

(* the event is a resolution attempt for the token [id] *)
Definition targets (id : string) (ev : Event) : bool :=
  match ev with
  | Response msg | Error msg => Js.eq_str (Js.prop msg "id") id
  | Timeout t => String.eqb (tm_requestId t) id
  end.

(* how often the promise [h] was completed *)
Definition completions (h : nat) (c : Correlator) : nat :=
  length (List.filter (fun p => (fst p =? h)%nat) (settled c)).

(** *** Running a plan against the world

    An awaited call is completed by the first of its matching response,
    its matching error and its timer; the world says which, and when
    [Date.now()] is read what it returns. *)

Inductive Reply :=
| Responded (result : JsValue)   (* response { id, result } comes first *)
| Failed (err : JsValue)         (* error { id, error } comes first *)
| TimedOut.                      (* neither within the delay *)

Record World := mkWorld {
  clock : nat -> Z;              (* Date.now() when step i is dispatched *)
  finish : Z;                    (* Date.now() when the memory is updated *)
  reply : JsValue -> Reply }.    (* the fate of a tools/call message *)

Definition outcome (step : Step) (r : Reply) : JsValue :=
  match r with
  | Responded result => response_result step result
  | Failed err => error_result step err
  | TimedOut => timeout_result (tool step)
  end.

(* await executeStep(plan, stepIndex, previousResults): the result and the
   message sent, if one is *)
Definition executeStep (w : World) (availableTools : JsMap.t ToolEntry) (plan : Plan)
    (stepIndex : nat) (previousResults : list JsValue) : Result (JsValue * list JsValue) :=
  match steps plan !! stepIndex with
  | None => Throw "Cannot read properties of undefined (reading 'tool')"
  | Some step =>
      match prepare availableTools step previousResults with
      | Immediate result => Ok (result, [])
      | Dispatch step =>
          let call := toolCall (requestId (clock w stepIndex) stepIndex) step in
          Ok (outcome step (reply w call), [call])
      end
  end.

(* for (let i = 0; i < plan.steps.length; i++) { ...; if (!result.success) break; }
   [left] counts the iterations that remain *)
Fixpoint run_steps (w : World) (availableTools : JsMap.t ToolEntry) (plan : Plan)
    (left : nat) (i : nat) (results : list JsValue) (calls : list JsValue)
    : Result (list JsValue * list JsValue) :=
  match left with
  | O => Ok (results, calls)
  | S left' =>
      let? r := executeStep w availableTools plan i results in
      let results := (results ++ [fst r])%list in
      let calls := (calls ++ snd r)%list in
      if negb (Js.truthy (Js.prop (fst r) "success")) then Ok (results, calls)
      else run_steps w availableTools plan left' (S i) results calls
  end.

Definition run_plan (w : World) (availableTools : JsMap.t ToolEntry) (plan : Plan)
    : Result (list JsValue * list JsValue) :=
  run_steps w availableTools plan (length (steps plan)) 0 [] [].

(** *** The response synthesizer *)

Definition gt (v : JsValue) (n : Z) : bool :=
  match v with JNum m e => (n * 10 ^ Z.of_nat e <? m) | _ => false end.

(* Number.prototype.toFixed(2) on a decimal, halves away from zero *)
Definition toFixed2 (m : Z) (e : nat) : string :=
  let d := 10 ^ Z.of_nat e in
  let n := (2 * (Z.abs m * 100) + d) / (2 * d) in
  let digits := Str.of_Z n in
  let padded := Js.zeros (3 - String.length digits) +:+ digits in
  let k := (String.length padded - 2)%nat in
  (if m <? 0 then "-" else "") +:+ Str.take k padded +:+ "." +:+ Str.drop k padded.

(* ${x?.toFixed(2)} *)
Definition opt_toFixed2 (name : string) (x : JsValue) : Result string :=
  match x with
  | JUndefined | JNull => Ok "undefined"
  | JNum m e => Ok (toFixed2 m e)
  | _ => Throw (name +:+ "?.toFixed is not a function")
  end.

(* content.length > 200 ? content.substring(0, 200) + '...' : content *)
Definition preview (content : JsValue) : Result string :=
  if gt (Js.prop content "length") 200 then
    match content with
    | JStr c => Ok (Str.take 200 c +:+ "...")
    | _ => Throw "fileResult.content.substring is not a function"
    end
  else Ok (Js.to_string content).

(* files.slice(0, 10).map(f => `* ${f.name} (${f.type})`) *)
Fixpoint file_lines (fs : list JsValue) : Result (list string) :=
  match fs with
  | [] => Ok []
  | f :: fs' =>
      if Js.nullish f then Throw "Cannot read properties of undefined (reading 'name')"
      else
        let? rest := file_lines fs' in
        Ok ((Icon.bullet +:+ " " +:+ Js.to_string (Js.prop f "name") +:+ " ("
             +:+ Js.to_string (Js.prop f "type") +:+ ")") :: rest)
  end.

Definition ts (v : JsValue) : string := Js.to_string v.

Definition synthesizeResponse (conversationMemory : ConversationMemory) (plan : Plan)
    (results : list JsValue) : Result string :=
  let successful := List.filter (fun r => Js.truthy (Js.prop r "success")) results in
  let failed := List.filter (fun r => negb (Js.truthy (Js.prop r "success"))) results in
  let first := Js.oprop (at_index successful 0) "result" in    (* successful[0]?.result *)
  let second := Js.oprop (at_index successful 1) "result" in   (* successful[1]?.result *)
  let tag := intent (plan_intent plan) in
  let nl := Str.nl in
  match failed with
  | f :: _ => Ok (Icon.cross +:+ " I encountered an error: " +:+ ts (Js.prop f "error"))
  | [] =>
      if String.eqb tag "read_file" then
        if Js.truthy (Js.oprop first "content") then
          let? p := preview (Js.prop first "content") in
          Ok (Icon.page +:+ " File content (" +:+ ts (Js.prop first "size") +:+ " bytes):"
              +:+ nl +:+ nl +:+ p)
        else Ok (Icon.page +:+ " File read successfully but no content returned.")
      else if String.eqb tag "calculate" then
        Ok (Icon.abacus +:+ " Result: " +:+ ts (Js.oprop first "expression") +:+ " = "
            +:+ ts (Js.oprop first "result"))
      else if String.eqb tag "statistics" then
        if Js.truthy (Js.oprop first "statistics") then
          let stats := Js.prop first "statistics" in
          let? mean := opt_toFixed2 "stats.mean" (Js.prop stats "mean") in
          let? stddev := opt_toFixed2 "stats.stddev" (Js.prop stats "stddev") in
          Ok (Icon.chart +:+ " Statistics for " +:+ ts (Js.prop first "count") +:+ " numbers:" +:+ nl
              +:+ Icon.bullet +:+ " Sum: " +:+ ts (Js.prop stats "sum") +:+ nl
              +:+ Icon.bullet +:+ " Mean: " +:+ mean +:+ nl
              +:+ Icon.bullet +:+ " Min: " +:+ ts (Js.prop stats "min") +:+ ", Max: "
              +:+ ts (Js.prop stats "max") +:+ nl
              +:+ Icon.bullet +:+ " Std Dev: " +:+ stddev)
        else Ok (Icon.chart +:+ " Statistics calculated successfully.")
      else if String.eqb tag "fetch_url" then
        Ok (Icon.globe +:+ " Fetched " +:+ ts (Js.oprop first "url") +:+ " ("
            +:+ ts (Js.oprop first "status") +:+ " " +:+ ts (Js.oprop first "statusText") +:+ ")" +:+ nl
            +:+ "Content type: " +:+ ts (Js.oprop first "contentType") +:+ nl
            +:+ "Size: " +:+ ts (Js.oprop first "size") +:+ " bytes")
      else if String.eqb tag "extract_text" then
        if Js.truthy (Js.oprop first "text") then
          Ok (Icon.page +:+ " Extracted text from " +:+ ts (Js.prop first "url") +:+ nl
              +:+ Icon.news +:+ " Title: " +:+ ts (Js.prop first "title") +:+ nl
              +:+ Icon.ruler +:+ " Length: " +:+ ts (Js.prop first "extractedLength")
              +:+ " characters" +:+ nl +:+ nl
              +:+ ts (Js.prop first "text"))
        else Ok (Icon.page +:+ " Text extracted from "
                 +:+ ts (Js.or (Js.oprop first "url") (JStr "webpage"))
                 +:+ " but no content found.")
      else if String.eqb tag "list_files" then
        if Js.truthy (Js.oprop first "files") then
          match Js.prop first "files" with
          | JArr fs =>
              let? lines := file_lines (List.firstn 10 fs) in
              Ok (Icon.folder +:+ " Files in " +:+ ts (Js.prop first "directory") +:+ ":" +:+ nl
                  +:+ Str.join nl lines)
          | JStr _ => Throw "listResult.files.slice(...).map is not a function"
          | _ => Throw "listResult.files.slice is not a function"
          end
        else Ok (Icon.folder +:+ " Directory listing completed.")
      else if String.eqb tag "write_file" then
        Ok (Icon.disk +:+ " Successfully wrote " +:+ ts (Js.oprop first "size")
            +:+ " bytes to " +:+ ts (Js.oprop first "path"))
      else if String.eqb tag "save_context" then
        if negb (Js.truthy first) then
          Ok (Icon.cross +:+ " Failed to save file - no result returned")
        else if negb (Js.truthy (Js.prop first "success")) then
          Ok (Icon.cross +:+ " Failed to save file: "
              +:+ ts (Js.or (Js.prop first "error") (JStr "Unknown error")))
        else
          let filePath := Js.or (Js.prop first "path") (JStr "unknown file") in
          let fileSize := Js.or (Js.prop first "size") (Js.int 0) in
          let sourceQuery := Js.or (lastQuery conversationMemory) (JStr "previous operation") in
          Ok (Icon.disk +:+ " Successfully saved previous result to " +:+ ts filePath +:+ nl
              +:+ Icon.page +:+ " Content: " +:+ ts fileSize +:+ " bytes from " +:+ q
              +:+ ts sourceQuery +:+ q)
      else if String.eqb tag "file_analysis" then
        Ok (Icon.chart +:+ " Analyzed file: " +:+ ts (Js.oprop first "path") +:+ nl
            +:+ "File size: " +:+ ts (Js.oprop first "size") +:+ " bytes" +:+ nl
            +:+ "Analysis: " +:+ ts (from_json (Js.stringify (Js.oprop second "statistics"))))
      else if String.eqb tag "fetch_and_save" then
        Ok (Icon.globe_disk +:+ " Downloaded " +:+ ts (Js.oprop first "url") +:+ " and saved to "
            +:+ ts (Js.oprop second "path") +:+ nl
            +:+ "Status: " +:+ ts (Js.oprop first "status") +:+ ", Size: "
            +:+ ts (Js.oprop second "size") +:+ " bytes")
      else if String.eqb tag "ai_analyze" then
        Ok (Icon.robot +:+ " AI Analysis:" +:+ nl +:+ nl
            +:+ ts (Js.or (Js.oprop first "analysis") (JStr "Analysis completed successfully.")))
      else if String.eqb tag "ai_generate" then
        Ok (Icon.sparkles +:+ " AI Generated Content:" +:+ nl +:+ nl
            +:+ ts (Js.or (Js.oprop first "text") (JStr "Content generated successfully.")))
      else if String.eqb tag "ai_explain" then
        Ok (Icon.cap +:+ " AI Explanation:" +:+ nl +:+ nl
            +:+ ts (Js.or (Js.oprop first "explanation") (JStr "Explanation provided successfully.")))
      else if String.eqb tag "ai_improve" then
        Ok (Icon.memo +:+ " AI Improved Text:" +:+ nl +:+ nl
            +:+ ts (Js.or (Js.oprop first "improved_text") (JStr "Text improved successfully.")))
      else if String.eqb tag "ai_question" then
        Ok (Icon.thought +:+ " AI Answer:" +:+ nl +:+ nl
            +:+ ts (Js.or (Js.oprop first "answer") (JStr "Question answered successfully.")))
      else if String.eqb tag "web_ai_analyze" then
        Ok (Icon.globe_robot +:+ " Web Content Analysis:" +:+ nl +:+ nl
            +:+ Icon.page +:+ " Extracted from: " +:+ ts (Js.oprop first "url") +:+ nl
            +:+ Icon.news +:+ " Title: " +:+ ts (Js.oprop first "title") +:+ nl +:+ nl
            +:+ Icon.robot +:+ " AI Analysis:" +:+ nl
            +:+ ts (Js.or (Js.oprop second "analysis") (JStr "Analysis completed.")))
      else if String.eqb tag "file_ai_analyze" then
        Ok (Icon.page_robot +:+ " File Content Analysis:" +:+ nl +:+ nl
            +:+ Icon.folder +:+ " File: " +:+ ts (Js.oprop first "path") +:+ nl
            +:+ Icon.ruler +:+ " Size: " +:+ ts (Js.oprop first "size") +:+ " bytes" +:+ nl +:+ nl
            +:+ Icon.robot +:+ " AI Analysis:" +:+ nl
            +:+ ts (Js.or (Js.oprop second "analysis") (JStr "Analysis completed.")))
      else if String.eqb tag "calc_ai_explain" then
        Ok (Icon.abacus_robot +:+ " Mathematical Explanation:" +:+ nl +:+ nl
            +:+ Icon.chart +:+ " Calculation: " +:+ ts (Js.oprop first "expression") +:+ " = "
            +:+ ts (Js.oprop first "result") +:+ nl +:+ nl
            +:+ Icon.cap +:+ " AI Explanation:" +:+ nl
            +:+ ts (Js.or (Js.oprop second "explanation") (JStr "Explanation provided.")))
      else
        Ok (Icon.check +:+ " Completed " +:+ Str.of_nat (length successful)
            +:+ " operations successfully.")
  end.

(** *** natural_request *)

(* // Store result in conversation memory for future reference *)
Definition remember (now : Z) (tag : string) (query : string) (results : list JsValue)
    (conversationMemory : ConversationMemory) : ConversationMemory :=
  let final := last_entry results in
  if (0 <? length results)%nat && Js.truthy (Js.oprop final "success") then
    let lastResult := Js.prop final "result" in
    let entry := JObj [("query", JStr query); ("intent", JStr tag);
                       ("result", lastResult); ("timestamp", Js.int now)] in
    let recent := (recentResults conversationMemory ++ [entry])%list in
    mkMemory lastResult (JStr query) (JStr tag)
      (if (5 <? length recent)%nat then List.tl recent else recent)
  else conversationMemory.

Definition unknownResponse (query : string) : string :=
  let nl := Str.nl in
  Icon.thinking +:+ " I'm not sure how to help with: " +:+ q +:+ query +:+ q +:+ nl +:+ nl
  +:+ "I can help with:" +:+ nl
  +:+ Icon.bullet +:+ " Reading files" +:+ nl
  +:+ Icon.bullet +:+ " Mathematical calculations" +:+ nl
  +:+ Icon.bullet +:+ " Statistics" +:+ nl
  +:+ Icon.bullet +:+ " Web requests" +:+ nl
  +:+ Icon.bullet +:+ " File operations" +:+ nl +:+ nl
  +:+ "Try asking something like " +:+ q +:+ "read package.json" +:+ q +:+ " or "
  +:+ q +:+ "calculate 2 + 3 * 4" +:+ q.

(* the catch clause *)
Definition caught (args : JsValue) (message : string) : JsValue :=
  JObj [("success", JBool false); ("query", Js.prop args "query");
        ("error", JStr message);
        ("response", JStr (Icon.cross +:+ " Error processing request: " +:+ message))].

Record State := mkState {
  availableTools : JsMap.t ToolEntry;
  conversationMemory : ConversationMemory }.

(* what a call of toolHandlers.natural_request does *)
Record Run := mkRun {
  returned : JsValue;                 (* the object the handler returns *)
  memory : ConversationMemory;        (* conversationMemory afterwards *)
  calls : list JsValue }.             (* the tools/call messages it sent *)

(* the body of the try block *)
Definition natural_request_try (w : World) (st : State) (args : JsValue)
    : Result Run :=
  match Js.prop args "query" with
  | JStr query =>
      let i := detectIntent (availableTools st) query in
      if String.eqb (intent i) "unknown" then
        Ok (mkRun (JObj [("success", JBool true); ("query", JStr query);
                         ("intent", JStr "unknown");
                         ("response", JStr (unknownResponse query))])
              (conversationMemory st) [])
      else
        let? plan := createExecutionPlan (conversationMemory st) i query in
        let? r := run_plan w (availableTools st) plan in
        let? response := synthesizeResponse (conversationMemory st) plan (fst r) in
        Ok (mkRun (JObj [("success", JBool true); ("query", JStr query);
                         ("intent", JStr (intent i));
                         ("executedSteps", Js.nat (length (steps plan)));
                         ("response", JStr response)])
              (remember (finish w) (intent i) query (fst r) (conversationMemory st))
              (snd r))
  | JUndefined => Throw "Cannot read properties of undefined (reading 'toLowerCase')"
  | JNull => Throw "Cannot read properties of null (reading 'toLowerCase')"
  | _ => Throw "query.toLowerCase is not a function"
  end.

(* toolHandlers.natural_request(args), for an args object *)
Definition natural_request (w : World) (st : State) (args : JsValue) : Run :=
  match natural_request_try w st args with
  | Ok r => r
  | Throw message => mkRun (caught args message) (conversationMemory st) []
  end.

(** *** The message handler *)

(* msg.type === 'registered' and 'capabilities_updated' *)
Definition update_tools (msg : JsValue) (st : State) : State :=
  match Js.oprop (Js.prop msg "serverCapabilities") "tools" with
  | JArr names => mkState (tools_from (List.map Js.to_string names)) (conversationMemory st)
  | tools =>
      (* a truthy value that is no array: the map is cleared, then forEach
         is not a function *)
      if Js.truthy tools then mkState [] (conversationMemory st) else st
  end.

(* msg.type === 'tools/call' for natural_request: the message that carries
   the handler's result back, unless the id marks an async execution *)
Definition answer (msg : JsValue) (r : Run) : option JsValue :=
  match Js.prop msg "id" with
  | JStr id =>
      if Str.startsWith "orchestrator-async" id then None
      else Some (JObj [("type", JStr "response"); ("id", JStr id);
                       ("result", returned r);
                       ("_workflowId", Js.prop msg "_workflowId")])
  | _ => None
  end.

(** *** natural_request as a process

    The handler is an async function. A call of it runs until it awaits
    the promise of a tools/call it has sent, and goes on when that promise
    is completed, in the turn of the event loop in which a message handler
    or a timer completes it. Several calls can await at once; they share
    [pendingRequests], [availableTools] and [conversationMemory].
    [Date.now()] is the clock of the turn. *)

Definition timer_eqb (a b : Timer) : bool :=
  String.eqb (tm_requestId a) (tm_requestId b) && (tm_resolve a =? tm_resolve b)%nat
  && String.eqb (tm_tool a) (tm_tool b) && (tm_delay a =? tm_delay b).

(* a call of natural_request at [await executeStep(plan, i, results)] *)
Record Awaiting := mkAwaiting {
  aw_args : JsValue;
  aw_query : string;
  aw_intent : Intent;
  aw_plan : Plan;
  aw_index : nat;                 (* i *)
  aw_results : list JsValue;      (* results *)
  aw_timer : Timer }.             (* the timer of the call awaited: its id and its promise *)

(* a call of natural_request that has returned *)
Record Returned := mkReturned {
  rt_args : JsValue;
  rt_plan : option Plan;          (* the plan, when the call came to run one *)
  rt_results : list JsValue;      (* results, when the loop ended *)
  rt_value : JsValue }.           (* the object returned *)

Record Process := mkProcess {
  pr_tools : JsMap.t ToolEntry;   (* availableTools *)
  pr_memory : ConversationMemory;
  pr_correlator : Correlator;
  pr_timers : list Timer;         (* the timers that are set and have not fired *)
  pr_awaiting : list Awaiting;
  pr_returned : list Returned }.

Definition start : Process :=
  mkProcess [] initialMemory (mkCorrelator ∅ [] [] 0) [] [] [].

(* where the loop stops: at the await of a call it sent, or at its end *)
Inductive Pause :=
| Awaits (c : Correlator) (i : nat) (results : list JsValue) (t : Timer)
| Ends (results : list JsValue).

(* for (let i = ...; i < plan.steps.length; i++) { const result = await
   executeStep(plan, i, results); results.push(result); if (!result.success)
   break; } from step [i]; a result that executeStep returns at once does not
   leave the turn. [left] bounds the iterations *)
Fixpoint advance (left : nat) (now : Z) (availableTools : JsMap.t ToolEntry) (plan : Plan)
    (i : nat) (results : list JsValue) (c : Correlator) : Pause :=
  match left with
  | O => Ends results
  | S left' =>
      match steps plan !! i with
      | None => Ends results
      | Some step =>
          match prepare availableTools step results with
          | Immediate result =>
              let results := (results ++ [result])%list in
              if negb (Js.truthy (Js.prop result "success")) then Ends results
              else advance left' now availableTools plan (S i) results c
          | Dispatch step =>
              let d := dispatch now i step c in
              Awaits (fst d) i results (snd d)
          end
      end
  end.

(* after the loop: the response, the memory, the object returned *)
Definition conclude (now : Z) (args : JsValue) (query : string) (i : Intent) (plan : Plan)
    (results : list JsValue) (p : Process) : Process :=
  match synthesizeResponse (pr_memory p) plan results with
  | Ok response =>
      mkProcess (pr_tools p) (remember now (intent i) query results (pr_memory p))
        (pr_correlator p) (pr_timers p) (pr_awaiting p)
        (pr_returned p ++
         [mkReturned args (Some plan) results
            (JObj [("success", JBool true); ("query", JStr query);
                   ("intent", JStr (intent i));
                   ("executedSteps", Js.nat (length (steps plan)));
                   ("response", JStr response)])])%list
  | Throw message =>
      mkProcess (pr_tools p) (pr_memory p) (pr_correlator p) (pr_timers p) (pr_awaiting p)
        (pr_returned p ++ [mkReturned args (Some plan) results (caught args message)])%list
  end.

(* the loop from step [i] on, and what follows it *)
Definition proceed (now : Z) (args : JsValue) (query : string) (i : Intent) (plan : Plan)
    (index : nat) (results : list JsValue) (p : Process) : Process :=
  match advance (S (length (steps plan))) now (pr_tools p) plan index results
          (pr_correlator p) with
  | Awaits c j rs t =>
      mkProcess (pr_tools p) (pr_memory p) c (pr_timers p ++ [t])%list
        (pr_awaiting p ++ [mkAwaiting args query i plan j rs t])%list (pr_returned p)
  | Ends rs => conclude now args query i plan rs p
  end.

Definition returns (args : JsValue) (value : JsValue) (p : Process) : Process :=
  mkProcess (pr_tools p) (pr_memory p) (pr_correlator p) (pr_timers p) (pr_awaiting p)
    (pr_returned p ++ [mkReturned args None [] value])%list.

(* toolHandlers.natural_request(args) is called, for an args object *)
Definition invoke (now : Z) (args : JsValue) (p : Process) : Process :=
  match Js.prop args "query" with
  | JStr query =>
      let i := detectIntent (pr_tools p) query in
      if String.eqb (intent i) "unknown" then
        returns args
          (JObj [("success", JBool true); ("query", JStr query);
                 ("intent", JStr "unknown");
                 ("response", JStr (unknownResponse query))]) p
      else
        match createExecutionPlan (pr_memory p) i query with
        | Ok plan => proceed now args query i plan 0 [] p
        | Throw message => returns args (caught args message) p
        end
  | JUndefined =>
      returns args (caught args "Cannot read properties of undefined (reading 'toLowerCase')") p
  | JNull =>
      returns args (caught args "Cannot read properties of null (reading 'toLowerCase')") p
  | _ => returns args (caught args "query.toLowerCase is not a function") p
  end.

(* the call that awaits the promise [h], and the others *)
Fixpoint take_awaiting (h : nat) (l : list Awaiting) : option (Awaiting * list Awaiting) :=
  match l with
  | [] => None
  | a :: l' =>
      if (tm_resolve (aw_timer a) =? h)%nat then Some (a, l')
      else match take_awaiting h l' with
           | Some (b, rest) => Some (b, a :: rest)
           | None => None
           end
  end.

(* the promise [h] is completed with [v]: the call that awaits it goes on *)
Definition resume (now : Z) (h : nat) (v : JsValue) (p : Process) : Process :=
  match take_awaiting h (pr_awaiting p) with
  | None => p
  | Some (a, rest) =>
      let p := mkProcess (pr_tools p) (pr_memory p) (pr_correlator p) (pr_timers p) rest
                 (pr_returned p) in
      let results := (aw_results a ++ [v])%list in
      if negb (Js.truthy (Js.prop v "success")) then
        conclude now (aw_args a) (aw_query a) (aw_intent a) (aw_plan a) results p
      else
        proceed now (aw_args a) (aw_query a) (aw_intent a) (aw_plan a) (S (aw_index a))
          results p
  end.

Fixpoint remove_timer (t : Timer) (l : list Timer) : list Timer :=
  match l with
  | [] => []
  | t' :: l' => if timer_eqb t t' then l' else t' :: remove_timer t l'
  end.

(* a response or an error message arrives, or a timer that is set fires *)
Definition deliver (now : Z) (ev : Event) (p : Process) : Process :=
  let fires :=
    match ev with
    | Timeout t => existsb (timer_eqb t) (pr_timers p)
    | _ => true
    end in
  if negb fires then p
  else
    let timers :=
      match ev with
      | Timeout t => remove_timer t (pr_timers p)
      | _ => pr_timers p
      end in
    let c := handle ev (pr_correlator p) in
    let p' := mkProcess (pr_tools p) (pr_memory p) c timers (pr_awaiting p) (pr_returned p) in
    match drop (length (settled (pr_correlator p))) (settled c) with
    | (h, v) :: _ => resume now h v p'
    | [] => p'
    end.

Definition updated (msg : JsValue) (p : Process) : Process :=
  let st := update_tools msg (mkState (pr_tools p) (pr_memory p)) in
  mkProcess (availableTools st) (conversationMemory st) (pr_correlator p) (pr_timers p)
    (pr_awaiting p) (pr_returned p).

Inductive Input :=
| Invoke (now : Z) (args : JsValue)      (* natural_request(args) is called *)
| Deliver (now : Z) (ev : Event)         (* a message arrives or a timer fires *)
| Updated (msg : JsValue).               (* registered or capabilities_updated arrives *)

Definition react (inp : Input) (p : Process) : Process :=
  match inp with
  | Invoke now args => invoke now args p
  | Deliver now ev => deliver now ev p
  | Updated msg => updated msg p
  end.

Definition react_all (inps : list Input) (p : Process) : Process :=
  foldl (fun p inp => react inp p) p inps.

End Orchestrator.

(** ** The agents behind the hub *)

Module Deployment.

(* the register message of the calculator agent (input schemas left out) *)
Definition calculator_register : JsValue :=
  JObj [("type", JStr "register"); ("from", JStr "calculator-agent");
        ("capabilities",
         JObj [("tools",
                JArr [JObj [("name", JStr "calculate");
                            ("description",
                             JStr "Perform mathematical calculations with basic operations")];
                      JObj [("name", JStr "statistics");
                            ("description", JStr "Calculate statistics for an array of numbers")];
                      JObj [("name", JStr "convert_units");
                            ("description", JStr "Convert between different units")]]);
               ("resources", JArr [])])].

(* the register message of the orchestrator agent *)
Definition orchestrator_register : JsValue :=
  JObj [("type", JStr "register"); ("from", JStr Orchestrator.agentId);
        ("capabilities",
         JObj [("tools",
                JArr [JObj [("name", JStr "natural_request");
                            ("description",
                             JStr "Process natural language requests and coordinate multiple agents to fulfill them")]]);
               ("resources", JArr [])])].

Section Deployment.
Variable readFile : string -> string + string.

Definition fresh (before after : Hub.State) : list (nat * JsValue) :=
  drop (length (Hub.outbox before)) (Hub.outbox after).

(* the first message among [ms] addressed to the socket [ws] *)
Fixpoint delivered (ws : nat) (ms : list (nat * JsValue)) : option JsValue :=
  match ms with
  | [] => None
  | (w, m) :: ms' => if (w =? ws)%nat then Some (Js.wire m) else delivered ws ms'
  end.

(* what comes back to the orchestrator (socket [orch]) for a tools/call it
   sends through the hub, when the calculator agent sits on socket [calc]
   and no other agent answers *)
Definition through_hub (hub : Hub.State) (orch calc : nat) (now : Z) (call : JsValue)
    : Orchestrator.Reply :=
  let hub1 := Hub.on_message readFile orch now (Some (Js.wire call)) hub in
  match delivered orch (fresh hub hub1) with
  | Some m =>
      if Js.eq_str (Js.prop m "type") "error" then Orchestrator.Failed (Js.prop m "error")
      else Orchestrator.TimedOut
  | None =>
      match delivered calc (fresh hub hub1) with
      | Some forwarded =>
          match Calculator.on_tools_call forwarded with
          | Some answer =>
              let hub2 := Hub.on_message readFile calc now (Some (Js.wire answer)) hub1 in
              match delivered orch (fresh hub1 hub2) with
              | Some m =>
                  if Js.eq_str (Js.prop m "type") "response"
                  then Orchestrator.Responded (Js.prop m "result")
                  else Orchestrator.TimedOut
              | None => Orchestrator.TimedOut
              end
          | None => Orchestrator.TimedOut
          end
      | None => Orchestrator.TimedOut
      end
  end.

(* calculator on socket 1 and orchestrator on socket 2, both registered *)
Definition hub_ready : Hub.State :=
  Hub.run readFile
    [Hub.Connection 1; Hub.Connection 2;
     Hub.Message 1 0 (Some calculator_register);
     Hub.Message 2 0 (Some orchestrator_register)]
    Hub.init.

(* the orchestrator after the hub's registered message *)
Definition orchestrator_ready : Orchestrator.State :=
  match delivered 2 (Hub.outbox hub_ready) with
  | Some m => Orchestrator.update_tools m (Orchestrator.mkState [] Orchestrator.initialMemory)
  | None => Orchestrator.mkState [] Orchestrator.initialMemory
  end.

Definition world (clock : nat -> Z) (finish : Z) : Orchestrator.World :=
  Orchestrator.mkWorld clock finish
    (fun call => through_hub hub_ready 2 1 (clock 0%nat) call).

End Deployment.
End Deployment.

(** * Properties *)

(** ** Strings: substrings and the first occurrence *)

Module StrFacts.

Lemma prefix_app (p post : string) : String.prefix p (p +:+ post) = true.
Proof.
  induction p as [|c p IH]; simpl.
  - now destruct post.
  - destruct (ascii_dec c c) as [_|n]; [exact IH | now destruct n].
Qed.

Lemma prefix_split (p s : string) :
  String.prefix p s = true -> exists post, s = p +:+ post.
Proof.
  revert s. induction p as [|c p IH]; intros s H.
  - now exists s.
  - destruct s as [|d s]; simpl in H; [discriminate H|].
    destruct (ascii_dec c d) as [->|]; [|discriminate H].
    destruct (IH _ H) as [post ->]. now exists post.
Qed.

Lemma indexOf_unfold (n s : string) :
  Str.indexOf n s =
  if String.prefix n s then Some O
  else match s with
       | EmptyString => None
       | String _ s' => option_map S (Str.indexOf n s')
       end.
Proof. now destruct s. Qed.

Lemma includes_intro (n pre post : string) : Str.includes n (pre +:+ n +:+ post) = true.
Proof.
  unfold Str.includes. induction pre as [|c pre IH].
  - rewrite indexOf_unfold. change ("" +:+ n +:+ post) with (n +:+ post).
    now rewrite prefix_app.
  - rewrite indexOf_unfold. change (String c pre +:+ n +:+ post) with (String c (pre +:+ n +:+ post)).
    destruct (String.prefix n (String c (pre +:+ n +:+ post))); [reflexivity|].
    destruct (Str.indexOf n (pre +:+ n +:+ post)); [reflexivity | discriminate IH].
Qed.

Lemma includes_elim (n s : string) :
  Str.includes n s = true -> exists pre post, s = pre +:+ n +:+ post.
Proof.
  unfold Str.includes. induction s as [|c s IH]; rewrite indexOf_unfold.
  - destruct (String.prefix n "") eqn:E; [|discriminate].
    intros _. destruct (prefix_split _ _ E) as [post ->]. now exists "", post.
  - destruct (String.prefix n (String c s)) eqn:E.
    + intros _. destruct (prefix_split _ _ E) as [post ->]. now exists "", post.
    + destruct (Str.indexOf n s); [|discriminate].
      intros _. destruct (IH eq_refl) as (pre & post & ->).
      now exists (String c pre), post.
Qed.

(* includes is "occurs somewhere as a substring" *)
Lemma includes_spec (n s : string) :
  Str.includes n s = true <-> exists pre post, s = pre +:+ n +:+ post.
Proof.
  split; [apply includes_elim|]. intros (pre & post & ->). apply includes_intro.
Qed.

Lemma indexOf_prefix (p s : string) :
  String.prefix p s = true -> Str.indexOf p s = Some O.
Proof. intros H. rewrite indexOf_unfold. now rewrite H. Qed.

(* replacing a leading occurrence strips the prefix *)
Lemma replaceFirst_prefix (p s : string) :
  Str.startsWith p s = true -> Str.replaceFirst p "" s = Str.drop (String.length p) s.
Proof.
  intros H. unfold Str.replaceFirst, Str.startsWith in *.
  rewrite (indexOf_prefix _ _ H). unfold Str.take. simpl.
  now destruct s.
Qed.

Lemma replaceFirst_absent (p s : string) :
  Str.includes p s = false -> Str.replaceFirst p "" s = s.
Proof.
  unfold Str.includes, Str.replaceFirst. now destruct (Str.indexOf p s).
Qed.

End StrFacts.

(** ** The orchestrator's patterns on concrete queries *)

Module ExtractorFacts.
Import Orchestrator.

Example detect_calculate :
  intent (detectIntent [] "Calculate: 7*(8-3)") = "calculate".
Proof. vm_compute; reflexivity. Qed.

Example detect_first_group_wins :
  intent (detectIntent [] "fetch https://api.x.io/v1 and save to out.json") = "fetch_url".
Proof. vm_compute; reflexivity. Qed.

Example detect_unknown : intent (detectIntent [] "hello there") = "unknown".
Proof. vm_compute; reflexivity. Qed.

Example expression_of_query :
  extractExpression_calculate initialMemory "Calculate: 7*(8-3)" = JStr "7*(8-3)".
Proof. vm_compute; reflexivity. Qed.

Example filename_gets_extension :
  extractFileName initialMemory "save it as summary" = JStr "summary.txt".
Proof. vm_compute; reflexivity. Qed.

Example filename_default :
  extractFileName initialMemory "store that" = JStr "result.txt".
Proof. vm_compute; reflexivity. Qed.

Example path_in_quotes :
  extractPath_read_file initialMemory "show me the file 'src/server.js'"
  = JStr "src/server.js".
Proof. vm_compute; reflexivity. Qed.

Example directory_of_query :
  extractDirectory initialMemory "list files in the src directory" = JStr "src".
Proof. vm_compute; reflexivity. Qed.

Example url_of_query :
  extractUrl "" initialMemory "summarize this webpage - https://example.com/a?b=1"
  = JStr "https://example.com/a?b=1".
Proof. vm_compute; reflexivity. Qed.

End ExtractorFacts.

(** ** The resource permission check (hub) *)

Module PermissionFacts.
Import Hub.

(* the check as the specification words it: the URI without a leading
   file://, searched for the allowed substrings *)
Definition stripped (uri : string) : string :=
  if Str.startsWith "file://" uri then Str.drop 7 uri else uri.
Definition claimed_permission (uri : string) : bool :=
  existsb (fun allowed => Str.includes allowed (stripped uri)) allowedPaths.

(* the request of a client for a resource *)
Definition read_request (id from : JsValue) (uri : string) : JsValue :=
  JObj [("type", JStr "resources/read"); ("id", id); ("from", from);
        ("params", JObj [("uri", JStr uri)])].

Lemma granted_spec (clientId : JsValue) (uri : string) :
  hasResourcePermission clientId uri = true <->
  exists allowed pre post,
    In allowed ["src/"; "package.json"; "README.md"] /\
    resourcePath uri = pre +:+ allowed +:+ post.
Proof.
  unfold hasResourcePermission, allowedPaths. rewrite existsb_exists. split.
  - intros (a & Ha & Hi). apply StrFacts.includes_spec in Hi as (pre & post & E).
    now exists a, pre, post.
  - intros (a & pre & post & Ha & E). exists a. split; [exact Ha|].
    apply StrFacts.includes_spec. now exists pre, post.
Qed.

End PermissionFacts.

(** C10 (as stated, refuted). A URI that has [file://] inside but not at
    its start: the hub removes that occurrence and then finds [src/], so it
    grants access, while the URI with its [file://] prefix removed (there
    is none) contains none of the allowed substrings. *)
Lemma permission_inner_scheme_counterexample :
  Hub.hasResourcePermission (JStr "client") "sfile://rc/" = true /\
  PermissionFacts.claimed_permission "sfile://rc/" = false.
Proof. split; reflexivity. Qed.

(** C10 (amended). For every resources/read request the check grants
    access if and only if the request URI with the first occurrence of
    [file://] removed, wherever it occurs, contains [src/], [package.json]
    or [README.md] as a substring; for a URI that starts with [file://]
    that is the URI without this prefix, and for a URI without [file://]
    it is the URI itself. A denied request is answered PERMISSION_DENIED; a
    granted request whose URI does not start with [file://] is answered
    READ_FAILED ("Unsupported URI scheme"), never PERMISSION_DENIED. *)
Theorem resources_read_permission (readFile : string -> string + string)
    (ws : nat) (st : Hub.State) (id from : JsValue) (uri : string) :
  let granted := Hub.hasResourcePermission (Js.or from (JStr "client")) uri in
  let msg := PermissionFacts.read_request id from uri in
  (granted = true <->
     exists allowed pre post,
       In allowed ["src/"; "package.json"; "README.md"] /\
       Hub.resourcePath uri = pre +:+ allowed +:+ post) /\
  (Str.startsWith "file://" uri = true -> Hub.resourcePath uri = Str.drop 7 uri) /\
  (Str.includes "file://" uri = false -> Hub.resourcePath uri = uri) /\
  (granted = false ->
     Hub.resources_read readFile ws msg st =
     Hub.Returned (Hub.send ws (Hub.error_msg id "PERMISSION_DENIED"
                                  ("No permission to access " +:+ uri)) st)) /\
  (granted = true -> Str.startsWith "file://" uri = false ->
     Hub.resources_read readFile ws msg st =
     Hub.Returned (Hub.send ws (Hub.error_msg id "READ_FAILED"
                                  "Unsupported URI scheme") st)).
Proof.
  intros granted msg. repeat split.
  - apply PermissionFacts.granted_spec.
  - apply PermissionFacts.granted_spec.
  - intros H. exact (StrFacts.replaceFirst_prefix "file://" uri H).
  - intros H. exact (StrFacts.replaceFirst_absent "file://" uri H).
  - intros H. unfold Hub.resources_read, msg. simpl. fold granted. now rewrite H.
  - intros H1 H2. unfold Hub.resources_read, msg. simpl. fold granted.
    now rewrite H1, H2.
Qed.

(** A path outside the project directory passes the check, and a granted
    URI of another scheme is answered READ_FAILED. *)
Lemma resources_read_permission_witness :
  Hub.hasResourcePermission (JStr "client") "file:///etc/src/passwd" = true /\
  Hub.resources_read (fun _ => inr "ENOENT") 7 (PermissionFacts.read_request (Js.int 1) JUndefined "http://host/src/x") Hub.init =
  Hub.Returned (Hub.send 7 (Hub.error_msg (Js.int 1) "READ_FAILED" "Unsupported URI scheme") Hub.init).
Proof.
  split; [reflexivity|].
  apply (resources_read_permission (fun _ => inr "ENOENT") 7 Hub.init (Js.int 1) JUndefined
           "http://host/src/x"); reflexivity.
Defined.

(** ** The tool registry on disconnect (hub) *)

Module RegistryFacts.
Import Hub.

(* register { from, capabilities: { tools: [{ name }], resources: [] } } *)
Definition register_msg (from : string) (names : list string) : JsValue :=
  JObj [("type", JStr "register"); ("from", JStr from);
        ("capabilities",
         JObj [("tools", JArr (List.map (fun n => JObj [("name", JStr n)]) names));
               ("resources", JArr [])])].

Lemma toolRegistry_set_toolRegistry f st :
  toolRegistry (set_toolRegistry f st) = f (toolRegistry st).
Proof. reflexivity. Qed.

Definition state_of (o : Outcome) : State :=
  match o with Returned st | Threw st => st end.

(* the close handler leaves every name the agent did not advertise alone *)
Lemma unregister_tools_frame (tools : list JsValue) (st : State) (k : string) :
  (forall tool, In tool tools -> key (Js.prop tool "name") <> k) ->
  JsMap.get (toolRegistry (state_of (unregister_tools tools st))) k
  = JsMap.get (toolRegistry st) k.
Proof.
  revert st. induction tools as [|tool tools IH]; intros st H; simpl; [reflexivity|].
  destruct (Js.nullish tool); [reflexivity|].
  rewrite IH by (intros t Ht; apply H; now right).
  rewrite toolRegistry_set_toolRegistry.
  apply JsMap.get_delete_ne. apply H. now left.
Qed.

(* and deletes every name it advertised, whoever owns the entry now *)
Lemma unregister_tools_gone (tools : list JsValue) (st : State) (k : string) :
  Forall (fun tool => Js.nullish tool = false) tools ->
  In k (List.map (fun t => key (Js.prop t "name")) tools) ->
  JsMap.get (toolRegistry (state_of (unregister_tools tools st))) k = None.
Proof.
  intros Hall. revert st.
  induction Hall as [|t tools Ht Hall IH]; intros st H; simpl in *; [destruct H|].
  rewrite Ht.
  destruct (in_dec String.string_dec k
              (List.map (fun t => key (Js.prop t "name")) tools)) as [Hin|Hout].
  - now apply IH.
  - destruct H as [<-|H]; [|contradiction].
    rewrite unregister_tools_frame.
    + rewrite toolRegistry_set_toolRegistry. apply JsMap.get_delete_eq.
    + intros t' Ht' E. apply Hout. apply in_map_iff. now exists t'.
Qed.

End RegistryFacts.

(** C5 (the code at the failing input). Agent A registers the tool
    [calculate], then agent B registers a tool of the same name and becomes
    its owner. When A's socket closes, the hub deletes the registry entry
    for [calculate], which is B's, while B stays registered: the close
    handler deletes by name and does not look at the owner. *)
Theorem close_deletes_the_later_writers_tool (readFile : string -> string + string) :
  let before :=
    Hub.run readFile
      [Hub.Connection 1; Hub.Connection 2;
       Hub.Message 1 0 (Some (RegistryFacts.register_msg "A" ["calculate"]));
       Hub.Message 2 5 (Some (RegistryFacts.register_msg "B" ["calculate"; "statistics"]))]
      Hub.init in
  let after := Hub.step readFile (Hub.Close 1) before in
  option_map Hub.t_agentId (JsMap.get (Hub.toolRegistry before) "calculate") = Some (JStr "B") /\
  JsMap.get (Hub.toolRegistry after) "calculate" = None /\
  option_map Hub.t_agentId (JsMap.get (Hub.toolRegistry after) "statistics") = Some (JStr "B") /\
  JsMap.keys (Hub.agents after) = ["B"].
Proof. vm_compute. repeat split. Qed.

(** ** The arithmetic scenario (orchestrator, hub and calculator) *)

(** C6. For the query "calculate 25 * 4 + 10", with the calculator agent
    and the orchestrator registered at the hub: the registry the
    orchestrator holds contains [calculate]; none of the five pattern
    groups before the calculate group matches; the classifier returns the
    calculate group, the sixth; its expression extractor yields
    "25 * 4 + 10"; one tools/call for [calculate] is sent; and the response
    natural_request returns reads "Result: 25 * 4 + 10 = 110" after its
    icon. *)
Theorem calculate_query_reports_110 (readFile : string -> string + string)
    (clock : nat -> Z) (finish : Z) :
  let query := "calculate 25 * 4 + 10" in
  let st := Deployment.orchestrator_ready readFile in
  let i := Orchestrator.detectIntent (Orchestrator.availableTools st) query in
  let r := Orchestrator.natural_request (Deployment.world readFile clock finish) st
             (JObj [("query", JStr query)]) in
  JsMap.has (Orchestrator.availableTools st) "calculate" = true /\
  forallb (fun g => negb (existsb (Orchestrator.matches_entry (Str.toLowerCase query))
                            (Orchestrator.patterns g)))
    (firstn 5 Orchestrator.intentPatterns) = true /\
  nth_error Orchestrator.intentPatterns 5 = Some i /\
  Orchestrator.intent i = "calculate" /\
  Orchestrator.call i "extractExpression" (Orchestrator.conversationMemory st) query
    = Orchestrator.Ok (JStr "25 * 4 + 10") /\
  List.map (fun c => Js.prop (Js.prop c "params") "name") (Orchestrator.calls r)
    = [JStr "calculate"] /\
  Js.prop (Orchestrator.lastResult (Orchestrator.memory r)) "result" = Js.int 110 /\
  Orchestrator.returned r =
    JObj [("success", JBool true); ("query", JStr query); ("intent", JStr "calculate");
          ("executedSteps", Js.int 1);
          ("response", JStr (Icon.abacus +:+ " Result: 25 * 4 + 10 = 110"))].
Proof.
  intros query st i r. repeat apply conj.
  3: reflexivity.
  all: vm_compute; reflexivity.
Qed.

(** ** Plans without a previous result, and what natural_request returns *)

Module PlanFacts.
Import Regex Orchestrator.

Lemma first_group_In (gs : list Intent) (lq : string) (g : Intent) :
  first_group gs lq = Some g -> In g gs.
Proof.
  induction gs as [|g0 gs IH]; simpl; [discriminate|].
  destruct (existsb (matches_entry lq) (patterns g0)).
  - intros [= <-]. now left.
  - intros H. right. now apply IH.
Qed.

(* the group a save-prior-result request is classified by *)
Definition save_context_group : Intent :=
  group_of
    [rei "save.*that|save.*it|save.*summary|save.*result";
     rei "write.*that.*to|put.*that.*in|store.*that";
     rei "save.*previous|save.*last";
     rei "create.*file.*with.*that"]
    "save_context" ["write_file"]
    [("extractFileName", extractFileName)].

Lemma save_context_group_unique (g : Intent) :
  In g intentPatterns -> intent g = "save_context" -> g = save_context_group.
Proof.
  unfold intentPatterns. intros H E.
  repeat (destruct H as [<-|H]; [first [reflexivity | discriminate E]|]).
  destruct H.
Qed.

Lemma detectIntent_group (availableTools : JsMap.t ToolEntry) (query : string) (g : Intent) :
  first_group intentPatterns (Str.toLowerCase query) = Some g ->
  detectIntent availableTools query = g.
Proof. intros H. unfold detectIntent. now rewrite H. Qed.

End PlanFacts.

(** C8. Let a query be classified by the save_context pattern group while
    [conversationMemory.lastResult] is empty (falsy) and the recent-results
    buffer is empty. Then the plan compiler sets the plan's error to "No
    previous result to save. ..." and emits no step; natural_request sends
    no tools/call, so no write_file call is dispatched; the caller gets the
    failure text "Failed to save file - no result returned" (after the
    error icon) as the response; and the conversation memory is unchanged. *)
Theorem save_context_without_previous_result
    (w : Orchestrator.World) (st : Orchestrator.State) (query : string)
    (g : Orchestrator.Intent) :
  Orchestrator.first_group Orchestrator.intentPatterns (Str.toLowerCase query) = Some g ->
  Orchestrator.intent g = "save_context" ->
  Js.truthy (Orchestrator.lastResult (Orchestrator.conversationMemory st)) = false ->
  Orchestrator.recentResults (Orchestrator.conversationMemory st) = [] ->
  let i := Orchestrator.detectIntent (Orchestrator.availableTools st) query in
  let r := Orchestrator.natural_request w st (JObj [("query", JStr query)]) in
  Orchestrator.createExecutionPlan (Orchestrator.conversationMemory st) i query
    = Orchestrator.Ok
        (Orchestrator.mkPlan [] i query
           (Some "No previous result to save. Please run a command that generates content first.")) /\
  Orchestrator.calls r = [] /\
  Orchestrator.memory r = Orchestrator.conversationMemory st /\
  Orchestrator.returned r =
    JObj [("success", JBool true); ("query", JStr query); ("intent", JStr "save_context");
          ("executedSteps", Js.int 0);
          ("response", JStr (Icon.cross +:+ " Failed to save file - no result returned"))].
Proof.
  intros Hg Hi Hlast Hrecent i r.
  assert (Ei : i = PlanFacts.save_context_group).
  { unfold i. rewrite (PlanFacts.detectIntent_group _ _ _ Hg).
    apply PlanFacts.save_context_group_unique; [|exact Hi].
    eapply PlanFacts.first_group_In, Hg. }
  assert (Eplan :
    Orchestrator.createExecutionPlan (Orchestrator.conversationMemory st) i query
    = Orchestrator.Ok (Orchestrator.mkPlan [] i query (Some Orchestrator.noPreviousResult))).
  { rewrite Ei. unfold Orchestrator.createExecutionPlan. cbn.
    rewrite Hrecent, Hlast. cbn. now rewrite Hlast. }
  split; [exact Eplan|].
  unfold r, Orchestrator.natural_request, Orchestrator.natural_request_try.
  cbn [Js.prop Js.assoc String.eqb Ascii.eqb Bool.eqb]. fold i.
  rewrite Eplan. rewrite Ei. cbn. repeat split.
Qed.

Lemma save_context_without_previous_result_witness :
  let r := Orchestrator.natural_request
             (Orchestrator.mkWorld (fun _ => 0) 0 (fun _ => Orchestrator.TimedOut))
             (Orchestrator.mkState (Orchestrator.tools_from ["write_file"])
                Orchestrator.initialMemory)
             (JObj [("query", JStr "save that to out.txt")]) in
  Orchestrator.calls r = [] /\
  Orchestrator.memory r = Orchestrator.initialMemory.
Proof.
  pose proof (save_context_without_previous_result
                (Orchestrator.mkWorld (fun _ => 0) 0 (fun _ => Orchestrator.TimedOut))
                (Orchestrator.mkState (Orchestrator.tools_from ["write_file"])
                   Orchestrator.initialMemory)
                "save that to out.txt" PlanFacts.save_context_group
                eq_refl eq_refl eq_refl eq_refl) as (_ & Hc & Hm & _).
  split; [exact Hc | exact Hm].
Defined.

(** ** The sequential executor (orchestrator) *)

Module RunFacts.
Import Orchestrator.

(* result.success is truthy *)
Definition ok (r : JsValue) : bool := Js.truthy (Js.prop r "success").

(* the results a run adds: all successful and as many as the iterations
   left, or successful up to a last, failed one *)
Definition added (left : nat) (more : list JsValue) : Prop :=
  (Forall (fun r => ok r = true) more /\ length more = left) \/
  (exists pre f, more = (pre ++ [f])%list /\ Forall (fun r => ok r = true) pre /\
                 ok f = false /\ (length more <= left)%nat).

Lemma executeStep_total (w : World) (availableTools : JsMap.t ToolEntry) (plan : Plan)
    (i : nat) (previousResults : list JsValue) :
  (i < length (steps plan))%nat ->
  exists x c, executeStep w availableTools plan i previousResults = Ok (x, c).
Proof.
  intros H. unfold executeStep.
  destruct (lookup_lt_is_Some_2 (steps plan) i H) as [step ->].
  destruct (prepare availableTools step previousResults); eauto.
Qed.

Lemma run_steps_spec (w : World) (availableTools : JsMap.t ToolEntry) (plan : Plan)
    (left : nat) :
  forall (i : nat) (results calls : list JsValue),
    (i + left <= length (steps plan))%nat ->
    exists more cs,
      run_steps w availableTools plan left i results calls
        = Ok ((results ++ more)%list, cs) /\
      added left more /\
      (forall j x, more !! j = Some x ->
         exists c, executeStep w availableTools plan (i + j) (results ++ take j more)%list
                   = Ok (x, c)).
Proof.
  induction left as [|left IH]; intros i results calls Hlen.
  - exists [], calls. simpl. rewrite app_nil_r. repeat split.
    + left. split; [constructor | reflexivity].
    + intros j x H. destruct j; discriminate H.
  - destruct (executeStep_total w availableTools plan i results) as (x & c & E); [lia|].
    simpl. rewrite E. simpl. fold (ok x).
    destruct (ok x) eqn:Hx; simpl.
    + destruct (IH (S i) (results ++ [x])%list (calls ++ c)%list) as (more & cs & R & A & O);
        [lia|].
      exists (x :: more), cs. rewrite R. rewrite <- app_assoc. simpl. repeat split.
      * destruct A as [[Hall Hl] | (pre & f & -> & Hpre & Hf & Hl)].
        -- left. split; [now constructor | simpl; now rewrite Hl].
        -- right. exists (x :: pre), f. repeat split; [now constructor | exact Hf |].
           simpl in *. lia.
      * intros j y Hj. destruct j as [|j]; simpl in Hj.
        -- injection Hj as <-. exists c. rewrite Nat.add_0_r. simpl. now rewrite app_nil_r.
        -- destruct (O j y Hj) as [c' Ec']. exists c'.
           replace (i + S j)%nat with (S i + j)%nat by lia.
           simpl. now rewrite <- app_assoc in Ec'.
    + exists [x], (calls ++ c)%list. repeat split.
      * right. exists [], x. repeat split; [constructor | exact Hx | simpl; lia].
      * intros j y Hj. destruct j as [|[|j]]; try discriminate Hj.
        injection Hj as <-. exists c. rewrite Nat.add_0_r. simpl. now rewrite app_nil_r.
Qed.

(* run_plan always returns *)
Lemma run_plan_spec (w : World) (availableTools : JsMap.t ToolEntry) (plan : Plan) :
  exists results cs,
    run_plan w availableTools plan = Ok (results, cs) /\
    added (length (steps plan)) results /\
    (forall j x, results !! j = Some x ->
       exists c, executeStep w availableTools plan j (take j results) = Ok (x, c)).
Proof.
  destruct (run_steps_spec w availableTools plan (length (steps plan)) 0 [] [])
    as (more & cs & R & A & O); [lia|].
  exists more, cs. repeat split; [exact R | exact A | exact O].
Qed.

(* a failed result of a run is its last one, and the only failed one *)
Lemma added_failed (left : nat) (results : list JsValue) (f : JsValue) :
  added left results -> In f results -> ok f = false ->
  exists pre, results = (pre ++ [f])%list /\ Forall (fun r => ok r = true) pre.
Proof.
  intros [[Hall _] | (pre & f' & -> & Hpre & Hf' & _)] Hin Hf.
  - rewrite Forall_forall in Hall. apply list_elem_of_In, Hall in Hin. congruence.
  - apply in_app_or in Hin as [Hin | [<- | []]].
    + rewrite Forall_forall in Hpre. apply list_elem_of_In, Hpre in Hin. congruence.
    + now exists pre.
Qed.

Lemma filter_ok_all (pre : list JsValue) :
  Forall (fun r => ok r = true) pre ->
  List.filter (fun r => negb (Js.truthy (Js.prop r "success"))) pre = [].
Proof.
  induction 1 as [|x pre Hx _ IH]; simpl; [reflexivity|].
  unfold ok in Hx. now rewrite Hx.
Qed.

Lemma filter_failed (pre : list JsValue) (f : JsValue) :
  Forall (fun r => ok r = true) pre -> ok f = false ->
  List.filter (fun r => negb (Js.truthy (Js.prop r "success"))) (pre ++ [f]) = [f].
Proof.
  intros Hpre Hf. rewrite List.filter_app, (filter_ok_all pre Hpre). simpl.
  unfold ok in Hf. now rewrite Hf.
Qed.

(* On any step failure, the rendered response reports only the first failure *)
Lemma synthesize_failed (conversationMemory : ConversationMemory) (plan : Plan)
    (pre : list JsValue) (f : JsValue) :
  Forall (fun r => ok r = true) pre -> ok f = false ->
  synthesizeResponse conversationMemory plan (pre ++ [f])
  = Ok (Icon.cross +:+ " I encountered an error: " +:+ Js.to_string (Js.prop f "error")).
Proof.
  intros Hpre Hf. unfold synthesizeResponse. cbv zeta.
  now rewrite (filter_failed pre f Hpre Hf).
Qed.

Lemma last_entry_snoc (pre : list JsValue) (f : JsValue) : last_entry (pre ++ [f]) = f.
Proof. unfold last_entry. apply List.last_last. Qed.

(* never on failure *)
Lemma remember_failed (now : Z) (tag query : string) (pre : list JsValue) (f : JsValue)
    (conversationMemory : ConversationMemory) :
  ok f = false ->
  remember now tag query (pre ++ [f]) conversationMemory = conversationMemory.
Proof.
  intros Hf. unfold remember. rewrite last_entry_snoc.
  assert (Js.truthy (Js.oprop f "success") = false) as ->; [|now rewrite andb_false_r].
  unfold ok in Hf. unfold Js.oprop. destruct (Js.nullish f) eqn:N; [reflexivity | exact Hf].
Qed.

(* a failed step ends the run: the results so far are kept, the failed
   result is added, and no later step is executed *)
Lemma run_steps_halts (w : World) (availableTools : JsMap.t ToolEntry) (plan : Plan)
    (left i : nat) (pre calls : list JsValue) (x : JsValue) (c : list JsValue) :
  executeStep w availableTools plan i pre = Ok (x, c) -> ok x = false ->
  run_steps w availableTools plan (S left) i pre calls
  = Ok ((pre ++ [x])%list, (calls ++ c)%list).
Proof.
  intros E Hx. cbn [run_steps]. rewrite E. cbn [bind fst snd].
  unfold ok in Hx. now rewrite Hx.
Qed.

Lemma executeStep_dispatch (w : World) (availableTools : JsMap.t ToolEntry) (plan : Plan)
    (i : nat) (step0 step : Step) (pre : list JsValue) :
  steps plan !! i = Some step0 ->
  prepare availableTools step0 pre = Dispatch step ->
  executeStep w availableTools plan i pre
  = Ok (outcome step (reply w (toolCall (requestId (clock w i) i) step)),
        [toolCall (requestId (clock w i) i) step]).
Proof. intros H1 H2. unfold executeStep. now rewrite H1, H2. Qed.

End RunFacts.

(** C9. Whenever natural_request does not throw, the object it returns
    has [success] equal to [true]. In particular, when the query has a
    known intent and a step of the compiled plan failed, the object is
    [{ success: true, query, intent, executedSteps, response }] with no
    error field: the failure shows only in the response text, which is "I
    encountered an error: " (after the error icon) followed by the error of
    the failed step, the first and only failure of the run; the
    conversation memory is left as it was. *)
Theorem natural_request_success_despite_failure
    (w : Orchestrator.World) (st : Orchestrator.State) (args : JsValue)
    (r : Orchestrator.Run) :
  Orchestrator.natural_request_try w st args = Orchestrator.Ok r ->
  Js.prop (Orchestrator.returned r) "success" = JBool true /\
  forall (query : string) (plan : Orchestrator.Plan) (results calls : list JsValue)
         (f : JsValue),
    let i := Orchestrator.detectIntent (Orchestrator.availableTools st) query in
    Js.prop args "query" = JStr query ->
    Orchestrator.intent i <> "unknown" ->
    Orchestrator.createExecutionPlan (Orchestrator.conversationMemory st) i query
      = Orchestrator.Ok plan ->
    Orchestrator.run_plan w (Orchestrator.availableTools st) plan
      = Orchestrator.Ok (results, calls) ->
    In f results -> Js.truthy (Js.prop f "success") = false ->
    Orchestrator.returned r =
      JObj [("success", JBool true); ("query", JStr query);
            ("intent", JStr (Orchestrator.intent i));
            ("executedSteps", Js.nat (length (Orchestrator.steps plan)));
            ("response",
             JStr (Icon.cross +:+ " I encountered an error: "
                   +:+ Js.to_string (Js.prop f "error")))] /\
    Orchestrator.memory r = Orchestrator.conversationMemory st.
Proof.
  intros Htry. split.
  - unfold Orchestrator.natural_request_try in Htry.
    destruct (Js.prop args "query") as [| | | | query | |]; try discriminate Htry.
    destruct (String.eqb _ "unknown").
    + injection Htry as <-. reflexivity.
    + destruct (Orchestrator.createExecutionPlan _ _ query) as [plan|]; [|discriminate Htry].
      simpl in Htry.
      destruct (Orchestrator.run_plan w _ plan) as [[results calls]|]; [|discriminate Htry].
      simpl in Htry.
      destruct (Orchestrator.synthesizeResponse _ plan results); [|discriminate Htry].
      simpl in Htry. injection Htry as <-. reflexivity.
  - intros query plan results calls f i Hq Hknown Hplan Hrun Hin Hf.
    unfold Orchestrator.natural_request_try in Htry. rewrite Hq in Htry. fold i in Htry.
    apply String.eqb_neq in Hknown. rewrite Hknown, Hplan in Htry. simpl in Htry.
    rewrite Hrun in Htry. simpl in Htry.
    destruct (RunFacts.run_plan_spec w (Orchestrator.availableTools st) plan)
      as (results' & cs & R & A & _).
    rewrite Hrun in R. injection R as <- <-.
    destruct (RunFacts.added_failed _ _ f A Hin Hf) as (pre & -> & Hpre).
    rewrite (RunFacts.synthesize_failed _ plan pre f Hpre Hf) in Htry. simpl in Htry.
    rewrite (RunFacts.remember_failed _ _ _ pre f _ Hf) in Htry.
    injection Htry as <-. split; reflexivity.
Qed.

Lemma natural_request_success_despite_failure_witness :
  Js.prop
    (Orchestrator.returned
       (Orchestrator.natural_request
          (Orchestrator.mkWorld (fun _ => 0) 0 (fun _ => Orchestrator.TimedOut))
          (Orchestrator.mkState [] Orchestrator.initialMemory)
          (JObj [("query", JStr "calculate 1 + 1")])))
    "success" = JBool true.
Proof.
  refine (proj1 (natural_request_success_despite_failure
                   (Orchestrator.mkWorld (fun _ => 0) 0 (fun _ => Orchestrator.TimedOut))
                   (Orchestrator.mkState [] Orchestrator.initialMemory)
                   (JObj [("query", JStr "calculate 1 + 1")])
                   (Orchestrator.natural_request
                      (Orchestrator.mkWorld (fun _ => 0) 0 (fun _ => Orchestrator.TimedOut))
                      (Orchestrator.mkState [] Orchestrator.initialMemory)
                      (JObj [("query", JStr "calculate 1 + 1")])) _)).
  vm_compute. reflexivity.
Defined.

(** ** Request correlation (orchestrator) *)

Module CorrelationFacts.
Import Orchestrator.

(* what the event completes the waiter of [step] with, when it is the one
   that finds the entry *)
Definition completion (step : Step) (ev : Event) : JsValue :=
  match ev with
  | Response msg => response_result step (Js.prop msg "result")
  | Error msg => error_result step (Js.prop msg "error")
  | Timeout _ => timeout_result (tool step)
  end.

(* resolve functions in use belong to promises already created *)
Definition well_formed (c : Correlator) : Prop :=
  (forall k info, pendingRequests c !! k = Some info -> (resolve info < promises c)%nat) /\
  completions (promises c) c = O.

(* the timers that can fire: the one of this call, or timers of earlier
   calls, which carry other tokens *)
Definition timers_of (id : string) (timer : Timer) (h : nat) (evs : list Event) : Prop :=
  forall t, In (Timeout t) evs ->
    t = timer \/ (tm_requestId t <> id /\ (tm_resolve t < h)%nat).

Lemma targets_id (id : string) (msg : JsValue) :
  Js.eq_str (Js.prop msg "id") id = true -> Js.prop msg "id" = JStr id.
Proof.
  destruct (Js.prop msg "id"); simpl; try discriminate.
  intros H. apply String.eqb_eq in H. now subst.
Qed.

(* a later attempt finds no entry and changes nothing *)
Lemma handle_absent (id : string) (ev : Event) (c : Correlator) :
  pendingRequests c !! id = None -> targets id ev = true -> handle ev c = c.
Proof.
  intros Hp Ht. destruct ev as [msg | msg | t]; simpl in Ht; simpl.
  - unfold on_response, pending. now rewrite (targets_id id msg Ht), Hp.
  - unfold on_error, pending. now rewrite (targets_id id msg Ht), Hp.
  - unfold on_timeout. apply String.eqb_eq in Ht. now rewrite Ht, Hp.
Qed.

Section Token.
Variables (id : string) (h : nat) (info : RequestInfo) (timer : Timer).
Hypothesis Hinfo : resolve info = h.
Hypothesis Htimer_id : tm_requestId timer = id.
Hypothesis Htimer_h : tm_resolve timer = h.
Hypothesis Htimer_tool : tm_tool timer = tool (ri_step info).

(* no other entry completes the promise [h] *)
Definition others (c : Correlator) : Prop :=
  forall k i, pendingRequests c !! k = Some i -> k <> id -> resolve i <> h.

Definition Pending (c : Correlator) : Prop :=
  pendingRequests c !! id = Some info /\ completions h c = O /\ others c.

Definition Completed (c : Correlator) : Prop :=
  pendingRequests c !! id = None /\ completions h c = 1%nat /\ others c.

Lemma completions_settle_eq (v : JsValue) (c : Correlator) :
  completions h (settle h v c) = S (completions h c).
Proof.
  unfold completions, settle. simpl. rewrite List.filter_app, length_app. simpl.
  rewrite Nat.eqb_refl. simpl. lia.
Qed.

Lemma completions_settle_ne (h' : nat) (v : JsValue) (c : Correlator) :
  h' <> h -> completions h (settle h' v c) = completions h c.
Proof.
  intros Hne. unfold completions, settle. simpl. rewrite List.filter_app, length_app. simpl.
  apply Nat.eqb_neq in Hne. rewrite Hne. simpl. lia.
Qed.

Lemma completions_forget (k : string) (c : Correlator) :
  completions h (forget k c) = completions h c.
Proof. reflexivity. Qed.

Lemma others_forget (k : string) (v : JsValue) (h' : nat) (c : Correlator) :
  others c -> others (settle h' v (forget k c)).
Proof.
  intros Ho k' i Hk' Hne. simpl in Hk'.
  apply lookup_delete_Some in Hk' as [_ Hk']. now apply (Ho k' i).
Qed.

Lemma targets_not_id (msg : JsValue) (k : string) :
  Js.eq_str (Js.prop msg "id") id = false -> Js.prop msg "id" = JStr k -> k <> id.
Proof. intros H E. rewrite E in H. simpl in H. now apply String.eqb_neq. Qed.

(* the first resolution attempt completes the waiter and removes the entry *)
Lemma handle_pending (ev : Event) (c : Correlator) :
  Pending c -> targets id ev = true -> (forall t, ev = Timeout t -> t = timer) ->
  handle ev c = settle h (completion (ri_step info) ev) (forget id c) /\
  Completed (handle ev c).
Proof.
  intros (Hp & Hc & Ho) Ht Htm.
  assert (E : handle ev c = settle h (completion (ri_step info) ev) (forget id c)).
  { destruct ev as [msg | msg | t]; simpl in *.
    - unfold on_response, pending. rewrite (targets_id id msg Ht), Hp. now rewrite Hinfo.
    - unfold on_error, pending. rewrite (targets_id id msg Ht), Hp. now rewrite Hinfo.
    - rewrite (Htm t eq_refl). unfold on_timeout.
      rewrite Htimer_id, Hp, Htimer_h, Htimer_tool. reflexivity. }
  split; [exact E|]. rewrite E. repeat split.
  - simpl. apply lookup_delete_eq.
  - rewrite completions_settle_eq, completions_forget. now rewrite Hc.
  - now apply others_forget.
Qed.

(* an event for another token leaves this one as it is *)
Lemma handle_other (ev : Event) (c : Correlator) :
  others c -> targets id ev = false ->
  (forall t, ev = Timeout t -> tm_resolve t <> h) ->
  pendingRequests (handle ev c) !! id = pendingRequests c !! id /\
  completions h (handle ev c) = completions h c /\
  others (handle ev c) /\
  (forall p, In p (settled c) -> In p (settled (handle ev c))).
Proof.
  intros Ho Ht Htm.
  assert (Hmsg : forall (msg : JsValue) (v : RequestInfo -> JsValue),
            Js.eq_str (Js.prop msg "id") id = false ->
            let c' := match pending c (Js.prop msg "id") with
                      | Some (k, i) => settle (resolve i) (v i) (forget k c)
                      | None => c
                      end in
            pendingRequests c' !! id = pendingRequests c !! id /\
            completions h c' = completions h c /\ others c' /\
            (forall p, In p (settled c) -> In p (settled c'))).
  { intros msg v Hm. unfold pending.
    destruct (Js.prop msg "id") as [| | | | k | |] eqn:Ek; try (now repeat split).
    destruct (pendingRequests c !! k) as [i|] eqn:Hk; [|now repeat split].
    assert (Hne : k <> id) by (simpl in Hm; now apply String.eqb_neq).
    repeat split.
    - simpl. now apply lookup_delete_ne.
    - rewrite completions_settle_ne, completions_forget; [reflexivity|].
      now apply (Ho k i).
    - now apply others_forget.
    - intros p Hin. simpl. apply in_or_app. now left. }
  destruct ev as [msg | msg | t]; simpl in *.
  - exact (Hmsg msg (fun i => response_result (ri_step i) (Js.prop msg "result")) Ht).
  - exact (Hmsg msg (fun i => error_result (ri_step i) (Js.prop msg "error")) Ht).
  - unfold on_timeout. apply String.eqb_neq in Ht.
    destruct (pendingRequests c !! tm_requestId t) eqn:Hk; [|now repeat split].
    repeat split.
    + simpl. now apply lookup_delete_ne.
    + rewrite completions_settle_ne, completions_forget; [reflexivity|].
      now apply (Htm t).
    + now apply others_forget.
    + intros p Hin. simpl. apply in_or_app. now left.
Qed.

Lemma timers_tail (ev : Event) (evs : list Event) :
  timers_of id timer h (ev :: evs) -> timers_of id timer h evs.
Proof. intros H t Ht. apply H. now right. Qed.

Lemma timer_targets (ev : Event) (evs : list Event) :
  timers_of id timer h (ev :: evs) -> targets id ev = true ->
  forall t, ev = Timeout t -> t = timer.
Proof.
  intros H Ht t ->. destruct (H t (or_introl eq_refl)) as [E | [Hne _]]; [exact E|].
  simpl in Ht. apply String.eqb_eq in Ht. contradiction.
Qed.

Lemma timer_other (ev : Event) (evs : list Event) :
  timers_of id timer h (ev :: evs) -> targets id ev = false ->
  forall t, ev = Timeout t -> tm_resolve t <> h.
Proof.
  intros H Ht t ->. destruct (H t (or_introl eq_refl)) as [E | [_ Hlt]]; [|lia].
  subst t. simpl in Ht. rewrite Htimer_id, String.eqb_refl in Ht. discriminate Ht.
Qed.

Lemma settled_grows (evs : list Event) (c : Correlator) (p : nat * JsValue) :
  In p (settled c) -> In p (settled (handle_all evs c)).
Proof.
  revert c. induction evs as [|ev evs IH]; intros c Hin; [exact Hin|].
  simpl. apply IH.
  destruct ev as [msg | msg | t]; simpl.
  - unfold on_response. destruct (pending c _) as [[k i]|]; [|exact Hin].
    simpl. apply in_or_app. now left.
  - unfold on_error. destruct (pending c _) as [[k i]|]; [|exact Hin].
    simpl. apply in_or_app. now left.
  - unfold on_timeout. destruct (pendingRequests c !! _); [|exact Hin].
    simpl. apply in_or_app. now left.
Qed.

(* once completed, nothing that follows touches the waiter *)
Lemma completed_stays (evs : list Event) (c : Correlator) :
  Completed c -> timers_of id timer h evs -> Completed (handle_all evs c).
Proof.
  revert c. induction evs as [|ev evs IH]; intros c Hc Htm; [exact Hc|].
  simpl. apply IH; [|exact (timers_tail _ _ Htm)].
  destruct (targets id ev) eqn:Ht.
  - destruct Hc as (Hp & ? & ?). now rewrite (handle_absent id ev c Hp Ht).
  - destruct Hc as (Hp & Hn & Ho).
    destruct (handle_other ev c Ho Ht (timer_other _ _ Htm Ht)) as (E1 & E2 & Ho' & _).
    split; [now rewrite E1 | split; [now rewrite E2 | exact Ho']].
Qed.

(* the waiter is completed by the first attempt, and only by it *)
Lemma pending_run (evs : list Event) (c : Correlator) :
  Pending c -> timers_of id timer h evs ->
  let c' := handle_all evs c in
  (existsb (targets id) evs = false -> Pending c') /\
  (existsb (targets id) evs = true -> Completed c') /\
  (forall pre ev post,
     evs = (pre ++ ev :: post)%list ->
     existsb (targets id) pre = false -> targets id ev = true ->
     In (h, completion (ri_step info) ev) (settled c')).
Proof.
  revert c. induction evs as [|ev evs IH]; intros c Hc Htm; simpl.
  - split; [now intros _ | split; [discriminate|]].
    intros pre ev post E. now destruct pre.
  - destruct (targets id ev) eqn:Ht; simpl.
    + destruct (handle_pending ev c Hc Ht (timer_targets _ _ Htm Ht)) as [E Hdone].
      split; [discriminate | split].
      * intros _. exact (completed_stays evs _ Hdone (timers_tail _ _ Htm)).
      * intros pre ev' post Eq Hpre Hev'.
        destruct pre as [|e pre]; simpl in *.
        -- injection Eq as <- <-. apply settled_grows. rewrite E. simpl.
           apply in_or_app. right. now left.
        -- injection Eq as <- ->. rewrite Ht in Hpre. discriminate Hpre.
    + destruct Hc as (Hp & Hn & Ho).
      destruct (handle_other ev c Ho Ht (timer_other _ _ Htm Ht)) as (E1 & E2 & Ho' & _).
      assert (Hc' : Pending (handle ev c)).
      { split; [now rewrite E1 | split; [now rewrite E2 | exact Ho']]. }
      destruct (IH (handle ev c) Hc' (timers_tail _ _ Htm)) as (I1 & I2 & I3).
      split; [exact I1 | split; [exact I2|]].
      intros pre ev' post Eq Hpre Hev'.
      destruct pre as [|e pre]; simpl in *.
      * injection Eq as <- <-. rewrite Ht in Hev'. discriminate Hev'.
      * injection Eq as <- ->. apply orb_false_elim in Hpre as [_ Hpre].
        exact (I3 pre ev' post eq_refl Hpre Hev').
Qed.

End Token.

(* a dispatch with a token that is not outstanding leaves the waiter pending *)
Lemma dispatch_pending (now : Z) (stepIndex : nat) (step : Step) (c : Correlator) :
  well_formed c ->
  let id := requestId now stepIndex in
  let c1 := fst (dispatch now stepIndex step c) in
  Pending id (promises c) (mkRequestInfo (promises c) step stepIndex now) c1.
Proof.
  intros [Hwf Hzero] id c1. repeat split.
  - simpl. apply lookup_insert_eq.
  - exact Hzero.
  - intros k i Hk Hne. simpl in Hk.
    rewrite lookup_insert_ne in Hk by (intros E; apply Hne; now rewrite <- E).
    apply Hwf in Hk. lia.
Qed.

End CorrelationFacts.

(** A call whose token no other call shares. It is dispatched with a
    token that is not outstanding, in a correlator whose resolve functions
    belong to promises created before, and the responses, errors and
    timers that follow hold no dispatch and no timer of another call with
    the token (the code does not see to that; calls that share a token
    are the subject of [ReuseFacts] and of the process model). Then: the timer's delay is 10000 ms; the waiter of the call is
    completed once if one of them is a resolution attempt for the token
    (a response or an error with this id, or the timer of the call), and
    not at all otherwise; it is completed by the first such attempt, with
    the result of that attempt; after it the token has no pending entry;
    and an attempt for a token without a pending entry returns the state
    unchanged. *)
Lemma unshared_token_completed_once
    (c : Orchestrator.Correlator) (now : Z) (stepIndex : nat) (step : Orchestrator.Step)
    (evs : list Orchestrator.Event) :
  let id := Orchestrator.requestId now stepIndex in
  let c1 := fst (Orchestrator.dispatch now stepIndex step c) in
  let timer := snd (Orchestrator.dispatch now stepIndex step c) in
  let h := Orchestrator.promises c in
  let c2 := Orchestrator.handle_all evs c1 in
  CorrelationFacts.well_formed c ->
  CorrelationFacts.timers_of id timer h evs ->
  Orchestrator.tm_delay timer = 10000 /\
  Orchestrator.completions h c2
    = (if existsb (Orchestrator.targets id) evs then 1 else 0)%nat /\
  (existsb (Orchestrator.targets id) evs = true ->
     Orchestrator.pendingRequests c2 !! id = None) /\
  (forall pre ev post,
     evs = (pre ++ ev :: post)%list ->
     existsb (Orchestrator.targets id) pre = false ->
     Orchestrator.targets id ev = true ->
     In (h, CorrelationFacts.completion step ev) (Orchestrator.settled c2)) /\
  (forall ev c',
     Orchestrator.pendingRequests c' !! id = None ->
     Orchestrator.targets id ev = true ->
     Orchestrator.handle ev c' = c').
Proof.
  intros id c1 timer h c2 Hwf Htm.
  pose proof (CorrelationFacts.dispatch_pending now stepIndex step c Hwf) as Hp.
  cbv zeta in Hp. fold id c1 h in Hp.
  destruct (CorrelationFacts.pending_run id h
              (Orchestrator.mkRequestInfo h step stepIndex now) timer
              eq_refl eq_refl eq_refl eq_refl evs c1 Hp Htm) as (P1 & P2 & P3).
  fold c2 in P1, P2, P3. repeat split.
  - destruct (existsb (Orchestrator.targets id) evs).
    + now destruct (P2 eq_refl) as (_ & E & _).
    + now destruct (P1 eq_refl) as (_ & E & _).
  - intros H. now destruct (P2 H) as (E & _).
  - exact P3.
  - intros ev c' Hn Ht. exact (CorrelationFacts.handle_absent id ev c' Hn Ht).
Qed.

(** ** The workflow engine (hub) *)

Module WorkflowFacts.
Import Hub.


(* the tools/call message of a workflow step *)
Definition step_call (workflowId : string) (i : nat) (step : JsValue) : JsValue :=
  JObj [("type", JStr "tools/call");
        ("id", JStr (workflowId +:+ "-step-" +:+ Str.of_nat i));
        ("params", JObj [("name", Js.prop step "tool");
                         ("arguments", Js.prop step "arguments")]);
        ("_workflowId", JStr workflowId)].





Lemma push_result_lookup (workflowId : string) (r : JsValue) (st : State) (w : Workflow) :
  workflows st !! workflowId = Some w ->
  workflows (push_result workflowId r st) !! workflowId
  = Some (mkWorkflow (steps w) (S (currentStep w)) (results w ++ [r])%list
            (clientWs w) (status w)).
Proof.
  intros H. unfold push_result. rewrite H. simpl. apply lookup_insert_eq.
Qed.

Lemma push_result_frame (workflowId : string) (r : JsValue) (st : State) (k : string) :
  k <> workflowId ->
  workflows (push_result workflowId r st) !! k = workflows st !! k.
Proof.
  intros Hne. unfold push_result. destruct (workflows st !! workflowId); [|reflexivity].
  simpl. apply lookup_insert_ne. congruence.
Qed.

Lemma push_result_rest (workflowId : string) (r : JsValue) (st : State) :
  agents (push_result workflowId r st) = agents st /\
  toolRegistry (push_result workflowId r st) = toolRegistry st /\
  clients (push_result workflowId r st) = clients st /\
  outbox (push_result workflowId r st) = outbox st /\
  rejections (push_result workflowId r st) = rejections st.
Proof. unfold push_result. now destruct (workflows st !! workflowId). Qed.

(* workflow.currentStep >= workflow.steps.length, for an array *)
Lemma past_end_array (c : nat) (l : list JsValue) :
  Js.ge_nat c (Js.prop (JArr l) "length") = Some (length l <=? c)%nat.
Proof.
  unfold Js.ge_nat. cbn. f_equal. rewrite Z.mul_1_r.
  destruct (length l <=? c)%nat eqn:E.
  - apply Nat.leb_le in E. apply Z.leb_le. lia.
  - apply Nat.leb_gt in E. apply Z.leb_gt. lia.
Qed.

(* one activation of the engine on a workflow whose steps are an array *)
Lemma body_array (k : string) (st : State) (w : Workflow) (l : list JsValue) :
  workflows st !! k = Some w -> steps w = JArr l ->
  executeWorkflowStep_body k st =
  match l !! currentStep w with
  | None => inl (completeWorkflow k st)
  | Some step =>
      if Js.nullish step then inl (reject "TypeError" st)
      else
        match JsMap.get (toolRegistry st) (key (Js.prop step "tool")) with
        | None =>
            inr (push_result k
                   (JObj [("error", JStr ("Tool " +:+ Js.to_string (Js.prop step "tool")
                                           +:+ " not found"))]) st)
        | Some toolInfo =>
            match JsMap.get (agents st) (key (t_agentId toolInfo)) with
            | None =>
                inr (push_result k
                       (JObj [("error", JStr ("Agent " +:+ Js.to_string (t_agentId toolInfo)
                                               +:+ " unavailable"))]) st)
            | Some targetAgent =>
                inl (send (a_ws targetAgent) (step_call k (currentStep w) step) st)
            end
        end
  end.
Proof.
  intros Hw Hl. unfold executeWorkflowStep_body. rewrite Hw, Hl.
  cbn [Js.nullish]. rewrite past_end_array. cbn [Js.index].
  destruct (l !! currentStep w) as [step|] eqn:El.
  - assert (Hlt : (currentStep w < length l)%nat) by (apply lookup_lt_is_Some; eauto).
    apply Nat.leb_gt in Hlt. rewrite Hlt. reflexivity.
  - apply lookup_ge_None in El. apply Nat.leb_le in El. now rewrite El.
Qed.



Lemma completeWorkflow_frame (workflowId : string) (st : State) (k : string) :
  k <> workflowId -> workflows (completeWorkflow workflowId st) !! k = workflows st !! k.
Proof.
  intros Hne. unfold completeWorkflow. destruct (workflows st !! workflowId); [|reflexivity].
  simpl. apply lookup_insert_ne. congruence.
Qed.

Lemma body_frame (workflowId : string) (st : State) (k : string) :
  k <> workflowId ->
  match executeWorkflowStep_body workflowId st with
  | inl st' | inr st' => workflows st' !! k = workflows st !! k
  end.
Proof.
  intros Hne. unfold executeWorkflowStep_body.
  destruct (workflows st !! workflowId) as [w|] eqn:Hw;
    [|now apply completeWorkflow_frame].
  destruct (Js.nullish (steps w)); [reflexivity|].
  destruct (Js.ge_nat _ _) as [[|]|]; [now apply completeWorkflow_frame | | reflexivity].
  destruct (Js.nullish _); [reflexivity|].
  destruct (JsMap.get (toolRegistry st) _) as [toolInfo|];
    [|now apply push_result_frame].
  destruct (JsMap.get (agents st) _); [reflexivity | now apply push_result_frame].
Qed.

Lemma fuel_frame (fuel : nat) (workflowId : string) (k : string) :
  k <> workflowId -> forall st st',
  executeWorkflowStep_fuel fuel workflowId st = Some st' ->
  workflows st' !! k = workflows st !! k.
Proof.
  intros Hne. induction fuel as [|fuel IH]; intros st st' E; [discriminate E|].
  simpl in E. pose proof (body_frame workflowId st k Hne) as B.
  destruct (executeWorkflowStep_body workflowId st) as [s|s].
  - injection E as <-. exact B.
  - rewrite (IH _ _ E). exact B.
Qed.

(* the engine touches no workflow but the one it is called for *)
Lemma executeWorkflowStep_frame (workflowId : string) (st : State) (k : string) :
  k <> workflowId ->
  workflows (executeWorkflowStep workflowId st) !! k = workflows st !! k.
Proof.
  intros Hne. unfold executeWorkflowStep.
  destruct (executeWorkflowStep_fuel _ workflowId st) as [st'|] eqn:E; [|reflexivity].
  exact (fuel_frame _ workflowId k Hne st st' E).
Qed.

(* with the cursor past the last step the engine completes (again) *)
Lemma executeWorkflowStep_past_end (workflowId : string) (l : list JsValue)
    (st : State) (w : Workflow) :
  workflows st !! workflowId = Some w -> steps w = JArr l ->
  (length l <= currentStep w)%nat ->
  executeWorkflowStep workflowId st = completeWorkflow workflowId st.
Proof.
  intros Hw Hl Hc. unfold executeWorkflowStep. cbn [executeWorkflowStep_fuel].
  rewrite (body_array workflowId st w l Hw Hl).
  now rewrite (proj2 (lookup_ge_None l (currentStep w)) Hc).
Qed.

(* the engine dispatches the step under the cursor when its tool and the
   tool's agent are registered *)
Lemma execute_dispatch (workflowId : string) (st : State) (w : Workflow)
    (l : list JsValue) (step : JsValue) (toolInfo : ToolInfo) (target : AgentInfo) :
  workflows st !! workflowId = Some w -> steps w = JArr l ->
  l !! currentStep w = Some step -> Js.nullish step = false ->
  JsMap.get (toolRegistry st) (key (Js.prop step "tool")) = Some toolInfo ->
  JsMap.get (agents st) (key (t_agentId toolInfo)) = Some target ->
  executeWorkflowStep workflowId st
  = send (a_ws target) (step_call workflowId (currentStep w) step) st.
Proof.
  intros H1 H2 H3 H4 H5 H6. unfold executeWorkflowStep. cbn [executeWorkflowStep_fuel].
  rewrite (body_array workflowId st w l H1 H2). now rewrite H3, H4, H5, H6.
Qed.

(** The handlers that do not deal with workflows *)

Definition state_of (o : Outcome) : State := RegistryFacts.state_of o.

Lemma register_tools_workflows (agentId : JsValue) (tools : list JsValue) (st : State) :
  workflows (state_of (register_tools agentId tools st)) = workflows st.
Proof.
  revert st. induction tools as [|tool tools IH]; intros st; simpl; [reflexivity|].
  destruct (Js.nullish tool); [reflexivity|]. now rewrite IH.
Qed.

Lemma broadcast_agents_workflows (l : list (string * AgentInfo)) (except : string)
    (m : JsValue) (st : State) :
  workflows (broadcast_agents l except m st) = workflows st.
Proof.
  revert st. induction l as [|[id a] l IH]; intros st; simpl; [reflexivity|].
  rewrite IH. now destruct (_ && _).
Qed.

Lemma register_workflows (ws : nat) (now : Z) (msg : JsValue) (st : State) :
  workflows (state_of (register ws now msg st)) = workflows st.
Proof.
  unfold register.
  destruct (Js.nullish _); [reflexivity|].
  cbv zeta. cbn [a_tools].
  destruct (Js.or (Js.prop _ "tools") (JArr [])); try reflexivity.
  match goal with
  | |- context [register_tools ?a ?t ?s] =>
      pose proof (register_tools_workflows a t s) as H;
      destruct (register_tools a t s) as [st1|st1]
  end; simpl in *; [|exact H].
  now rewrite broadcast_agents_workflows.
Qed.

Lemma tools_call_workflows (ws : nat) (msg : JsValue) (st : State) :
  workflows (state_of (tools_call ws msg st)) = workflows st.
Proof.
  unfold tools_call. destruct (Js.nullish _); [reflexivity|].
  destruct (JsMap.get (toolRegistry st) _) as [toolInfo|]; [|reflexivity].
  destruct (JsMap.get (agents st) _) as [targetAgent|]; [|reflexivity].
  now destruct (_ =? _)%nat.
Qed.

Lemma resources_read_workflows (readFile : string -> string + string)
    (ws : nat) (msg : JsValue) (st : State) :
  workflows (state_of (resources_read readFile ws msg st)) = workflows st.
Proof.
  unfold resources_read. destruct (Js.nullish _); [reflexivity|].
  destruct (Js.prop _ "uri"); try reflexivity.
  destruct (negb _); [reflexivity|].
  destruct (Str.startsWith _ _); [|reflexivity].
  now destruct (readFile _).
Qed.

Lemma broadcastToClients_go_workflows (cs : list (nat * Socket)) (m : JsValue)
    (excludeWs : nat) (st : State) :
  workflows (broadcastToClients_go cs m excludeWs st) = workflows st.
Proof.
  revert st. induction cs as [|[w0 s0] cs IH]; intros st; simpl; [reflexivity|].
  rewrite IH. now destruct (_ && _).
Qed.

Lemma response_workflows (ws : nat) (msg : JsValue) (st : State) :
  workflows (state_of (response ws msg st)) = workflows st.
Proof.
  unfold response. destruct (Js.truthy _); [reflexivity|].
  apply broadcastToClients_go_workflows.
Qed.

Lemma unregister_tools_workflows (tools : list JsValue) (st : State) :
  workflows (state_of (unregister_tools tools st)) = workflows st.
Proof.
  revert st. induction tools as [|tool tools IH]; intros st; simpl; [reflexivity|].
  destruct (Js.nullish tool); [reflexivity|]. now rewrite IH.
Qed.

Lemma on_close_workflows (ws : nat) (st : State) :
  workflows (on_close ws st) = workflows st.
Proof.
  unfold on_close. cbv zeta.
  destruct (Js.truthy _); [|reflexivity].
  destruct (JsMap.get _ _) as [agent|]; [|reflexivity].
  destruct (a_tools agent); try reflexivity.
  match goal with
  | |- context [unregister_tools ?t ?s] =>
      pose proof (unregister_tools_workflows t s) as H;
      destruct (unregister_tools t s) as [st1|st1]
  end; simpl in *; exact H.
Qed.

Lemma finish_workflows (ws : nat) (o : Outcome) :
  workflows (finish ws o) = workflows (state_of o).
Proof. now destruct o. Qed.

Lemma dispatch_handler_cases (readFile : string -> string + string)
    (ws : nat) (now : Z) (msg : JsValue) (st : State) :
  (key (Js.prop msg "type") = "workflow/start" /\
   dispatch_handler readFile ws now msg st = finish ws (workflow_start ws now msg st)) \/
  workflows (dispatch_handler readFile ws now msg st) = workflows st.
Proof.
  unfold dispatch_handler. cbv zeta.
  destruct (String.eqb _ "register");
    [right; rewrite finish_workflows; apply register_workflows|].
  destruct (String.eqb _ "tools/list"); [now right|].
  destruct (String.eqb _ "tools/call");
    [right; rewrite finish_workflows; apply tools_call_workflows|].
  destruct (String.eqb _ "resources/read");
    [right; rewrite finish_workflows; apply resources_read_workflows|].
  destruct (String.eqb _ "workflow/start") eqn:E;
    [left; apply String.eqb_eq in E; now split|].
  destruct (String.eqb _ "response");
    [right; rewrite finish_workflows; apply response_workflows|].
  right. destruct (_ && _); [|reflexivity].
  now destruct (JsMap.get _ _).
Qed.

(* the three ways the message handler can go *)
Lemma on_message_cases (readFile : string -> string + string)
    (ws : nat) (now : Z) (raw : option JsValue) (st : State) :
  (exists msg k w,
     raw = Some msg /\ routed msg = true /\ Js.prop msg "_workflowId" = JStr k /\
     workflows st !! k = Some w /\
     on_message readFile ws now raw st
     = executeWorkflowStep k (push_result k (Js.prop msg "result") st)) \/
  (exists msg,
     raw = Some msg /\ key (Js.prop msg "type") = "workflow/start" /\
     on_message readFile ws now raw st = finish ws (workflow_start ws now msg st)) \/
  workflows (on_message readFile ws now raw st) = workflows st.
Proof.
  unfold on_message. destruct raw as [msg|]; [|now right; right].
  destruct (Js.nullish msg); [now right; right|].
  assert (Hd : (exists msg0,
                  Some msg = Some msg0 /\ key (Js.prop msg0 "type") = "workflow/start" /\
                  dispatch_handler readFile ws now msg st
                  = finish ws (workflow_start ws now msg0 st)) \/
               workflows (dispatch_handler readFile ws now msg st) = workflows st).
  { destruct (dispatch_handler_cases readFile ws now msg st) as [[E1 E2] | E].
    - left. exists msg. repeat split; assumption.
    - now right. }
  destruct (routed msg) eqn:R; [|now right].
  unfold workflow_of.
  destruct (Js.prop msg "_workflowId") as [| | | | k | |] eqn:Ek; try (now right).
  destruct (workflows st !! k) as [w|] eqn:Hw; [|now right].
  left. exists msg, k, w. repeat split; assumption.
Qed.

(* a workflow/start message touches no workflow but the one it creates *)
Lemma started_frame (ws : nat) (now : Z) (msg : JsValue) (st : State) (k : string) :
  k <> "workflow-" +:+ Str.of_Z now ->
  workflows (finish ws (workflow_start ws now msg st)) !! k = workflows st !! k.
Proof.
  intros Hne. unfold workflow_start.
  destruct (Js.nullish (Js.prop msg "params")); [reflexivity|].
  cbv zeta. cbn [finish]. rewrite (executeWorkflowStep_frame _ _ k Hne). simpl.
  apply lookup_insert_ne. congruence.
Qed.

(* the event is a workflow response naming [wid], or a workflow/start
   that creates the id [wid] *)
Definition advances (wid : string) (ev : Event) : bool :=
  match ev with
  | Message _ now (Some msg) =>
      (routed msg && Js.eq_str (Js.prop msg "_workflowId") wid)
      || (String.eqb (key (Js.prop msg "type")) "workflow/start"
          && String.eqb ("workflow-" +:+ Str.of_Z now) wid)
  | _ => false
  end.

(* nothing else changes a workflow: no timer, no error message, no close *)
Lemma step_frame (readFile : string -> string + string) (ev : Event) (st : State)
    (wid : string) :
  advances wid ev = false ->
  workflows (step readFile ev st) !! wid = workflows st !! wid.
Proof.
  intros Ha. destruct ev as [ws | ws now raw | ws n | ws | ms]; try reflexivity.
  - cbn [step].
    destruct (on_message_cases readFile ws now raw st)
      as [(msg & k & w & -> & R & Ek & Hw & ->) | [(msg & -> & Et & ->) | E]].
    + unfold advances in Ha. rewrite R, Ek in Ha.
      apply orb_false_elim in Ha as [Ha _]. cbn [andb Js.eq_str] in Ha.
      apply String.eqb_neq in Ha.
      rewrite (executeWorkflowStep_frame k _ wid) by congruence.
      apply push_result_frame. congruence.
    + unfold advances in Ha. rewrite Et, String.eqb_refl in Ha.
      apply orb_false_elim in Ha as [_ Ha]. cbn [andb] in Ha.
      apply String.eqb_neq in Ha.
      apply started_frame. congruence.
    + now rewrite E.
  - cbn [step]. now rewrite on_close_workflows.
Qed.

Lemma on_message_start (readFile : string -> string + string) (ws : nat) (now : Z)
    (id : JsValue) (l : list JsValue) (st : State) :
  on_message readFile ws now
    (Some (JObj [("type", JStr "workflow/start"); ("id", id);
                 ("params", JObj [("steps", JArr l)])])) st
  = executeWorkflowStep ("workflow-" +:+ Str.of_Z now)
      (send ws
         (JObj [("type", JStr "response"); ("id", id);
                ("result", JObj [("workflowId", JStr ("workflow-" +:+ Str.of_Z now));
                                 ("status", JStr "started")])])
         (set_workflows
            (insert ("workflow-" +:+ Str.of_Z now) (mkWorkflow (JArr l) 0 [] ws "running"))
            st)).
Proof. reflexivity. Qed.

Lemma on_message_step_response (readFile : string -> string + string) (from : nat)
    (now : Z) (x : string) (i : nat) (r : JsValue) (st : State) (w : Workflow) :
  workflows st !! ("workflow-" +:+ x) = Some w ->
  on_message readFile from now
    (Some (JObj [("type", JStr "response");
                 ("id", JStr (("workflow-" +:+ x) +:+ "-step-" +:+ Str.of_nat i));
                 ("result", r); ("_workflowId", JStr ("workflow-" +:+ x))])) st
  = executeWorkflowStep ("workflow-" +:+ x) (push_result ("workflow-" +:+ x) r st).
Proof.
  intros Hw. unfold on_message.
  cbn [Js.nullish]. change (routed _) with true. cbv iota.
  change (Js.prop _ "_workflowId") with (JStr ("workflow-" +:+ x)).
  change (Js.prop _ "result") with r.
  unfold workflow_of. now rewrite Hw.
Qed.


(** Workflows whose steps are an array *)



Definition is_string (v : JsValue) : bool :=
  match v with JStr _ => true | _ => false end.

(* the names in the event are strings: the name an agent registers under
   and the names of the tools it lists, and the tool of every step of a
   workflow/start. The keys of the hub's Maps are then strings, which are
   equal as keys when they are equal as strings *)
Definition string_names (ev : Event) : bool :=
  match ev with
  | Message _ _ (Some msg) =>
      let type := key (Js.prop msg "type") in
      (negb (String.eqb type "register")
       || (is_string (Js.prop msg "from")
           && match Js.prop (Js.prop msg "capabilities") "tools" with
              | JArr tools => forallb (fun tool => is_string (Js.prop tool "name")) tools
              | _ => true
              end))
      && (negb (String.eqb type "workflow/start")
          || match Js.prop (Js.prop msg "params") "steps" with
             | JArr l => forallb (fun s => Js.nullish s || is_string (Js.prop s "tool")) l
             | _ => true
             end)
  | _ => true
  end.















End WorkflowFacts.

(** ** natural_request as a process (orchestrator) *)

Module ProcessFacts.
Import Orchestrator.

(* the results of a loop that has ended: one for each step, all of them
   successes, or successes up to a failure, the last *)
Definition ended (plan : Plan) (results : list JsValue) : Prop :=
  (Forall (fun r => RunFacts.ok r = true) results /\ length results = length (steps plan)) \/
  (exists pre f, results = (pre ++ [f])%list /\ Forall (fun r => RunFacts.ok r = true) pre /\
                 RunFacts.ok f = false /\ (length pre < length (steps plan))%nat).

(* the results of a call that awaits step [aw_index]: one for each step
   before it, all of them successes *)
Definition waiting (a : Awaiting) : Prop :=
  length (aw_results a) = aw_index a /\
  (aw_index a < length (steps (aw_plan a)))%nat /\
  Forall (fun r => RunFacts.ok r = true) (aw_results a).

Definition returned_ok (r : Returned) : Prop :=
  match rt_plan r with
  | Some plan => ended plan (rt_results r)
  | None => rt_results r = []
  end.

Definition Shape (p : Process) : Prop :=
  Forall waiting (pr_awaiting p) /\ Forall returned_ok (pr_returned p).

(* where the loop stops, from step [i] with a result for each step before *)
Lemma advance_spec (now : Z) (availableTools : JsMap.t ToolEntry) (plan : Plan)
    (c : Correlator) (left : nat) :
  forall (i : nat) (results : list JsValue),
    length results = i -> Forall (fun r => RunFacts.ok r = true) results ->
    (i <= length (steps plan))%nat -> (length (steps plan) - i < left)%nat ->
    match advance left now availableTools plan i results c with
    | Awaits c' j rs t =>
        exists step0 step,
          steps plan !! j = Some step0 /\ prepare availableTools step0 rs = Dispatch step /\
          c' = fst (dispatch now j step c) /\ t = snd (dispatch now j step c) /\
          length rs = j /\ Forall (fun r => RunFacts.ok r = true) rs
    | Ends rs => ended plan rs
    end.
Proof.
  induction left as [|left IH]; intros i results Hlen Hok Hi Hleft; [lia|].
  cbn [advance]. destruct (steps plan !! i) as [step0|] eqn:Es.
  - assert (Hlt : (i < length (steps plan))%nat) by (apply lookup_lt_is_Some; eauto).
    destruct (prepare availableTools step0 results) as [result | step] eqn:Ep.
    + cbv zeta. fold (RunFacts.ok result). destruct (RunFacts.ok result) eqn:Hr; cbn [negb].
      * apply IH; [rewrite length_app; simpl; lia | | lia | lia].
        apply Forall_app. split; [exact Hok|]. now constructor.
      * right. exists results, result. repeat split; [exact Hok | exact Hr | lia].
    + cbv zeta. exists step0, step. now repeat split.
  - apply lookup_ge_None in Es. left. split; [exact Hok | lia].
Qed.

Lemma Shape_conclude (now : Z) (args : JsValue) (query : string) (i : Intent) (plan : Plan)
    (results : list JsValue) (p : Process) :
  Shape p -> ended plan results -> Shape (conclude now args query i plan results p).
Proof.
  intros [Ha Hr] He. unfold conclude.
  destruct (synthesizeResponse _ _ _); split; cbn; try exact Ha.
  all: apply Forall_app; split; [exact Hr|]; constructor; [exact He | constructor].
Qed.

Lemma Shape_proceed (now : Z) (args : JsValue) (query : string) (i : Intent) (plan : Plan)
    (index : nat) (results : list JsValue) (p : Process) :
  Shape p -> length results = index -> Forall (fun r => RunFacts.ok r = true) results ->
  (index <= length (steps plan))%nat ->
  Shape (proceed now args query i plan index results p).
Proof.
  intros HS Hlen Hok Hi. unfold proceed.
  pose proof (advance_spec now (pr_tools p) plan (pr_correlator p) (S (length (steps plan)))
                index results Hlen Hok Hi) as H.
  destruct (advance _ _ _ _ _ _ _) as [c' j rs t | rs].
  - destruct H as (step0 & step & E1 & _ & _ & _ & E5 & E6); [lia|].
    destruct HS as [Ha Hr]. split; cbn; [|exact Hr].
    apply Forall_app. split; [exact Ha|]. constructor; [|constructor].
    split; [exact E5|]. split; [|exact E6]. cbn.
    apply lookup_lt_is_Some. eauto.
  - apply Shape_conclude; [exact HS|]. apply H. lia.
Qed.

Lemma Shape_returns (args value : JsValue) (p : Process) :
  Shape p -> Shape (returns args value p).
Proof.
  intros [Ha Hr]. split; cbn; [exact Ha|].
  apply Forall_app. split; [exact Hr|]. constructor; [reflexivity | constructor].
Qed.

Lemma take_awaiting_In (h : nat) (l : list Awaiting) (a : Awaiting) (rest : list Awaiting) :
  take_awaiting h l = Some (a, rest) ->
  In a l /\ tm_resolve (aw_timer a) = h /\ (forall b, In b rest -> In b l) /\
  length l = S (length rest).
Proof.
  revert a rest. induction l as [|x l IH]; intros a rest H; [discriminate H|].
  cbn [take_awaiting] in H. destruct (tm_resolve (aw_timer x) =? h)%nat eqn:E.
  - injection H as <- <-. apply Nat.eqb_eq in E.
    repeat split; [now left | exact E | intros b Hb; now right].
  - destruct (take_awaiting h l) as [[b r]|] eqn:T; [|discriminate H].
    injection H as <- <-. destruct (IH b r eq_refl) as (I1 & I2 & I3 & I4).
    repeat split; [now right | exact I2 | | simpl; lia].
    intros y [<- | Hy]; [now left | right; now apply I3].
Qed.

Lemma Shape_resume (now : Z) (h : nat) (v : JsValue) (p : Process) :
  Shape p -> Shape (resume now h v p).
Proof.
  intros HS. unfold resume.
  destruct (take_awaiting h (pr_awaiting p)) as [[a rest]|] eqn:T; [|exact HS].
  destruct (take_awaiting_In h _ a rest T) as (Hin & _ & Hrest & _).
  destruct HS as [Ha Hr].
  assert (Hwa : waiting a).
  { rewrite Forall_forall in Ha. apply Ha. now apply list_elem_of_In. }
  assert (HS' : Shape (mkProcess (pr_tools p) (pr_memory p) (pr_correlator p) (pr_timers p)
                         rest (pr_returned p))).
  { split; cbn; [|exact Hr]. rewrite Forall_forall in Ha |- *.
    intros b Hb. apply Ha. apply list_elem_of_In, Hrest. now apply list_elem_of_In. }
  destruct Hwa as (W1 & W2 & W3).
  cbv zeta. fold (RunFacts.ok v). destruct (RunFacts.ok v) eqn:Hv; cbn [negb].
  - apply Shape_proceed; [exact HS' | rewrite length_app; simpl; lia | | lia].
    apply Forall_app. split; [exact W3|]. now constructor.
  - apply Shape_conclude; [exact HS'|]. right. exists (aw_results a), v.
    repeat split; [exact W3 | exact Hv | lia].
Qed.

Lemma Shape_react (inp : Input) (p : Process) : Shape p -> Shape (react inp p).
Proof.
  intros HS. destruct inp as [now args | now ev | msg]; cbn [react].
  - unfold invoke. destruct (Js.prop args "query"); try (now apply Shape_returns).
    destruct (String.eqb _ "unknown"); [now apply Shape_returns|].
    destruct (createExecutionPlan _ _ _) as [plan|]; [|now apply Shape_returns].
    apply Shape_proceed; [exact HS | reflexivity | constructor | lia].
  - unfold deliver. destruct (negb _); [exact HS|]. cbv zeta.
    destruct (drop _ _) as [|[h v] ?]; [exact HS | now apply Shape_resume].
  - exact HS.
Qed.

Lemma Shape_start : Shape start.
Proof. split; constructor. Qed.

Lemma Shape_react_all (inps : list Input) (p : Process) :
  Shape p -> Shape (react_all inps p).
Proof.
  revert p. induction inps as [|inp inps IH]; intros p HS; [exact HS|].
  simpl. apply IH. now apply Shape_react.
Qed.

(** The table, the timers and the calls that await *)

(* what links them: a promise is named by the entry, the timer and the
   awaiting call that the dispatch which created it made, and by nothing
   made before or after *)
Definition Linked (p : Process) : Prop :=
  let c := pr_correlator p in
  (forall k info, pendingRequests c !! k = Some info -> (resolve info < promises c)%nat) /\
  (forall t, In t (pr_timers p) -> (tm_resolve t < promises c)%nat) /\
  (forall a, In a (pr_awaiting p) ->
     (tm_resolve (aw_timer a) < promises c)%nat /\ tm_delay (aw_timer a) = 10000) /\
  (forall a k info,
     In a (pr_awaiting p) -> pendingRequests c !! k = Some info ->
     resolve info = tm_resolve (aw_timer a) ->
     k = tm_requestId (aw_timer a) /\ tool (ri_step info) = tm_tool (aw_timer a)) /\
  (forall a t,
     In a (pr_awaiting p) -> In t (pr_timers p) ->
     tm_resolve t = tm_resolve (aw_timer a) -> t = aw_timer a) /\
  List.NoDup (List.map (fun a => tm_resolve (aw_timer a)) (pr_awaiting p)).

(* nothing is added: entries, timers and awaiting calls may go *)
Definition shrinks (p p' : Process) : Prop :=
  promises (pr_correlator p') = promises (pr_correlator p) /\
  (forall k info, pendingRequests (pr_correlator p') !! k = Some info ->
                  pendingRequests (pr_correlator p) !! k = Some info) /\
  (forall t, In t (pr_timers p') -> In t (pr_timers p)) /\
  (forall a, In a (pr_awaiting p') -> In a (pr_awaiting p)) /\
  (List.NoDup (List.map (fun a => tm_resolve (aw_timer a)) (pr_awaiting p)) ->
   List.NoDup (List.map (fun a => tm_resolve (aw_timer a)) (pr_awaiting p'))).

Lemma Linked_shrinks (p p' : Process) : Linked p -> shrinks p p' -> Linked p'.
Proof.
  intros (L1 & L2 & L3 & L4 & L5 & L6) (S1 & S2 & S3 & S4 & S5).
  unfold Linked. cbv zeta. rewrite S1.
  split; [intros k info H; exact (L1 k info (S2 k info H))|].
  split; [intros t H; exact (L2 t (S3 t H))|].
  split; [intros a H; exact (L3 a (S4 a H))|].
  split; [intros a k info Ha Hk; exact (L4 a k info (S4 a Ha) (S2 k info Hk))|].
  split; [intros a t Ha Ht; exact (L5 a t (S4 a Ha) (S3 t Ht))|].
  exact (S5 L6).
Qed.

Lemma shrinks_refl (p : Process) : shrinks p p.
Proof. now repeat split. Qed.

Lemma shrinks_trans (p q r : Process) : shrinks p q -> shrinks q r -> shrinks p r.
Proof.
  intros (A1 & A2 & A3 & A4 & A5) (B1 & B2 & B3 & B4 & B5).
  split; [congruence|]. split; [intros k info H; now apply A2, B2|].
  split; [intros t H; now apply A3, B3|]. split; [intros a H; now apply A4, B4|].
  intros H. now apply B5, A5.
Qed.

Lemma remove_timer_In (t x : Timer) (l : list Timer) :
  In x (remove_timer t l) -> In x l.
Proof.
  induction l as [|y l IH]; simpl; [tauto|].
  destruct (timer_eqb t y); [now right|].
  intros [<- | H]; [now left | right; now apply IH].
Qed.

Lemma remove_timer_other (t x : Timer) (l : list Timer) :
  In x l -> timer_eqb t x = false -> In x (remove_timer t l).
Proof.
  intros Hin Hne. induction l as [|y l IH]; simpl in *; [tauto|].
  destruct Hin as [<- | Hin].
  - rewrite Hne. now left.
  - destruct (timer_eqb t y); [exact Hin | right; now apply IH].
Qed.

Lemma timer_eqb_eq (a b : Timer) : timer_eqb a b = true -> a = b.
Proof.
  unfold timer_eqb. intros H.
  apply andb_true_iff in H as [H H4]. apply andb_true_iff in H as [H H3].
  apply andb_true_iff in H as [H1 H2].
  apply String.eqb_eq in H1, H3. apply Nat.eqb_eq in H2. apply Z.eqb_eq in H4.
  destruct a, b. simpl in *. congruence.
Qed.

Lemma timer_eqb_refl (a : Timer) : timer_eqb a a = true.
Proof.
  unfold timer_eqb. now rewrite !String.eqb_refl, Nat.eqb_refl, Z.eqb_refl.
Qed.

Lemma existsb_timer (t : Timer) (l : list Timer) :
  existsb (timer_eqb t) l = true <-> In t l.
Proof.
  rewrite existsb_exists. split.
  - intros (x & Hx & E). apply timer_eqb_eq in E. now subst.
  - intros H. exists t. split; [exact H | apply timer_eqb_refl].
Qed.

Lemma take_awaiting_NoDup (h : nat) (l : list Awaiting) (a : Awaiting)
    (rest : list Awaiting) :
  take_awaiting h l = Some (a, rest) ->
  List.NoDup (List.map (fun a => tm_resolve (aw_timer a)) l) ->
  List.NoDup (List.map (fun a => tm_resolve (aw_timer a)) rest).
Proof.
  revert a rest. induction l as [|x l IH]; intros a rest H Hnd; [discriminate H|].
  cbn [take_awaiting] in H. apply List.NoDup_cons_iff in Hnd as [Hx Hnd].
  destruct (tm_resolve (aw_timer x) =? h)%nat.
  - injection H as <- <-. exact Hnd.
  - destruct (take_awaiting h l) as [[b r]|] eqn:T; [|discriminate H].
    injection H as <- <-. simpl. apply List.NoDup_cons.
    + intros Hin. apply Hx. apply in_map_iff in Hin as (y & Ey & Hy).
      apply in_map_iff. exists y. split; [exact Ey|].
      now apply (proj1 (proj2 (proj2 (take_awaiting_In h l b r T)))).
    + exact (IH b r eq_refl Hnd).
Qed.

(* the call that awaits a promise is found, when no two await the same *)
Lemma take_awaiting_found (l : list Awaiting) (a : Awaiting) :
  In a l -> List.NoDup (List.map (fun a => tm_resolve (aw_timer a)) l) ->
  exists rest, take_awaiting (tm_resolve (aw_timer a)) l = Some (a, rest).
Proof.
  induction l as [|x l IH]; intros Hin Hnd; [destruct Hin|].
  apply List.NoDup_cons_iff in Hnd as [Hx Hnd]. cbn [take_awaiting].
  destruct Hin as [-> | Hin].
  - rewrite Nat.eqb_refl. now eexists.
  - destruct (tm_resolve (aw_timer x) =? tm_resolve (aw_timer a))%nat eqn:E.
    + exfalso. apply Nat.eqb_eq in E. apply Hx. rewrite E.
      apply in_map_iff. now exists a.
    + destruct (IH Hin Hnd) as [rest ->]. now eexists.
Qed.

(* another call stays *)
Lemma take_awaiting_other (h : nat) (l : list Awaiting) (a b : Awaiting)
    (rest : list Awaiting) :
  take_awaiting h l = Some (b, rest) -> In a l -> tm_resolve (aw_timer a) <> h ->
  In a rest.
Proof.
  revert b rest. induction l as [|x l IH]; intros b rest H Hin Hne; [discriminate H|].
  cbn [take_awaiting] in H. destruct (tm_resolve (aw_timer x) =? h)%nat eqn:E.
  - injection H as <- <-. apply Nat.eqb_eq in E.
    destruct Hin as [-> | Hin]; [congruence | exact Hin].
  - destruct (take_awaiting h l) as [[b' r]|] eqn:T; [|discriminate H].
    injection H as <- <-. destruct Hin as [-> | Hin]; [now left|].
    right. exact (IH b' r eq_refl Hin Hne).
Qed.

(* what a handler or a timer does to the table: nothing, or it removes the
   entry [k] and completes the promise [h] with [v] *)
Lemma handle_cases (ev : Event) (c : Correlator) :
  handle ev c = c \/
  exists k info h v,
    pendingRequests c !! k = Some info /\ targets k ev = true /\
    handle ev c = settle h v (forget k c) /\
    match ev with
    | Response msg =>
        h = resolve info /\ v = response_result (ri_step info) (Js.prop msg "result")
    | Error msg =>
        h = resolve info /\ v = error_result (ri_step info) (Js.prop msg "error")
    | Timeout t =>
        h = tm_resolve t /\ k = tm_requestId t /\ v = timeout_result (tm_tool t)
    end.
Proof.
  destruct ev as [msg | msg | t]; cbn [handle].
  - unfold on_response, pending. destruct (Js.prop msg "id") eqn:Ei; try now left.
    destruct (pendingRequests c !! s) as [info|] eqn:Ep; [|now left].
    right. exists s, info, (resolve info), (response_result (ri_step info) (Js.prop msg "result")).
    split; [exact Ep|]. split; [cbn; rewrite Ei; cbn; apply String.eqb_refl|]. now split.
  - unfold on_error, pending. destruct (Js.prop msg "id") eqn:Ei; try now left.
    destruct (pendingRequests c !! s) as [info|] eqn:Ep; [|now left].
    right. exists s, info, (resolve info), (error_result (ri_step info) (Js.prop msg "error")).
    split; [exact Ep|]. split; [cbn; rewrite Ei; cbn; apply String.eqb_refl|]. now split.
  - unfold on_timeout. destruct (pendingRequests c !! tm_requestId t) as [info|] eqn:Ep;
      [|now left].
    right. exists (tm_requestId t), info, (tm_resolve t), (timeout_result (tm_tool t)).
    split; [exact Ep|]. split; [cbn; apply String.eqb_refl|]. now split.
Qed.

Definition with_table (c : Correlator) (timers : list Timer) (p : Process) : Process :=
  mkProcess (pr_tools p) (pr_memory p) c timers (pr_awaiting p) (pr_returned p).

(* the timers after the event *)
Definition timers_after (ev : Event) (p : Process) : list Timer :=
  match ev with
  | Timeout t => remove_timer t (pr_timers p)
  | _ => pr_timers p
  end.

(* the ways of a delivery: a timer that is not set; nothing found in the
   table; an entry removed and a promise completed *)
Lemma deliver_cases (now : Z) (ev : Event) (p : Process) :
  deliver now ev p = p \/
  (handle ev (pr_correlator p) = pr_correlator p /\
   deliver now ev p = with_table (pr_correlator p) (timers_after ev p) p) \/
  exists k info h v,
    pendingRequests (pr_correlator p) !! k = Some info /\ targets k ev = true /\
    match ev with
    | Response msg =>
        h = resolve info /\ v = response_result (ri_step info) (Js.prop msg "result")
    | Error msg =>
        h = resolve info /\ v = error_result (ri_step info) (Js.prop msg "error")
    | Timeout t =>
        In t (pr_timers p) /\
        h = tm_resolve t /\ k = tm_requestId t /\ v = timeout_result (tm_tool t)
    end /\
    deliver now ev p
    = resume now h v
        (with_table (settle h v (forget k (pr_correlator p))) (timers_after ev p) p).
Proof.
  unfold deliver.
  destruct (negb _) eqn:Efire; [now left|]. right. cbv zeta.
  fold (timers_after ev p).
  destruct (handle_cases ev (pr_correlator p)) as [E | (k & info & h & v & Hp & Ht & E & Hv)].
  - left. split; [exact E|]. rewrite E. now rewrite drop_all.
  - right. exists k, info, h, v. split; [exact Hp|]. split; [exact Ht|].
    rewrite E. cbn [settled settle forget]. rewrite drop_app_length. split; [|reflexivity].
    destruct ev as [msg | msg | t]; try exact Hv.
    split; [|exact Hv]. apply negb_false_iff in Efire. now apply existsb_timer.
Qed.

Lemma shrinks_table (ev : Event) (p : Process) (k : string) (h : nat) (v : JsValue) :
  shrinks p (with_table (settle h v (forget k (pr_correlator p))) (timers_after ev p) p).
Proof.
  split; [reflexivity|]. split.
  - cbn. intros k' info H. apply lookup_delete_Some in H. tauto.
  - split; [|now split].
    cbn. destruct ev; try tauto. intros x. apply remove_timer_In.
Qed.

Lemma shrinks_timers (ev : Event) (p : Process) :
  shrinks p (with_table (pr_correlator p) (timers_after ev p) p).
Proof.
  split; [reflexivity|]. split; [tauto|]. split; [|now split].
  cbn. destruct ev; try tauto. intros x. apply remove_timer_In.
Qed.

Lemma Linked_conclude (now : Z) (args : JsValue) (query : string) (i : Intent) (plan : Plan)
    (results : list JsValue) (p : Process) :
  Linked p -> Linked (conclude now args query i plan results p).
Proof. unfold conclude. now destruct (synthesizeResponse _ _ _). Qed.

Lemma toolCall_id (id : string) (step : Step) : Js.prop (toolCall id step) "id" = JStr id.
Proof. reflexivity. Qed.

(* a call that is sent: its entry, its timer and the call that awaits it *)
Lemma Linked_dispatch (now : Z) (p : Process) (a : Awaiting) (step : Step) :
  Linked p ->
  aw_timer a = snd (dispatch now (aw_index a) step (pr_correlator p)) ->
  Linked (mkProcess (pr_tools p) (pr_memory p)
            (fst (dispatch now (aw_index a) step (pr_correlator p)))
            (pr_timers p ++ [aw_timer a]) (pr_awaiting p ++ [a]) (pr_returned p)).
Proof.
  intros (L1 & L2 & L3 & L4 & L5 & L6) Ht.
  set (c := pr_correlator p) in *. set (id := requestId now (aw_index a)).
  assert (Eh : tm_resolve (aw_timer a) = promises c) by (now rewrite Ht).
  assert (Ei : tm_requestId (aw_timer a) = id) by (now rewrite Ht).
  unfold Linked. cbn [pr_correlator pr_timers pr_awaiting dispatch fst pendingRequests promises].
  fold id.
  split.
  { intros k info H. apply lookup_insert_Some in H as [[_ <-] | [_ H]]; [cbn; lia|].
    specialize (L1 k info H). lia. }
  split.
  { intros t H. apply in_app_or in H as [H | [<- | []]]; [specialize (L2 t H); lia | lia]. }
  split.
  { intros b H. apply in_app_or in H as [H | [<- | []]].
    - destruct (L3 b H). split; [lia | assumption].
    - split; [lia|]. now rewrite Ht. }
  split.
  { intros b k info Hb Hk Hr.
    apply lookup_insert_Some in Hk as [[<- <-] | [Hne Hk]].
    - cbn in Hr. apply in_app_or in Hb as [Hb | [<- | []]].
      + destruct (L3 b Hb). lia.
      + split; [now rewrite Ei|]. now rewrite Ht.
    - apply in_app_or in Hb as [Hb | [<- | []]].
      + exact (L4 b k info Hb Hk Hr).
      + specialize (L1 k info Hk). lia. }
  split.
  { intros b t Hb Htm Hr.
    apply in_app_or in Hb as [Hb | [<- | []]]; apply in_app_or in Htm as [Htm | [<- | []]].
    - exact (L5 b t Hb Htm Hr).
    - destruct (L3 b Hb). lia.
    - specialize (L2 t Htm). lia.
    - reflexivity. }
  rewrite List.map_app. cbn [List.map]. apply NoDup_ListNoDup. apply NoDup_app.
  split; [now apply NoDup_ListNoDup|]. split; [|apply NoDup_singleton].
  intros x Hx Hx'. apply list_elem_of_In in Hx. apply list_elem_of_In in Hx'.
  destruct Hx' as [<- | []]. apply in_map_iff in Hx as (b & Eb & Hb).
  destruct (L3 b Hb). lia.
Qed.

Lemma Linked_proceed (now : Z) (args : JsValue) (query : string) (i : Intent) (plan : Plan)
    (index : nat) (results : list JsValue) (p : Process) :
  Linked p -> Linked (proceed now args query i plan index results p).
Proof.
  intros HL. unfold proceed.
  generalize (S (length (steps plan))). intros left.
  revert index results. induction left as [|left IH]; intros index results;
    [now apply Linked_conclude|].
  cbn [advance]. destruct (steps plan !! index) as [step0|]; [|now apply Linked_conclude].
  destruct (prepare (pr_tools p) step0 results) as [result | step].
  - cbv zeta. destruct (negb _); [now apply Linked_conclude | apply IH].
  - cbv zeta.
    exact (Linked_dispatch now p
             (mkAwaiting args query i plan index results
                (snd (dispatch now index step (pr_correlator p)))) step HL eq_refl).
Qed.

Lemma Linked_resume (now : Z) (h : nat) (v : JsValue) (p : Process) :
  Linked p -> Linked (resume now h v p).
Proof.
  intros HL. unfold resume.
  destruct (take_awaiting h (pr_awaiting p)) as [[a rest]|] eqn:T; [|exact HL].
  destruct (take_awaiting_In h _ a rest T) as (_ & _ & Hrest & _).
  assert (HL' : Linked (mkProcess (pr_tools p) (pr_memory p) (pr_correlator p) (pr_timers p)
                          rest (pr_returned p))).
  { apply (Linked_shrinks p); [exact HL|].
    split; [reflexivity|]. split; [tauto|]. split; [tauto|]. split; [exact Hrest|].
    cbn. now apply take_awaiting_NoDup with (1 := T). }
  cbv zeta. destruct (negb _); [now apply Linked_conclude | now apply Linked_proceed].
Qed.

Lemma Linked_react (inp : Input) (p : Process) : Linked p -> Linked (react inp p).
Proof.
  intros HL. destruct inp as [now args | now ev | msg]; cbn [react].
  - unfold invoke, returns. destruct (Js.prop args "query"); try exact HL.
    destruct (String.eqb _ "unknown"); [exact HL|].
    destruct (createExecutionPlan _ _ _) as [plan|]; [|exact HL].
    now apply Linked_proceed.
  - destruct (deliver_cases now ev p) as [-> | [[_ ->] | (k & info & h & v & _ & _ & _ & ->)]].
    + exact HL.
    + apply (Linked_shrinks p); [exact HL | apply shrinks_timers].
    + apply Linked_resume. apply (Linked_shrinks p); [exact HL | apply shrinks_table].
  - exact HL.
Qed.

Lemma Linked_start : Linked start.
Proof.
  unfold Linked. cbn. split; [intros k info H; rewrite lookup_empty in H; discriminate H|].
  split; [intros t []|]. split; [intros a []|].
  split; [intros a k info []|]. split; [intros a t []|]. constructor.
Qed.

Lemma Linked_react_all (inps : list Input) (p : Process) :
  Linked p -> Linked (react_all inps p).
Proof.
  revert p. induction inps as [|inp inps IH]; intros p HL; [exact HL|].
  simpl. apply IH. now apply Linked_react.
Qed.

(** The results in the order of the steps *)

(* [r] is what executeStep gives for step [j] on the results [before]: what
   it returns at once, or what the promise of the call it sends is completed
   with by a response, an error message or the timer *)
Definition result_of (plan : Plan) (j : nat) (before : list JsValue) (r : JsValue) : Prop :=
  exists step0 availableTools,
    steps plan !! j = Some step0 /\
    (prepare availableTools step0 before = Immediate r \/
     exists step,
       prepare availableTools step0 before = Dispatch step /\
       ((exists x, r = response_result step x) \/ (exists e, r = error_result step e) \/
        r = timeout_result (tool step))).

Definition in_order (plan : Plan) (results : list JsValue) : Prop :=
  forall j r, results !! j = Some r -> result_of plan j (take j results) r.

(* the step whose call [a] awaits *)
Definition awaits (a : Awaiting) (step : Step) : Prop :=
  exists step0 availableTools,
    steps (aw_plan a) !! aw_index a = Some step0 /\
    prepare availableTools step0 (aw_results a) = Dispatch step.

Definition Ordered (p : Process) : Prop :=
  (forall a, In a (pr_awaiting p) ->
     in_order (aw_plan a) (aw_results a) /\
     exists step,
       awaits a step /\ tm_tool (aw_timer a) = tool step /\
       forall k info,
         pendingRequests (pr_correlator p) !! k = Some info ->
         resolve info = tm_resolve (aw_timer a) -> ri_step info = step) /\
  (forall r plan, In r (pr_returned p) -> rt_plan r = Some plan -> in_order plan (rt_results r)).

Lemma in_order_snoc (plan : Plan) (results : list JsValue) (v : JsValue) :
  in_order plan results -> result_of plan (length results) results v ->
  in_order plan (results ++ [v]).
Proof.
  intros Ho Hv j r Hj.
  destruct (Nat.lt_ge_cases j (length results)) as [Hlt | Hge].
  - rewrite lookup_app_l in Hj by exact Hlt.
    rewrite take_app_le by lia. now apply Ho.
  - assert (Ej : j = length results).
    { apply lookup_lt_Some in Hj. rewrite length_app in Hj. simpl in Hj. lia. }
    subst j. rewrite lookup_app_r in Hj by lia. rewrite Nat.sub_diag in Hj.
    injection Hj as <-. rewrite take_app_length. exact Hv.
Qed.

Lemma advance_order (now : Z) (availableTools : JsMap.t ToolEntry) (plan : Plan)
    (c : Correlator) (left : nat) :
  forall (i : nat) (results : list JsValue),
    length results = i -> in_order plan results ->
    match advance left now availableTools plan i results c with
    | Awaits _ _ rs _ => in_order plan rs
    | Ends rs => in_order plan rs
    end.
Proof.
  induction left as [|left IH]; intros i results Hlen Ho; [exact Ho|].
  cbn [advance]. destruct (steps plan !! i) as [step0|] eqn:Es; [|exact Ho].
  destruct (prepare availableTools step0 results) as [result | step] eqn:Ep; [|exact Ho].
  cbv zeta.
  assert (Ho' : in_order plan (results ++ [result])).
  { apply in_order_snoc; [exact Ho|]. rewrite Hlen. exists step0, availableTools.
    split; [exact Es | now left]. }
  destruct (negb _); [exact Ho'|]. apply IH; [|exact Ho'].
  rewrite length_app. simpl. lia.
Qed.

(* where the loop awaits, it has sent the call of the step it prepared *)
Lemma advance_awaits (now : Z) (availableTools : JsMap.t ToolEntry) (plan : Plan)
    (c : Correlator) (left : nat) :
  forall (i : nat) (results : list JsValue) c' j rs t,
    advance left now availableTools plan i results c = Awaits c' j rs t ->
    exists step0 step,
      steps plan !! j = Some step0 /\ prepare availableTools step0 rs = Dispatch step /\
      c' = fst (dispatch now j step c) /\ t = snd (dispatch now j step c).
Proof.
  induction left as [|left IH]; intros i results c' j rs t H; [discriminate H|].
  cbn [advance] in H. destruct (steps plan !! i) as [step0|] eqn:Es; [|discriminate H].
  destruct (prepare availableTools step0 results) as [result | step] eqn:Ep.
  - cbv zeta in H. destruct (negb _); [discriminate H|]. exact (IH _ _ _ _ _ _ H).
  - cbv zeta in H. injection H as <- <- <- <-. now exists step0, step.
Qed.

(* the loop from a step on: it ends, or it awaits a call it has sent *)
Lemma proceed_cases (now : Z) (args : JsValue) (query : string) (i : Intent) (plan : Plan)
    (index : nat) (results : list JsValue) (p : Process) :
  (exists rs, proceed now args query i plan index results p
              = conclude now args query i plan rs p) \/
  exists j rs step0 step,
    steps plan !! j = Some step0 /\ prepare (pr_tools p) step0 rs = Dispatch step /\
    proceed now args query i plan index results p
    = mkProcess (pr_tools p) (pr_memory p) (fst (dispatch now j step (pr_correlator p)))
        (pr_timers p ++ [snd (dispatch now j step (pr_correlator p))])
        (pr_awaiting p ++ [mkAwaiting args query i plan j rs
                             (snd (dispatch now j step (pr_correlator p)))])
        (pr_returned p).
Proof.
  unfold proceed.
  destruct (advance _ _ _ _ _ _ _) as [c' j rs t | rs] eqn:E.
  - right. destruct (advance_awaits _ _ _ _ _ _ _ _ _ _ _ E) as (step0 & step & H1 & H2 & -> & ->).
    now exists j, rs, step0, step.
  - left. now exists rs.
Qed.

Lemma conclude_rest (now : Z) (args : JsValue) (query : string) (i : Intent) (plan : Plan)
    (results : list JsValue) (p : Process) :
  pr_tools (conclude now args query i plan results p) = pr_tools p /\
  pr_correlator (conclude now args query i plan results p) = pr_correlator p /\
  pr_timers (conclude now args query i plan results p) = pr_timers p /\
  pr_awaiting (conclude now args query i plan results p) = pr_awaiting p.
Proof. unfold conclude. now destruct (synthesizeResponse _ _ _). Qed.

Lemma Ordered_conclude (now : Z) (args : JsValue) (query : string) (i : Intent) (plan : Plan)
    (results : list JsValue) (p : Process) :
  Ordered p -> in_order plan results -> Ordered (conclude now args query i plan results p).
Proof.
  intros [Ha Hr] Ho. unfold conclude.
  destruct (synthesizeResponse _ _ _); (split; [exact Ha|]); cbn [pr_returned].
  all: intros r pl Hin Hpl; apply in_app_or in Hin as [Hin | [<- | []]];
    [exact (Hr r pl Hin Hpl) | cbn in Hpl; injection Hpl as <-; exact Ho].
Qed.

Lemma Ordered_proceed (now : Z) (args : JsValue) (query : string) (i : Intent) (plan : Plan)
    (index : nat) (results : list JsValue) (p : Process) :
  Ordered p -> Linked p -> length results = index -> in_order plan results ->
  Ordered (proceed now args query i plan index results p).
Proof.
  intros HO HL Hlen Ho.
  pose proof (advance_order now (pr_tools p) plan (pr_correlator p) (S (length (steps plan)))
                index results Hlen Ho) as Hadv.
  unfold proceed.
  destruct (advance _ _ _ _ _ _ _) as [c' j rs t | rs] eqn:E;
    [|now apply Ordered_conclude].
  destruct (advance_awaits _ _ _ _ _ _ _ _ _ _ _ E) as (step0 & step & H1 & H2 & -> & ->).
  destruct HO as [Ha Hr]. destruct HL as (L1 & _ & L3 & _).
  split; [|exact Hr]. cbn [pr_awaiting pr_correlator dispatch fst snd pendingRequests].
  intros a Hin. apply in_app_or in Hin as [Hin | [<- | []]].
  - destruct (Ha a Hin) as (Hoa & step' & Hw & Ht & He). split; [exact Hoa|].
    exists step'. split; [exact Hw|]. split; [exact Ht|].
    intros k info Hk Hres. apply lookup_insert_Some in Hk as [[_ <-] | [_ Hk]].
    + cbn in Hres. destruct (L3 a Hin). lia.
    + exact (He k info Hk Hres).
  - split; [exact Hadv|]. exists step. split; [now exists step0, (pr_tools p)|].
    split; [reflexivity|].
    intros k info Hk Hres. apply lookup_insert_Some in Hk as [[_ <-] | [_ Hk]];
      [reflexivity|].
    cbn in Hres. specialize (L1 k info Hk). lia.
Qed.

Lemma Ordered_shrinks (p p' : Process) :
  Ordered p -> shrinks p p' -> pr_returned p' = pr_returned p -> Ordered p'.
Proof.
  intros [Ha Hr] (_ & S2 & _ & S4 & _) Er. split; [|now rewrite Er].
  intros a Hin. destruct (Ha a (S4 a Hin)) as (Hoa & step & Hw & Ht & He).
  split; [exact Hoa|]. exists step. split; [exact Hw|]. split; [exact Ht|].
  intros k info Hk. exact (He k info (S2 k info Hk)).
Qed.

Lemma Ordered_resume (now : Z) (h : nat) (v : JsValue) (p : Process) :
  Ordered p -> Shape p -> Linked p ->
  (forall a, In a (pr_awaiting p) -> tm_resolve (aw_timer a) = h ->
             result_of (aw_plan a) (aw_index a) (aw_results a) v) ->
  Ordered (resume now h v p).
Proof.
  intros HO HS HL Hv. unfold resume.
  destruct (take_awaiting h (pr_awaiting p)) as [[a rest]|] eqn:T; [|exact HO].
  destruct (take_awaiting_In h _ a rest T) as (Hin & Hh & Hrest & _).
  set (p' := mkProcess (pr_tools p) (pr_memory p) (pr_correlator p) (pr_timers p) rest
               (pr_returned p)).
  assert (Hsh : shrinks p p').
  { split; [reflexivity|]. split; [tauto|]. split; [tauto|]. split; [exact Hrest|].
    cbn. now apply take_awaiting_NoDup with (1 := T). }
  assert (HO' : Ordered p') by (now apply (Ordered_shrinks p)).
  assert (HL' : Linked p') by (now apply (Linked_shrinks p)).
  destruct HS as [HSa _]. rewrite Forall_forall in HSa.
  destruct (HSa a (proj2 (list_elem_of_In _ _) Hin)) as (Hlen & _ & _).
  assert (Ho : in_order (aw_plan a) (aw_results a ++ [v])).
  { apply in_order_snoc; [exact (proj1 (proj1 HO a Hin))|]. rewrite Hlen. now apply Hv. }
  cbv zeta. fold p'. destruct (negb _).
  - now apply Ordered_conclude.
  - apply Ordered_proceed; [exact HO' | exact HL' | | exact Ho].
    rewrite length_app. simpl. lia.
Qed.

(* the three invariants together *)
Definition Reach (p : Process) : Prop := Shape p /\ Linked p /\ Ordered p.

Lemma Ordered_react (inp : Input) (p : Process) : Reach p -> Ordered (react inp p).
Proof.
  intros (HS & HL & HO). destruct inp as [now args | now ev | msg]; cbn [react].
  - unfold invoke, returns. destruct (Js.prop args "query");
      try (split; [exact (proj1 HO)|]; cbn [pr_returned]; intros r pl Hin Hpl;
           apply in_app_or in Hin as [Hin | [<- | []]];
           [exact (proj2 HO r pl Hin Hpl) | discriminate Hpl]).
    destruct (String.eqb _ "unknown").
    { split; [exact (proj1 HO)|]. cbn [pr_returned]. intros r pl Hin Hpl.
      apply in_app_or in Hin as [Hin | [<- | []]];
        [exact (proj2 HO r pl Hin Hpl) | discriminate Hpl]. }
    destruct (createExecutionPlan _ _ _) as [plan|].
    + apply Ordered_proceed; [exact HO | exact HL | reflexivity|].
      intros j r Hj. rewrite lookup_nil in Hj. discriminate Hj.
    + split; [exact (proj1 HO)|]. cbn [pr_returned]. intros r pl Hin Hpl.
      apply in_app_or in Hin as [Hin | [<- | []]];
        [exact (proj2 HO r pl Hin Hpl) | discriminate Hpl].
  - destruct (deliver_cases now ev p)
      as [-> | [[_ ->] | (k & info & h & v & Hk & _ & Hv & ->)]].
    + exact HO.
    + exact HO.
    + set (p' := with_table _ _ p).
      assert (Hsh : shrinks p p') by apply shrinks_table.
      apply Ordered_resume.
      * now apply (Ordered_shrinks p).
      * exact HS.
      * now apply (Linked_shrinks p).
      * intros a Hin Hh. cbn in Hin.
        destruct (proj1 HO a Hin) as (_ & step & (step0 & tools & W1 & W2) & Ht & He).
        exists step0, tools. split; [exact W1|]. right. exists step. split; [exact W2|].
        destruct ev as [msg | msg | t].
        -- destruct Hv as [-> ->]. left. exists (Js.prop msg "result").
           now rewrite (He k info Hk (eq_sym Hh)).
        -- destruct Hv as [-> ->]. right. left. exists (Js.prop msg "error").
           now rewrite (He k info Hk (eq_sym Hh)).
        -- destruct Hv as (Hin' & -> & -> & ->). right. right.
           destruct HL as (_ & _ & _ & _ & L5 & _).
           rewrite (L5 a t Hin Hin' (eq_sym Hh)). now rewrite Ht.
  - exact HO.
Qed.

Lemma Reach_react (inp : Input) (p : Process) : Reach p -> Reach (react inp p).
Proof.
  intros HR. pose proof (Ordered_react inp p HR) as HO. destruct HR as (HS & HL & _).
  split; [now apply Shape_react|]. split; [now apply Linked_react | exact HO].
Qed.

Lemma Reach_start : Reach start.
Proof.
  split; [apply Shape_start|]. split; [apply Linked_start|].
  split; [intros a []| intros r pl []].
Qed.

Lemma Reach_react_all (inps : list Input) (p : Process) :
  Reach p -> Reach (react_all inps p).
Proof.
  revert p. induction inps as [|inp inps IH]; intros p HR; [exact HR|].
  simpl. apply IH. now apply Reach_react.
Qed.

(** A plan that halts *)

(* the call of natural_request whose loop stopped at the failure [f], after
   the results [results], returns: the failure is reported in the response,
   the memory stays, nothing is sent *)
Definition halted (args : JsValue) (query : string) (i : Intent) (plan : Plan)
    (results : list JsValue) (f : JsValue) (p : Process) : Process :=
  mkProcess (pr_tools p) (pr_memory p) (pr_correlator p) (pr_timers p) (pr_awaiting p)
    (pr_returned p ++
     [mkReturned args (Some plan) (results ++ [f])
        (JObj [("success", JBool true); ("query", JStr query);
               ("intent", JStr (intent i));
               ("executedSteps", Js.nat (length (steps plan)));
               ("response", JStr (Icon.cross +:+ " I encountered an error: "
                                  +:+ Js.to_string (Js.prop f "error")))])]).

Lemma conclude_failed (now : Z) (args : JsValue) (query : string) (i : Intent) (plan : Plan)
    (pre : list JsValue) (f : JsValue) (p : Process) :
  Forall (fun r => RunFacts.ok r = true) pre -> RunFacts.ok f = false ->
  conclude now args query i plan (pre ++ [f]) p = halted args query i plan pre f p.
Proof.
  intros Hpre Hf. unfold conclude, halted.
  rewrite (RunFacts.synthesize_failed (pr_memory p) plan pre f Hpre Hf).
  now rewrite (RunFacts.remember_failed now (intent i) query pre f (pr_memory p) Hf).
Qed.

(* a step that fails at once, its tool not being available, halts the plan *)
Lemma proceed_failed (now : Z) (args : JsValue) (query : string) (i : Intent) (plan : Plan)
    (index : nat) (pre : list JsValue) (step0 : Step) (f : JsValue) (p : Process) :
  Forall (fun r => RunFacts.ok r = true) pre ->
  steps plan !! index = Some step0 -> prepare (pr_tools p) step0 pre = Immediate f ->
  RunFacts.ok f = false ->
  proceed now args query i plan index pre p = halted args query i plan pre f p.
Proof.
  intros Hpre Hs Hp Hf. unfold proceed. cbn [advance]. rewrite Hs, Hp. cbv zeta.
  fold (RunFacts.ok f). rewrite Hf. cbn [negb]. now apply conclude_failed.
Qed.

(* the promise of the awaited call is completed with a failure *)
Lemma resume_failed (now : Z) (h : nat) (v : JsValue) (p : Process) (a : Awaiting)
    (rest : list Awaiting) :
  Shape p -> take_awaiting h (pr_awaiting p) = Some (a, rest) -> RunFacts.ok v = false ->
  resume now h v p
  = halted (aw_args a) (aw_query a) (aw_intent a) (aw_plan a) (aw_results a) v
      (mkProcess (pr_tools p) (pr_memory p) (pr_correlator p) (pr_timers p) rest
         (pr_returned p)).
Proof.
  intros [HS _] T Hv. unfold resume. rewrite T. cbv zeta.
  fold (RunFacts.ok v). rewrite Hv. cbn [negb].
  apply conclude_failed; [|exact Hv].
  rewrite Forall_forall in HS.
  destruct (take_awaiting_In h _ a rest T) as (Hin & _).
  exact (proj2 (proj2 (HS a (proj2 (list_elem_of_In _ _) Hin)))).
Qed.

Lemma resume_ok (now : Z) (h : nat) (v : JsValue) (p : Process) (a : Awaiting)
    (rest : list Awaiting) :
  take_awaiting h (pr_awaiting p) = Some (a, rest) -> RunFacts.ok v = true ->
  resume now h v p
  = proceed now (aw_args a) (aw_query a) (aw_intent a) (aw_plan a) (S (aw_index a))
      (aw_results a ++ [v])
      (mkProcess (pr_tools p) (pr_memory p) (pr_correlator p) (pr_timers p) rest
         (pr_returned p)).
Proof.
  intros T Hv. unfold resume. rewrite T. cbv zeta.
  fold (RunFacts.ok v). now rewrite Hv.
Qed.

(* the timer of an awaited call fires while an entry is under its id *)
Lemma timeout_fires (now : Z) (p : Process) (a : Awaiting) :
  Shape p -> Linked p ->
  In a (pr_awaiting p) -> In (aw_timer a) (pr_timers p) ->
  is_Some (pendingRequests (pr_correlator p) !! tm_requestId (aw_timer a)) ->
  exists rest,
    take_awaiting (tm_resolve (aw_timer a)) (pr_awaiting p) = Some (a, rest) /\
    deliver now (Timeout (aw_timer a)) p
    = halted (aw_args a) (aw_query a) (aw_intent a) (aw_plan a) (aw_results a)
        (timeout_result (tm_tool (aw_timer a)))
        (mkProcess (pr_tools p) (pr_memory p)
           (settle (tm_resolve (aw_timer a)) (timeout_result (tm_tool (aw_timer a)))
              (forget (tm_requestId (aw_timer a)) (pr_correlator p)))
           (remove_timer (aw_timer a) (pr_timers p)) rest (pr_returned p)).
Proof.
  intros HS HL Ha Ht [info Hi].
  destruct (take_awaiting_found (pr_awaiting p) a Ha (proj2 (proj2 (proj2 (proj2 (proj2 HL))))))
    as [rest T].
  exists rest. split; [exact T|].
  unfold deliver. rewrite (proj2 (existsb_timer _ _) Ht). cbn [negb handle].
  unfold on_timeout. rewrite Hi. cbn [settled settle forget]. rewrite drop_app_length.
  rewrite (resume_failed now _ _ _ a rest); [reflexivity | | exact T | reflexivity].
  destruct HS as [H1 H2]. split; [exact H1 | exact H2].
Qed.

(* an error message arrives that names the entry of an awaited call *)
Lemma error_arrives (now : Z) (p : Process) (a : Awaiting) (msg : JsValue)
    (info : RequestInfo) :
  Shape p -> Linked p -> In a (pr_awaiting p) ->
  Js.prop msg "id" = JStr (tm_requestId (aw_timer a)) ->
  pendingRequests (pr_correlator p) !! tm_requestId (aw_timer a) = Some info ->
  resolve info = tm_resolve (aw_timer a) ->
  exists rest,
    take_awaiting (tm_resolve (aw_timer a)) (pr_awaiting p) = Some (a, rest) /\
    deliver now (Error msg) p
    = halted (aw_args a) (aw_query a) (aw_intent a) (aw_plan a) (aw_results a)
        (error_result (ri_step info) (Js.prop msg "error"))
        (mkProcess (pr_tools p) (pr_memory p)
           (settle (tm_resolve (aw_timer a)) (error_result (ri_step info) (Js.prop msg "error"))
              (forget (tm_requestId (aw_timer a)) (pr_correlator p)))
           (pr_timers p) rest (pr_returned p)).
Proof.
  intros HS HL Ha Hid Hi Hr.
  destruct (take_awaiting_found (pr_awaiting p) a Ha (proj2 (proj2 (proj2 (proj2 (proj2 HL))))))
    as [rest T].
  exists rest. split; [exact T|].
  unfold deliver. cbn [negb handle]. unfold on_error, pending. rewrite Hid, Hi.
  cbn [settled settle forget]. rewrite drop_app_length. rewrite Hr.
  rewrite (resume_failed now _ _ _ a rest); [reflexivity | | exact T | reflexivity].
  destruct HS as [H1 H2]. split; [exact H1 | exact H2].
Qed.

(* a response arrives that names the entry of an awaited call: the loop
   goes on with the next step *)
Lemma response_arrives (now : Z) (p : Process) (a : Awaiting) (msg : JsValue)
    (info : RequestInfo) :
  Linked p -> In a (pr_awaiting p) ->
  Js.prop msg "id" = JStr (tm_requestId (aw_timer a)) ->
  pendingRequests (pr_correlator p) !! tm_requestId (aw_timer a) = Some info ->
  resolve info = tm_resolve (aw_timer a) ->
  exists rest,
    take_awaiting (tm_resolve (aw_timer a)) (pr_awaiting p) = Some (a, rest) /\
    deliver now (Response msg) p
    = proceed now (aw_args a) (aw_query a) (aw_intent a) (aw_plan a) (S (aw_index a))
        (aw_results a ++ [response_result (ri_step info) (Js.prop msg "result")])
        (mkProcess (pr_tools p) (pr_memory p)
           (settle (tm_resolve (aw_timer a))
              (response_result (ri_step info) (Js.prop msg "result"))
              (forget (tm_requestId (aw_timer a)) (pr_correlator p)))
           (pr_timers p) rest (pr_returned p)).
Proof.
  intros HL Ha Hid Hi Hr.
  destruct (take_awaiting_found (pr_awaiting p) a Ha (proj2 (proj2 (proj2 (proj2 (proj2 HL))))))
    as [rest T].
  exists rest. split; [exact T|].
  unfold deliver. cbn [negb handle]. unfold on_response, pending. rewrite Hid, Hi.
  cbn [settled settle forget]. rewrite drop_app_length. rewrite Hr.
  now rewrite (resume_ok now _ _ _ a rest).
Qed.

(** While nothing is aimed at the id of a call *)

(* the input is a response or an error message that carries the id, or the
   firing of a timer set for the id *)
Definition aims (id : string) (inp : Input) : bool :=
  match inp with
  | Deliver _ ev => targets id ev
  | _ => false
  end.

(* the call [a] awaits, its timer is set, an entry is under its id *)
Definition outstanding (a : Awaiting) (p : Process) : Prop :=
  In a (pr_awaiting p) /\ In (aw_timer a) (pr_timers p) /\
  is_Some (pendingRequests (pr_correlator p) !! tm_requestId (aw_timer a)).

Lemma outstanding_conclude (now : Z) (args : JsValue) (query : string) (i : Intent)
    (plan : Plan) (results : list JsValue) (a : Awaiting) (p : Process) :
  outstanding a p -> outstanding a (conclude now args query i plan results p).
Proof.
  unfold outstanding.
  destruct (conclude_rest now args query i plan results p) as (_ & -> & -> & ->). tauto.
Qed.

Lemma outstanding_proceed (now : Z) (args : JsValue) (query : string) (i : Intent)
    (plan : Plan) (index : nat) (results : list JsValue) (a : Awaiting) (p : Process) :
  outstanding a p -> outstanding a (proceed now args query i plan index results p).
Proof.
  intros Ho.
  destruct (proceed_cases now args query i plan index results p)
    as [[rs ->] | (j & rs & step0 & step & _ & _ & ->)];
    [now apply outstanding_conclude|].
  destruct Ho as (H1 & H2 & H3). unfold outstanding.
  cbn [pr_awaiting pr_timers pr_correlator dispatch fst snd pendingRequests].
  split; [apply in_or_app; now left|]. split; [apply in_or_app; now left|].
  apply lookup_insert_is_Some.
  destruct (decide (requestId now j = tm_requestId (aw_timer a))); [now left | now right].
Qed.

Lemma outstanding_react (inp : Input) (a : Awaiting) (p : Process) :
  Linked p -> outstanding a p -> aims (tm_requestId (aw_timer a)) inp = false ->
  outstanding a (react inp p).
Proof.
  intros HL Ho Haim. destruct inp as [now args | now ev | msg]; cbn [react].
  - unfold invoke, returns. destruct (Js.prop args "query"); try exact Ho.
    destruct (String.eqb _ "unknown"); [exact Ho|].
    destruct (createExecutionPlan _ _ _) as [plan|]; [|exact Ho].
    now apply outstanding_proceed.
  - cbn [aims] in Haim.
    assert (Htimers : In (aw_timer a) (timers_after ev p)).
    { destruct Ho as (_ & H2 & _). destruct ev as [m | m | t]; try exact H2.
      cbn [timers_after]. apply remove_timer_other; [exact H2|].
      cbn [targets] in Haim. unfold timer_eqb. now rewrite Haim. }
    destruct (deliver_cases now ev p)
      as [-> | [[_ ->] | (k & info & h & v & Hk & Hto & Hv & ->)]].
    + exact Ho.
    + destruct Ho as (H1 & _ & H3). now split.
    + assert (Hne : k <> tm_requestId (aw_timer a)).
      { intros ->. rewrite Hto in Haim. discriminate Haim. }
      assert (Hh : tm_resolve (aw_timer a) <> h).
      { destruct HL as (_ & _ & _ & L4 & L5 & _). destruct Ho as (H1 & _ & _). intros E.
        destruct ev as [m | m | t].
        - destruct Hv as [-> _]. now destruct (L4 a k info H1 Hk (eq_sym E)).
        - destruct Hv as [-> _]. now destruct (L4 a k info H1 Hk (eq_sym E)).
        - destruct Hv as (Hin & -> & -> & _). apply Hne.
          now rewrite (L5 a t H1 Hin (eq_sym E)). }
      set (p' := with_table _ _ p).
      assert (Ho' : outstanding a p').
      { destruct Ho as (H1 & _ & H3). split; [exact H1|]. split; [exact Htimers|].
        cbn. rewrite lookup_delete_ne by exact Hne. exact H3. }
      unfold resume.
      destruct (take_awaiting h (pr_awaiting p')) as [[b rest]|] eqn:T; [|exact Ho'].
      assert (Ho'' : outstanding a (mkProcess (pr_tools p') (pr_memory p') (pr_correlator p')
                                      (pr_timers p') rest (pr_returned p'))).
      { destruct Ho' as (H1 & H2 & H3). split; [|now split].
        exact (take_awaiting_other h _ a b rest T H1 Hh). }
      cbv zeta. destruct (negb _);
        [now apply outstanding_conclude | now apply outstanding_proceed].
  - exact Ho.
Qed.

Lemma outstanding_react_all (quiet : list Input) (a : Awaiting) (p : Process) :
  Linked p -> outstanding a p ->
  forallb (fun inp => negb (aims (tm_requestId (aw_timer a)) inp)) quiet = true ->
  outstanding a (react_all quiet p).
Proof.
  revert p. induction quiet as [|inp quiet IH]; intros p HL Ho Hq; [exact Ho|].
  simpl in Hq. apply andb_true_iff in Hq as [H1 H2]. apply negb_true_iff in H1.
  simpl. apply IH; [now apply Linked_react | now apply outstanding_react | exact H2].
Qed.

(** A call that is sent *)

(* the clock of the turn *)
Definition time_of (inp : Input) : Z :=
  match inp with
  | Invoke now _ | Deliver now _ => now
  | Updated _ => 0
  end.

(* what the dispatch of the call that [a] awaits left behind: the message
   sent last, the entry under the id, the timer *)
Definition dispatched (now : Z) (a : Awaiting) (step : Step) (p : Process) : Prop :=
  aw_timer a = mkTimer (requestId now (aw_index a)) (tm_resolve (aw_timer a)) (tool step) 10000 /\
  awaits a step /\
  last (sent (pr_correlator p)) = Some (toolCall (requestId now (aw_index a)) step) /\
  pendingRequests (pr_correlator p) !! requestId now (aw_index a)
  = Some (mkRequestInfo (tm_resolve (aw_timer a)) step (aw_index a) now) /\
  outstanding a p.

Lemma proceed_new (now : Z) (args : JsValue) (query : string) (i : Intent) (plan : Plan)
    (index : nat) (results : list JsValue) (p : Process) (a : Awaiting) :
  In a (pr_awaiting (proceed now args query i plan index results p)) ->
  In a (pr_awaiting p) \/
  exists step, dispatched now a step (proceed now args query i plan index results p).
Proof.
  destruct (proceed_cases now args query i plan index results p)
    as [[rs ->] | (j & rs & step0 & step & H1 & H2 & ->)].
  - destruct (conclude_rest now args query i plan rs p) as (_ & _ & _ & ->). now left.
  - cbn [pr_awaiting]. intros Hin. apply in_app_or in Hin as [Hin | [<- | []]]; [now left|].
    right. exists step. unfold dispatched, outstanding.
    cbn [aw_timer aw_index dispatch snd fst pr_correlator pr_timers pr_awaiting sent
         pendingRequests tm_resolve tm_requestId].
    split; [reflexivity|]. split; [now exists step0, (pr_tools p)|].
    split; [apply last_snoc|]. split; [apply lookup_insert_eq|].
    split; [apply in_or_app; right; now left|].
    split; [apply in_or_app; right; now left|].
    rewrite lookup_insert_eq. now eexists.
Qed.

(* a call that awaits after an input and did not before was sent in it *)
Lemma react_new (inp : Input) (p : Process) (a : Awaiting) :
  In a (pr_awaiting (react inp p)) ->
  In a (pr_awaiting p) \/ exists step, dispatched (time_of inp) a step (react inp p).
Proof.
  destruct inp as [now args | now ev | msg]; cbn [react time_of].
  - unfold invoke, returns. destruct (Js.prop args "query"); try (now left).
    destruct (String.eqb _ "unknown"); [now left|].
    destruct (createExecutionPlan _ _ _) as [plan|]; [|now left].
    apply proceed_new.
  - destruct (deliver_cases now ev p)
      as [-> | [[_ ->] | (k & info & h & v & _ & _ & _ & ->)]]; [now left | now left |].
    set (p' := with_table _ _ p). unfold resume.
    destruct (take_awaiting h (pr_awaiting p')) as [[b rest]|] eqn:T;
      [|intros Hin; left; exact Hin].
    destruct (take_awaiting_In h _ b rest T) as (_ & _ & Hrest & _).
    cbv zeta. destruct (negb _).
    + destruct (conclude_rest now (aw_args b) (aw_query b) (aw_intent b) (aw_plan b)
                  (aw_results b ++ [v])
                  (mkProcess (pr_tools p') (pr_memory p') (pr_correlator p') (pr_timers p')
                     rest (pr_returned p'))) as (_ & _ & _ & ->).
      cbn. intros Hin. left. exact (Hrest a Hin).
    + intros Hin. apply proceed_new in Hin as [Hin | Hd]; [|now right].
      left. exact (Hrest a Hin).
  - now left.
Qed.

(** The call that awaits a promise *)

Definition nobody : Awaiting :=
  mkAwaiting JUndefined "" unknownIntent (mkPlan [] unknownIntent "" None) 0 []
    (mkTimer "" 0 "" 0).

(* the call of natural_request that awaits the promise [h] *)
Definition waiter (h : nat) (p : Process) : Awaiting :=
  match take_awaiting h (pr_awaiting p) with
  | Some (a, _) => a
  | None => nobody
  end.

Definition awaited (h : nat) (p : Process) : bool :=
  existsb (fun a => (tm_resolve (aw_timer a) =? h)%nat) (pr_awaiting p).

Lemma waiter_In (h : nat) (p : Process) :
  awaited h p = true ->
  In (waiter h p) (pr_awaiting p) /\ tm_resolve (aw_timer (waiter h p)) = h.
Proof.
  unfold awaited, waiter. intros H.
  destruct (take_awaiting h (pr_awaiting p)) as [[a rest]|] eqn:T.
  - destruct (take_awaiting_In h _ a rest T) as (H1 & H2 & _). now split.
  - exfalso. revert H T. generalize (pr_awaiting p). intros l.
    induction l as [|x l IH]; [discriminate|].
    cbn [existsb take_awaiting]. destruct (tm_resolve (aw_timer x) =? h)%nat; [discriminate|].
    cbn [orb]. intros H. destruct (take_awaiting h l) as [[b r]|]; [discriminate|].
    intros _. now apply IH.
Qed.

(** A call that nothing can complete *)

(* the call [a] awaits a promise that no entry of the table and no timer
   names, and that was not completed *)
Definition stranded (a : Awaiting) (p : Process) : Prop :=
  In a (pr_awaiting p) /\
  (forall k info, pendingRequests (pr_correlator p) !! k = Some info ->
                  resolve info <> tm_resolve (aw_timer a)) /\
  (forall t, In t (pr_timers p) -> tm_resolve t <> tm_resolve (aw_timer a)) /\
  completions (tm_resolve (aw_timer a)) (pr_correlator p) = O.

Lemma stranded_conclude (now : Z) (args : JsValue) (query : string) (i : Intent)
    (plan : Plan) (results : list JsValue) (a : Awaiting) (p : Process) :
  stranded a p -> stranded a (conclude now args query i plan results p).
Proof.
  unfold stranded.
  destruct (conclude_rest now args query i plan results p) as (_ & -> & -> & ->). tauto.
Qed.

Lemma stranded_proceed (now : Z) (args : JsValue) (query : string) (i : Intent)
    (plan : Plan) (index : nat) (results : list JsValue) (a : Awaiting) (p : Process) :
  Linked p -> stranded a p -> stranded a (proceed now args query i plan index results p).
Proof.
  intros HL Hs.
  destruct (proceed_cases now args query i plan index results p)
    as [[rs ->] | (j & rs & step0 & step & _ & _ & ->)];
    [now apply stranded_conclude|].
  destruct Hs as (H1 & H2 & H3 & H4). destruct HL as (_ & _ & L3 & _).
  destruct (L3 a H1) as [Hlt _]. unfold stranded.
  cbn [pr_awaiting pr_timers pr_correlator dispatch fst snd pendingRequests].
  split; [apply in_or_app; now left|]. split.
  { intros k info Hk. apply lookup_insert_Some in Hk as [[_ <-] | [_ Hk]];
      [cbn; lia | exact (H2 k info Hk)]. }
  split; [|exact H4].
  intros t Ht. apply in_app_or in Ht as [Ht | [<- | []]]; [exact (H3 t Ht) | cbn; lia].
Qed.

Lemma stranded_react (inp : Input) (a : Awaiting) (p : Process) :
  Linked p -> stranded a p -> stranded a (react inp p).
Proof.
  intros HL Hs. destruct inp as [now args | now ev | msg]; cbn [react].
  - unfold invoke, returns. destruct (Js.prop args "query"); try exact Hs.
    destruct (String.eqb _ "unknown"); [exact Hs|].
    destruct (createExecutionPlan _ _ _) as [plan|]; [|exact Hs].
    now apply stranded_proceed.
  - destruct (deliver_cases now ev p)
      as [-> | [[_ ->] | (k & info & h & v & Hk & _ & Hv & ->)]].
    + exact Hs.
    + destruct Hs as (H1 & H2 & H3 & H4). split; [exact H1|]. split; [exact H2|].
      split; [|exact H4]. cbn. intros t Ht. apply H3.
      destruct ev; try exact Ht. now apply remove_timer_In in Ht.
    + assert (Hh : h <> tm_resolve (aw_timer a)).
      { destruct Hs as (_ & H2 & H3 & _). destruct ev as [m | m | t].
        - destruct Hv as [-> _]. exact (H2 k info Hk).
        - destruct Hv as [-> _]. exact (H2 k info Hk).
        - destruct Hv as (Hin & -> & _). exact (H3 t Hin). }
      set (p' := with_table _ _ p).
      assert (HL' : Linked p') by (apply (Linked_shrinks p); [exact HL | apply shrinks_table]).
      assert (Hs' : stranded a p').
      { destruct Hs as (H1 & H2 & H3 & H4). split; [exact H1|]. split.
        { cbn. intros k' info' Hk'. apply lookup_delete_Some in Hk' as [_ Hk'].
          exact (H2 k' info' Hk'). }
        split.
        { cbn. intros t Ht. apply H3. destruct ev; try exact Ht.
          now apply remove_timer_In in Ht. }
        cbn. unfold completions in *. cbn [settled settle forget].
        rewrite List.filter_app, length_app. cbn [List.filter fst].
        apply Nat.eqb_neq in Hh. rewrite Hh. simpl. lia. }
      unfold resume.
      destruct (take_awaiting h (pr_awaiting p')) as [[b rest]|] eqn:T; [|exact Hs'].
      set (p'' := mkProcess (pr_tools p') (pr_memory p') (pr_correlator p') (pr_timers p') rest
                    (pr_returned p')).
      assert (Hs'' : stranded a p'').
      { destruct Hs' as (H1 & H2 & H3 & H4). split; [|now split].
        apply (take_awaiting_other h _ a b rest T H1). congruence. }
      assert (HL'' : Linked p'').
      { apply (Linked_shrinks p'); [exact HL'|].
        destruct (take_awaiting_In h _ b rest T) as (_ & _ & Hrest & _).
        split; [reflexivity|]. split; [tauto|]. split; [tauto|]. split; [exact Hrest|].
        cbn. now apply take_awaiting_NoDup with (1 := T). }
      cbv zeta. fold p''. destruct (negb _);
        [now apply stranded_conclude | now apply stranded_proceed].
  - exact Hs.
Qed.

Lemma stranded_react_all (inps : list Input) (a : Awaiting) (p : Process) :
  Linked p -> stranded a p -> stranded a (react_all inps p).
Proof.
  revert p. induction inps as [|inp inps IH]; intros p HL Hs; [exact Hs|].
  simpl. apply IH; [now apply Linked_react | now apply stranded_react].
Qed.

Lemma react_all_app (l1 l2 : list Input) (p : Process) :
  react_all (l1 ++ l2) p = react_all l2 (react_all l1 p).
Proof. unfold react_all. apply foldl_app. Qed.

Lemma In_awaited (a : Awaiting) (p : Process) :
  In a (pr_awaiting p) -> awaited (tm_resolve (aw_timer a)) p = true.
Proof.
  intros H. unfold awaited. apply existsb_exists. exists a.
  split; [exact H | apply Nat.eqb_refl].
Qed.

(* a call awaits a promise while the table and the timers are empty: it
   awaits for ever *)
Lemma stranded_for_ever (h : nat) (p : Process) (more : list Input) :
  Linked p -> awaited h p = true ->
  pendingRequests (pr_correlator p) = ∅ -> pr_timers p = [] ->
  completions h (pr_correlator p) = O ->
  awaited h (react_all more p) = true /\
  completions h (pr_correlator (react_all more p)) = O.
Proof.
  intros HL Ha Et Em Hc. destruct (waiter_In h p Ha) as [Hin Hp].
  assert (Hs : stranded (waiter h p) p).
  { split; [exact Hin|]. rewrite Hp. split; [|split; [|exact Hc]].
    - intros k info Hk. rewrite Et, lookup_empty in Hk. discriminate Hk.
    - intros t Ht. rewrite Em in Ht. destruct Ht. }
  destruct (stranded_react_all more (waiter h p) p HL Hs) as (H1 & _ & _ & H4).
  rewrite Hp in H4. split; [|exact H4].
  rewrite <- Hp. now apply In_awaited.
Qed.

End ProcessFacts.

(** ** Scenarios at the hub *)

Module Scenario.
Import Hub.

Definition no_files : string -> string + string := fun _ => inr "ENOENT".

(* workflow/start { id, params: { steps } } *)
Definition start_msg (id : string) (steps : list JsValue) : JsValue :=
  JObj [("type", JStr "workflow/start"); ("id", JStr id);
        ("params", JObj [("steps", JArr steps)])].

(* the answer of an agent to step [i] of a workflow *)
Definition step_response (workflowId : string) (i : nat) (result : JsValue) : JsValue :=
  JObj [("type", JStr "response");
        ("id", JStr (workflowId +:+ "-step-" +:+ Str.of_nat i));
        ("result", result); ("_workflowId", JStr workflowId)].

Definition calculate_step : JsValue :=
  JObj [("tool", JStr "calculate"); ("arguments", JObj [("expression", JStr "1 + 1")])].

(* the calculator agent on socket 1, a client on socket 3 *)
Definition hub_with_calculator : State :=
  run no_files
    [Connection 1; Connection 3; Message 1 0 (Some Deployment.calculator_register)]
    init.




(* a workflow of one step, which the calculator never answers *)
Definition unanswered : State :=
  step no_files (Message 3 2000 (Some (start_msg "w2" [calculate_step]))) hub_with_calculator.

(* a web agent on socket 1, a file agent on socket 2, a client on socket 3 *)
Definition hub_with_web_and_file : State :=
  run no_files
    [Connection 1; Connection 2; Connection 3;
     Message 1 0 (Some (RegistryFacts.register_msg "web-agent" ["fetch_url"]));
     Message 2 0 (Some (RegistryFacts.register_msg "file-agent" ["write_file"]))]
    init.

Definition fetch_step : JsValue :=
  JObj [("tool", JStr "fetch_url");
        ("arguments", JObj [("url", JStr "https://example.com/data.json")])].
Definition write_step : JsValue :=
  JObj [("tool", JStr "write_file");
        ("arguments", JObj [("path", JStr "out.json"); ("content", JStr "PLACEHOLDER")]);
        ("dependsOn", Js.int 0)].

(* what fetch_url returns: { success, ..., data } *)
Definition fetched : JsValue :=
  JObj [("success", JBool true); ("url", JStr "https://example.com/data.json");
        ("status", Js.int 200); ("data", JObj [("title", JStr "hello")])].

Definition after_fetch : State :=
  run no_files
    [Message 3 3000 (Some (start_msg "w3" [fetch_step; write_step]));
     Message 1 3001 (Some (step_response "workflow-3000" 0 fetched))]
    hub_with_web_and_file.

End Scenario.

(** ** Scenarios at the orchestrator *)

Module SameMillisecond.
Import Orchestrator.

(* the hub announces one tool *)
Definition registered : JsValue :=
  JObj [("type", JStr "registered");
        ("serverCapabilities", JObj [("tools", JArr [JStr "calculate"])])].

Definition args : JsValue := JObj [("query", JStr "calculate 1 + 1")].

(* natural_request is called once, at the millisecond 1000 *)
Definition asked : list Input := [Updated registered; Invoke 1000 args].

(* natural_request is called twice in the millisecond 1000 *)
Definition both_asked : Process :=
  react_all [Updated registered; Invoke 1000 args; Invoke 1000 args] start.

(* the timer of the call whose promise is [h] *)
Definition timer (h : nat) : Timer := mkTimer "orchestrator-1000-0" h "calculate" 10000.

(* the calculator answers the id once *)
Definition reply : JsValue :=
  JObj [("type", JStr "response"); ("id", JStr "orchestrator-1000-0");
        ("result", JObj [("expression", JStr "1 + 1"); ("result", Js.int 2)])].

Definition answered : Process := react (Deliver 1001 (Response reply)) both_asked.

(* ten seconds after the calls both timers fire; then a second response
   with the id arrives *)
Definition at_last : list Input :=
  [Deliver 11000 (Timeout (timer 0)); Deliver 11000 (Timeout (timer 1));
   Deliver 11001 (Response reply)].

Definition later : Process := react_all at_last answered.

(* other requests come and are answered while the one call is not *)
Definition meanwhile : list Input :=
  [Invoke 2000 args;
   Deliver 2001 (Response (JObj [("type", JStr "response"); ("id", JStr "orchestrator-2000-0");
                                 ("result", JObj [("result", Js.int 2)])]));
   Updated registered].

End SameMillisecond.

(** ** The workflow engine goes on after a failure *)




(** ** The length of the result list *)




(** ** Timeouts *)

(** C7 (as stated, refuted). A workflow at the hub whose only step was
    sent to the calculator and is never answered: after more than ten
    seconds the workflow is still [running] with no result, and the hub
    has sent nothing since the call; no timeout failure is recorded and the
    workflow does not halt. *)
Lemma workflow_never_times_out_counterexample :
  let later := Hub.run Scenario.no_files [Hub.Elapse 10000; Hub.Elapse 60000]
                 Scenario.unanswered in
  option_map (fun w => (Hub.status w, Hub.results w))
    (Hub.workflows later !! "workflow-2000") = Some ("running", []) /\
  last (Hub.outbox Scenario.unanswered)
    = Some (1%nat, WorkflowFacts.step_call "workflow-2000" 0 Scenario.calculate_step) /\
  Hub.outbox later = Hub.outbox Scenario.unanswered.
Proof. vm_compute. repeat split. Qed.

(** C7 (amended). In the orchestrator, whatever calls of
    natural_request, messages and timers came before: (1) a call that
    awaits after an input and did not before was sent in it: its
    tools/call is the message sent last, its entry is in pendingRequests
    under its id, and its timer is set with a delay of 10000 ms. (2) While
    the call awaits with its timer set and an entry under its id, and as
    long as nothing is aimed at its id (no response and no error message
    that carries the id, no timer set for the id, which can be the timer
    of another call that shares the id), it goes on awaiting, whatever
    else happens; when its timer then fires, the entry is removed, the
    waiter is completed with [{ success: false, error: 'Tool call
    timeout', tool }] and the call of natural_request returns: the results
    gathered before are kept, the failure is appended, the response
    reports it, no message is sent and the conversation memory is not
    updated. (3) The plan halts in the same way when an error message
    names the entry of the awaited call, and (4) when a step fails at
    once. (5) The hub's Workflow engine sets no timer: nothing but a
    workflow response naming the workflow (or a workflow/start that
    creates its id) changes a workflow, so an unanswered step leaves it
    [running]. *)
Theorem timeout_halts_the_plan (readFile : string -> string + string) :
  (forall (inputs : list Orchestrator.Input) (inp : Orchestrator.Input)
          (a : Orchestrator.Awaiting),
     let p := Orchestrator.react_all inputs Orchestrator.start in
     In a (Orchestrator.pr_awaiting (Orchestrator.react inp p)) ->
     In a (Orchestrator.pr_awaiting p) \/
     exists step,
       ProcessFacts.dispatched (ProcessFacts.time_of inp) a step (Orchestrator.react inp p)) /\
  (forall (inputs quiet : list Orchestrator.Input) (a : Orchestrator.Awaiting) (now : Z),
     let p := Orchestrator.react_all inputs Orchestrator.start in
     let q := Orchestrator.react_all quiet p in
     let t := Orchestrator.aw_timer a in
     let failure := Orchestrator.timeout_result (Orchestrator.tm_tool t) in
     ProcessFacts.outstanding a p ->
     forallb (fun inp => negb (ProcessFacts.aims (Orchestrator.tm_requestId t) inp)) quiet
     = true ->
     Orchestrator.tm_delay t = 10000 /\
     ProcessFacts.outstanding a q /\
     exists rest,
       Orchestrator.take_awaiting (Orchestrator.tm_resolve t) (Orchestrator.pr_awaiting q)
       = Some (a, rest) /\
       Orchestrator.deliver now (Orchestrator.Timeout t) q
       = ProcessFacts.halted (Orchestrator.aw_args a) (Orchestrator.aw_query a)
           (Orchestrator.aw_intent a) (Orchestrator.aw_plan a) (Orchestrator.aw_results a)
           failure
           (Orchestrator.mkProcess (Orchestrator.pr_tools q) (Orchestrator.pr_memory q)
              (Orchestrator.settle (Orchestrator.tm_resolve t) failure
                 (Orchestrator.forget (Orchestrator.tm_requestId t)
                    (Orchestrator.pr_correlator q)))
              (Orchestrator.remove_timer t (Orchestrator.pr_timers q)) rest
              (Orchestrator.pr_returned q))) /\
  (forall (inputs : list Orchestrator.Input) (a : Orchestrator.Awaiting) (msg : JsValue)
          (info : Orchestrator.RequestInfo) (now : Z),
     let p := Orchestrator.react_all inputs Orchestrator.start in
     let t := Orchestrator.aw_timer a in
     let failure := Orchestrator.error_result (Orchestrator.ri_step info) (Js.prop msg "error") in
     In a (Orchestrator.pr_awaiting p) ->
     Js.prop msg "id" = JStr (Orchestrator.tm_requestId t) ->
     Orchestrator.pendingRequests (Orchestrator.pr_correlator p) !! Orchestrator.tm_requestId t
     = Some info ->
     Orchestrator.resolve info = Orchestrator.tm_resolve t ->
     exists rest,
       Orchestrator.take_awaiting (Orchestrator.tm_resolve t) (Orchestrator.pr_awaiting p)
       = Some (a, rest) /\
       Orchestrator.deliver now (Orchestrator.Error msg) p
       = ProcessFacts.halted (Orchestrator.aw_args a) (Orchestrator.aw_query a)
           (Orchestrator.aw_intent a) (Orchestrator.aw_plan a) (Orchestrator.aw_results a)
           failure
           (Orchestrator.mkProcess (Orchestrator.pr_tools p) (Orchestrator.pr_memory p)
              (Orchestrator.settle (Orchestrator.tm_resolve t) failure
                 (Orchestrator.forget (Orchestrator.tm_requestId t)
                    (Orchestrator.pr_correlator p)))
              (Orchestrator.pr_timers p) rest (Orchestrator.pr_returned p))) /\
  (forall (now : Z) (args : JsValue) (query : string) (i : Orchestrator.Intent)
          (plan : Orchestrator.Plan) (index : nat) (pre : list JsValue)
          (step0 : Orchestrator.Step) (f : JsValue) (p : Orchestrator.Process),
     Forall (fun r => RunFacts.ok r = true) pre ->
     Orchestrator.steps plan !! index = Some step0 ->
     Orchestrator.prepare (Orchestrator.pr_tools p) step0 pre = Orchestrator.Immediate f ->
     RunFacts.ok f = false ->
     Orchestrator.proceed now args query i plan index pre p
     = ProcessFacts.halted args query i plan pre f p) /\
  (forall (ev : Hub.Event) (st : Hub.State) (wid : string),
     WorkflowFacts.advances wid ev = false ->
     Hub.workflows (Hub.step readFile ev st) !! wid = Hub.workflows st !! wid).
Proof.
  split; [|split; [|split; [|split]]].
  - intros inputs inp a p. apply ProcessFacts.react_new.
  - intros inputs quiet a now p q t failure Ho Hq.
    destruct (ProcessFacts.Reach_react_all inputs Orchestrator.start ProcessFacts.Reach_start)
      as (HS & HL & _).
    fold p in HS, HL.
    pose proof (ProcessFacts.outstanding_react_all quiet a p HL Ho Hq) as Ho'. fold q in Ho'.
    split; [exact (proj2 (proj1 (proj2 (proj2 HL)) a (proj1 Ho)))|].
    split; [exact Ho'|].
    destruct Ho' as (H1 & H2 & H3).
    apply ProcessFacts.timeout_fires; try assumption.
    + now apply ProcessFacts.Shape_react_all.
    + now apply ProcessFacts.Linked_react_all.
  - intros inputs a msg info now p t failure Ha Hid Hi Hr.
    destruct (ProcessFacts.Reach_react_all inputs Orchestrator.start ProcessFacts.Reach_start)
      as (HS & HL & _).
    now apply ProcessFacts.error_arrives.
  - intros now args query i plan index pre step0 f p Hpre Hs Hp Hf.
    now apply (ProcessFacts.proceed_failed now args query i plan index pre step0 f p).
  - intros ev st wid Ha. now apply WorkflowFacts.step_frame.
Qed.

Lemma timeout_halts_the_plan_witness :
  let p := Orchestrator.react_all SameMillisecond.asked Orchestrator.start in
  let q := Orchestrator.react_all SameMillisecond.meanwhile p in
  let a := ProcessFacts.waiter 0 p in
  Orchestrator.tm_delay (Orchestrator.aw_timer a) = 10000 /\
  List.map (fun r => List.map (fun x => Js.prop x "error") (Orchestrator.rt_results r))
    (Orchestrator.pr_returned
       (Orchestrator.deliver 11000 (Orchestrator.Timeout (Orchestrator.aw_timer a)) q))
  = [[JUndefined]; [JStr "Tool call timeout"]].
Proof.
  intros p q a.
  assert (Ha : In a (Orchestrator.pr_awaiting p)).
  { apply ProcessFacts.waiter_In. vm_compute. reflexivity. }
  assert (Ht : In (Orchestrator.aw_timer a) (Orchestrator.pr_timers p)).
  { vm_compute. left. reflexivity. }
  assert (Hi : is_Some (Orchestrator.pendingRequests (Orchestrator.pr_correlator p)
                          !! Orchestrator.tm_requestId (Orchestrator.aw_timer a))).
  { vm_compute. eexists. reflexivity. }
  assert (Hq : forallb (fun inp => negb (ProcessFacts.aims
                                           (Orchestrator.tm_requestId (Orchestrator.aw_timer a))
                                           inp)) SameMillisecond.meanwhile = true).
  { vm_compute. reflexivity. }
  destruct (proj1 (proj2 (timeout_halts_the_plan Scenario.no_files))
              SameMillisecond.asked SameMillisecond.meanwhile a 11000
              (conj Ha (conj Ht Hi)) Hq) as (Hd & _ & rest & _ & E).
  split; [exact Hd|].
  etransitivity;
    [exact (f_equal
              (fun x => List.map
                          (fun r => List.map (fun x => Js.prop x "error")
                                      (Orchestrator.rt_results r))
                          (Orchestrator.pr_returned x)) E)|].
  vm_compute. reflexivity.
Defined.

(** ** Calls that share an id *)

(** C3 (the code at the failing input). The id of a call is
    [orchestrator-<Date.now()>-<step index>], so two calls of
    natural_request in one millisecond send their first step under one
    id. Both calls of the handler await; the table holds one entry, that
    of the second call. The one response with the id completes the waiter
    of the second call, which returns. After that both timers fire and a
    second response arrives: each finds no entry and does nothing. The
    waiter of the first call was completed by none of them, and nothing
    that comes later completes it: whatever calls, messages and timers
    follow, that call of natural_request still awaits. *)
Theorem shared_id_leaves_a_waiter_pending :
  let promise_of := fun a => Orchestrator.tm_resolve (Orchestrator.aw_timer a) in
  let table := fun p => Orchestrator.pendingRequests (Orchestrator.pr_correlator p) in
  (List.map (fun m => Js.prop m "id")
     (Orchestrator.sent (Orchestrator.pr_correlator SameMillisecond.both_asked))
   = [JStr "orchestrator-1000-0"; JStr "orchestrator-1000-0"] /\
   List.map promise_of (Orchestrator.pr_awaiting SameMillisecond.both_asked) = [0; 1]%nat /\
   Orchestrator.pr_timers SameMillisecond.both_asked
   = [SameMillisecond.timer 0; SameMillisecond.timer 1] /\
   option_map Orchestrator.resolve (table SameMillisecond.both_asked !! "orchestrator-1000-0")
   = Some 1%nat /\
   List.map fst (Orchestrator.settled (Orchestrator.pr_correlator SameMillisecond.answered))
   = [1%nat] /\
   List.map promise_of (Orchestrator.pr_awaiting SameMillisecond.answered) = [0%nat] /\
   length (Orchestrator.pr_returned SameMillisecond.answered) = 1%nat /\
   table SameMillisecond.answered = ∅ /\
   Orchestrator.pr_timers SameMillisecond.later = [] /\
   table SameMillisecond.later = ∅ /\
   Orchestrator.settled (Orchestrator.pr_correlator SameMillisecond.later)
   = Orchestrator.settled (Orchestrator.pr_correlator SameMillisecond.answered) /\
   Orchestrator.sent (Orchestrator.pr_correlator SameMillisecond.later)
   = Orchestrator.sent (Orchestrator.pr_correlator SameMillisecond.both_asked) /\
   List.map promise_of (Orchestrator.pr_awaiting SameMillisecond.later) = [0%nat] /\
   List.map Orchestrator.rt_value (Orchestrator.pr_returned SameMillisecond.later)
   = List.map Orchestrator.rt_value (Orchestrator.pr_returned SameMillisecond.answered)) /\
  (forall more : list Orchestrator.Input,
     let p := Orchestrator.react_all more SameMillisecond.later in
     ProcessFacts.awaited 0 p = true /\
     Orchestrator.completions 0 (Orchestrator.pr_correlator p) = 0%nat).
Proof.
  intros promise_of table. split; [vm_compute; repeat split|].
  intros more p. apply ProcessFacts.stranded_for_ever.
  - unfold SameMillisecond.later, SameMillisecond.answered, SameMillisecond.both_asked.
    apply ProcessFacts.Linked_react_all, ProcessFacts.Linked_react,
      ProcessFacts.Linked_react_all, ProcessFacts.Linked_start.
  - vm_compute. reflexivity.
  - vm_compute. reflexivity.
  - vm_compute. reflexivity.
  - vm_compute. reflexivity.
Qed.

(** ** Dependencies between the steps of a workflow *)

(** C2 (as stated, refuted). A workflow/start with a fetch step and a
    write step that depends on it: after the fetch was answered with
    structured data, the tools/call the hub sends for the write step
    carries the content the caller put in the step, "PLACEHOLDER", not the
    serialized data of the fetch. *)
Lemma workflow_write_content_counterexample :
  option_map (fun p => Js.prop (Js.prop (Js.prop (snd p) "params") "arguments") "content")
    (last (Hub.outbox Scenario.after_fetch)) = Some (JStr "PLACEHOLDER") /\
  option_map JStr (Js.stringify2 (Js.prop Scenario.fetched "data"))
    <> Some (JStr "PLACEHOLDER") /\
  option_map (fun p => Js.prop (Js.prop (snd p) "params") "name")
    (last (Hub.outbox Scenario.after_fetch)) = Some (JStr "write_file").
Proof. vm_compute. repeat split. discriminate. Qed.

(** C2 (amended). For a workflow/start of two steps whose tools and
    their agents are registered, the hub does not interpret [dependsOn]:
    it sends the first step's call, and after the first answer it sends
    the second step's call with the arguments the caller supplied,
    unchanged; after the second answer the last message is the
    workflow/result to the caller, with status [completed] and a result
    list of exactly the two answers in order. *)
Theorem workflow_start_passes_arguments_unchanged
    (readFile : string -> string + string) (st : Hub.State) (ws from0 from1 : nat)
    (now now0 now1 : Z) (id s0 s1 r0 r1 : JsValue)
    (t0 t1 : Hub.ToolInfo) (a0 a1 : Hub.AgentInfo) :
  let wid := "workflow-" +:+ Str.of_Z now in
  let st1 := Hub.on_message readFile ws now
               (Some (JObj [("type", JStr "workflow/start"); ("id", id);
                            ("params", JObj [("steps", JArr [s0; s1])])])) st in
  let st2 := Hub.on_message readFile from0 now0
               (Some (Scenario.step_response wid 0 r0)) st1 in
  let st3 := Hub.on_message readFile from1 now1
               (Some (Scenario.step_response wid 1 r1)) st2 in
  Js.nullish s0 = false -> Js.nullish s1 = false ->
  JsMap.get (Hub.toolRegistry st) (Hub.key (Js.prop s0 "tool")) = Some t0 ->
  JsMap.get (Hub.agents st) (Hub.key (Hub.t_agentId t0)) = Some a0 ->
  JsMap.get (Hub.toolRegistry st) (Hub.key (Js.prop s1 "tool")) = Some t1 ->
  JsMap.get (Hub.agents st) (Hub.key (Hub.t_agentId t1)) = Some a1 ->
  last (Hub.outbox st1)
    = Some (Hub.a_ws a0,
            JObj [("type", JStr "tools/call"); ("id", JStr (wid +:+ "-step-0"));
                  ("params", JObj [("name", Js.prop s0 "tool");
                                   ("arguments", Js.prop s0 "arguments")]);
                  ("_workflowId", JStr wid)]) /\
  Hub.outbox st2
    = (Hub.outbox st1 ++
       [(Hub.a_ws a1,
         JObj [("type", JStr "tools/call"); ("id", JStr (wid +:+ "-step-1"));
               ("params", JObj [("name", Js.prop s1 "tool");
                                ("arguments", Js.prop s1 "arguments")]);
               ("_workflowId", JStr wid)])])%list /\
  Hub.outbox st3
    = (Hub.outbox st2 ++
       [(ws, JObj [("type", JStr "workflow/result"); ("workflowId", JStr wid);
                   ("results", JArr [r0; r1]); ("status", JStr "completed")])])%list /\
  option_map Hub.status (Hub.workflows st3 !! wid) = Some "completed".
Proof.
  intros wid st1 st2 st3 N0 N1 T0 A0 T1 A1.
  set (w0 := Hub.mkWorkflow (JArr [s0; s1]) 0 [] ws "running").
  assert (E1 : st1 = Hub.send (Hub.a_ws a0) (WorkflowFacts.step_call wid 0 s0)
                       (Hub.send ws
                          (JObj [("type", JStr "response"); ("id", id);
                                 ("result", JObj [("workflowId", JStr wid);
                                                  ("status", JStr "started")])])
                          (Hub.set_workflows (insert wid w0) st))).
  { unfold st1. rewrite WorkflowFacts.on_message_start. fold wid w0.
    apply (WorkflowFacts.execute_dispatch wid _ w0 [s0; s1] s0 t0 a0);
      try assumption; try reflexivity.
    simpl. apply lookup_insert_eq. }
  assert (W1 : Hub.workflows st1 !! wid = Some w0).
  { rewrite E1. simpl. apply lookup_insert_eq. }
  set (w1 := Hub.mkWorkflow (JArr [s0; s1]) 1 [r0] ws "running").
  assert (E2 : st2 = Hub.send (Hub.a_ws a1) (WorkflowFacts.step_call wid 1 s1)
                       (Hub.push_result wid r0 st1)).
  { unfold st2, Scenario.step_response, wid.
    rewrite (WorkflowFacts.on_message_step_response readFile from0 now0 (Str.of_Z now)
               0 r0 st1 w0 W1).
    fold wid.
    pose proof (WorkflowFacts.push_result_lookup wid r0 st1 w0 W1) as P.
    apply (WorkflowFacts.execute_dispatch wid _ _ [s0; s1] s1 t1 a1 P);
      try assumption; try reflexivity.
    - unfold Hub.push_result. rewrite W1, E1. exact T1.
    - unfold Hub.push_result. rewrite W1, E1. exact A1. }
  assert (W2 : Hub.workflows st2 !! wid = Some w1).
  { rewrite E2. simpl. exact (WorkflowFacts.push_result_lookup wid r0 st1 w0 W1). }
  assert (E3 : st3 = Hub.completeWorkflow wid (Hub.push_result wid r1 st2)).
  { unfold st3, Scenario.step_response, wid.
    rewrite (WorkflowFacts.on_message_step_response readFile from1 now1 (Str.of_Z now)
               1 r1 st2 w1 W2).
    fold wid.
    pose proof (WorkflowFacts.push_result_lookup wid r1 st2 w1 W2) as P.
    apply (WorkflowFacts.executeWorkflowStep_past_end wid [s0; s1] _ _ P); [reflexivity|].
    simpl. lia. }
  split; [|split; [|split]].
  - rewrite E1. simpl. now rewrite last_snoc.
  - rewrite E2. simpl.
    now destruct (WorkflowFacts.push_result_rest wid r0 st1) as (_ & _ & _ & -> & _).
  - rewrite E3. unfold Hub.completeWorkflow.
    rewrite (WorkflowFacts.push_result_lookup wid r1 st2 w1 W2). simpl.
    now destruct (WorkflowFacts.push_result_rest wid r1 st2) as (_ & _ & _ & -> & _).
  - rewrite E3. unfold Hub.completeWorkflow.
    rewrite (WorkflowFacts.push_result_lookup wid r1 st2 w1 W2). simpl.
    now rewrite lookup_insert_eq.
Qed.

Lemma workflow_start_passes_arguments_unchanged_witness :
  option_map (fun p => Js.prop (Js.prop (snd p) "params") "arguments")
    (last (Hub.outbox Scenario.after_fetch))
  = Some (Js.prop Scenario.write_step "arguments").
Proof.
  pose proof (workflow_start_passes_arguments_unchanged Scenario.no_files
                Scenario.hub_with_web_and_file 3 1 2 3000 3001 3002 (JStr "w3")
                Scenario.fetch_step Scenario.write_step Scenario.fetched
                (JObj [("success", JBool true)])
                (Hub.mkTool (JStr "web-agent") (JObj [("name", JStr "fetch_url")]))
                (Hub.mkTool (JStr "file-agent") (JObj [("name", JStr "write_file")]))
                (Hub.mkAgent 1 (JArr [JObj [("name", JStr "fetch_url")]]) (JArr []) 0)
                (Hub.mkAgent 2 (JArr [JObj [("name", JStr "write_file")]]) (JArr []) 0)
                eq_refl eq_refl ltac:(vm_compute; reflexivity) ltac:(vm_compute; reflexivity)
                ltac:(vm_compute; reflexivity) ltac:(vm_compute; reflexivity))
    as (_ & H & _).
  change (Hub.outbox Scenario.after_fetch) with
    (Hub.outbox
       (Hub.on_message Scenario.no_files 1 3001
          (Some (Scenario.step_response ("workflow-" +:+ Str.of_Z 3000) 0 Scenario.fetched))
          (Hub.on_message Scenario.no_files 3 3000
             (Some (JObj [("type", JStr "workflow/start"); ("id", JStr "w3");
                          ("params",
                           JObj [("steps",
                                  JArr [Scenario.fetch_step; Scenario.write_step])])]))
             Scenario.hub_with_web_and_file))).
  rewrite H, last_snoc. reflexivity.
Defined.

(** * Further properties *)

(** ** The matcher against a declarative reading of the patterns *)

Module RegexFacts.
Import Regex.

(* the loop of a quantified atom, as rmatch has it *)
Definition star_loop (ci g : bool)
    (m : nat -> string -> caps -> kont -> option (nat * caps)) (k : kont)
    : nat -> nat -> string -> caps -> option (nat * caps) :=
  fix loop (fuel : nat) (pos : nat) (s : string) (c : caps) {struct fuel} :=
    match fuel with
    | O => k pos s c
    | S f =>
        let more (_ : unit) :=
          m pos s c (fun p' s' c' => if (pos <? p')%nat then loop f p' s' c' else None) in
        if g then
          match more tt with Some x => Some x | None => k pos s c end
        else
          match k pos s c with Some x => Some x | None => more tt end
    end.

Lemma rmatch_star ci g r pos s c k :
  rmatch ci (RStar g r) pos s c k
  = star_loop ci g (rmatch ci r) k (S (String.length s)) pos s c.
Proof. reflexivity. Qed.

(* [M ci r pos s pos' s']: the expression matches the input [s], which
   starts at offset [pos], up to the rest [s'] at offset [pos'] *)
Inductive M (ci : bool) : regex -> nat -> string -> nat -> string -> Prop :=
| MChar a b pos s : chr_eq ci a b = true -> M ci (RChar a) pos (String b s) (S pos) s
| MAny b pos s : Str.is_line_terminator b = false -> M ci RAny pos (String b s) (S pos) s
| MSet neg items b pos s :
    xorb neg (existsb (fun it => item_mem_ci ci it b) items) = true ->
    M ci (RSet neg items) pos (String b s) (S pos) s
| MBol s : M ci RBol 0 s 0 s
| MEol pos : M ci REol pos "" pos ""
| MEmpty pos s : M ci REmpty pos s pos s
| MSeq r1 r2 p s p1 s1 p2 s2 :
    M ci r1 p s p1 s1 -> M ci r2 p1 s1 p2 s2 -> M ci (RSeq r1 r2) p s p2 s2
| MAltL r1 r2 p s p' s' : M ci r1 p s p' s' -> M ci (RAlt r1 r2) p s p' s'
| MAltR r1 r2 p s p' s' : M ci r2 p s p' s' -> M ci (RAlt r1 r2) p s p' s'
| MStar0 g r p s : M ci (RStar g r) p s p s
| MStarS g r p s p1 s1 p2 s2 :
    M ci r p s p1 s1 -> (p < p1)%nat -> M ci (RStar g r) p1 s1 p2 s2 ->
    M ci (RStar g r) p s p2 s2
| MGroup i r p s p' s' : M ci r p s p' s' -> M ci (RGroup i r) p s p' s'.

Lemma M_length ci r p s p' s' :
  M ci r p s p' s' -> (p' + String.length s' = p + String.length s)%nat.
Proof. induction 1; simpl in *; lia. Qed.

Lemma rmatch_sound ci r :
  forall pos s c k x,
    rmatch ci r pos s c k = Some x ->
    exists p' s' c', M ci r pos s p' s' /\ k p' s' c' = Some x.
Proof.
  induction r as [a| |neg items| | | | |r1 IH1 r2 IH2|r1 IH1 r2 IH2|g r IH|i r IH];
    intros pos s c k x H.
  - destruct s as [|b s]; simpl in H; [discriminate|].
    destruct (chr_eq ci a b) eqn:E; [|discriminate].
    exists (S pos), s, c. split; [now constructor | exact H].
  - destruct s as [|b s]; simpl in H; [discriminate|].
    destruct (Str.is_line_terminator b) eqn:E; [discriminate|].
    exists (S pos), s, c. split; [now constructor | exact H].
  - destruct s as [|b s]; simpl in H; [discriminate|].
    destruct (xorb neg _) eqn:E; [|discriminate].
    exists (S pos), s, c. split; [now constructor | exact H].
  - simpl in H. destruct (pos =? 0)%nat eqn:E; [|discriminate].
    apply Nat.eqb_eq in E. subst pos. exists 0%nat, s, c. split; [constructor | exact H].
  - destruct s; simpl in H; [|discriminate].
    exists pos, "", c. split; [constructor | exact H].
  - exists pos, s, c. split; [constructor | exact H].
  - discriminate H.
  - simpl in H. apply IH1 in H as (p1 & s1 & c1 & M1 & H).
    apply IH2 in H as (p2 & s2 & c2 & M2 & H).
    exists p2, s2, c2. split; [econstructor; eassumption | exact H].
  - simpl in H. destruct (rmatch ci r1 pos s c k) eqn:E.
    + injection H as <-. apply IH1 in E as (p' & s' & c' & M1 & E).
      exists p', s', c'. split; [now apply MAltL | exact E].
    + apply IH2 in H as (p' & s' & c' & M2 & H).
      exists p', s', c'. split; [now apply MAltR | exact H].
  - rewrite rmatch_star in H. set (fuel := S (String.length s)) in H. clearbody fuel.
    revert pos s c x H. induction fuel as [|f IHf]; intros pos s c x H.
    + exists pos, s, c. split; [constructor | exact H].
    + simpl in H.
      assert (Hmore : forall y,
        rmatch ci r pos s c
          (fun p' s' c' => if (pos <? p')%nat
                           then star_loop ci g (rmatch ci r) k f p' s' c' else None) = Some y ->
        exists p' s' c', M ci (RStar g r) pos s p' s' /\ k p' s' c' = Some y).
      { intros y Hy. apply IH in Hy as (p1 & s1 & c1 & M1 & Hy).
        destruct (pos <? p1)%nat eqn:Hlt; [|discriminate].
        apply Nat.ltb_lt in Hlt. apply IHf in Hy as (p2 & s2 & c2 & M2 & Hy).
        exists p2, s2, c2. split; [eapply MStarS; eassumption | exact Hy]. }
      destruct g.
      * destruct (rmatch ci r pos s c _) eqn:E.
        -- injection H as <-. now apply Hmore.
        -- exists pos, s, c. split; [constructor | exact H].
      * destruct (k pos s c) eqn:E.
        -- injection H as <-. exists pos, s, c. split; [constructor | exact E].
        -- now apply Hmore.
  - simpl in H. apply IH in H as (p' & s' & c' & M1 & H).
    exists p', s', ((i, Str.take (p' - pos) s) :: c'). split; [now constructor | exact H].
Qed.

(* a continuation that accepts at a position, whatever was captured *)
Definition accepts (k : kont) (p : nat) (s : string) : Prop :=
  forall c, exists x, k p s c = Some x.

Lemma rmatch_complete_aux ci r pos s p' s' :
  M ci r pos s p' s' ->
  (forall k, accepts k p' s' -> forall c, exists x, rmatch ci r pos s c k = Some x) /\
  match r with
  | RStar g r1 =>
      forall fuel k, (String.length s < fuel)%nat -> accepts k p' s' ->
        forall c, exists x, star_loop ci g (rmatch ci r1) k fuel pos s c = Some x
  | _ => True
  end.
Proof.
  induction 1 as [a b pos s E|b pos s E|neg items b pos s E|s|pos|pos s
                 |r1 r2 p s p1 s1 p2 s2 M1 [IH1 _] M2 [IH2 _]
                 |r1 r2 p s p' s' M1 [IH1 _]|r1 r2 p s p' s' M2 [IH2 _]
                 |g r p s|g r p s p1 s1 p2 s2 M1 [IH1 _] Hlt M2 [_ IH2]
                 |i r p s p' s' M1 [IH1 _]].
  - split; [|exact I]. intros k Hk c. simpl. rewrite E. apply Hk.
  - split; [|exact I]. intros k Hk c. simpl. rewrite E. apply Hk.
  - split; [|exact I]. intros k Hk c. simpl. rewrite E. apply Hk.
  - split; [|exact I]. intros k Hk c. simpl. apply Hk.
  - split; [|exact I]. intros k Hk c. simpl. apply Hk.
  - split; [|exact I]. intros k Hk c. simpl. apply Hk.
  - split; [|exact I]. intros k Hk c. simpl. apply IH1. intros c1. now apply IH2.
  - split; [|exact I]. intros k Hk c. simpl.
    destruct (IH1 k Hk c) as [x ->]. now exists x.
  - split; [|exact I]. intros k Hk c. simpl.
    destruct (rmatch ci r1 p s c k) as [y|]; [now exists y | now apply IH2].
  - assert (L : forall fuel k, (String.length s < fuel)%nat -> accepts k p s ->
              forall c, exists x, star_loop ci g (rmatch ci r) k fuel p s c = Some x).
    { intros fuel k Hf Hk c. destruct fuel as [|f]; [lia|]. simpl.
      destruct (Hk c) as [x Hx]. destruct g.
      - destruct (rmatch ci r p s c _) as [y|]; [now exists y | now exists x].
      - rewrite Hx. now exists x. }
    split; [|exact L]. intros k Hk c. rewrite rmatch_star. apply L; [lia | exact Hk].
  - assert (L : forall fuel k, (String.length s < fuel)%nat -> accepts k p2 s2 ->
              forall c, exists x, star_loop ci g (rmatch ci r) k fuel p s c = Some x).
    { intros fuel k Hf Hk c. destruct fuel as [|f]; [lia|]. simpl.
      assert (Hmore : exists y,
        rmatch ci r p s c
          (fun p' s' c' => if (p <? p')%nat
                           then star_loop ci g (rmatch ci r) k f p' s' c' else None) = Some y).
      { apply IH1. intros c1. apply Nat.ltb_lt in Hlt as Hb. rewrite Hb.
        apply IH2; [|exact Hk]. apply M_length in M1. lia. }
      destruct Hmore as [y Hy]. destruct g.
      - rewrite Hy. now exists y.
      - destruct (k p s c) as [z|]; [now exists z | now exists y]. }
    split; [|exact L]. intros k Hk c. rewrite rmatch_star. apply L; [lia | exact Hk].
  - split; [|exact I]. intros k Hk c. simpl. apply IH1. intros c1. apply Hk.
Qed.

Lemma rmatch_complete ci r pos s p' s' k c :
  M ci r pos s p' s' -> accepts k p' s' -> exists x, rmatch ci r pos s c k = Some x.
Proof. intros H Hk. now apply (proj1 (rmatch_complete_aux ci r pos s p' s' H)). Qed.

(* [search] finds a match exactly when the expression matches at some offset *)
Lemma search_sound ci r : forall s pos b e c,
  search ci r pos s = Some (b, e, c) ->
  exists pre s1 s', s = pre +:+ s1 /\ b = (pos + String.length pre)%nat /\ M ci r b s1 e s'.
Proof.
  assert (Here : forall s pos e c,
            rmatch ci r pos s [] (fun p' _ c' => Some (p', c')) = Some (e, c) ->
            exists s', M ci r pos s e s').
  { intros s pos e c E. apply rmatch_sound in E as (p' & s' & c'' & Hm & E).
    injection E as <- <-. now exists s'. }
  induction s as [|a s IH]; intros pos b e c H; simpl in H.
  - destruct (rmatch ci r pos "" [] _) as [[e' c']|] eqn:E; [|discriminate].
    injection H as <- <- <-. apply Here in E as [s' Hm].
    exists "", "", s'. split; [reflexivity|]. split; [simpl; lia | exact Hm].
  - destruct (rmatch ci r pos (String a s) [] _) as [[e' c']|] eqn:E.
    + injection H as <- <- <-. apply Here in E as [s' Hm].
      exists "", (String a s), s'. split; [reflexivity|]. split; [simpl; lia | exact Hm].
    + apply IH in H as (pre & s1 & s' & -> & -> & Hm).
      exists (String a pre), s1, s'. split; [reflexivity|]. split; [simpl; lia | exact Hm].
Qed.

Lemma search_complete ci r : forall pre pos s1 e s',
  M ci r (pos + String.length pre) s1 e s' ->
  exists y, search ci r pos (pre +:+ s1) = Some y.
Proof.
  induction pre as [|a pre IH]; intros pos s1 e s' Hm.
  - simpl in *. rewrite Nat.add_0_r in Hm.
    destruct (rmatch_complete ci r pos s1 e s' (fun p' _ c' => Some (p', c')) [] Hm)
      as [[e' c'] E]; [intros c; eauto|].
    destruct s1; simpl; rewrite E; eauto.
  - simpl. destruct (rmatch ci r pos _ [] _) as [[e' c']|]; [eauto|].
    apply (IH (S pos) s1 e s'). now replace (S pos + String.length pre)%nat
      with (pos + String.length (String a pre))%nat by (simpl; lia).
Qed.

(* RegExp.prototype.test, declaratively *)
Lemma test_spec (x : RegExp) (s : string) :
  test x s = true <->
  exists pre s1 e s', s = pre +:+ s1 /\ M (ignoreCase x) (compiled x) (String.length pre) s1 e s'.
Proof.
  unfold test, exec. split.
  - destruct (search _ _ 0 s) as [[[b e] c]|] eqn:E; [|discriminate]. intros _.
    apply search_sound in E as (pre & s1 & s' & -> & -> & Hm). now exists pre, s1, e, s'.
  - intros (pre & s1 & e & s' & -> & Hm).
    destruct (search_complete _ _ pre 0 s1 e s' Hm) as [[[b e'] c] ->]. reflexivity.
Qed.

End RegexFacts.

(** ** The checks of the calculator's evaluator *)

Module RegexTactics.
Import Regex RegexFacts.
Ltac invc H := inversion H; subst; clear H.
Ltac minv :=
  repeat match goal with
  | H : M _ (RSeq _ _) _ _ _ _ |- _ => invc H
  | H : M _ (RChar _) _ _ _ _ |- _ => invc H
  | H : M _ (RAlt _ _) _ _ _ _ |- _ => invc H
  | H : M _ (RGroup _ _) _ _ _ _ |- _ => invc H
  | H : M _ (RSet _ _) _ _ _ _ |- _ => invc H
  | H : M _ REmpty _ _ _ _ |- _ => invc H
  | H : M _ RBol _ _ _ _ |- _ => invc H
  | H : M _ REol _ _ _ _ |- _ => invc H
  end.
Ltac compile_in H :=
  match type of H with
  | context [compiled ?x] =>
      let r := eval vm_compute in (compiled x) in change (compiled x) with r in H
  end.
Ltac compile_goal :=
  match goal with
  | |- context [compiled ?x] =>
      let r := eval vm_compute in (compiled x) in change (compiled x) with r
  end.
Ltac ascii_cases b := destruct b as [[] [] [] [] [] [] [] []].
End RegexTactics.

Module StringLemmas.

(* [+:+] does not unfold under simpl: one step of it *)
Ltac app_step :=
  repeat match goal with
  | |- context [String ?c ?a +:+ ?b] => change (String c a +:+ b) with (String c (a +:+ b))
  | |- context [EmptyString +:+ ?b] => change (EmptyString +:+ b) with b
  end.
Ltac app_step_in H :=
  repeat match type of H with
  | context [String ?c ?a +:+ ?b] => change (String c a +:+ b) with (String c (a +:+ b)) in H
  | context [EmptyString +:+ ?b] => change (EmptyString +:+ b) with b in H
  end.

(* a property of characters that holds of each of the 256 *)
Definition every_ascii (P : ascii -> bool) : bool :=
  forallb P (List.map ascii_of_nat (seq 0 256)).

Lemma every_ascii_spec (P : ascii -> bool) : every_ascii P = true -> forall b, P b = true.
Proof.
  unfold every_ascii. rewrite forallb_forall. intros H b. apply H.
  rewrite <- (ascii_nat_embedding b). apply in_map, in_seq.
  pose proof (nat_ascii_bounded b). lia.
Qed.

Lemma app_nil_r (s : string) : s +:+ "" = s.
Proof. induction s as [|c s IH]; app_step; simpl; [reflexivity | now rewrite IH]. Qed.

Lemma app_assoc (a b c : string) : (a +:+ b) +:+ c = a +:+ b +:+ c.
Proof. induction a as [|x a IH]; app_step; simpl; [reflexivity | now rewrite IH]. Qed.

Lemma length_app (a b : string) :
  String.length (a +:+ b) = (String.length a + String.length b)%nat.
Proof. induction a as [|x a IH]; app_step; simpl; [reflexivity | now rewrite IH]. Qed.

Lemma length_zero (s : string) : String.length s = 0%nat -> s = "".
Proof. now destruct s. Qed.

Lemma chars_app (a b : string) :
  list_ascii_of_string (a +:+ b) = (list_ascii_of_string a ++ list_ascii_of_string b)%list.
Proof. induction a as [|x a IH]; app_step; simpl; [reflexivity | now rewrite IH]. Qed.

Lemma forallb_ext_eq {A} (f g : A -> bool) (l : list A) :
  (forall x, f x = g x) -> forallb f l = forallb g l.
Proof. intros E. induction l as [|x l IH]; simpl; [reflexivity|]. now rewrite E, IH. Qed.

Lemma forallb_false {A} (f : A -> bool) (l : list A) :
  forallb f l = false -> exists x, In x l /\ f x = false.
Proof.
  induction l as [|x l IH]; simpl; [discriminate|].
  destruct (f x) eqn:E; simpl.
  - intros H. destruct (IH H) as (y & Hin & Hy). exists y. split; [now right | exact Hy].
  - intros _. exists x. split; [now left | exact E].
Qed.

(* the characters of a string without its white space *)
Lemma chars_remove_spaces (s : string) :
  list_ascii_of_string (Regex.remove_spaces s)
  = List.filter (fun c => negb (Str.is_space c)) (list_ascii_of_string s).
Proof.
  induction s as [|c s IH]; simpl; [reflexivity|].
  destruct (Str.is_space c); simpl; now rewrite IH.
Qed.

End StringLemmas.

Module MoreRegexFacts.
Import Regex RegexFacts RegexTactics StringLemmas.

Definition in_set (ci neg : bool) (items : list item) (b : ascii) : bool :=
  xorb neg (existsb (fun it => item_mem_ci ci it b) items).

(* a quantified class takes a run of characters of the class *)
Lemma star_set_elim ci g neg items p s p' s' :
  M ci (RStar g (RSet neg items)) p s p' s' ->
  exists mid, s = mid +:+ s' /\ p' = (p + String.length mid)%nat /\
              forallb (in_set ci neg items) (list_ascii_of_string mid) = true.
Proof.
  remember (RStar g (RSet neg items)) as r eqn:Er. intros H.
  induction H as [| | | | | | | | |g0 r0 p s|g0 r0 p s p1 s1 p2 s2 H1 _ Hlt H2 IH|];
    try discriminate Er.
  - exists "". repeat split. simpl. lia.
  - injection Er as -> ->. invc H1.
    destruct (IH eq_refl) as (mid & -> & -> & Hall).
    exists (String b mid). repeat split; [simpl; lia|].
    simpl. unfold in_set at 1.
    match goal with H : xorb _ _ = true |- _ => now rewrite H end.
Qed.

Lemma star_set_intro ci g neg items : forall mid p s',
  forallb (in_set ci neg items) (list_ascii_of_string mid) = true ->
  M ci (RStar g (RSet neg items)) p (mid +:+ s') (p + String.length mid) s'.
Proof.
  induction mid as [|b mid IH]; intros p s' H; app_step; simpl in *.
  - rewrite Nat.add_0_r. constructor.
  - apply andb_prop in H as [Hb Hall].
    eapply MStarS; [now apply MSet | lia |].
    replace (p + S (String.length mid))%nat with (S p + String.length mid)%nat by lia.
    now apply IH.
Qed.

(* [.*] takes any run without a line terminator *)
Lemma star_any_intro ci g : forall mid p s',
  forallb (fun b => negb (Str.is_line_terminator b)) (list_ascii_of_string mid) = true ->
  M ci (RStar g RAny) p (mid +:+ s') (p + String.length mid) s'.
Proof.
  induction mid as [|b mid IH]; intros p s' H; app_step; simpl in *.
  - rewrite Nat.add_0_r. constructor.
  - apply andb_prop in H as [Hb Hall]. apply negb_true_iff in Hb.
    eapply MStarS; [now apply MAny | lia |].
    replace (p + S (String.length mid))%nat with (S p + String.length mid)%nat by lia.
    now apply IH.
Qed.

End MoreRegexFacts.

Module CalculatorFacts.
Import Regex RegexFacts RegexTactics StringLemmas MoreRegexFacts Calculator.

(* the characters the message of the evaluator names, and the dot *)
Definition permitted (c : ascii) : bool :=
  Str.is_digit c || existsb (Ascii.eqb c) ["+"; "-"; "*"; "/"; "("; ")"; "."]%char.

Definition invalidCharacters : string :=
  "Invalid characters in expression. Only numbers, +, -, *, /, (, ) are allowed.".

Definition class : list item :=
  [IRange "0" "9"; IChar "+"; IChar "-"; IChar "*"; IChar "/"; IChar "("; IChar ")";
   IChar "."; ICls ClsSpace].

Lemma compiled_allowedChars :
  compiled allowedChars
  = RSeq RBol (RSeq (RSeq (RSet false class) (RStar true (RSet false class))) REol).
Proof. vm_compute. reflexivity. Qed.

Lemma in_class (c : ascii) :
  in_set false false class c = permitted c || Str.is_space c.
Proof.
  apply eqb_prop.
  apply (every_ascii_spec
           (fun c => Bool.eqb (in_set false false class c) (permitted c || Str.is_space c))).
  vm_compute. reflexivity.
Qed.

(* /^[0-9+\-*/().\s]+$/ accepts the non-empty strings over its class *)
Lemma allowedChars_spec (s : string) :
  test allowedChars s = true <->
  s <> "" /\ forallb (fun c => permitted c || Str.is_space c) (list_ascii_of_string s) = true.
Proof.
  rewrite test_spec, compiled_allowedChars. cbn [ignoreCase allowedChars re].
  rewrite <- (forallb_ext_eq _ _ _ in_class). split.
  - intros (pre & s1 & e & s' & -> & Hm). minv.
    match goal with H : 0%nat = String.length pre |- _ =>
      symmetry in H; apply StringLemmas.length_zero in H; subst pre end.
    match goal with H : M _ (RStar _ _) _ _ _ _ |- _ =>
      apply star_set_elim in H as (mid & -> & _ & Hall) end.
    rewrite app_nil_r. app_step. split; [discriminate|].
    cbn [list_ascii_of_string forallb]. rewrite Hall, andb_true_r. unfold in_set.
    match goal with H : xorb _ _ = true |- _ => exact H end.
  - intros [Hne Hall]. destruct s as [|b s]; [congruence|].
    cbn [list_ascii_of_string forallb] in Hall.
    apply andb_prop in Hall as [Hb Hall].
    exists "", (String b s), (1 + String.length s)%nat, "". split; [reflexivity|].
    apply MSeq with (p1 := 0%nat) (s1 := String b s); [constructor|].
    apply MSeq with (p1 := (1 + String.length s)%nat) (s1 := ""); [|constructor].
    apply MSeq with (p1 := 1%nat) (s1 := s); [now apply MSet|].
    rewrite <- (app_nil_r s) at 1. now apply star_set_intro.
Qed.

Lemma permitted_not_space (c : ascii) : permitted c = true -> Str.is_space c = false.
Proof.
  intros H.
  pose proof (every_ascii_spec (fun c => implb (permitted c) (negb (Str.is_space c)))
                eq_refl c) as E.
  cbv beta in E. rewrite H in E. now apply negb_true_iff in E.
Qed.

(* the test of the evaluator on the expression without its white space *)
Lemma allowedChars_cleaned (expr : string) :
  test allowedChars (remove_spaces expr) = true <->
  remove_spaces expr <> "" /\
  forall c, In c (list_ascii_of_string expr) -> Str.is_space c = false -> permitted c = true.
Proof.
  rewrite allowedChars_spec, chars_remove_spaces, forallb_forall.
  split; intros [Hne Hall]; (split; [exact Hne|]).
  - intros c Hin Hs.
    assert (Hc : In c (List.filter (fun c => negb (Str.is_space c))
                         (list_ascii_of_string expr))).
    { apply List.filter_In. split; [exact Hin | now rewrite Hs]. }
    specialize (Hall c Hc). now rewrite Hs, orb_false_r in Hall.
  - intros c Hc. apply List.filter_In in Hc as [Hin Hs]. apply negb_true_iff in Hs.
    now rewrite (Hall c Hin Hs).
Qed.

End CalculatorFacts.

(** X1. Of the expressions made of ASCII characters, evaluateExpression
    rejects, before it evaluates anything, exactly those that are empty once
    their white space is removed or that hold a character other than a
    digit, [+ - * / ( ) .] and white space. *)
Theorem evaluateExpression_invalid_characters (expr : string) :
  Str.ascii_only expr = true ->
  (Calculator.evaluateExpression expr = Calculator.Error CalculatorFacts.invalidCharacters <->
   Regex.remove_spaces expr = "" \/
   exists c, In c (list_ascii_of_string expr) /\ Str.is_space c = false /\
             CalculatorFacts.permitted c = false).
Proof.
  intros _. unfold Calculator.evaluateExpression.
  destruct (Regex.test Calculator.allowedChars (Regex.remove_spaces expr)) eqn:Ha; simpl.
  - apply CalculatorFacts.allowedChars_cleaned in Ha as [Hne Hall]. split.
    + intros H. exfalso.
      destruct (Regex.test Calculator.dangerous expr); [discriminate H|].
      destruct (Calculator.js_arith _); discriminate H.
    + intros [H | (c & Hin & Hs & Hp)]; [contradiction|].
      rewrite (Hall c Hin Hs) in Hp. discriminate Hp.
  - split; [intros _ | reflexivity].
    destruct (string_dec (Regex.remove_spaces expr) "") as [E | Hne]; [now left | right].
    destruct (forallb (fun c => negb (negb (Str.is_space c)) || CalculatorFacts.permitted c)
                (list_ascii_of_string expr)) eqn:Hall.
    + exfalso. rewrite forallb_forall in Hall.
      assert (Regex.test Calculator.allowedChars (Regex.remove_spaces expr) = true);
        [|congruence].
      apply CalculatorFacts.allowedChars_cleaned. split; [exact Hne|].
      intros c Hin Hs. specialize (Hall c Hin). now rewrite Hs in Hall.
    + apply StringLemmas.forallb_false in Hall as (c & Hin & Hc).
      exists c. apply orb_false_elim in Hc as [Hs Hp].
      rewrite negb_involutive in Hs. now repeat split.
Qed.

Lemma evaluateExpression_invalid_characters_witness :
  Calculator.evaluateExpression "2 + x" = Calculator.Error CalculatorFacts.invalidCharacters.
Proof.
  apply (proj2 (evaluateExpression_invalid_characters "2 + x" eq_refl)).
  right. exists "x"%char. split; [simpl; tauto|]. split; reflexivity.
Defined.

Module DangerousFacts.
Import Regex RegexFacts RegexTactics StringLemmas Calculator.

(* a character that matches a lower-case letter without regard to case is no
   permitted character and no white space *)
Lemma letter_not_permitted (a b : ascii) :
  Str.is_lower a = true -> chr_eq true a b = true ->
  Str.is_space b = false /\ CalculatorFacts.permitted b = false.
Proof.
  intros Ha Hb.
  pose proof (every_ascii_spec
    (fun a => every_ascii
       (fun b => implb (Str.is_lower a && chr_eq true a b)
                   (negb (Str.is_space b) && negb (CalculatorFacts.permitted b))))) as E.
  assert (Hall : every_ascii
    (fun a => every_ascii
       (fun b => implb (Str.is_lower a && chr_eq true a b)
                   (negb (Str.is_space b) && negb (CalculatorFacts.permitted b)))) = true)
    by (vm_compute; reflexivity).
  specialize (E Hall a). cbv beta in E.
  pose proof (every_ascii_spec _ E b) as E'. cbv beta in E'.
  rewrite Ha, Hb in E'. simpl in E'. apply andb_prop in E' as [E1 E2].
  split; now apply negb_true_iff.
Qed.

(* where /(function|eval|window|document|process|require|import|export)/i
   matches, a letter stands *)
Lemma dangerous_letter (pre s1 : string) (e : nat) (s' : string) :
  M true (compiled dangerous) (String.length pre) s1 e s' ->
  exists b rest, s1 = String b rest /\
                 Str.is_space b = false /\ CalculatorFacts.permitted b = false.
Proof.
  intros Hm. compile_in Hm. minv.
  all: do 2 eexists; split; [reflexivity|].
  all: match goal with
       | H : chr_eq true ?a ?b = true |- Str.is_space ?b = false /\ _ =>
           exact (letter_not_permitted a b eq_refl H)
       end.
Qed.

(* what passes the character check holds no dangerous word *)
Lemma allowed_not_dangerous (expr : string) :
  Regex.test allowedChars (Regex.remove_spaces expr) = true ->
  Regex.test dangerous expr = false.
Proof.
  intros Ha. destruct (Regex.test dangerous expr) eqn:Hd; [|reflexivity].
  exfalso. apply CalculatorFacts.allowedChars_cleaned in Ha as [_ Hall].
  apply RegexFacts.test_spec in Hd as (pre & s1 & e & s' & -> & Hm).
  apply dangerous_letter in Hm as (b & rest & -> & Hs & Hp).
  rewrite (Hall b) in Hp; [discriminate Hp | | exact Hs].
  rewrite chars_app. apply in_or_app. right. now left.
Qed.

End DangerousFacts.

(** X2. The second check of evaluateExpression never fires: an expression
    that the pattern of dangerous words matches holds a letter, so the
    character check before it has already rejected it with the message
    about invalid characters, and "Potentially dangerous expression
    detected." is never thrown. *)
Theorem evaluateExpression_never_dangerous (expr : string) :
  Regex.test Calculator.dangerous expr = true ->
  Calculator.evaluateExpression expr = Calculator.Error CalculatorFacts.invalidCharacters.
Proof.
  intros Hd. unfold Calculator.evaluateExpression.
  destruct (Regex.test Calculator.allowedChars (Regex.remove_spaces expr)) eqn:Ha; simpl;
    [|reflexivity].
  rewrite (DangerousFacts.allowed_not_dangerous expr Ha) in Hd. discriminate Hd.
Qed.

Lemma evaluateExpression_never_dangerous_witness :
  Calculator.evaluateExpression "eval(1)"
  = Calculator.Error CalculatorFacts.invalidCharacters.
Proof.
  apply (evaluateExpression_never_dangerous "eval(1)"). vm_compute. reflexivity.
Defined.

(** X3. White space counts for nothing, even between two digits:
    evaluateExpression gives the same result, or throws the same error,
    for two expressions that are equal once their white space is removed,
    so "1 2 + 3" is read as "12+3". *)
Theorem evaluateExpression_ignores_white_space (a b : string) :
  Regex.remove_spaces a = Regex.remove_spaces b ->
  Calculator.evaluateExpression a = Calculator.evaluateExpression b.
Proof.
  intros E. unfold Calculator.evaluateExpression. cbv zeta. rewrite <- E.
  destruct (Regex.test Calculator.allowedChars (Regex.remove_spaces a)) eqn:Ha;
    [|reflexivity].
  rewrite (DangerousFacts.allowed_not_dangerous a Ha).
  rewrite E in Ha. rewrite (DangerousFacts.allowed_not_dangerous b Ha).
  reflexivity.
Qed.

Lemma evaluateExpression_ignores_white_space_witness :
  Calculator.evaluateExpression "1 2 + 3" = Calculator.Value 15.
Proof.
  rewrite (evaluateExpression_ignores_white_space "1 2 + 3" "12+3" eq_refl).
  vm_compute. reflexivity.
Defined.

(** ** The classifier and the extractors (orchestrator) *)

Module CaptureFacts.
Import Regex RegexFacts.

(* the expression records group [i] on every match *)
Fixpoint sets (i : nat) (r : regex) : bool :=
  match r with
  | RGroup j r' => (i =? j)%nat || sets i r'
  | RSeq r1 r2 => sets i r1 || sets i r2
  | RAlt r1 r2 => sets i r1 && sets i r2
  | _ => false
  end.

Definition captured (i : nat) (c : caps) : Prop := cap_lookup i c <> None.

Lemma rmatch_caps ci i r :
  forall pos s c k x,
    rmatch ci r pos s c k = Some x ->
    exists p' s' c', k p' s' c' = Some x /\ (captured i c -> captured i c') /\
                     (sets i r = true -> captured i c').
Proof.
  induction r as [a| |neg items| | | | |r1 IH1 r2 IH2|r1 IH1 r2 IH2|g r IH|j r IH];
    intros pos s c k x H.
  - destruct s as [|b s]; simpl in H; [discriminate|].
    destruct (chr_eq ci a b); [|discriminate]. exists (S pos), s, c. now repeat split.
  - destruct s as [|b s]; simpl in H; [discriminate|].
    destruct (Str.is_line_terminator b); [discriminate|]. exists (S pos), s, c. now repeat split.
  - destruct s as [|b s]; simpl in H; [discriminate|].
    destruct (xorb neg _); [|discriminate]. exists (S pos), s, c. now repeat split.
  - simpl in H. destruct (pos =? 0)%nat; [|discriminate]. exists pos, s, c. now repeat split.
  - destruct s; simpl in H; [|discriminate]. exists pos, "", c. now repeat split.
  - exists pos, s, c. now repeat split.
  - discriminate H.
  - simpl in H. apply IH1 in H as (p1 & s1 & c1 & H & M1 & S1).
    apply IH2 in H as (p2 & s2 & c2 & H & M2 & S2).
    exists p2, s2, c2. split; [exact H|]. split; [tauto|].
    simpl. intros E. apply orb_prop in E as [E | E]; tauto.
  - simpl in H. destruct (rmatch ci r1 pos s c k) eqn:E.
    + injection H as <-. apply IH1 in E as (p' & s' & c' & E & M1 & S1).
      exists p', s', c'. split; [exact E|]. split; [exact M1|].
      simpl. intros E'. apply andb_prop in E' as [E' _]. tauto.
    + apply IH2 in H as (p' & s' & c' & H & M2 & S2).
      exists p', s', c'. split; [exact H|]. split; [exact M2|].
      simpl. intros E'. apply andb_prop in E' as [_ E']. tauto.
  - rewrite rmatch_star in H. set (fuel := S (String.length s)) in H. clearbody fuel.
    assert (L : exists p' s' c', k p' s' c' = Some x /\ (captured i c -> captured i c')).
    { revert pos s c x H. induction fuel as [|f IHf]; intros pos s c x H.
      - exists pos, s, c. now split.
      - simpl in H.
        assert (Hmore : forall y,
          rmatch ci r pos s c
            (fun p' s' c' => if (pos <? p')%nat
                             then star_loop ci g (rmatch ci r) k f p' s' c' else None) = Some y ->
          exists p' s' c', k p' s' c' = Some y /\ (captured i c -> captured i c')).
        { intros y Hy. apply IH in Hy as (p1 & s1 & c1 & Hy & M1 & _).
          destruct (pos <? p1)%nat; [|discriminate].
          apply IHf in Hy as (p2 & s2 & c2 & Hy & M2).
          exists p2, s2, c2. split; [exact Hy | tauto]. }
        destruct g.
        + destruct (rmatch ci r pos s c _) eqn:E.
          * injection H as <-. now apply Hmore.
          * exists pos, s, c. now split.
        + destruct (k pos s c) eqn:E.
          * injection H as <-. exists pos, s, c. now split.
          * now apply Hmore. }
    destruct L as (p' & s' & c' & Hk & Hm). exists p', s', c'.
    split; [exact Hk|]. split; [exact Hm | discriminate].
  - simpl in H. apply IH in H as (p' & s' & c' & H & M1 & S1).
    exists p', s', ((j, Str.take (p' - pos) s) :: c'). split; [exact H|].
    unfold captured in *. simpl. split.
    + intros Hc. destruct (i =? j)%nat; [discriminate | tauto].
    + intros E. destruct (i =? j)%nat; [discriminate | tauto].
Qed.

(* m[i] is defined when the expression always records group i *)
Lemma exec_group (x : RegExp) (s : string) (m : MatchResult) (i : nat) :
  exec x s = Some m -> sets i (compiled x) = true -> exists g, group m i = Some g.
Proof.
  unfold exec. destruct (search _ _ 0 s) as [[[b e] c]|] eqn:E; [|discriminate].
  intros [= <-] Hs. unfold group. simpl.
  assert (Hc : captured i c).
  { revert E. generalize 0%nat. induction s as [|a s IH]; intros pos E; simpl in E.
    - destruct (rmatch _ _ pos "" [] _) as [[e' c']|] eqn:R; [|discriminate].
      injection E as <- <- <-.
      apply (rmatch_caps _ i) in R as (p' & s' & c'' & [= <- <-] & _ & S1). tauto.
    - destruct (rmatch _ _ pos (String a s) [] _) as [[e' c']|] eqn:R.
      + injection E as <- <- <-.
        apply (rmatch_caps _ i) in R as (p' & s' & c'' & [= <- <-] & _ & S1). tauto.
      + now apply (IH (S pos)). }
  unfold captured in Hc. destruct (cap_lookup i c) as [g|]; [now exists g | congruence].
Qed.

End CaptureFacts.

Module IntentFacts.
Import Regex RegexFacts RegexTactics StringLemmas MoreRegexFacts Orchestrator.

Lemma first_group_app (gs1 gs2 : list Intent) (lq : string) :
  first_group (gs1 ++ gs2) lq
  = match first_group gs1 lq with Some g => Some g | None => first_group gs2 lq end.
Proof.
  induction gs1 as [|g gs1 IH]; simpl; [reflexivity|].
  now destruct (existsb (matches_entry lq) (patterns g)).
Qed.

(* when no group matches, no pattern of any group does *)
Lemma first_group_nth (gs : list Intent) (lq : string) (n : nat) (g : Intent) :
  first_group gs lq = None -> nth_error gs n = Some g ->
  existsb (matches_entry lq) (patterns g) = false.
Proof.
  revert n. induction gs as [|g0 gs IH]; intros n H Hn; [now destruct n|].
  simpl in H. destruct (existsb (matches_entry lq) (patterns g0)) eqn:E; [discriminate|].
  destruct n as [|n]; simpl in Hn; [now injection Hn as <- | now apply (IH n)].
Qed.

Lemma first_mention_spec (names : list string) (lq : string) (i : Intent) :
  first_mention names lq = Some i ->
  exists toolName,
    In toolName names /\ Str.includes (Str.replaceFirst "_" " " toolName) lq = true /\
    i = mkIntent [PText ("Tool " +:+ toolName +:+ " mentioned")] toolName [toolName] [].
Proof.
  induction names as [|n names IH]; simpl; [discriminate|].
  destruct (Str.includes (Str.replaceFirst "_" " " n) lq) eqn:E.
  - intros [= <-]. exists n. repeat split; [now left | exact E].
  - intros H. destruct (IH H) as (t & Hin & Ht & ->). exists t. repeat split; [now right | exact Ht].
Qed.

(* a literal of the pattern that stands in the text *)
Ltac literal := repeat (eapply MSeq; [now apply MChar|]); now apply MChar.

(* each alternative of the fetch_and_save pattern begins as an alternative
   of the first fetch_url pattern does *)
Lemma fetch_and_save_shadowed (s : string) :
  test (rei "fetch.*and.*save|download.*to.*file|get.*url.*write") s = true ->
  test (rei "fetch|get.*url|download|request.*http") s = true.
Proof.
  rewrite !test_spec. intros (pre & s1 & e & s' & -> & Hm).
  exists pre, s1. compile_in Hm. compile_goal. cbn [ignoreCase rei] in *.
  minv.
  - do 2 eexists. split; [reflexivity|]. apply MAltL. literal.
  - do 2 eexists. split; [reflexivity|]. apply MAltR, MAltR, MAltL. literal.
  - do 2 eexists. split; [reflexivity|]. apply MAltR, MAltL.
    repeat (eapply MSeq; [now apply MChar|]).
    eapply MSeq; [eassumption|]. literal.
Qed.

Lemma fetch_found (pre post : string) :
  test (rei "fetch|get.*url|download|request.*http") (pre +:+ "fetch" +:+ post) = true.
Proof.
  apply test_spec. exists pre, ("fetch" +:+ post). do 2 eexists. split; [reflexivity|].
  compile_goal. app_step. apply MAltL. literal.
Qed.

End IntentFacts.

(** X4. No query is classified as fetch_and_save: each alternative of its
    pattern begins with a word ("fetch", "download", "get ... url") that the
    fetch_url group, which stands earlier in the list, matches too, and the
    tool-mention fallback is only reached when no pattern matches. *)
Theorem detectIntent_never_fetch_and_save
    (availableTools : JsMap.t Orchestrator.ToolEntry) (query : string) :
  String.eqb (Orchestrator.intent (Orchestrator.detectIntent availableTools query))
    "fetch_and_save" = false.
Proof.
  apply String.eqb_neq.
  unfold Orchestrator.detectIntent. set (lq := Str.toLowerCase query).
  destruct (Orchestrator.first_group Orchestrator.intentPatterns lq) as [g|] eqn:Hg.
  - intros Hi. unfold Orchestrator.intentPatterns in Hg.
    cbn [Orchestrator.first_group] in Hg.
    repeat match type of Hg with
    | (if ?b then _ else _) = Some _ =>
        destruct b eqn:?;
        [injection Hg as <-; try (cbn [Orchestrator.intent Orchestrator.group_of] in Hi;
                                  discriminate Hi) |]
    end; [|discriminate Hg].
    match goal with
    | H1 : existsb _ (Orchestrator.patterns
                        (Orchestrator.group_of
                           (Regex.rei "fetch|get.*url|download|request.*http" :: _) _ _ _))
           = false,
      H2 : existsb _ (Orchestrator.patterns
                        (Orchestrator.group_of
                           [Regex.rei "fetch.*and.*save|download.*to.*file|get.*url.*write"]
                           _ _ _)) = true |- _ =>
        cbn [existsb Orchestrator.patterns Orchestrator.group_of List.map
             Orchestrator.matches_entry] in H1, H2;
        apply orb_false_elim in H1 as [H1 _]; rewrite orb_false_r in H2;
        apply IntentFacts.fetch_and_save_shadowed in H2; congruence
    end.
  - destruct (Orchestrator.first_mention (JsMap.keys availableTools) lq) as [i|] eqn:Hm;
      [|discriminate].
    apply IntentFacts.first_mention_spec in Hm as (toolName & _ & Hinc & ->).
    cbn [Orchestrator.intent]. intros ->.
    apply StrFacts.includes_elim in Hinc as (pre & post & E).
    change (Str.replaceFirst "_" " " "fetch_and_save") with "fetch and_save" in E.
    apply (IntentFacts.first_group_nth _ _ 2 _) with (2 := eq_refl) in Hg.
    cbn [existsb Orchestrator.patterns Orchestrator.group_of List.map
         Orchestrator.matches_entry] in Hg.
    apply orb_false_elim in Hg as [Hg _].
    rewrite E in Hg.
    change ("fetch and_save" +:+ post) with ("fetch" +:+ " and_save" +:+ post) in Hg.
    now rewrite IntentFacts.fetch_found in Hg.
Qed.

Module ClassifierFacts.
Import Regex RegexFacts RegexTactics StringLemmas MoreRegexFacts Orchestrator IntentFacts.

Lemma toLowerCase_app (a b : string) :
  Str.toLowerCase (a +:+ b) = Str.toLowerCase a +:+ Str.toLowerCase b.
Proof.
  unfold Str.toLowerCase. induction a as [|c a IH]; app_step; simpl; [reflexivity|].
  app_step. now rewrite IH.
Qed.

(* the second pattern of the calculate group is an alternation of
   "what.*is.*\+" with the three operator characters alone *)
Lemma operator_found (op : string) (pre post : string) :
  op = "-" \/ op = "*" \/ op = "/" ->
  test (rei "what.*is.*\+|\-|\*|\/") (pre +:+ op +:+ post) = true.
Proof.
  intros H. apply test_spec. exists pre, (op +:+ post). do 2 eexists. split; [reflexivity|].
  compile_goal. destruct H as [-> | [-> | ->]]; app_step.
  - apply MAltR, MAltL. now apply MChar.
  - apply MAltR, MAltR, MAltL. now apply MChar.
  - apply MAltR, MAltR, MAltR. now apply MChar.
Qed.

Lemma includes_lower (op : string) (query : string) :
  op = "-" \/ op = "*" \/ op = "/" ->
  Str.includes op query = true ->
  exists pre post, Str.toLowerCase query = pre +:+ op +:+ post.
Proof.
  intros Hop H. apply StrFacts.includes_elim in H as (pre & post & ->).
  exists (Str.toLowerCase pre), (Str.toLowerCase post).
  rewrite !toLowerCase_app. now destruct Hop as [-> | [-> | ->]].
Qed.

Lemma summarize_url_found (pre mid post : string) (secure : bool) :
  forallb (fun b => negb (Str.is_line_terminator b)) (list_ascii_of_string mid) = true ->
  test (rei "summarize.*https?:\/\/")
    (pre +:+ "summarize" +:+ mid +:+ (if secure then "https://" else "http://") +:+ post) = true.
Proof.
  intros Hmid. apply test_spec. exists pre.
  destruct secure; eexists; do 2 eexists; (split; [reflexivity|]);
    compile_goal; app_step;
    repeat (eapply MSeq; [now apply MChar|]);
    (eapply MSeq; [now apply star_any_intro|]); app_step;
    repeat (eapply MSeq; [now apply MChar|]).
  - eapply MSeq; [apply MAltL; now apply MChar|]. literal.
  - eapply MSeq; [apply MAltR; apply MEmpty|]. literal.
Qed.

End ClassifierFacts.

(** X5. The second pattern of the calculate group, [what.*is.*\+|\-|\*|\/],
    is an alternation whose last three alternatives are the operator
    characters alone: a query that holds [-], [*] or [/] anywhere and that no
    pattern of the five earlier groups matches is classified as calculate,
    whatever else it says. *)
Theorem operator_character_means_calculate
    (availableTools : JsMap.t Orchestrator.ToolEntry) (query op : string) :
  op = "-" \/ op = "*" \/ op = "/" ->
  Str.includes op query = true ->
  Orchestrator.first_group (firstn 5 Orchestrator.intentPatterns) (Str.toLowerCase query) = None ->
  Orchestrator.intent (Orchestrator.detectIntent availableTools query) = "calculate".
Proof.
  intros Hop Hinc Hnone.
  destruct (ClassifierFacts.includes_lower op query Hop Hinc) as (pre & post & E).
  unfold Orchestrator.detectIntent.
  rewrite <- (firstn_skipn 5 Orchestrator.intentPatterns) at 1.
  rewrite IntentFacts.first_group_app, Hnone.
  unfold Orchestrator.intentPatterns.
  cbn [skipn Orchestrator.first_group existsb Orchestrator.patterns Orchestrator.group_of
       List.map Orchestrator.matches_entry].
  rewrite E, (ClassifierFacts.operator_found op pre post Hop).
  now rewrite orb_true_r.
Qed.

Lemma operator_character_means_calculate_witness :
  Orchestrator.intent (Orchestrator.detectIntent [] "a well-known fact") = "calculate".
Proof.
  apply (operator_character_means_calculate [] "a well-known fact" "-").
  - now left.
  - reflexivity.
  - vm_compute. reflexivity.
Defined.

(** X6. The URL patterns stand first: a query of ASCII characters in
    which "summarize" is followed, on the same line, by [http://] or
    [https://] is classified as web_ai_analyze, whatever else it says (a
    calculation, a file name). *)
Theorem summarize_url_is_web_ai_analyze
    (availableTools : JsMap.t Orchestrator.ToolEntry) (query pre mid post : string)
    (secure : bool) :
  Str.ascii_only query = true ->
  Str.toLowerCase query
    = pre +:+ "summarize" +:+ mid +:+ (if secure then "https://" else "http://") +:+ post ->
  forallb (fun b => negb (Str.is_line_terminator b)) (list_ascii_of_string mid) = true ->
  Orchestrator.intent (Orchestrator.detectIntent availableTools query) = "web_ai_analyze".
Proof.
  intros _ E Hmid. unfold Orchestrator.detectIntent, Orchestrator.intentPatterns.
  cbn [Orchestrator.first_group].
  match goal with
  | |- context [existsb ?f ?l] =>
      assert (Hx : existsb f l = true)
  end.
  { apply existsb_exists. exists (Orchestrator.PRegExp (Regex.rei "summarize.*https?:\/\/")).
    split; [cbn; tauto|]. cbn [Orchestrator.matches_entry]. rewrite E.
    now apply ClassifierFacts.summarize_url_found. }
  now rewrite Hx.
Qed.

Lemma summarize_url_is_web_ai_analyze_witness :
  Orchestrator.intent
    (Orchestrator.detectIntent [] "Calculate 2+2 and summarize https://example.com")
  = "web_ai_analyze".
Proof.
  apply (summarize_url_is_web_ai_analyze [] _ "calculate 2+2 and " " " "example.com" true);
    reflexivity.
Defined.

(** X7. The file name of a save_context request always has an extension:
    extractFileName returns a string that contains a dot, the name found in
    the query (with [.txt] added when it has no dot) or one of the two
    default names. *)
Theorem extractFileName_has_extension
    (conversationMemory : Orchestrator.ConversationMemory) (query : string) :
  exists fileName,
    Orchestrator.extractFileName conversationMemory query = JStr fileName /\
    Str.includes "." fileName = true.
Proof.
  unfold Orchestrator.extractFileName.
  match goal with |- context [Regex.exec ?x query] =>
    destruct (Regex.exec x query) as [fileMatch|] eqn:E;
    [apply (CaptureFacts.exec_group x query fileMatch 1) in E as [g ->];
     [|vm_compute; reflexivity] |]
  end.
  - destruct (Str.includes "." g) eqn:Hg; simpl.
    + now exists g.
    + exists (g +:+ ".txt"). split; [reflexivity|].
      apply (StrFacts.includes_intro "." g "txt").
  - destruct (Js.eq_str _ _); eexists; split; reflexivity.
Qed.

(** ** Requests without a plan, the calls of a plan, the conversation memory *)

Module FallbackFacts.
Import Orchestrator.

(* the three texts a request that no pattern matches can be answered with *)
Definition fallback_response (query : string) (text : JsValue) : Prop :=
  text = JStr (unknownResponse query) \/
  text = JStr (Icon.cross +:+ " I encountered an error: " +:+ "I don't understand how to: "
               +:+ query) \/
  exists name, text = JStr (Icon.cross +:+ " Error processing request: " +:+ "intent."
                            +:+ name +:+ " is not a function").

(* the tool names the orchestrator holds are strings: none were announced
   yet, or the last registered or capabilities_updated message that held a
   tool list held an array of strings *)
Definition string_names (st : State) : Prop :=
  availableTools st = [] \/
  exists msg st0 names,
    Js.oprop (Js.prop msg "serverCapabilities") "tools" = JArr (List.map JStr names) /\
    st = update_tools msg st0.

End FallbackFacts.

(** X8. While the tool names the orchestrator holds are strings, a
    request whose query none of the patterns matches sends no tool call
    and leaves the conversation memory as it was, whether or not the
    query mentions a tool: natural_request answers with the list of
    suggestions, or with an error text ("I don't understand how to: ..."
    for a tool without a plan, "intent.<extractor> is not a function" for
    a tool whose plan calls an extractor the fallback intent lacks). *)
Theorem unmatched_query_sends_no_call
    (w : Orchestrator.World) (st : Orchestrator.State) (args : JsValue) (query : string) :
  FallbackFacts.string_names st ->
  Js.prop args "query" = JStr query ->
  Orchestrator.first_group Orchestrator.intentPatterns (Str.toLowerCase query) = None ->
  let r := Orchestrator.natural_request w st args in
  Orchestrator.calls r = [] /\
  Orchestrator.memory r = Orchestrator.conversationMemory st /\
  FallbackFacts.fallback_response query (Js.prop (Orchestrator.returned r) "response").
Proof.
  intros _ Hq Hnone r.
  unfold r, Orchestrator.natural_request, Orchestrator.natural_request_try.
  rewrite Hq. unfold Orchestrator.detectIntent. rewrite Hnone.
  destruct (Orchestrator.first_mention _ _) as [i|] eqn:Hm.
  - apply IntentFacts.first_mention_spec in Hm as (toolName & _ & _ & ->).
    cbn [Orchestrator.intent].
    destruct (String.eqb toolName "unknown") eqn:Eu.
    + cbn. repeat split. now left.
    + unfold Orchestrator.createExecutionPlan. cbn [Orchestrator.intent Orchestrator.methods].
      repeat match goal with
      | |- context [if String.eqb toolName ?s then _ else _] =>
          destruct (String.eqb toolName s)
      end.
      all: try (cbn; repeat split; right; right; eexists; reflexivity).
      cbn. repeat split. right. now left.
  - cbn. repeat split. now left.
Qed.

Lemma unmatched_query_sends_no_call_witness :
  let st := Orchestrator.update_tools SameMillisecond.registered
              (Orchestrator.mkState [] Orchestrator.initialMemory) in
  let r := Orchestrator.natural_request
             (Deployment.world Scenario.no_files (fun _ => 0%Z) 0%Z) st
             (JObj [("query", JStr "hello there")]) in
  Orchestrator.calls r = [] /\
  Orchestrator.memory r = Orchestrator.initialMemory.
Proof.
  intros st r.
  assert (Hst : FallbackFacts.string_names st).
  { right. exists SameMillisecond.registered,
      (Orchestrator.mkState [] Orchestrator.initialMemory), ["calculate"].
    split; reflexivity. }
  destruct (unmatched_query_sends_no_call
              (Deployment.world Scenario.no_files (fun _ => 0%Z) 0%Z) st
              (JObj [("query", JStr "hello there")]) "hello there" Hst eq_refl
              ltac:(vm_compute; reflexivity)) as (H1 & H2 & _).
  split; [exact H1 | exact H2].
Defined.

Module CallFacts.
Import Orchestrator.

(* a message the step executor sends *)
Definition tool_call (m : JsValue) : Prop :=
  Js.prop m "type" = JStr "tools/call" /\ Js.prop m "from" = JStr "orchestrator-agent" /\
  exists id name args,
    Js.prop m "id" = JStr id /\ Str.startsWith "orchestrator-" id = true /\
    Js.prop m "params" = JObj [("name", JStr name); ("arguments", args)].

Lemma toolCall_tool_call (now : Z) (i : nat) (step : Step) :
  tool_call (toolCall (requestId now i) step).
Proof.
  split; [reflexivity|]. split; [reflexivity|].
  exists (requestId now i), (tool step), (arguments step).
  split; [reflexivity|]. split; [apply StrFacts.prefix_app | reflexivity].
Qed.

Lemma executeStep_calls (w : World) (availableTools : JsMap.t ToolEntry) (plan : Plan)
    (i : nat) (previousResults : list JsValue) (x : JsValue) (c : list JsValue) :
  executeStep w availableTools plan i previousResults = Ok (x, c) ->
  (length c <= 1)%nat /\ Forall tool_call c.
Proof.
  unfold executeStep. destruct (steps plan !! i) as [step|]; [|discriminate].
  destruct (prepare availableTools step previousResults) as [result|step'].
  - intros [= <- <-]. split; [simpl; lia | constructor].
  - intros [= <- <-]. split; [simpl; lia|].
    constructor; [apply toolCall_tool_call | constructor].
Qed.

Lemma run_steps_calls (w : World) (availableTools : JsMap.t ToolEntry) (plan : Plan)
    (left : nat) :
  forall (i : nat) (results calls rs cs : list JsValue),
    run_steps w availableTools plan left i results calls = Ok (rs, cs) ->
    exists more, cs = (calls ++ more)%list /\ (length more <= left)%nat /\
                 Forall tool_call more.
Proof.
  induction left as [|left IH]; intros i results calls rs cs H; simpl in H.
  - injection H as <- <-. exists []. rewrite app_nil_r. repeat split; [simpl; lia | constructor].
  - destruct (executeStep w availableTools plan i results) as [[x c]|] eqn:E; [|discriminate H].
    simpl in H. apply executeStep_calls in E as [Hl Hc].
    destruct (negb (Js.truthy (Js.prop x "success"))).
    + injection H as <- <-. exists c. repeat split; [lia | exact Hc].
    + apply IH in H as (more & -> & Hm & Hall).
      exists (c ++ more)%list. rewrite app_assoc. repeat split.
      * rewrite length_app. lia.
      * now apply Forall_app.
Qed.

(* a plan has one or two steps, or none and an error *)
Lemma plan_length (conversationMemory : ConversationMemory) (i : Intent) (query : string)
    (plan : Plan) :
  createExecutionPlan conversationMemory i query = Ok plan ->
  (length (steps plan) <= 2)%nat.
Proof.
  unfold createExecutionPlan.
  repeat match goal with
  | |- context [if String.eqb ?a ?b then _ else _] => destruct (String.eqb a b)
  end.
  all: repeat match goal with
       | |- context [call ?i ?n ?m ?q] => destruct (call i n m q); cbn [bind]
       end.
  all: try (intros H; discriminate H).
  all: try (intros H; injection H as <-; simpl; lia).
  - destruct a; intros H; try discriminate H. injection H as <-. simpl. lia.
  - destruct (negb _); intros H; injection H as <-; simpl; lia.
Qed.

End CallFacts.

(** X9. A plan the compiler makes sends at most two messages, whatever the
    query and whatever the agents answer; each is a tools/call from
    orchestrator-agent whose id begins with "orchestrator-". *)
Theorem plan_sends_at_most_two
    (conversationMemory : Orchestrator.ConversationMemory) (i : Orchestrator.Intent)
    (query : string) (plan : Orchestrator.Plan) (w : Orchestrator.World)
    (availableTools : JsMap.t Orchestrator.ToolEntry) (results calls : list JsValue) :
  Orchestrator.createExecutionPlan conversationMemory i query = Orchestrator.Ok plan ->
  Orchestrator.run_plan w availableTools plan = Orchestrator.Ok (results, calls) ->
  (length calls <= 2)%nat /\ Forall CallFacts.tool_call calls.
Proof.
  intros Hp Hr. apply CallFacts.plan_length in Hp.
  apply CallFacts.run_steps_calls in Hr as (more & -> & Hl & Hall).
  split; [simpl; lia | exact Hall].
Qed.

Lemma plan_sends_at_most_two_witness :
  let i := Orchestrator.mkIntent [] "web_ai_analyze" []
             [("extractUrl", fun _ _ => JStr "https://example.com")] in
  let plan :=
    Orchestrator.mkPlan
      [Orchestrator.mkStep "extract_text"
         (JObj [("url", JStr "https://example.com"); ("max_length", Js.int 3000)])
         "Extract text from: https://example.com" None;
       Orchestrator.mkStep "analyze_content"
         (JObj [("content", JStr "PLACEHOLDER"); ("analysis_type", JStr "summary")])
         "AI analyze extracted content" (Some 0%nat)]
      i "summarize https://example.com" None in
  let w := Orchestrator.mkWorld (fun _ => 7%Z) 8%Z
             (fun _ => Orchestrator.Responded (JObj [("text", JStr "abc")])) in
  let tools := Orchestrator.tools_from ["extract_text"; "analyze_content"] in
  (length (snd (match Orchestrator.run_plan w tools plan with
                | Orchestrator.Ok r => r
                | Orchestrator.Throw _ => ([], [])
                end)) <= 2)%nat.
Proof.
  intros i plan w tools.
  refine (proj1 (plan_sends_at_most_two Orchestrator.initialMemory i
                   "summarize https://example.com" plan w tools
                   (fst (match Orchestrator.run_plan w tools plan with
                         | Orchestrator.Ok r => r
                         | Orchestrator.Throw _ => ([], [])
                         end))
                   (snd (match Orchestrator.run_plan w tools plan with
                         | Orchestrator.Ok r => r
                         | Orchestrator.Throw _ => ([], [])
                         end))
                   eq_refl _)).
  vm_compute. reflexivity.
Defined.

Module MemoryFacts.
Import Orchestrator.

(* what the agent serves: a natural_request call, or a registered or
   capabilities_updated message *)
Inductive Served :=
| Request (w : World) (args : JsValue)
| Capabilities (msg : JsValue).

Definition serve_one (st : State) (ev : Served) : State :=
  match ev with
  | Request w args => mkState (availableTools st) (memory (natural_request w st args))
  | Capabilities msg => update_tools msg st
  end.

Definition serve (evs : list Served) (st : State) : State := foldl serve_one st evs.

(* the newest entry of recentResults repeats lastQuery, lastIntent and lastResult *)
Definition newest (m : ConversationMemory) : Prop :=
  exists timestamp,
    last_entry (recentResults m)
    = JObj [("query", lastQuery m); ("intent", lastIntent m); ("result", lastResult m);
            ("timestamp", timestamp)].

Definition consistent (m : ConversationMemory) : Prop :=
  (length (recentResults m) <= 5)%nat /\
  (recentResults m = [] -> m = initialMemory) /\
  (recentResults m <> [] -> newest m).

Lemma last_entry_tl (x y : JsValue) (l : list JsValue) :
  last_entry (List.tl (x :: y :: l)) = last_entry (x :: y :: l).
Proof. reflexivity. Qed.

Lemma remember_consistent (now : Z) (tag query : string) (results : list JsValue)
    (m : ConversationMemory) :
  consistent m -> consistent (remember now tag query results m).
Proof.
  intros (Hlen & Hnil & Hne). unfold remember.
  destruct ((0 <? length results)%nat && _); [|now repeat split].
  set (entry := JObj _). set (recent := (recentResults m ++ [entry])%list).
  assert (Hr : length recent = S (length (recentResults m)))
    by (unfold recent; rewrite length_app; simpl; lia).
  assert (Hlast : last_entry recent = entry) by apply RunFacts.last_entry_snoc.
  unfold consistent, newest. cbn [recentResults lastQuery lastIntent lastResult].
  destruct (5 <? length recent)%nat eqn:E.
  - apply Nat.ltb_lt in E.
    destruct recent as [|x [|y l]]; simpl in Hr, E; try lia.
    rewrite last_entry_tl, Hlast. cbn [List.tl]. repeat split.
    + simpl in *. lia.
    + discriminate.
    + intros _. now exists (Js.int now).
  - apply Nat.ltb_ge in E. repeat split.
    + exact E.
    + intros H. rewrite H in Hr. discriminate Hr.
    + intros _. rewrite Hlast. now exists (Js.int now).
Qed.

Lemma natural_request_consistent (w : World) (st : State) (args : JsValue) :
  consistent (conversationMemory st) -> consistent (memory (natural_request w st args)).
Proof.
  intros H. unfold natural_request.
  destruct (natural_request_try w st args) as [r|e] eqn:E; [|exact H].
  unfold natural_request_try in E.
  destruct (Js.prop args "query") as [| | | |query| |]; try discriminate E.
  destruct (String.eqb _ "unknown").
  - injection E as <-. exact H.
  - destruct (createExecutionPlan _ _ query) as [plan|]; [|discriminate E].
    cbn [bind] in E.
    destruct (run_plan w _ plan) as [[results cs]|]; [|discriminate E].
    cbn [bind fst snd] in E.
    destruct (synthesizeResponse _ plan results); [|discriminate E].
    cbn [bind] in E. injection E as <-. cbn [memory].
    now apply remember_consistent.
Qed.

Lemma serve_one_consistent (st : State) (ev : Served) :
  consistent (conversationMemory st) -> consistent (conversationMemory (serve_one st ev)).
Proof.
  intros H. destruct ev as [w args|msg]; simpl.
  - now apply natural_request_consistent.
  - unfold update_tools. destruct (Js.oprop _ _); try exact H;
      match goal with |- context [if ?b then _ else _] => destruct b end; exact H.
Qed.

End MemoryFacts.

(** X10. The conversation memory of the orchestrator, from its start and
    through any natural_request calls and tool-list updates served one
    after the other: recentResults never holds more than five entries, it is
    empty only while the whole memory is as at the start, and otherwise its
    newest entry repeats lastQuery, lastIntent and lastResult. *)
Theorem conversation_memory_is_consistent
    (evs : list MemoryFacts.Served) (availableTools : JsMap.t Orchestrator.ToolEntry) :
  MemoryFacts.consistent
    (Orchestrator.conversationMemory
       (MemoryFacts.serve evs (Orchestrator.mkState availableTools Orchestrator.initialMemory))).
Proof.
  unfold MemoryFacts.serve.
  assert (H0 : MemoryFacts.consistent
                 (Orchestrator.conversationMemory
                    (Orchestrator.mkState availableTools Orchestrator.initialMemory))).
  { repeat split; [simpl; lia | intros H; now destruct H]. }
  revert H0. generalize (Orchestrator.mkState availableTools Orchestrator.initialMemory).
  induction evs as [|ev evs IH]; intros st H; simpl; [exact H|].
  apply IH. now apply MemoryFacts.serve_one_consistent.
Qed.

(** ** The tool list, dependent steps and reused tokens (orchestrator) *)

Module ToolListFacts.
Import Orchestrator.

Definition entry (toolName : string) : ToolEntry :=
  mkToolEntry "unknown" (JObj [("name", JStr toolName)]).

Lemma tools_onto (names : list string) :
  forall (m : JsMap.t ToolEntry) (n : string),
    JsMap.get
      (foldl (fun m toolName => JsMap.set m toolName (entry toolName)) m names) n
    = if existsb (String.eqb n) names then Some (entry n) else JsMap.get m n.
Proof.
  induction names as [|x names IH]; intros m n; simpl; [reflexivity|].
  rewrite IH. destruct (existsb (String.eqb n) names); [now rewrite orb_true_r|].
  rewrite orb_false_r. destruct (String.eqb n x) eqn:E.
  - apply String.eqb_eq in E. subst x. apply JsMap.get_set_eq.
  - apply String.eqb_neq in E. apply JsMap.get_set_ne. congruence.
Qed.

(* availableTools after clear() and the forEach over the names *)
Lemma tools_from_get (names : list string) (n : string) :
  JsMap.get (tools_from names) n
  = if existsb (String.eqb n) names then Some (entry n) else None.
Proof. exact (tools_onto names [] n). Qed.

Lemma existsb_eqb_In (n : string) (names : list string) :
  existsb (String.eqb n) names = true <-> In n names.
Proof.
  rewrite existsb_exists. split.
  - intros (x & Hin & E). apply String.eqb_eq in E. now subst.
  - intros H. exists n. split; [exact H | apply String.eqb_refl].
Qed.

Lemma map_to_string (names : list string) : List.map Js.to_string (List.map JStr names) = names.
Proof. induction names as [|x l IH]; simpl; [reflexivity | now rewrite IH]. Qed.

(* the dependency rules rewrite arguments, never the tool *)
Lemma handleDependencies_tool (step : Step) (previousResults : list JsValue) :
  tool (handleDependencies step previousResults) = tool step.
Proof.
  unfold handleDependencies. destruct (dependsOn step); [|reflexivity].
  cbv zeta.
  repeat match goal with
  | |- context [if ?b then _ else _] => destruct b
  end; reflexivity.
Qed.

End ToolListFacts.

(** X11. A registered or capabilities_updated message whose
    serverCapabilities.tools is an array of names replaces the tool list of
    the orchestrator: afterwards a tool is available exactly when the
    message names it, the conversation memory is as before, and a step for
    a tool the message does not name fails at once with "Tool ... not
    available" and sends nothing. *)
Theorem tool_list_is_replaced
    (msg : JsValue) (names : list string) (st : Orchestrator.State) :
  Js.oprop (Js.prop msg "serverCapabilities") "tools" = JArr (List.map JStr names) ->
  let st' := Orchestrator.update_tools msg st in
  Orchestrator.conversationMemory st' = Orchestrator.conversationMemory st /\
  (forall n, JsMap.has (Orchestrator.availableTools st') n = true <-> In n names) /\
  (forall w plan i step previousResults,
     Orchestrator.steps plan !! i = Some step ->
     Orchestrator.tool step <> "error" -> ~ In (Orchestrator.tool step) names ->
     Orchestrator.executeStep w (Orchestrator.availableTools st') plan i previousResults
     = Orchestrator.Ok
         (JObj [("success", JBool false);
                ("error", JStr ("Tool " +:+ Orchestrator.tool step +:+ " not available"))],
          [])).
Proof.
  intros H st'. unfold st', Orchestrator.update_tools. rewrite H.
  cbn [Orchestrator.conversationMemory Orchestrator.availableTools].
  rewrite ToolListFacts.map_to_string. split; [reflexivity|]. split.
  - intros n. unfold JsMap.has. rewrite ToolListFacts.tools_from_get.
    rewrite <- ToolListFacts.existsb_eqb_In.
    destruct (existsb (String.eqb n) names); split; congruence.
  - intros w plan i step prev Hs Herr Hnot.
    unfold Orchestrator.executeStep, Orchestrator.prepare. rewrite Hs.
    apply String.eqb_neq in Herr. rewrite Herr.
    rewrite ToolListFacts.handleDependencies_tool, ToolListFacts.tools_from_get.
    destruct (existsb (String.eqb (Orchestrator.tool step)) names) eqn:E; [|reflexivity].
    apply ToolListFacts.existsb_eqb_In in E. contradiction.
Qed.

Lemma tool_list_is_replaced_witness :
  let msg := JObj [("type", JStr "capabilities_updated");
                   ("serverCapabilities",
                    JObj [("tools", JArr [JStr "calculate"]); ("workflows", JBool true)])] in
  let st := Orchestrator.mkState (Orchestrator.tools_from ["read_file"; "calculate"])
              Orchestrator.initialMemory in
  JsMap.has (Orchestrator.availableTools (Orchestrator.update_tools msg st)) "read_file" = true
  <-> In "read_file" ["calculate"].
Proof.
  intros msg st.
  exact (proj1 (proj2 (tool_list_is_replaced msg ["calculate"] st eq_refl)) "read_file").
Defined.

Module DependencyFacts.
Import Orchestrator.

(* dependentResult?.data is falsy *)
Definition no_data (r : JsValue) : Prop := Js.truthy (Js.oprop r "data") = false.

(* what executeStep resolves to has the fields success, result or error, and
   tool: never data *)
Lemma executeStep_no_data (w : World) (availableTools : JsMap.t ToolEntry) (plan : Plan)
    (i : nat) (previousResults : list JsValue) (x : JsValue) (c : list JsValue) :
  executeStep w availableTools plan i previousResults = Ok (x, c) -> no_data x.
Proof.
  unfold executeStep, prepare. destruct (steps plan !! i) as [step|]; [|discriminate].
  destruct (String.eqb (tool step) "error"); [now intros [= <- <-]|].
  destruct (JsMap.get availableTools _); [|now intros [= <- <-]].
  intros [= <- <-]. now destruct (reply w _).
Qed.

Lemma at_index_no_data (l : list JsValue) (d : nat) :
  Forall no_data l -> no_data (at_index l d).
Proof.
  intros H. unfold at_index. destruct (l !! d) as [v|] eqn:E; [|reflexivity].
  exact (Forall_lookup_1 _ _ _ _ H E).
Qed.

(* the write_file rule does not fire on results without data, and the
   other rules are for other tools *)
Lemma handleDependencies_write_file (step : Step) (previousResults : list JsValue) :
  tool step = "write_file" -> Forall no_data previousResults ->
  handleDependencies step previousResults = step.
Proof.
  intros Ht Hall. unfold handleDependencies. destruct (dependsOn step) as [d|]; [|reflexivity].
  cbv zeta. pose proof (at_index_no_data _ d Hall) as Hd. unfold no_data in Hd.
  rewrite Ht, Hd. cbn [String.eqb Ascii.eqb Bool.eqb andb].
  repeat (rewrite Ht; cbn [String.eqb Ascii.eqb Bool.eqb]). reflexivity.
Qed.

(* the results and the messages of a run, step by step *)
Lemma run_steps_trace (w : World) (availableTools : JsMap.t ToolEntry) (plan : Plan)
    (left : nat) :
  forall (i : nat) (results calls rs cs : list JsValue),
    run_steps w availableTools plan left i results calls = Ok (rs, cs) ->
    (forall m, In m calls -> In m cs) /\
    exists more,
      rs = (results ++ more)%list /\
      forall j x, more !! j = Some x ->
        exists c, executeStep w availableTools plan (i + j) (results ++ take j more)%list
                  = Ok (x, c) /\ forall m, In m c -> In m cs.
Proof.
  induction left as [|left IH]; intros i results calls rs cs H; simpl in H.
  - injection H as <- <-. split; [tauto|]. exists []. rewrite app_nil_r. split; [reflexivity|].
    intros j x Hj. destruct j; discriminate Hj.
  - destruct (executeStep w availableTools plan i results) as [[x c]|] eqn:E; [|discriminate H].
    simpl in H. destruct (negb (Js.truthy (Js.prop x "success"))).
    + injection H as <- <-. split; [intros m Hm; apply in_or_app; now left|].
      exists [x]. split; [reflexivity|]. intros j y Hj.
      destruct j as [|[|j]]; try discriminate Hj. injection Hj as <-.
      exists c. rewrite Nat.add_0_r. simpl. rewrite app_nil_r. split; [exact E|].
      intros m Hm. apply in_or_app. now right.
    + apply IH in H as (Hsub & more & -> & Hmore).
      split; [intros m Hm; apply Hsub, in_or_app; now left|].
      exists (x :: more). rewrite <- app_assoc. split; [reflexivity|].
      intros j y Hj. destruct j as [|j]; simpl in Hj.
      * injection Hj as <-. exists c. rewrite Nat.add_0_r. simpl. rewrite app_nil_r.
        split; [exact E|]. intros m Hm. apply Hsub, in_or_app. now right.
      * destruct (Hmore j y Hj) as (c' & Ec' & Hc'). exists c'.
        replace (i + S j)%nat with (S i + j)%nat by lia.
        simpl. rewrite <- app_assoc in Ec'. now split.
Qed.

End DependencyFacts.

(** X12. What a step resolves to has the fields success, result or error,
    and tool, never data; so the rule that would put the data of an
    earlier result into the content of a write_file step never fires.
    Whenever a run reaches a write_file step of its plan and write_file is
    available, the call it sends carries the arguments the plan was made
    with (for a fetch_and_save plan, the content "PLACEHOLDER"), whatever
    the earlier steps returned. *)
Theorem write_file_step_is_sent_unchanged
    (w : Orchestrator.World) (availableTools : JsMap.t Orchestrator.ToolEntry)
    (plan : Orchestrator.Plan) (results calls : list JsValue) (i : nat)
    (step : Orchestrator.Step) :
  Orchestrator.run_plan w availableTools plan = Orchestrator.Ok (results, calls) ->
  Orchestrator.steps plan !! i = Some step ->
  Orchestrator.tool step = "write_file" ->
  JsMap.has availableTools "write_file" = true ->
  (i < length results)%nat ->
  In (Orchestrator.toolCall (Orchestrator.requestId (Orchestrator.clock w i) i) step) calls.
Proof.
  intros Hr Hs Ht Hav Hi.
  apply DependencyFacts.run_steps_trace in Hr as (_ & more & -> & Htrace).
  simpl in Htrace, Hi.
  assert (Hall : Forall DependencyFacts.no_data more).
  { apply Forall_lookup. intros j x Hj.
    destruct (Htrace j x Hj) as (c & E & _).
    exact (DependencyFacts.executeStep_no_data _ _ _ _ _ _ _ E). }
  destruct (lookup_lt_is_Some_2 more i Hi) as [x Hx].
  destruct (Htrace i x Hx) as (c & E & Hc). apply Hc.
  unfold Orchestrator.executeStep, Orchestrator.prepare in E. rewrite Hs, Ht in E.
  cbn [String.eqb Ascii.eqb Bool.eqb] in E.
  rewrite DependencyFacts.handleDependencies_write_file in E;
    [|exact Ht | now apply Forall_take].
  rewrite Ht in E. unfold JsMap.has in Hav.
  destruct (JsMap.get availableTools "write_file"); [|discriminate Hav].
  injection E as _ <-. now left.
Qed.

Lemma write_file_step_is_sent_unchanged_witness :
  let step := Orchestrator.mkStep "write_file"
                (JObj [("path", JStr "out.json"); ("content", JStr "PLACEHOLDER")])
                "Save to: out.json" (Some 0%nat) in
  let plan := Orchestrator.mkPlan
                [Orchestrator.mkStep "fetch_url" (JObj [("url", JStr "https://example.com")])
                   "Fetch: https://example.com" None;
                 step]
                Orchestrator.unknownIntent "fetch https://example.com and save to out.json"
                None in
  let w := Orchestrator.mkWorld (fun _ => 5%Z) 6%Z
             (fun _ => Orchestrator.Responded
                         (JObj [("success", JBool true);
                                ("data", JObj [("id", Js.int 1)])])) in
  let tools := Orchestrator.tools_from ["fetch_url"; "write_file"] in
  In (Orchestrator.toolCall (Orchestrator.requestId 5 1) step)
     (snd (match Orchestrator.run_plan w tools plan with
           | Orchestrator.Ok r => r
           | Orchestrator.Throw _ => ([], [])
           end)).
Proof.
  intros step plan w tools.
  refine (write_file_step_is_sent_unchanged w tools plan
            (fst (match Orchestrator.run_plan w tools plan with
                  | Orchestrator.Ok r => r
                  | Orchestrator.Throw _ => ([], [])
                  end))
            (snd (match Orchestrator.run_plan w tools plan with
                  | Orchestrator.Ok r => r
                  | Orchestrator.Throw _ => ([], [])
                  end))
            1 step _ eq_refl eq_refl eq_refl _).
  - vm_compute. reflexivity.
  - vm_compute. lia.
Defined.

Module ReuseFacts.
Import Orchestrator CorrelationFacts.

Lemma comp_settle_eq (h : nat) (v : JsValue) (c : Correlator) :
  completions h (settle h v c) = S (completions h c).
Proof.
  unfold completions, settle. simpl. rewrite List.filter_app, length_app. simpl.
  rewrite Nat.eqb_refl. simpl. lia.
Qed.

Lemma comp_settle_ne (h h' : nat) (v : JsValue) (c : Correlator) :
  h' <> h -> completions h (settle h' v c) = completions h c.
Proof.
  intros Hne. unfold completions, settle. simpl. rewrite List.filter_app, length_app. simpl.
  apply Nat.eqb_neq in Hne. rewrite Hne. simpl. lia.
Qed.

Section Reuse.
Variables (id : string) (h1 h2 : nat) (info2 : RequestInfo) (t1 t2 : Timer).
Hypothesis Hne : h1 <> h2.
Hypothesis Hinfo : resolve info2 = h2.
Hypothesis Ht1 : tm_requestId t1 = id /\ tm_resolve t1 = h1.
Hypothesis Ht2 : tm_requestId t2 = id /\ tm_resolve t2 = h2.

(* the timers that can fire: the two of the calls that share the token, or
   timers of earlier calls, which carry other tokens *)
Definition timers (evs : list Event) : Prop :=
  forall t, In (Timeout t) evs ->
    t = t1 \/ t = t2 \/ (tm_requestId t <> id /\ tm_resolve t <> h1 /\ tm_resolve t <> h2).

(* no other entry completes one of the two promises *)
Definition apart (c : Correlator) : Prop := others id h1 c /\ others id h2 c.

(* the second call has overwritten the entry of the first *)
Definition Shared (c : Correlator) : Prop :=
  pendingRequests c !! id = Some info2 /\
  completions h1 c = O /\ completions h2 c = O /\ apart c.

(* one of the two waiters is completed, and the entry is gone *)
Definition OneDone (c : Correlator) : Prop :=
  pendingRequests c !! id = None /\
  (completions h1 c + completions h2 c = 1)%nat /\ apart c.

Lemma apart_forget (k : string) (v : JsValue) (h' : nat) (c : Correlator) :
  apart c -> apart (settle h' v (forget k c)).
Proof. intros [H1 H2]. split; now apply others_forget. Qed.

(* an event for another token leaves the two waiters as they are *)
Lemma step_other (ev : Event) (c : Correlator) :
  apart c -> targets id ev = false ->
  (forall t, ev = Timeout t -> tm_resolve t <> h1 /\ tm_resolve t <> h2) ->
  pendingRequests (handle ev c) !! id = pendingRequests c !! id /\
  completions h1 (handle ev c) = completions h1 c /\
  completions h2 (handle ev c) = completions h2 c /\
  apart (handle ev c).
Proof.
  intros Ha Ht Htm.
  assert (Hmsg : forall (msg : JsValue) (v : RequestInfo -> JsValue),
            Js.eq_str (Js.prop msg "id") id = false ->
            let c' := match pending c (Js.prop msg "id") with
                      | Some (k, i) => settle (resolve i) (v i) (forget k c)
                      | None => c
                      end in
            pendingRequests c' !! id = pendingRequests c !! id /\
            completions h1 c' = completions h1 c /\
            completions h2 c' = completions h2 c /\ apart c').
  { intros msg v Hm. unfold pending.
    assert (Hsame : pendingRequests c !! id = pendingRequests c !! id /\
                    completions h1 c = completions h1 c /\
                    completions h2 c = completions h2 c /\ apart c)
      by (split; [reflexivity | split; [reflexivity | split; [reflexivity | exact Ha]]]).
    destruct (Js.prop msg "id") as [| | | | k | |] eqn:Ek; try exact Hsame.
    destruct (pendingRequests c !! k) as [i|] eqn:Hk; [|exact Hsame].
    assert (Hk' : k <> id) by (simpl in Hm; now apply String.eqb_neq).
    destruct Ha as [Ho1 Ho2]. split; [|split; [|split]].
    - simpl. now apply lookup_delete_ne.
    - rewrite comp_settle_ne, completions_forget; [reflexivity|]. now apply (Ho1 k i).
    - rewrite comp_settle_ne, completions_forget; [reflexivity|]. now apply (Ho2 k i).
    - now apply apart_forget. }
  destruct ev as [msg | msg | t]; simpl in Ht |- *.
  - exact (Hmsg msg (fun i => response_result (ri_step i) (Js.prop msg "result")) Ht).
  - exact (Hmsg msg (fun i => error_result (ri_step i) (Js.prop msg "error")) Ht).
  - unfold on_timeout. apply String.eqb_neq in Ht.
    destruct (pendingRequests c !! tm_requestId t) eqn:Hk;
      [|split; [reflexivity | split; [reflexivity | split; [reflexivity | exact Ha]]]].
    destruct (Htm t eq_refl) as [Hn1 Hn2]. split; [|split; [|split]].
    + simpl. now apply lookup_delete_ne.
    + now rewrite comp_settle_ne, completions_forget.
    + now rewrite comp_settle_ne, completions_forget.
    + now apply apart_forget.
Qed.

Lemma both_timers_other (ev : Event) (evs : list Event) :
  timers (ev :: evs) -> targets id ev = false ->
  forall t, ev = Timeout t -> tm_resolve t <> h1 /\ tm_resolve t <> h2.
Proof.
  intros H Ht t ->. simpl in Ht. apply String.eqb_neq in Ht.
  destruct (H t (or_introl eq_refl)) as [-> | [-> | (_ & ? & ?)]]; [| |now split].
  - now destruct Ht1.
  - now destruct Ht2.
Qed.

(* the first attempt for the token completes one of the two waiters *)
Lemma step_shared (ev : Event) (evs : list Event) (c : Correlator) :
  Shared c -> timers (ev :: evs) -> targets id ev = true -> OneDone (handle ev c).
Proof.
  intros (Hp & C1 & C2 & Ha) Htm Ht.
  assert (Hmsg : forall v h, (h = h1 \/ h = h2) -> OneDone (settle h v (forget id c))).
  { intros v h Hh. split; [|split].
    - simpl. apply lookup_delete_eq.
    - destruct Hh as [-> | ->].
      + rewrite comp_settle_eq, comp_settle_ne by congruence.
        rewrite !completions_forget. lia.
      + rewrite comp_settle_ne, comp_settle_eq by congruence.
        rewrite !completions_forget. lia.
    - now apply apart_forget. }
  destruct ev as [msg | msg | t]; simpl in Ht |- *.
  - unfold on_response, pending. rewrite (targets_id id msg Ht), Hp, Hinfo.
    apply Hmsg. now right.
  - unfold on_error, pending. rewrite (targets_id id msg Ht), Hp, Hinfo.
    apply Hmsg. now right.
  - apply String.eqb_eq in Ht. unfold on_timeout. rewrite Ht, Hp.
    destruct (Htm t (or_introl eq_refl)) as [-> | [-> | (Hid & _)]]; [| |contradiction].
    + destruct Ht1 as [_ ->]. apply Hmsg. now left.
    + destruct Ht2 as [_ ->]. apply Hmsg. now right.
Qed.

Lemma both_timers_tail (ev : Event) (evs : list Event) : timers (ev :: evs) -> timers evs.
Proof. intros H t Ht. apply H. now right. Qed.

Lemma one_done_stays (evs : list Event) (c : Correlator) :
  OneDone c -> timers evs -> OneDone (handle_all evs c).
Proof.
  revert c. induction evs as [|ev evs IH]; intros c Hc Htm; [exact Hc|].
  simpl. apply IH; [|exact (both_timers_tail _ _ Htm)].
  destruct Hc as (Hp & Hn & Ha). destruct (targets id ev) eqn:Ht.
  - rewrite (handle_absent id ev c Hp Ht). split; [exact Hp | split; [exact Hn | exact Ha]].
  - destruct (step_other ev c Ha Ht (both_timers_other _ _ Htm Ht)) as (E & C1 & C2 & Ha').
    split; [now rewrite E | split; [now rewrite C1, C2 | exact Ha']].
Qed.

Lemma shared_run (evs : list Event) (c : Correlator) :
  Shared c -> timers evs ->
  let c' := handle_all evs c in
  (completions h1 c' + completions h2 c'
   = if existsb (targets id) evs then 1 else 0)%nat /\
  (existsb (targets id) evs = true -> pendingRequests c' !! id = None).
Proof.
  revert c. induction evs as [|ev evs IH]; intros c Hc Htm; simpl.
  - destruct Hc as (_ & C1 & C2 & _). split; [now rewrite C1, C2 | discriminate].
  - destruct (targets id ev) eqn:Ht; simpl.
    + pose proof (one_done_stays evs _ (step_shared ev evs c Hc Htm Ht) (both_timers_tail _ _ Htm))
        as (Hp & Hn & _).
      split; [exact Hn | now intros _].
    + destruct Hc as (Hp & C1 & C2 & Ha).
      destruct (step_other ev c Ha Ht (both_timers_other _ _ Htm Ht)) as (E & C1' & C2' & Ha').
      apply IH; [|exact (both_timers_tail _ _ Htm)].
      split; [now rewrite E | split; [now rewrite C1' | split; [now rewrite C2' | exact Ha']]].
Qed.

End Reuse.

(* promises are numbered as they are created: none beyond the counter is
   pending or completed *)
Definition fresh_from (c : Correlator) : Prop :=
  (forall k info, pendingRequests c !! k = Some info -> (resolve info < promises c)%nat) /\
  (forall h v, In (h, v) (settled c) -> (h < promises c)%nat).

Lemma completions_fresh (h : nat) (c : Correlator) :
  fresh_from c -> (promises c <= h)%nat -> completions h c = O.
Proof.
  intros [_ Hs] Hh. unfold completions.
  destruct (List.filter _ (settled c)) as [|[h' v] l] eqn:E; [reflexivity|]. exfalso.
  assert (Hin : In (h', v) (List.filter (fun p => (fst p =? h)%nat) (settled c)))
    by (rewrite E; now left).
  apply List.filter_In in Hin as [Hin Hh']. simpl in Hh'. apply Nat.eqb_eq in Hh'. subst h'.
  apply Hs in Hin. lia.
Qed.

(* two dispatches with the same clock value and step index share the token *)
Lemma dispatch_twice (now : Z) (stepIndex : nat) (step1 step2 : Step) (c : Correlator) :
  fresh_from c ->
  let c1 := fst (dispatch now stepIndex step1 c) in
  let c2 := fst (dispatch now stepIndex step2 c1) in
  Shared (requestId now stepIndex) (promises c) (S (promises c))
    (mkRequestInfo (S (promises c)) step2 stepIndex now) c2.
Proof.
  intros Hf c1 c2.
  assert (Hc : forall h, completions h c2 = completions h c) by reflexivity.
  assert (Hold : forall k i, pendingRequests c2 !! k = Some i -> k <> requestId now stepIndex ->
                             (resolve i < promises c)%nat).
  { intros k i Hk Hne. simpl in Hk.
    rewrite !lookup_insert_ne in Hk by congruence. exact (proj1 Hf k i Hk). }
  split; [|split; [|split; [|split]]].
  - simpl. apply lookup_insert_eq.
  - rewrite Hc. apply completions_fresh; [exact Hf | lia].
  - rewrite Hc. apply completions_fresh; [exact Hf | lia].
  - intros k i Hk Hne. apply Hold in Hk; [lia | exact Hne].
  - intros k i Hk Hne. apply Hold in Hk; [lia | exact Hne].
Qed.

End ReuseFacts.

(** X13. A token is made of the clock and the step index, so two calls
    dispatched in the same millisecond for the same step index share it, and
    the second overwrites the pending entry of the first. Whatever
    responses, errors and timers follow (the timers being those of the two
    calls, or of earlier calls with other tokens), at most one of the two
    waiters is ever completed: exactly one once an attempt for the token
    arrives, after which the token has no pending entry, so the other
    waiter is never completed. *)
Theorem shared_token_completes_one_waiter
    (c : Orchestrator.Correlator) (now : Z) (stepIndex : nat)
    (step1 step2 : Orchestrator.Step) (evs : list Orchestrator.Event) :
  let id := Orchestrator.requestId now stepIndex in
  let d1 := Orchestrator.dispatch now stepIndex step1 c in
  let d2 := Orchestrator.dispatch now stepIndex step2 (fst d1) in
  let h1 := Orchestrator.promises c in
  let h2 := S h1 in
  let c' := Orchestrator.handle_all evs (fst d2) in
  ReuseFacts.fresh_from c ->
  ReuseFacts.timers id h1 h2 (snd d1) (snd d2) evs ->
  Orchestrator.pendingRequests (fst d2) !! id
    = Some (Orchestrator.mkRequestInfo h2 step2 stepIndex now) /\
  (Orchestrator.completions h1 c' + Orchestrator.completions h2 c'
   = if existsb (Orchestrator.targets id) evs then 1 else 0)%nat /\
  (existsb (Orchestrator.targets id) evs = true ->
   Orchestrator.pendingRequests c' !! id = None).
Proof.
  intros id d1 d2 h1 h2 c' Hf Htm.
  pose proof (ReuseFacts.dispatch_twice now stepIndex step1 step2 c Hf) as Hs.
  cbv zeta in Hs. fold id d1 h1 h2 d2 in Hs. split; [exact (proj1 Hs)|].
  apply (ReuseFacts.shared_run id h1 h2 (Orchestrator.mkRequestInfo h2 step2 stepIndex now)
           (snd d1) (snd d2)); try assumption.
  - unfold h2. lia.
  - reflexivity.
  - now split.
  - now split.
Qed.

Lemma shared_token_completes_one_waiter_witness :
  let step := Orchestrator.mkStep "calculate" (JObj [("expression", JStr "1 + 1")])
                "Calculate: 1 + 1" None in
  let c := Orchestrator.mkCorrelator ∅ [] [] 0 in
  let d1 := Orchestrator.dispatch 1000 0 step c in
  let d2 := Orchestrator.dispatch 1000 0 step (fst d1) in
  let reply := JObj [("type", JStr "response"); ("id", JStr "orchestrator-1000-0");
                     ("result", Js.int 2)] in
  let c' := Orchestrator.handle_all
              [Orchestrator.Response reply; Orchestrator.Timeout (snd d1);
               Orchestrator.Timeout (snd d2); Orchestrator.Response reply]
              (fst d2) in
  (Orchestrator.completions 0 c' + Orchestrator.completions 1 c' = 1)%nat.
Proof.
  intros step c d1 d2 reply c'.
  assert (Hf : ReuseFacts.fresh_from c).
  { split; [intros k info H; simpl in H; rewrite lookup_empty in H; discriminate H|].
    intros h v []. }
  assert (Htm : ReuseFacts.timers (Orchestrator.requestId 1000 0) 0 1 (snd d1) (snd d2)
                  [Orchestrator.Response reply; Orchestrator.Timeout (snd d1);
                   Orchestrator.Timeout (snd d2); Orchestrator.Response reply]).
  { intros t [H | [H | [H | [H | []]]]]; try discriminate H.
    - injection H as <-. now left.
    - injection H as <-. right. now left. }
  exact (proj1 (proj2 (shared_token_completes_one_waiter c 1000 0 step step _ Hf Htm))).
Defined.

(** ** Registration, routing and responses (hub) *)

Module HubFacts.
Import Hub.

(* register { from, capabilities: { tools, resources } } *)
Definition register_message (from : string) (tools : list JsValue) (resources : JsValue)
    : JsValue :=
  JObj [("type", JStr "register"); ("from", JStr from);
        ("capabilities", JObj [("tools", JArr tools); ("resources", resources)])].

(* the name a tool is registered under *)
Definition name_key (tool : JsValue) : string := key (Js.prop tool "name").

Definition same_but_tools (st st' : State) : Prop :=
  agents st' = agents st /\ workflows st' = workflows st /\ clients st' = clients st /\
  outbox st' = outbox st /\ rejections st' = rejections st.

Lemma register_tools_spec (agentId : JsValue) (tools : list JsValue) :
  Forall (fun t => Js.nullish t = false) tools ->
  forall st, exists st',
    register_tools agentId tools st = Returned st' /\ same_but_tools st st' /\
    forall k,
      (In k (List.map name_key tools) ->
       exists schema, In schema tools /\ name_key schema = k /\
                      JsMap.get (toolRegistry st') k = Some (mkTool agentId schema)) /\
      (~ In k (List.map name_key tools) ->
       JsMap.get (toolRegistry st') k = JsMap.get (toolRegistry st) k).
Proof.
  induction 1 as [|tool tools Ht _ IH]; intros st.
  - exists st. split; [reflexivity|]. split; [now repeat split|].
    intros k. split; [intros [] | reflexivity].
  - simpl. rewrite Ht.
    destruct (IH (set_toolRegistry
                    (fun r => JsMap.set r (key (Js.prop tool "name")) (mkTool agentId tool)) st))
      as (st' & -> & (A1 & A2 & A3 & A4 & A5) & Hk).
    exists st'. split; [reflexivity|]. split; [now repeat split|].
    intros k. destruct (Hk k) as [Hin Hout]. split.
    + intros [E | Hin']; [|destruct (Hin Hin') as (schema & S1 & S2 & S3);
                            exists schema; split; [now right | now split]].
      destruct (in_dec String.string_dec k (List.map name_key tools)) as [Hi | Hn].
      * destruct (Hin Hi) as (schema & S1 & S2 & S3).
        exists schema. split; [now right | now split].
      * exists tool. split; [now left|]. split; [exact E|].
        rewrite (Hout Hn). simpl. unfold name_key in E. rewrite E. apply JsMap.get_set_eq.
    + intros Hn. rewrite Hout by tauto. simpl. apply JsMap.get_set_ne.
      intros E. apply Hn. now left.
Qed.

Lemma broadcast_agents_frame (l : list (string * AgentInfo)) (except : string)
    (m : JsValue) (st : State) :
  agents (broadcast_agents l except m st) = agents st /\
  toolRegistry (broadcast_agents l except m st) = toolRegistry st /\
  clients (broadcast_agents l except m st) = clients st /\
  workflows (broadcast_agents l except m st) = workflows st.
Proof.
  revert st. induction l as [|[id a] l IH]; intros st; simpl; [now repeat split|].
  destruct (IH (if negb (String.eqb id except) && (readyState st (a_ws a) =? 1)%nat
                then send (a_ws a) m st else st)) as (-> & -> & -> & ->).
  now destruct (_ && _).
Qed.

Lemma socket_update (cs : list (nat * Socket)) (ws : nat) (f : Socket -> Socket) :
  socket (List.map (fun p => if (fst p =? ws)%nat then (fst p, f (snd p)) else p) cs) ws
  = option_map f (socket cs ws).
Proof.
  induction cs as [|[w s] cs IH]; simpl; [reflexivity|].
  destruct (w =? ws)%nat eqn:E; simpl; rewrite E; [reflexivity | exact IH].
Qed.

(* what a register message with an array of tools, none of them null, leaves *)
Lemma register_spec (readFile : string -> string + string) (ws : nat) (now : Z)
    (from : string) (tools : list JsValue) (resources : JsValue) (st : State) :
  Forall (fun t => Js.nullish t = false) tools ->
  let st1 := on_message readFile ws now (Some (register_message from tools resources)) st in
  JsMap.get (agents st1) from
    = Some (mkAgent ws (JArr tools) (Js.or resources (JArr [])) now) /\
  (forall k, k <> from -> JsMap.get (agents st1) k = JsMap.get (agents st) k) /\
  socket (clients st1) ws
    = option_map (fun s => mkSocket (JStr from) (s_readyState s)) (socket (clients st) ws) /\
  workflows st1 = workflows st /\
  forall k,
    (In k (List.map name_key tools) ->
     exists schema, In schema tools /\ name_key schema = k /\
                    JsMap.get (toolRegistry st1) k = Some (mkTool (JStr from) schema)) /\
    (~ In k (List.map name_key tools) ->
     JsMap.get (toolRegistry st1) k = JsMap.get (toolRegistry st) k).
Proof.
  intros Hall st1. unfold st1, on_message, register_message.
  cbn [Js.nullish]. change (routed _) with false. cbv iota.
  unfold dispatch_handler. cbv zeta.
  change (key (Js.prop _ "type")) with "register".
  cbn [String.eqb Ascii.eqb Bool.eqb].
  unfold register. cbn [Js.prop Js.assoc String.eqb Ascii.eqb Bool.eqb Js.nullish Js.or Js.truthy
                        a_tools].
  match goal with
  | |- context [register_tools ?a tools ?s] =>
      destruct (register_tools_spec a tools Hall s) as (st' & -> & (A1 & A2 & A3 & A4 & A5) & Hk)
  end.
  cbn [finish].
  match goal with
  | |- context [broadcast_agents ?l ?e ?m ?s] =>
      destruct (broadcast_agents_frame l e m s) as (-> & -> & -> & ->)
  end.
  cbn [agents toolRegistry clients workflows send].
  rewrite A1, A2, A3. cbn [agents workflows clients set_agents update_socket set_clients].
  split; [apply JsMap.get_set_eq|].
  split; [intros k Hne; apply JsMap.get_set_ne; intros E; apply Hne; symmetry; exact E|].
  split; [apply (socket_update (clients st) ws
                  (fun s => mkSocket (JStr from) (s_readyState s)))|].
  split; [reflexivity|].
  intros k. destruct (Hk k) as [Hin Hout]. split; [exact Hin|].
  intros Hn. now rewrite (Hout Hn).
Qed.

Lemma readyState_open (st : State) (ws : nat) :
  readyState st ws = 1%nat ->
  exists s, socket (clients st) ws = Some s /\ s_readyState s = 1%nat.
Proof.
  unfold readyState. destruct (socket (clients st) ws) as [s|]; [|discriminate].
  intros H. now exists s.
Qed.

(* a tools/call message is handled by the tools/call handler *)
Lemma on_message_tools_call (readFile : string -> string + string) (ws : nat) (now : Z)
    (call : JsValue) (st : State) :
  Js.prop call "type" = JStr "tools/call" ->
  on_message readFile ws now (Some call) st = finish ws (tools_call ws call st).
Proof.
  intros Ht. unfold on_message.
  assert (Hn : Js.nullish call = false) by (destruct call; try discriminate Ht; reflexivity).
  rewrite Hn. unfold routed. rewrite Ht. cbn [Js.eq_str String.eqb Ascii.eqb Bool.eqb].
  rewrite andb_false_r. unfold dispatch_handler. cbv zeta. rewrite Ht. reflexivity.
Qed.

(* broadcastToClients appends one copy for each open client but the sender *)
Definition receivers (excludeWs : nat) (cs : list (nat * Socket)) : list nat :=
  List.map fst
    (List.filter (fun p => negb (fst p =? excludeWs)%nat && (s_readyState (snd p) =? 1)%nat) cs).

Lemma broadcastToClients_go_spec (cs : list (nat * Socket)) (m : JsValue) (excludeWs : nat) :
  forall st,
    broadcastToClients_go cs m excludeWs st
    = mkState (agents st) (toolRegistry st) (workflows st) (clients st)
        (outbox st ++ List.map (fun w => (w, m)) (receivers excludeWs cs))%list
        (rejections st).
Proof.
  unfold receivers. induction cs as [|[w s] cs IH]; intros st; simpl.
  - rewrite app_nil_r. now destruct st.
  - rewrite IH. destruct (negb (w =? excludeWs)%nat && (s_readyState s =? 1)%nat); simpl.
    + now rewrite <- app_assoc.
    + reflexivity.
Qed.

(* a response that names no workflow goes to the response handler *)
Lemma on_message_response (readFile : string -> string + string) (ws : nat) (now : Z)
    (msg : JsValue) (st : State) :
  Js.prop msg "type" = JStr "response" ->
  Js.truthy (Js.prop msg "_workflowId") = false ->
  on_message readFile ws now (Some msg) st = finish ws (response ws msg st).
Proof.
  intros Ht Hw. unfold on_message.
  assert (Hn : Js.nullish msg = false) by (destruct msg; try discriminate Ht; reflexivity).
  rewrite Hn. unfold routed. rewrite Hw. cbn [andb].
  unfold dispatch_handler. cbv zeta. rewrite Ht. reflexivity.
Qed.

Lemma socket_In (cs : list (nat * Socket)) (w : nat) (s : Socket) :
  socket cs w = Some s -> In (w, s) cs.
Proof.
  induction cs as [|[w0 s0] cs IH]; simpl; [discriminate|].
  destruct (w0 =? w)%nat eqn:E.
  - intros [= ->]. apply Nat.eqb_eq in E. subst. now left.
  - intros H. right. now apply IH.
Qed.

Lemma socket_closed (cs : list (nat * Socket)) (ws : nat) :
  socket (filter (fun p => fst p <> ws) cs) ws = None.
Proof.
  induction cs as [|[w0 s0] cs IH]; [reflexivity|].
  rewrite filter_cons. destruct (decide (fst (w0, s0) <> ws)) as [Hne|He]; [|exact IH].
  simpl. simpl in Hne. destruct (w0 =? ws)%nat eqn:E; [|exact IH].
  apply Nat.eqb_eq in E. contradiction.
Qed.

(* the close handler's loop over non-null tools ends normally and touches
   the registry only *)
Lemma unregister_tools_spec (tools : list JsValue) :
  Forall (fun t => Js.nullish t = false) tools ->
  forall st, exists st',
    unregister_tools tools st = Returned st' /\ same_but_tools st st'.
Proof.
  induction 1 as [|t tools Ht Hall IH]; intros st; simpl.
  - exists st. split; [reflexivity|]. now repeat split.
  - rewrite Ht.
    destruct (IH (set_toolRegistry (fun r => JsMap.delete r (key (Js.prop t "name"))) st))
      as (st' & E & S).
    exists st'. split; [exact E|]. exact S.
Qed.

(** The parts of the state that hold the registrations *)
Definition registrations (st : State) : JsMap.t AgentInfo * JsMap.t ToolInfo :=
  (agents st, toolRegistry st).

Lemma push_result_registrations (k : string) (r : JsValue) (st : State) :
  registrations (push_result k r st) = registrations st.
Proof. unfold push_result. now destruct (workflows st !! k). Qed.

Lemma completeWorkflow_registrations (k : string) (st : State) :
  registrations (completeWorkflow k st) = registrations st.
Proof. unfold completeWorkflow. now destruct (workflows st !! k). Qed.

Lemma body_registrations (k : string) (st : State) :
  match executeWorkflowStep_body k st with
  | inl st' | inr st' => registrations st' = registrations st
  end.
Proof.
  unfold executeWorkflowStep_body.
  destruct (workflows st !! k) as [w|]; [|apply completeWorkflow_registrations].
  destruct (Js.nullish (steps w)); [reflexivity|].
  destruct (Js.ge_nat _ _) as [[|]|];
    [apply completeWorkflow_registrations | | reflexivity].
  cbv zeta. destruct (Js.nullish _); [reflexivity|].
  destruct (JsMap.get (toolRegistry st) _) as [toolInfo|];
    [|apply push_result_registrations].
  destruct (JsMap.get (agents st) _); [reflexivity | apply push_result_registrations].
Qed.

Lemma fuel_registrations (fuel : nat) (k : string) :
  forall st st', executeWorkflowStep_fuel fuel k st = Some st' ->
  registrations st' = registrations st.
Proof.
  induction fuel as [|fuel IH]; intros st st' E; [discriminate E|].
  simpl in E. pose proof (body_registrations k st) as B.
  destruct (executeWorkflowStep_body k st) as [s|s].
  - injection E as <-. exact B.
  - rewrite (IH _ _ E). exact B.
Qed.

Lemma executeWorkflowStep_registrations (k : string) (st : State) :
  registrations (executeWorkflowStep k st) = registrations st.
Proof.
  unfold executeWorkflowStep.
  destruct (executeWorkflowStep_fuel _ k st) as [st'|] eqn:E; [|reflexivity].
  exact (fuel_registrations _ k st st' E).
Qed.

Lemma broadcastToClients_go_registrations (cs : list (nat * Socket)) (m : JsValue)
    (excludeWs : nat) (st : State) :
  registrations (broadcastToClients_go cs m excludeWs st) = registrations st.
Proof. now rewrite broadcastToClients_go_spec. Qed.

Lemma finish_registrations (ws : nat) (o : Outcome) :
  registrations (finish ws o) = registrations (RegistryFacts.state_of o).
Proof. now destruct o. Qed.

Lemma dispatch_handler_registrations (readFile : string -> string + string)
    (ws : nat) (now : Z) (msg : JsValue) (st : State) :
  key (Js.prop msg "type") <> "register" ->
  registrations (dispatch_handler readFile ws now msg st) = registrations st.
Proof.
  intros Hty. unfold dispatch_handler. cbv zeta.
  destruct (String.eqb _ "register") eqn:E; [apply String.eqb_eq in E; contradiction|].
  destruct (String.eqb _ "tools/list"); [reflexivity|].
  destruct (String.eqb _ "tools/call").
  { rewrite finish_registrations. unfold tools_call.
    destruct (Js.nullish _); [reflexivity|].
    destruct (JsMap.get (toolRegistry st) _) as [toolInfo|]; [|reflexivity].
    destruct (JsMap.get (agents st) _) as [targetAgent|]; [|reflexivity].
    now destruct (_ =? _)%nat. }
  destruct (String.eqb _ "resources/read").
  { rewrite finish_registrations. unfold resources_read.
    destruct (Js.nullish _); [reflexivity|].
    destruct (Js.prop _ "uri"); try reflexivity.
    destruct (negb _); [reflexivity|].
    destruct (Str.startsWith _ _); [|reflexivity].
    now destruct (readFile _). }
  destruct (String.eqb _ "workflow/start").
  { rewrite finish_registrations. unfold workflow_start.
    destruct (Js.nullish _); [reflexivity|].
    cbv zeta. cbn [RegistryFacts.state_of].
    now rewrite executeWorkflowStep_registrations. }
  destruct (String.eqb _ "response").
  { rewrite finish_registrations. unfold response.
    destruct (Js.truthy _); [reflexivity|].
    apply broadcastToClients_go_registrations. }
  destruct (_ && _); [|reflexivity].
  now destruct (JsMap.get _ _).
Qed.

End HubFacts.

(** X14. Registration and routing compose: once an agent has registered, on
    an open socket, an array of tools none of which is null, a tools/call
    that names one of them, from whatever socket, makes the hub send one
    message, to the socket of that agent: a tools/call with the id, the
    name and the arguments of the caller and with the caller's from, or
    "client" when it gave none. *)
Theorem registered_tool_is_routed
    (readFile : string -> string + string) (st : Hub.State) (ws ws' : nat) (now now' : Z)
    (from : string) (tools : list JsValue) (resources tool call params : JsValue)
    (name : string) :
  Hub.readyState st ws = 1%nat ->
  Forall (fun t => Js.nullish t = false) tools ->
  In tool tools -> Js.prop tool "name" = JStr name ->
  Js.prop call "type" = JStr "tools/call" ->
  Js.prop call "params" = params -> Js.nullish params = false ->
  Js.prop params "name" = JStr name ->
  let st1 := Hub.on_message readFile ws now
               (Some (HubFacts.register_message from tools resources)) st in
  exists m,
    Hub.on_message readFile ws' now' (Some call) st1 = Hub.send ws m st1 /\
    Js.prop m "type" = JStr "tools/call" /\
    Js.prop m "id" = Js.prop call "id" /\
    Js.prop m "from" = Js.or (Js.prop call "from") (JStr "client") /\
    Js.prop m "params" = JObj [("name", JStr name); ("arguments", Js.prop params "arguments")].
Proof.
  intros Hopen Hall Hin Hname Htype Hparams Hobj Hpname st1.
  destruct (HubFacts.register_spec readFile ws now from tools resources st Hall)
    as (Hagent & _ & Hsock & _ & Hreg). fold st1 in Hagent, Hsock, Hreg.
  destruct (proj1 (Hreg name)) as (schema & _ & _ & Hget).
  { apply in_map_iff. exists tool. split; [|exact Hin].
    unfold HubFacts.name_key. now rewrite Hname. }
  destruct (HubFacts.readyState_open st ws Hopen) as (s & Hs & Hr).
  rewrite Hs in Hsock. simpl in Hsock.
  rewrite (HubFacts.on_message_tools_call readFile ws' now' call st1 Htype).
  unfold Hub.tools_call. rewrite Hparams, Hobj, Hpname.
  change (Hub.key (JStr name)) with name. rewrite Hget.
  cbn [Hub.t_agentId]. change (Hub.key (JStr from)) with from. rewrite Hagent.
  cbn [Hub.a_ws]. unfold Hub.readyState. rewrite Hsock. cbn [Hub.s_readyState].
  rewrite Hr. cbn [Nat.eqb Hub.finish].
  eexists. split; [reflexivity|]. now repeat split.
Qed.

Lemma registered_tool_is_routed_witness :
  let st := Hub.step Scenario.no_files (Hub.Connection 1) Hub.init in
  let tool := JObj [("name", JStr "calculate")] in
  let params := JObj [("name", JStr "calculate");
                      ("arguments", JObj [("expression", JStr "1 + 1")])] in
  let call := JObj [("type", JStr "tools/call"); ("id", JStr "test-1");
                    ("from", JStr "web-client"); ("params", params)] in
  let st1 := Hub.on_message Scenario.no_files 1 0
               (Some (HubFacts.register_message "calculator-agent" [tool] (JArr []))) st in
  exists m,
    Hub.on_message Scenario.no_files 3 5 (Some call) st1 = Hub.send 1 m st1 /\
    Js.prop m "type" = JStr "tools/call" /\
    Js.prop m "id" = Js.prop call "id" /\
    Js.prop m "from" = Js.or (Js.prop call "from") (JStr "client") /\
    Js.prop m "params"
      = JObj [("name", JStr "calculate"); ("arguments", Js.prop params "arguments")].
Proof.
  intros st tool params call st1.
  apply (registered_tool_is_routed Scenario.no_files st 1 3 0 5 "calculator-agent" [tool]
           (JArr []) tool call params "calculate").
  - reflexivity.
  - constructor; [reflexivity | constructor].
  - now left.
  - reflexivity.
  - reflexivity.
  - reflexivity.
  - reflexivity.
  - reflexivity.
Defined.

(** X15. A response that names no workflow and carries no _responseTarget
    is not returned to the caller of the tool: the hub sends a copy to
    every connected socket that is open, in the order of the client set,
    except the socket the response came from, and changes nothing else. *)
Theorem response_is_broadcast
    (readFile : string -> string + string) (ws : nat) (now : Z) (msg : JsValue)
    (st : Hub.State) :
  Js.prop msg "type" = JStr "response" ->
  Js.truthy (Js.prop msg "_workflowId") = false ->
  Js.truthy (Js.prop msg "_responseTarget") = false ->
  let st' := Hub.on_message readFile ws now (Some msg) st in
  let to := HubFacts.receivers ws (Hub.clients st) in
  Hub.outbox st' = (Hub.outbox st ++ List.map (fun w => (w, msg)) to)%list /\
  (forall w, In w to <->
             w <> ws /\ exists s, In (w, s) (Hub.clients st) /\ Hub.s_readyState s = 1%nat) /\
  Hub.agents st' = Hub.agents st /\ Hub.toolRegistry st' = Hub.toolRegistry st /\
  Hub.workflows st' = Hub.workflows st /\ Hub.clients st' = Hub.clients st.
Proof.
  intros Ht Hw Hr st' to.
  unfold st'. rewrite (HubFacts.on_message_response readFile ws now msg st Ht Hw).
  unfold Hub.response. rewrite Hr. cbn [Hub.finish]. unfold Hub.broadcastToClients.
  rewrite HubFacts.broadcastToClients_go_spec. cbn. fold to.
  split; [reflexivity|]. split; [|now repeat split].
  intros w. unfold to, HubFacts.receivers. rewrite in_map_iff. split.
  - intros ([w' s] & E & Hin). simpl in E. subst w'.
    apply List.filter_In in Hin as [Hin Hb]. simpl in Hb.
    apply andb_true_iff in Hb as [Hne Hopen].
    apply negb_true_iff, Nat.eqb_neq in Hne. apply Nat.eqb_eq in Hopen.
    split; [exact Hne|]. now exists s.
  - intros (Hne & s & Hin & Hopen). exists (w, s). split; [reflexivity|].
    apply List.filter_In. split; [exact Hin|]. simpl.
    apply andb_true_iff. split.
    + now apply negb_true_iff, Nat.eqb_neq.
    + now apply Nat.eqb_eq.
Qed.

Lemma response_is_broadcast_witness :
  let msg := JObj [("type", JStr "response"); ("id", JStr "test-1");
                   ("result", JObj [("success", JBool true)])] in
  let st := Hub.run Scenario.no_files
              [Hub.Connection 1; Hub.Connection 2; Hub.Connection 3; Hub.ReadyState 3 2]
              Hub.init in
  Hub.outbox (Hub.on_message Scenario.no_files 1 0 (Some msg) st) = [(2%nat, msg)].
Proof.
  intros msg st.
  exact (proj1 (response_is_broadcast Scenario.no_files 1 0 msg st eq_refl eq_refl eq_refl)).
Defined.

(** X16. A response that carries a truthy _responseTarget and names no
    workflow is delivered to nobody: the hub answers the sender with the
    INVALID_JSON error and sends nothing else. *)
Theorem response_with_target_is_rejected
    (readFile : string -> string + string) (ws : nat) (now : Z) (msg : JsValue)
    (st : Hub.State) :
  Js.prop msg "type" = JStr "response" ->
  Js.truthy (Js.prop msg "_workflowId") = false ->
  Js.truthy (Js.prop msg "_responseTarget") = true ->
  Hub.on_message readFile ws now (Some msg) st
  = Hub.send ws
      (JObj [("type", JStr "error");
             ("error", JObj [("code", JStr "INVALID_JSON");
                             ("message", JStr "Invalid JSON message")])]) st.
Proof.
  intros Ht Hw Hr.
  rewrite (HubFacts.on_message_response readFile ws now msg st Ht Hw).
  unfold Hub.response. rewrite Hr. reflexivity.
Qed.

Lemma response_with_target_is_rejected_witness :
  let msg := JObj [("type", JStr "response"); ("id", JStr "test-1");
                   ("result", JObj [("success", JBool true)]);
                   ("_responseTarget", JObj [])] in
  Hub.outbox (Hub.on_message Scenario.no_files 1 0 (Some msg)
                (Hub.run Scenario.no_files [Hub.Connection 1; Hub.Connection 2] Hub.init))
  = [(1%nat, JObj [("type", JStr "error");
                   ("error", JObj [("code", JStr "INVALID_JSON");
                                   ("message", JStr "Invalid JSON message")])])].
Proof.
  intros msg.
  rewrite (response_with_target_is_rejected Scenario.no_files 1 0 msg _
             eq_refl eq_refl eq_refl).
  reflexivity.
Defined.

(** X17. An agent that registers again on the same socket under another
    name leaves its first registration behind: the socket remembers the
    last name only, so when it closes the hub removes nothing of the first
    registration. The first name stays in the agent map, each of its tools
    that the second registration did not name stays in the registry, and a
    tools/call for such a tool is answered with AGENT_UNAVAILABLE. *)
Theorem renamed_agent_outlives_its_socket
    (readFile : string -> string + string) (st : Hub.State) (ws : nat) (now now' : Z)
    (a b : string) (ta tb : list JsValue) (ra rb : JsValue) :
  a <> b ->
  Forall (fun t => Js.nullish t = false) ta ->
  Forall (fun t => Js.nullish t = false) tb ->
  let st3 :=
    Hub.run readFile
      [Hub.Message ws now (Some (HubFacts.register_message a ta ra));
       Hub.Message ws now' (Some (HubFacts.register_message b tb rb));
       Hub.Close ws] st in
  JsMap.get (Hub.agents st3) a = Some (Hub.mkAgent ws (JArr ta) (Js.or ra (JArr [])) now) /\
  Hub.readyState st3 ws = 3%nat /\
  forall tool name,
    In tool ta -> Js.prop tool "name" = JStr name ->
    ~ In name (List.map HubFacts.name_key tb) ->
    (exists schema, JsMap.get (Hub.toolRegistry st3) name = Some (Hub.mkTool (JStr a) schema)) /\
    forall ws' now'' call,
      Js.prop call "type" = JStr "tools/call" ->
      Js.nullish (Js.prop call "params") = false ->
      Js.prop (Js.prop call "params") "name" = JStr name ->
      Hub.on_message readFile ws' now'' (Some call) st3
      = Hub.send ws' (Hub.error_msg (Js.prop call "id") "AGENT_UNAVAILABLE"
                        ("Agent " +:+ a +:+ " unavailable")) st3.
Proof.
  intros Hab Hta Htb st3.
  set (st1 := Hub.on_message readFile ws now (Some (HubFacts.register_message a ta ra)) st).
  set (st2 := Hub.on_message readFile ws now' (Some (HubFacts.register_message b tb rb)) st1).
  assert (E3 : st3 = Hub.on_close ws st2) by reflexivity.
  destruct (HubFacts.register_spec readFile ws now a ta ra st Hta)
    as (Ha1 & _ & _ & _ & Hreg1). fold st1 in Ha1, Hreg1.
  destruct (HubFacts.register_spec readFile ws now' b tb rb st1 Htb)
    as (Hb2 & Hother2 & Hsock2 & _ & Hreg2). fold st2 in Hb2, Hother2, Hsock2, Hreg2.
  assert (Ha2 : JsMap.get (Hub.agents st2) a
                = Some (Hub.mkAgent ws (JArr ta) (Js.or ra (JArr [])) now)).
  { rewrite Hother2 by exact Hab. exact Ha1. }
  (* the state after the close handler *)
  assert (Hclose :
    Hub.clients st3 = filter (fun p => fst p <> ws) (Hub.clients st2) /\
    JsMap.get (Hub.agents st3) a = JsMap.get (Hub.agents st2) a /\
    forall k, ~ In k (List.map HubFacts.name_key tb) ->
              JsMap.get (Hub.toolRegistry st3) k = JsMap.get (Hub.toolRegistry st2) k).
  { rewrite E3. unfold Hub.on_close. cbv zeta.
    destruct (Js.truthy _) eqn:Htruthy; [|now repeat split].
    destruct (Hub.socket (Hub.clients st2) ws) as [s2|] eqn:Hs2; [|discriminate Htruthy].
    destruct (Hub.socket (Hub.clients st1) ws) as [s1|]; [|discriminate Hsock2].
    injection Hsock2 as ->. cbn [Hub.s_agentId].
    change (Hub.key (JStr b)) with b.
    change (Hub.agents (Hub.set_clients _ st2)) with (Hub.agents st2).
    rewrite Hb2. cbn [Hub.a_tools].
    match goal with
    | |- context [Hub.unregister_tools tb ?s] =>
        pose proof (RegistryFacts.unregister_tools_frame tb s) as Hframe;
        destruct (HubFacts.unregister_tools_spec tb Htb s) as (st' & E & S)
    end.
    rewrite E in *. cbn [RegistryFacts.state_of] in Hframe.
    destruct S as (A1 & A2 & A3 & A4 & A5).
    cbn [Hub.clients Hub.agents Hub.toolRegistry Hub.set_agents].
    rewrite A1, A3. cbn [Hub.clients Hub.agents Hub.set_clients].
    split; [reflexivity|]. split.
    - apply JsMap.get_delete_ne. intros Eq. apply Hab. symmetry. exact Eq.
    - intros k Hk. rewrite Hframe; [reflexivity|].
      intros t Ht Eq. apply Hk. apply in_map_iff. exists t. now split. }
  destruct Hclose as (Hc3 & Ha3 & Hr3).
  assert (Hready : Hub.readyState st3 ws = 3%nat).
  { unfold Hub.readyState. rewrite Hc3, HubFacts.socket_closed. reflexivity. }
  split; [now rewrite Ha3|]. split; [exact Hready|].
  intros tool name Hin Hname Hnot.
  assert (Hget : exists schema,
             JsMap.get (Hub.toolRegistry st3) name = Some (Hub.mkTool (JStr a) schema)).
  { destruct (proj1 (Hreg1 name)) as (schema & _ & _ & Hget).
    { apply in_map_iff. exists tool. split; [|exact Hin].
      unfold HubFacts.name_key. now rewrite Hname. }
    exists schema. rewrite (Hr3 name Hnot), (proj2 (Hreg2 name) Hnot). exact Hget. }
  split; [exact Hget|].
  intros ws' now'' call Htype Hobj Hpname. destruct Hget as (schema & Hget).
  rewrite (HubFacts.on_message_tools_call readFile ws' now'' call st3 Htype).
  unfold Hub.tools_call. rewrite Hobj, Hpname.
  change (Hub.key (JStr name)) with name. rewrite Hget.
  cbn [Hub.t_agentId]. change (Hub.key (JStr a)) with a. rewrite Ha3, Ha2.
  cbn [Hub.a_ws]. rewrite Hready. reflexivity.
Qed.

Lemma renamed_agent_outlives_its_socket_witness :
  let tool := JObj [("name", JStr "calculate")] in
  let st3 :=
    Hub.run Scenario.no_files
      [Hub.Message 1 0 (Some (HubFacts.register_message "calculator-agent" [tool] (JArr [])));
       Hub.Message 1 5 (Some (HubFacts.register_message "calculator-2" [] (JArr [])));
       Hub.Close 1]
      (Hub.step Scenario.no_files (Hub.Connection 1) Hub.init) in
  JsMap.get (Hub.agents st3) "calculator-agent"
  = Some (Hub.mkAgent 1 (JArr [tool]) (JArr []) 0).
Proof.
  intros tool st3.
  refine (proj1 (renamed_agent_outlives_its_socket Scenario.no_files
                   (Hub.step Scenario.no_files (Hub.Connection 1) Hub.init) 1 0 5
                   "calculator-agent" "calculator-2" [tool] [] (JArr []) (JArr []) _ _ _)).
  - discriminate.
  - constructor; [reflexivity | constructor].
  - constructor.
Defined.

(** X18. The agent map and the tool registry change only when an agent
    registers or a socket closes: no other event (a connection, a tools/list,
    tools/call, resources/read or workflow/start request, a response, a
    workflow step answer, an unknown or unparsable message) changes either
    of them. *)
Theorem registrations_change_only_on_register_or_close
    (readFile : string -> string + string) (ev : Hub.Event) (st : Hub.State) :
  (forall ws, ev <> Hub.Close ws) ->
  (forall ws now msg, ev = Hub.Message ws now (Some msg) ->
                      Hub.key (Js.prop msg "type") <> "register") ->
  Hub.agents (Hub.step readFile ev st) = Hub.agents st /\
  Hub.toolRegistry (Hub.step readFile ev st) = Hub.toolRegistry st.
Proof.
  intros Hclose Hreg.
  enough (E : HubFacts.registrations (Hub.step readFile ev st) = HubFacts.registrations st).
  { unfold HubFacts.registrations in E. now injection E. }
  destruct ev as [ws | ws now raw | ws n | ws | ms]; try reflexivity.
  - simpl. unfold Hub.on_message. destruct raw as [msg|]; [|reflexivity].
    destruct (Js.nullish msg); [reflexivity|].
    destruct (if Hub.routed msg then _ else _) as [k|].
    + rewrite HubFacts.executeWorkflowStep_registrations.
      apply HubFacts.push_result_registrations.
    + apply HubFacts.dispatch_handler_registrations. exact (Hreg ws now msg eq_refl).
  - now destruct (Hclose ws).
Qed.

Lemma registrations_change_only_on_register_or_close_witness :
  let st := Scenario.hub_with_calculator in
  let ev := Hub.Message 3 7 (Some (Scenario.start_msg "w" [Scenario.calculate_step])) in
  Hub.agents (Hub.step Scenario.no_files ev st) = Hub.agents st /\
  Hub.toolRegistry (Hub.step Scenario.no_files ev st) = Hub.toolRegistry st.
Proof.
  intros st ev.
  apply (registrations_change_only_on_register_or_close Scenario.no_files ev st).
  - intros ws. discriminate.
  - intros ws now msg [= _ _ <-]. vm_compute. discriminate.
Defined.
